(* ===== verification/_CoqProject ===== *)
-Q . S2P
Prelude.v
Types.v
GoBinary.v
Patch.v
Lcs.v
LcsFacts.v
LcsSearch.v
LcsTwoSided.v
Kv.v
Mdb.v
MdbFacts.v
MdbKeys.v
Db.v
DbFacts.v
DbLease.v
DbKv.v
ModStore.v
Frame.v
LeaseFacts.v
History.v
DbKvRead.v
DbKvWrite.v
DbKvRange.v
DbKvDelete.v
Pb.v
GrpcErrors.v
ModCopies.v
Config.v
StateMachine.v
RangeQuery.v
Update.v
ModMain.v
SmFrame.v
ModSlices.v
ModAgree.v
ModRead.v
SmMeta.v
LeaseOps.v
LeaseInv.v
LeaseGrant.v
SmOps.v
TxnRun.v
LeaseExpire.v
Events.v
Compact.v
ModFacts.v
Instances.v
Watch.v
ModStream.v
WatchFacts.v
ModNotice.v
ModWatch.v
Wire.v
WireFacts.v
WireRef.v
SvcGrpc.v
SvcFacts.v
SvcTypes.v
SvcCompose.v
Endpoint.v
WatchRun.v
Services.v
ShardSm.v
Controller.v
ServiceWatch.v
KvProps.v
StoreProps.v
LeaseProps.v
SmProps.v
WatchProps.v
ServiceProps.v
ModProps.v
SvcProps.v
Findings.v
