(* ===== verification/Prelude.v ===== *)
(** * Turbokube: a verification library

    Turbokube (src/) is an etcd-compatible store for Kubernetes. A shard is a raft group;
    each replica applies the log to an LMDB environment. The parts, from the bottom:

    - the encodings of stored data: key revisions, index records and values with their
      checksums (src/kv.go, src/crc.go), binary patches between versions of a value
      (src/internal/patch) and the search for their edit script (src/internal/patch/lcs);
    - the tables: checksummed metadata (src/db.go, src/db_meta.go), leases, their expiry
      and their keys (src/db_lease*.go), the revisioned store with its event log
      (src/db_kv.go);
    - the replicated state machine that applies commands, answers queries and feeds
      watches (src/state_machine.go);
    - the gRPC services that turn requests into commands and queries (src/service_*.go,
      src/internal/error.go), the controller that sends the ticks that expire leases
      (src/controller.go) and the plain HTTP endpoint (src/endpoint_handler.go);
    - two modules for a wasm host, a second implementation of the same system: the storage
      module (src/module/storage-kv) applies the commands, the gRPC module
      (src/module/service-grpc) serves the clients; they exchange marshalled messages.

    ** Where each part is modelled

    - [Types], [GoBinary]: constants, flags, errors (src/types.go); varints, big-endian
      integers and CRC-32 of Go's standard library, computed.
    - [Patch], [Lcs]; proofs in [LcsFacts], [LcsSearch], [LcsTwoSided].
    - [Kv]: src/kv.go, src/crc.go. The snappy compressor is the class [Snappy].
    - [Mdb]: LMDB as the class [Mdb] of operations with the laws [MdbOk] on sorted tables,
      and of nested transactions, and the reference instance [refMdb]; [MdbFacts],
      [MdbKeys]: cursor moves.
    - [Db], [DbLease], [DbKv]: src/db.go, db_meta.go, db_lease*.go, db_kv.go, one definition
      per method. [Frame]: which tables each may write.
    - [History]: the abstract store, each key's records newest first, and [Rep], that the
      tables hold it. [DbKvRead], [DbKvWrite], [DbKvRange], [DbKvDelete], [Compact]: the
      operations implement it. [Events]: the event log as a list, and its scan.
    - [Pb], [GrpcErrors]: messages (the generated codec is the class [Proto]), errors.
    - [StateMachine] (the [cmd*] and [query*] functions), [Update] ([Update], [Open],
      [Query]). [SmFrame], [SmMeta]: metadata. [LeaseOps], [LeaseInv], [LeaseGrant], [SmOps]:
      leases and keys stay consistent; put and delete entries. [RangeQuery]: a range request
      answered from the history; [TxnRun]: a transaction as a run of its operations on the
      history; [LeaseExpire]: the walk over the expiry index that a tick makes.
    - [Watch]: [watch] and [Stream] of src/state_machine.go; [WatchFacts], [WatchRun]: a
      watch interleaved with the writer.
    - [Services], [ServiceWatch], [Controller]: over the class [ShardClient]; [ShardSm] is
      an instance of it that is the state machine itself.
    - [ModStore], [ModMain]: the storage module for a wasm host (src/module/storage-kv:
      kv_store.go, main.go), a second program over the same tables. What it shares with the
      native code is named as what it equals; its compaction, scans, error handling and
      batch protocol (update per entry, finish) are its own, and so are [getRev] and
      [deleteRange], which pass the host slices that are still in use: whether and when the
      host writes into a slice is the class [HostSlices]. [ModSlices]: when that does no
      harm; [ModFacts]: compaction and scans; [ModAgree]: the module's cases follow the
      native ones; [ModRead]: range requests read by both.
    - [ModStream]: the module's watch streams (stream.go); the host's range-watch service is
      the class [RangeWatch]. [ModNotice], [ModWatch]: what notices and scans send.
    - [Wire]: the messages of the modules and their generated codec
      (src/module/service-grpc/internal), over the runtime, the class [WireLib];
      [WireFacts]: sizes, reading back, termination; [WireRef]: protobuf's encoding as an
      instance.
    - [SvcGrpc]: the gRPC module, all its handlers; the host's event buffers are the class
      [BufferSet]. [SvcFacts]: what its watches are sent; [SvcTypes]: its variables keep
      their types; [SvcCompose]: the messages of the storage module received by it.
    - [ModCopies]: the storage module's second copies of the encodings, patches, edit-script
      search, lease tables and errors, each named as the native definition whose text it
      repeats, and what differs written out. [Config]: the configuration of the binaries
      (src/cmd) and the paths made from it.
    - [Endpoint]: the HTTP paths of both programs.
    - [Instances]: concrete instances of all interfaces, for witnesses.

    ** How code becomes definitions

    A fallible Go function returns [res]: a value, an error, a panic, or [NoFuel]. A
    transaction is passed along as a value; what a function returns beside its error, and
    what a named result still holds when it fails, is kept where a caller can see it.
    Integers are [Z] with [u64] and [i64] where Go wraps. A nil slice is told from an empty
    one ([nslice]) where the code tells them apart. Loops over tables take fuel: a table
    holds finitely many entries and each turn moves the cursor on, so one more than the
    number of entries is enough; the theorems ask for that much ([length ks < fuel],
    [length (M k) < fuel], [length E < fuel]) and prove that the code returns. The order in
    which Go ranges over a map is a parameter, any permutation. Goroutines of a watch are
    segments between points where another transaction may commit, run in any order.

    ** What the theorems show

    - [KvProps]: revisions, records, values and patches read back; records sort newest
      first; the edit-script search ends and is right; entries fit the engine's limits;
      what a checksum guarantees; two limits of the encoding.
    - [StoreProps]: put, get, range and delete refine the history; writes keep the past.
    - [LeaseProps]: keys and leases stay attached as the values say; revoke, grant,
      keep-alive; the batch equals its single commands.
    - [SmProps]: entries refine the history one revision at a time; a transaction entry is the run
      of its operations on the history, all or nothing; a tick revokes the leases that are
      due and leaves no other key changed; metadata never goes back; stale terms are refused; opening.
    - [WatchProps]: every selected event once and in order in every interleaving; catching
      up after an alert; the forwarder loses nothing; id allocation ends.
    - [ServiceProps]: compaction keeps reads; the put service end to end; error mapping;
      a controller that does not lead is silent.
    - [ModProps]: the storage module and the native state machine agree on batches whose
      deletes name single keys; its compaction is bounded and keeps reads; its notices
      become the wanted events, and a starting watch is handed over from its scans to the
      notices without gap or repeat, where old values are read right ([ModSlices]).
    - [SvcProps]: the generated codec reads back what it wrote and always returns; the
      gRPC module answers every call, loses no event, keeps its variables' types; a put, a
      read, a notice and a starting watch go from the storage module through the gRPC module to the
      client as the abstract store says.
    - [ModCopies]: the module's [ToProto] and [Error] answer as the native ones; it starts
      only on an environment that numbers its tables as declared. [Config]: host tags are
      trimmed and read back; no two replicas of a host share a directory.
    - [Findings]: computed runs in which the program does something unexpected.

    ** Not modelled

    LMDB, snappy, raft, the shard client, the host's range-watch service and buffers, the
    runtime of the generated code and the native program's codec are not in the repository:
    they are interfaces. The interval tree of watches is a parameter of [Update]. Logging
    and its counters, snapshots (which copy the data file), Sync and Close do input and
    output only; beyond their configuration the binaries wire libraries together (agent,
    servers, wasm runtimes, signals); native handlers with an empty body have nothing to
    model; the zig module is not Go. In the runs of a watch ([WatchRun]) commits only add
    events: a compaction between two of its segments is left out. *)

From stdpp Require Export base tactics list numbers option sets.
From Stdlib Require Export ZArith Lia Sorting.Sorted.
From Stdlib Require Import Strings.Byte.

#[global] Open Scope Z_scope.

(** ** Bytes

    A Go [byte] is a [Byte.byte]; [bZ] and [Zb] are the conversions
    [uint64(b)] and [byte(z)] (which keeps the low eight bits). *)

Abbreviation byte := Init.Byte.byte.
Abbreviation bytes := (list byte).

Definition bZ (b : byte) : Z := Z.of_N (Byte.to_N b).

Definition Zb (z : Z) : byte :=
  match Byte.of_N (Z.to_N (z mod 256)) with
  | Some b => b
  | None => Byte.x00
  end.

#[global] Instance byte_eq_dec : EqDecision byte.
Proof. intros x y. destruct (Byte.byte_eq_dec x y) as [H|H]; [left|right]; exact H. Defined.

Lemma bZ_range (b : byte) : 0 <= bZ b < 256.
Proof. unfold bZ. pose proof (Byte.to_N_bounded b). lia. Qed.

Lemma bZ_Zb (z : Z) : bZ (Zb z) = z mod 256.
Proof.
  unfold bZ, Zb. pose proof (Z.mod_pos_bound z 256 eq_refl).
  destruct (Byte.of_N (Z.to_N (z mod 256))) as [b|] eqn:E.
  - apply Byte.to_of_N in E. rewrite E. lia.
  - apply Byte.of_N_None_iff in E. lia.
Qed.

Lemma bZ_inj (a b : byte) : bZ a = bZ b -> a = b.
Proof.
  unfold bZ. intros H. apply N2Z.inj in H.
  pose proof (Byte.of_to_N a). pose proof (Byte.of_to_N b). congruence.
Qed.

Lemma Zb_bZ (b : byte) : Zb (bZ b) = b.
Proof.
  apply bZ_inj. rewrite bZ_Zb. apply Z.mod_small, bZ_range.
Qed.

(** Length of a byte slice as the Go [int] it is. *)
Definition blen {A} (l : list A) : Z := Z.of_nat (length l).

Lemma blen_nonneg {A} (l : list A) : 0 <= blen l.
Proof. unfold blen. lia. Qed.

Lemma blen_app {A} (a b : list A) : blen (a ++ b) = blen a + blen b.
Proof. unfold blen. rewrite length_app. lia. Qed.

Lemma blen_cons {A} (x : A) (l : list A) : blen (x :: l) = 1 + blen l.
Proof. unfold blen. simpl length. lia. Qed.

Lemma blen_nil {A} : blen (@nil A) = 0.
Proof. reflexivity. Qed.

Lemma blen_zero_inv {A} (l : list A) : blen l = 0 -> l = [].
Proof. destruct l; [done|]. rewrite blen_cons. pose proof (blen_nonneg l). lia. Qed.

(** ** Machine integers

    Go's [uint64] and [int64] conversions: [u64 z] is [uint64(z)] and
    [i64 z] is [int64(z)], both wrapping modulo [2^64]. *)

Definition u64 (z : Z) : Z := z mod 2 ^ 64.
Definition i64 (z : Z) : Z := (z + 2 ^ 63) mod 2 ^ 64 - 2 ^ 63.
Definition is_u64 (z : Z) : Prop := 0 <= z < 2 ^ 64.
Definition is_i64 (z : Z) : Prop := - 2 ^ 63 <= z < 2 ^ 63.

Lemma u64_range z : is_u64 (u64 z).
Proof. unfold is_u64, u64. apply Z.mod_pos_bound. lia. Qed.

Lemma u64_id z : is_u64 z -> u64 z = z.
Proof. intros H. apply Z.mod_small. exact H. Qed.

Lemma i64_range z : is_i64 (i64 z).
Proof.
  unfold is_i64, i64. pose proof (Z.mod_pos_bound (z + 2 ^ 63) (2 ^ 64) eq_refl). lia.
Qed.

Lemma i64_id z : is_i64 z -> i64 z = z.
Proof. unfold is_i64, i64. intros H. rewrite Z.mod_small; lia. Qed.

Lemma i64_u64 z : is_i64 z -> i64 (u64 z) = z.
Proof.
  intros H. rewrite <- (i64_id z H) at 2. unfold i64, u64.
  rewrite Zplus_mod_idemp_l. reflexivity.
Qed.

Lemma u64_i64 z : is_u64 z -> u64 (i64 z) = z.
Proof.
  intros H. rewrite <- (u64_id z H) at 2. unfold i64, u64.
  rewrite Zminus_mod_idemp_l. f_equal. lia.
Qed.

(** ** Development-wide hint databases and tactics *)

Create HintDb go discriminated.
Create Rewrite HintDb gobytes.

#[export] Hint Rewrite @blen_app @blen_cons @blen_nil : gobytes.
#[export] Hint Resolve @blen_nonneg bZ_range u64_range i64_range : go.

(** Normalise lengths of concrete concatenations and close by [lia]. *)
Ltac blia :=
  autorewrite with gobytes in *;
  repeat match goal with
    | |- context [blen ?l] =>
        lazymatch goal with
        | _ : 0 <= blen l |- _ => fail
        | _ => pose proof (blen_nonneg l)
        end
    | _ : context [blen ?l] |- _ =>
        lazymatch goal with
        | _ : 0 <= blen l |- _ => fail
        | _ => pose proof (blen_nonneg l)
        end
    end; lia.

(** Case on the boolean comparisons of a goal, as facts over [Z]. *)
Ltac zcases :=
  repeat match goal with
    | |- context [Z.eqb ?a ?b] => destruct (Z.eqb_spec a b)
    | |- context [Z.ltb ?a ?b] => destruct (Z.ltb_spec a b)
    | |- context [Z.leb ?a ?b] => destruct (Z.leb_spec a b)
    end.

(** ** Lexicographic order on byte strings: Go's [bytes.Compare] *)

Fixpoint bcompare (a b : bytes) : comparison :=
  match a, b with
  | [], [] => Eq
  | [], _ :: _ => Lt
  | _ :: _, [] => Gt
  | x :: a', y :: b' =>
      match bZ x ?= bZ y with
      | Eq => bcompare a' b'
      | c => c
      end
  end.

Definition blt (a b : bytes) : Prop := bcompare a b = Lt.
Definition bltb (a b : bytes) : bool :=
  match bcompare a b with Lt => true | _ => false end.
Definition beqb (a b : bytes) : bool :=
  match bcompare a b with Eq => true | _ => false end.

Lemma bcompare_refl a : bcompare a a = Eq.
Proof. induction a; simpl; [done|]. by rewrite Z.compare_refl. Qed.

Lemma bcompare_eq a b : bcompare a b = Eq -> a = b.
Proof.
  revert b. induction a as [|x a IH]; intros [|y b]; simpl; try done.
  destruct (Z.compare_spec (bZ x) (bZ y)) as [E|E|E]; try done.
  intros H. f_equal; [by apply bZ_inj|auto].
Qed.

Lemma bcompare_antisym a b : bcompare b a = CompOpp (bcompare a b).
Proof.
  revert b. induction a as [|x a IH]; intros [|y b]; simpl; try done.
  rewrite (Z.compare_antisym (bZ x) (bZ y)).
  destruct (bZ x ?= bZ y); simpl; auto.
Qed.

Lemma blt_irrefl a : ~ blt a a.
Proof. unfold blt. rewrite bcompare_refl. done. Qed.

Lemma blt_trans a b c : blt a b -> blt b c -> blt a c.
Proof.
  unfold blt. revert b c.
  induction a as [|x a IH]; intros [|y b] [|z c]; simpl; try done.
  destruct (Z.compare_spec (bZ x) (bZ y)) as [E|E|E]; try done;
    destruct (Z.compare_spec (bZ y) (bZ z)) as [F|F|F]; try done; intros H1 H2.
  - rewrite E, F, Z.compare_refl. eauto.
  - rewrite E, (proj2 (Z.compare_lt_iff _ _) F). done.
  - rewrite <- F, (proj2 (Z.compare_lt_iff _ _) E). done.
  - rewrite (proj2 (Z.compare_lt_iff _ _)); [done|lia].
Qed.

Lemma blt_total a b : blt a b \/ a = b \/ blt b a.
Proof.
  unfold blt. rewrite (bcompare_antisym a b).
  destruct (bcompare a b) eqn:E; simpl; auto using bcompare_eq.
Qed.

Lemma bcompare_gt a b : bcompare a b = Gt <-> blt b a.
Proof.
  unfold blt. rewrite (bcompare_antisym a b). destruct (bcompare a b); simpl; split; congruence.
Qed.

Lemma bltb_spec a b : reflect (blt a b) (bltb a b).
Proof. unfold bltb, blt. destruct (bcompare a b); constructor; congruence. Qed.

Lemma beqb_spec a b : reflect (a = b) (beqb a b).
Proof.
  unfold beqb. destruct (bcompare a b) eqn:E; constructor.
  - by apply bcompare_eq.
  - intros ->. by rewrite bcompare_refl in E.
  - intros ->. by rewrite bcompare_refl in E.
Qed.

Lemma beqb_refl a : beqb a a = true.
Proof. unfold beqb. by rewrite bcompare_refl. Qed.

#[global] Instance blt_dec a b : Decision (blt a b).
Proof. unfold blt. apply _. Defined.

#[global] Instance blt_strict : StrictOrder blt.
Proof. split; [exact blt_irrefl|exact blt_trans]. Qed.

Lemma bcompare_app_l p a b : bcompare (p ++ a) (p ++ b) = bcompare a b.
Proof. induction p; simpl; [done|]. by rewrite Z.compare_refl. Qed.

(** Two strings that differ already in prefixes of equal length compare as
    the prefixes do, whatever follows. *)
Lemma blt_app_prefix p q a b : length p = length q -> blt p q -> blt (p ++ a) (q ++ b).
Proof.
  unfold blt. revert q. induction p as [|x p IH]; intros [|y q]; simpl; try done.
  intros L. destruct (bZ x ?= bZ y); auto.
Qed.

#[export] Hint Resolve blt_irrefl blt_trans : go.

(** ** Lists *)

Lemma filter_none {A} (P : A -> Prop) `{forall x, Decision (P x)} (l : list A) :
  (forall x, x ∈ l -> ~ P x) -> filter P l = [].
Proof.
  induction l as [|x l IH]; intros Hn; [done|].
  rewrite filter_cons_False by (apply Hn; constructor). apply IH. intros y Hy. apply Hn. by constructor.
Qed.

Lemma filter_all {A} (P : A -> Prop) `{forall x, Decision (P x)} (l : list A) :
  (forall x, x ∈ l -> P x) -> filter P l = l.
Proof.
  induction l as [|x l IH]; intros Hn; [done|].
  rewrite filter_cons_True by (apply Hn; constructor). f_equal. apply IH. intros y Hy. apply Hn. by constructor.
Qed.
