(* ===== verification/Types.v ===== *)
(** * Constants, flags, errors and results (src/types.go, src/internal/error.go) *)

From S2P Require Import Prelude.

(** ** Errors

    One constructor per error value the modelled code returns: the sentinels
    of src/types.go, the gRPC statuses of src/internal/error.go, the patch
    package's [ErrCorrupt], the errors of Go's [encoding/binary] and [io],
    LMDB's not-found error and its other codes, and snappy's. *)

Inductive error : Type :=
| ErrChecksumInvalid | ErrChecksumMissing | ErrValueInvalid | ErrPatchInvalid
| ErrKeyInvalid | ErrKeyMissing | ErrLeaseKeyInvalid | ErrNotFound | ErrTermExpired
| ErrCorrupt
| ErrGRPCKeyTooLong | ErrGRPCEmptyKey | ErrGRPCValueProvided | ErrGRPCLeaseProvided
| ErrGRPCDuplicateKey | ErrGRPCCompacted | ErrGRPCFutureRev
| ErrGRPCLeaseNotFound | ErrGRPCLeaseExist
| ErrEOF | ErrUnexpectedEOF | ErrVarintOverflow
| ErrMdbNotFound | ErrMdb (code : Z)
| ErrSnappy (code : Z).

#[global] Instance error_eq_dec : EqDecision error.
Proof. solve_decision. Defined.

(** ** Outcomes of a Go call

    [Ok] and [Err] are the two shapes of a [(value, error)] return; [Panic] is
    a Go runtime panic (an index out of range), which no caller recovers;
    [NoFuel] means that the iteration bound given to a loop was too small and
    is never produced by the program itself. *)

Inductive res (A : Type) : Type :=
| Ok (a : A)
| Err (e : error)
| Panic
| NoFuel.
Arguments Ok {A} a.
Arguments Err {A} e.
Arguments Panic {A}.
Arguments NoFuel {A}.

Definition rbind {A B} (m : res A) (f : A -> res B) : res B :=
  match m with
  | Ok a => f a
  | Err e => Err e
  | Panic => Panic
  | NoFuel => NoFuel
  end.

Declare Scope go_scope.
Delimit Scope go_scope with go.
#[global] Open Scope go_scope.

Notation "'let!' x := c1 'in' c2" := (rbind c1 (fun x => c2))
  (at level 10, x ident, c1 at level 100, c2 at level 200) : go_scope.
Notation "'let!' ' pat := c1 'in' c2" := (rbind c1 (fun x => match x with pat => c2 end))
  (at level 10, pat pattern, c1 at level 100, c2 at level 200) : go_scope.

(** [err != nil] for an error carried next to a value. *)
Definition isErr (e : option error) : bool :=
  match e with None => false | Some _ => true end.

(** [lmdb.IsNotFound(err)] on an outcome. *)
Definition isNotFound {A} (r : res A) : bool :=
  match r with Err ErrMdbNotFound => true | _ => false end.

Lemma Ok_inj {A} (a b : A) : Ok a = Ok b -> a = b.
Proof. congruence. Qed.

Lemma rbind_ok {A B} (m : res A) (f : A -> res B) b :
  rbind m f = Ok b <-> exists a, m = Ok a /\ f a = Ok b.
Proof.
  split.
  - destruct m; simpl; try done. eauto.
  - intros (a & -> & H). exact H.
Qed.

(** ** Slicing: [b[i:j]] panics outside [0 <= i <= j <= len(b)]. *)

Definition slice {A} (b : list A) (i j : Z) : res (list A) :=
  if (0 <=? i) && (i <=? j) && (j <=? blen b)
  then Ok (take (Z.to_nat (j - i)) (drop (Z.to_nat i) b))
  else Panic.

Lemma slice_ok {A} (b : list A) i j :
  0 <= i <= j -> j <= blen b -> slice b i j = Ok (take (Z.to_nat (j - i)) (drop (Z.to_nat i) b)).
Proof. intros. unfold slice. zcases; simpl; try lia. done. Qed.

(** ** Nilable byte slices

    Where the code distinguishes a nil [[]byte] from an empty one, a slice is
    an [option bytes] ([None] is nil); [append(s, b...)] of nothing keeps nil. *)

Abbreviation nslice := (option bytes).

Definition sbytes (s : nslice) : bytes := default [] s.

Definition sappend (s : nslice) (b : bytes) : nslice :=
  match b with [] => s | _ => Some (sbytes s ++ b) end.

Lemma sbytes_sappend s b : sbytes (sappend s b) = sbytes s ++ b.
Proof. destruct b; simpl; [by rewrite app_nil_r|done]. Qed.

(** ** Constants *)

Definition KV_FLAG_PATCH : Z := 1.
Definition KV_FLAG_COMPRESSED : Z := 2.

Definition limitCompactionMaxKeys : Z := 1000.
Definition PCB_TXN_OPS_LIMIT : Z := 1024.
Definition PCB_LIMIT_KEY_LENGTH : Z := 480.

(** ** Runtime flags: the package variables a test or the host may change. *)

Record config : Type := Config {
  PCB_RANGE_COUNT_FULL : bool;
  PCB_RANGE_COUNT_FAKE : bool;
  PCB_PATCH_ENABLED : bool;
  PCB_COMPRESSION_ENABLED : bool;
  PCB_TXN_MULTI_WRITE_ENABLED : bool;
  PCB_WATCH_ID_ZERO_INDEX : bool;
  PCB_READ_LOCAL : bool;
  PCB_BATCH_LEASE_RENEWAL : bool;
  PCB_RESPONSE_SIZE_MAX : Z
}.

Definition defaultConfig : config :=
  {| PCB_RANGE_COUNT_FULL := true;
     PCB_RANGE_COUNT_FAKE := false;
     PCB_PATCH_ENABLED := true;
     PCB_COMPRESSION_ENABLED := true;
     PCB_TXN_MULTI_WRITE_ENABLED := false;
     PCB_WATCH_ID_ZERO_INDEX := false;
     PCB_READ_LOCAL := true;
     PCB_BATCH_LEASE_RENEWAL := true;
     PCB_RESPONSE_SIZE_MAX := 10 * 1024 * 1024 |}.
