(* ===== verification/GoBinary.v ===== *)
(** * Go's encoding/binary and hash/crc32, as the program uses them

    Unsigned varints ([AppendUvarint], [Uvarint], [ReadUvarint]), big-endian
    integers ([AppendUint64], [Uint64], [AppendUint32], [Uint32]) and the IEEE
    CRC-32, with the lemmas the codecs of the program rest on: decoding is a
    left inverse of encoding, and big-endian encoding preserves order. *)

From S2P Require Import Prelude Types.

(** ** Unsigned varints *)

Definition MaxVarintLen64 : nat := 10.

Fixpoint put_uvarint (fuel : nat) (v : Z) : bytes :=
  match fuel with
  | O => []
  | S f => if v <? 128 then [Zb v] else Zb (v mod 128 + 128) :: put_uvarint f (v / 128)
  end.

Definition uvarint (v : Z) : bytes := put_uvarint MaxVarintLen64 v.

Definition AppendUvarint (buf : bytes) (v : Z) : bytes := buf ++ uvarint v.

(** [Uvarint] returns the value and the number of bytes read: 0 when the buffer
    is too small, negative on overflow. *)
Fixpoint get_uvarint (i : nat) (x : Z) (buf : bytes) : Z * Z :=
  match buf with
  | [] => (0, 0)
  | b :: buf' =>
      if Nat.eqb i MaxVarintLen64 then (0, - (Z.of_nat i + 1))
      else if bZ b <? 128 then
        if Nat.eqb i 9 && (1 <? bZ b) then (0, - (Z.of_nat i + 1))
        else (x + bZ b * 2 ^ (7 * Z.of_nat i), Z.of_nat i + 1)
      else get_uvarint (S i) (x + (bZ b mod 128) * 2 ^ (7 * Z.of_nat i)) buf'
  end.

Definition Uvarint (buf : bytes) : Z * Z := get_uvarint 0 0 buf.

(** [ReadUvarint] on a reader: the value accumulated so far, the unread rest and
    the error, if any (Go returns all three: on an error the value is what was
    read until then). *)
Fixpoint read_uvarint (fuel i : nat) (x : Z) (r : bytes) : Z * bytes * option error :=
  match fuel with
  | O => (x, r, Some ErrVarintOverflow)
  | S f =>
      match r with
      | [] => (x, [], Some (if Nat.eqb i 0 then ErrEOF else ErrUnexpectedEOF))
      | b :: r' =>
          if bZ b <? 128 then
            if Nat.eqb i 9 && (1 <? bZ b) then (x, r', Some ErrVarintOverflow)
            else (x + bZ b * 2 ^ (7 * Z.of_nat i), r', None)
          else read_uvarint f (S i) (u64 (x + (bZ b mod 128) * 2 ^ (7 * Z.of_nat i))) r'
      end
  end.

Definition ReadUvarint (r : bytes) : Z * bytes * option error :=
  read_uvarint MaxVarintLen64 0 0 r.

(** ** Big-endian integers *)

Fixpoint be_put (n : nat) (v : Z) : bytes :=
  match n with
  | O => []
  | S n' => be_put n' (v / 256) ++ [Zb v]
  end.

Definition be_get (b : bytes) : Z := fold_left (fun acc x => acc * 256 + bZ x) b 0.

Definition AppendUint64 (buf : bytes) (v : Z) : bytes := buf ++ be_put 8 v.
Definition AppendUint32 (buf : bytes) (v : Z) : bytes := buf ++ be_put 4 v.

Definition Uint64 (b : bytes) : res Z :=
  if blen b <? 8 then Panic else Ok (be_get (take 8 b)).
Definition Uint32 (b : bytes) : res Z :=
  if blen b <? 4 then Panic else Ok (be_get (take 4 b)).

(** ** CRC-32 (IEEE polynomial, reflected) *)

Definition crc_poly : Z := 0xedb88320.

Definition crc_bit (c : Z) : Z :=
  if Z.odd c then Z.lxor (Z.shiftr c 1) crc_poly else Z.shiftr c 1.

Definition crc_byte (c : Z) (b : byte) : Z :=
  Nat.iter 8 crc_bit (Z.lxor c (bZ b)).

Definition crc32 (l : bytes) : Z :=
  Z.lxor (fold_left crc_byte l 0xffffffff) 0xffffffff.

Example crc32_check : crc32 (map Zb [49;50;51;52;53;54;55;56;57]) = 0xcbf43926.
Proof. vm_compute. reflexivity. Qed.

(** ** Varint round trips *)

Section Varint.
Local Open Scope Z_scope.

Lemma put_uvarint_step v :
  128 <= v -> bZ (Zb (v mod 128 + 128)) = v mod 128 + 128 /\ (v mod 128 + 128) mod 128 = v mod 128.
Proof.
  intros H. pose proof (Z.mod_pos_bound v 128 eq_refl). split.
  - rewrite bZ_Zb. apply Z.mod_small. lia.
  - rewrite <- Zplus_mod_idemp_r. rewrite Z.mod_same by lia. rewrite Z.add_0_r.
    apply Z.mod_mod. lia.
Qed.

Lemma varint_pow (i : nat) : 2 ^ (7 * Z.of_nat (S i)) = 128 * 2 ^ (7 * Z.of_nat i).
Proof.
  replace (7 * Z.of_nat (S i)) with (7 + 7 * Z.of_nat i) by lia.
  rewrite Z.pow_add_r by lia. reflexivity.
Qed.

Lemma varint_bound_step (i : nat) v :
  (i <= 8)%nat -> 0 <= v < 2 ^ (64 - 7 * Z.of_nat i) -> 0 <= v / 128 < 2 ^ (64 - 7 * Z.of_nat (S i)).
Proof.
  intros Hi H. split; [apply Z.div_pos; lia|].
  apply Z.div_lt_upper_bound; [lia|].
  replace (64 - 7 * Z.of_nat i) with (7 + (64 - 7 * Z.of_nat (S i))) in H by lia.
  rewrite Z.pow_add_r in H by lia. lia.
Qed.

Lemma get_put_uvarint (n i : nat) v x rest :
  (n + i = 10)%nat -> (0 < n)%nat -> 0 <= v < 2 ^ (64 - 7 * Z.of_nat i) ->
  get_uvarint i x (put_uvarint n v ++ rest)
  = (x + v * 2 ^ (7 * Z.of_nat i), Z.of_nat i + blen (put_uvarint n v)).
Proof.
  revert i v x. induction n as [|n IH]; intros i v x Hn Hpos Hv; [lia|].
  cbn [put_uvarint]. destruct (Z.ltb_spec v 128) as [Hs|Hl].
  - cbn [get_uvarint app]. rewrite bZ_Zb, Z.mod_small by lia.
    destruct (Nat.eqb_spec i MaxVarintLen64) as [E|E]; [unfold MaxVarintLen64 in E; lia|].
    destruct (Z.ltb_spec v 128); [|lia].
    destruct (Nat.eqb_spec i 9) as [->|E9]; simpl andb.
    + change (2 ^ (64 - 7 * Z.of_nat 9)) with 2 in Hv.
      destruct (Z.ltb_spec 1 v); [lia|]. f_equal; blia.
    + f_equal; blia.
  - destruct (put_uvarint_step v Hl) as [Hb Hm].
    cbn [get_uvarint app]. rewrite Hb, Hm.
    destruct (Nat.eqb_spec i MaxVarintLen64) as [E|E]; [unfold MaxVarintLen64 in E; lia|].
    destruct (Z.ltb_spec (v mod 128 + 128) 128) as [?|_];
      [pose proof (Z.mod_pos_bound v 128 eq_refl); lia|].
    assert (i <= 8)%nat as Hi.
    { destruct (Nat.le_gt_cases i 8); [done|]. replace i with 9%nat in Hv by lia.
      change (2 ^ (64 - 7 * Z.of_nat 9)) with 2 in Hv. lia. }
    rewrite IH by (try apply varint_bound_step; lia).
    rewrite varint_pow, blen_cons. f_equal; [|lia].
    rewrite (Z.div_mod v 128) at 3 by lia. ring.
Qed.

Lemma read_put_uvarint (n i : nat) v x rest :
  (n + i = 10)%nat -> (0 < n)%nat -> 0 <= v < 2 ^ (64 - 7 * Z.of_nat i) ->
  0 <= x < 2 ^ (7 * Z.of_nat i) ->
  read_uvarint n i x (put_uvarint n v ++ rest) = (x + v * 2 ^ (7 * Z.of_nat i), rest, None).
Proof.
  revert i v x. induction n as [|n IH]; intros i v x Hn Hpos Hv Hx; [lia|].
  cbn [put_uvarint]. destruct (Z.ltb_spec v 128) as [Hs|Hl].
  - cbn [read_uvarint app]. rewrite bZ_Zb, Z.mod_small by lia.
    destruct (Z.ltb_spec v 128); [|lia].
    destruct (Nat.eqb_spec i 9) as [->|E9]; simpl andb; [|done].
    change (2 ^ (64 - 7 * Z.of_nat 9)) with 2 in Hv.
    destruct (Z.ltb_spec 1 v); [lia|done].
  - destruct (put_uvarint_step v Hl) as [Hb Hm].
    cbn [read_uvarint app]. rewrite Hb, Hm.
    pose proof (Z.mod_pos_bound v 128 eq_refl).
    destruct (Z.ltb_spec (v mod 128 + 128) 128) as [?|_]; [lia|].
    assert (i <= 8)%nat as Hi.
    { destruct (Nat.le_gt_cases i 8); [done|]. replace i with 9%nat in Hv by lia.
      change (2 ^ (64 - 7 * Z.of_nat 9)) with 2 in Hv. lia. }
    assert (0 <= x + v mod 128 * 2 ^ (7 * Z.of_nat i) < 2 ^ (7 * Z.of_nat (S i))) as Hx'.
    { rewrite varint_pow. nia. }
    assert (2 ^ (7 * Z.of_nat (S i)) <= 2 ^ 64) by (apply Z.pow_le_mono_r; lia).
    rewrite u64_id by (unfold is_u64; lia).
    rewrite IH by (try apply varint_bound_step; lia).
    rewrite varint_pow. do 2 f_equal.
    rewrite (Z.div_mod v 128) at 3 by lia. ring.
Qed.

Lemma Uvarint_app v rest :
  is_u64 v -> Uvarint (uvarint v ++ rest) = (v, blen (uvarint v)).
Proof.
  intros H. unfold Uvarint, uvarint.
  rewrite get_put_uvarint by (unfold MaxVarintLen64, is_u64 in *; simpl Z.of_nat; lia).
  simpl Z.of_nat. f_equal; lia.
Qed.

Lemma ReadUvarint_app v rest : is_u64 v -> ReadUvarint (uvarint v ++ rest) = (v, rest, None).
Proof.
  intros H. unfold ReadUvarint, uvarint.
  rewrite read_put_uvarint by (unfold MaxVarintLen64, is_u64 in *; simpl Z.of_nat; lia).
  simpl Z.of_nat. do 2 f_equal. lia.
Qed.

Lemma put_uvarint_length n v : (0 < n)%nat -> (1 <= length (put_uvarint n v) <= n)%nat.
Proof.
  revert v. induction n as [|n IH]; intros v H; [lia|]. simpl.
  destruct (v <? 128); simpl; [lia|]. destruct n; simpl; [lia|].
  specialize (IH (v / 128)). simpl in IH. lia.
Qed.

Lemma uvarint_length v : 1 <= blen (uvarint v) <= 10.
Proof.
  pose proof (put_uvarint_length MaxVarintLen64 v).
  unfold uvarint, blen, MaxVarintLen64 in *. lia.
Qed.

(** Varints are prefix-free: equal concatenations have equal heads. *)
Lemma uvarint_app_inj v w a b :
  is_u64 v -> is_u64 w -> uvarint v ++ a = uvarint w ++ b -> v = w /\ a = b.
Proof.
  intros Hv Hw H.
  pose proof (ReadUvarint_app v a Hv) as H1. rewrite H, ReadUvarint_app in H1 by done.
  by injection H1.
Qed.

End Varint.

(** ** Big-endian lemmas *)

Lemma be_put_length n v : length (be_put n v) = n.
Proof. revert v. induction n; intros v; simpl; [done|]. rewrite length_app, IHn. simpl. lia. Qed.

Lemma blen_be_put n v : blen (be_put n v) = Z.of_nat n.
Proof. unfold blen. by rewrite be_put_length. Qed.

Lemma be_get_snoc b x : be_get (b ++ [x]) = be_get b * 256 + bZ x.
Proof. unfold be_get. by rewrite fold_left_app. Qed.

Lemma be_get_put n v : 0 <= v < 256 ^ Z.of_nat n -> be_get (be_put n v) = v.
Proof.
  revert v. induction n as [|n IH]; intros v H.
  { change (256 ^ Z.of_nat 0) with 1 in H. unfold be_get. simpl. lia. }
  simpl be_put. rewrite be_get_snoc, bZ_Zb, IH.
  - pose proof (Z.div_mod v 256). lia.
  - rewrite Nat2Z.inj_succ, Z.pow_succ_r in H by lia.
    split; [apply Z.div_pos; lia|apply Z.div_lt_upper_bound; lia].
Qed.

Lemma be_get_bound b : 0 <= be_get b < 256 ^ blen b.
Proof.
  induction b as [|x b IH] using rev_ind; [vm_compute; split; congruence|].
  rewrite be_get_snoc. autorewrite with gobytes.
  pose proof (bZ_range x). pose proof (blen_nonneg b).
  replace (blen b + (1 + 0)) with (Z.succ (blen b)) by lia.
  rewrite Z.pow_succ_r by done. lia.
Qed.

(** Comparing snocs: first the initial parts, then the last bytes. *)
Lemma bcompare_snoc a b x y :
  length a = length b ->
  bcompare (a ++ [x]) (b ++ [y])
  = match bcompare a b with Eq => bZ x ?= bZ y | c => c end.
Proof.
  revert b. induction a as [|p a IH]; intros [|q b] L; simpl in *; try done.
  - by destruct (bZ x ?= bZ y).
  - destruct (bZ p ?= bZ q); auto.
Qed.

Lemma be_put_compare n v w :
  0 <= v < 256 ^ Z.of_nat n -> 0 <= w < 256 ^ Z.of_nat n ->
  bcompare (be_put n v) (be_put n w) = (v ?= w).
Proof.
  revert v w. induction n as [|n IH]; intros v w Hv Hw.
  - change (256 ^ Z.of_nat 0) with 1 in *. replace v with 0 by lia. replace w with 0 by lia. done.
  - simpl be_put. rewrite bcompare_snoc by (by rewrite !be_put_length).
    rewrite Nat2Z.inj_succ, Z.pow_succ_r in Hv, Hw by lia.
    rewrite IH by (split; [apply Z.div_pos; lia|apply Z.div_lt_upper_bound; lia]).
    rewrite !bZ_Zb.
    pose proof (Z.div_mod v 256 ltac:(lia)). pose proof (Z.div_mod w 256 ltac:(lia)).
    pose proof (Z.mod_pos_bound v 256 eq_refl). pose proof (Z.mod_pos_bound w 256 eq_refl).
    destruct (Z.compare_spec (v / 256) (w / 256)) as [E|E|E].
    + destruct (Z.compare_spec (v mod 256) (w mod 256)); symmetry;
        [apply Z.compare_eq_iff|apply Z.compare_lt_iff|apply Z.compare_gt_iff]; lia.
    + symmetry. apply Z.compare_lt_iff. lia.
    + symmetry. apply Z.compare_gt_iff. lia.
Qed.

Lemma u64_pow256 v : is_u64 v <-> 0 <= v < 256 ^ Z.of_nat 8.
Proof. unfold is_u64. change (256 ^ Z.of_nat 8) with (2 ^ 64). done. Qed.

Lemma be8_lt v w : is_u64 v -> is_u64 w -> blt (be_put 8 v) (be_put 8 w) <-> v < w.
Proof.
  rewrite !u64_pow256. intros Hv Hw. unfold blt. rewrite be_put_compare by done.
  apply Z.compare_lt_iff.
Qed.

Lemma be8_inj v w : is_u64 v -> is_u64 w -> be_put 8 v = be_put 8 w -> v = w.
Proof.
  rewrite !u64_pow256. intros Hv Hw E.
  rewrite <- (be_get_put 8 v Hv), E. by apply be_get_put.
Qed.

Lemma take_app_be (n : nat) (v : Z) rest : take n (be_put n v ++ rest) = be_put n v.
Proof. rewrite take_app_length'; [done|]. by rewrite be_put_length. Qed.

Lemma drop_app_be (n : nat) (v : Z) rest : drop n (be_put n v ++ rest) = rest.
Proof. rewrite drop_app_length'; [done|]. by rewrite be_put_length. Qed.

Lemma Uint64_app v rest : is_u64 v -> Uint64 (be_put 8 v ++ rest) = Ok v.
Proof.
  intros H. unfold Uint64. rewrite blen_app, blen_be_put.
  destruct (Z.ltb_spec (Z.of_nat 8 + blen rest) 8); [pose proof (blen_nonneg rest); lia|].
  rewrite take_app_be, be_get_put; [done|]. by apply u64_pow256.
Qed.

Lemma Uint64_be v : is_u64 v -> Uint64 (be_put 8 v) = Ok v.
Proof. intros H. rewrite <- (app_nil_r (be_put 8 v)). by apply Uint64_app. Qed.

Lemma Uint32_be v : 0 <= v < 2 ^ 32 -> Uint32 (be_put 4 v) = Ok v.
Proof.
  intros H. unfold Uint32. rewrite blen_be_put. change (Z.of_nat 4 <? 4) with false. cbv iota.
  rewrite take_ge by (by rewrite be_put_length).
  rewrite be_get_put; [done|]. change (256 ^ Z.of_nat 4) with (2 ^ 32). done.
Qed.

#[export] Hint Rewrite blen_be_put : gobytes.

(** ** CRC bounds *)

Lemma lxor_range n a b :
  0 <= n -> 0 <= a < 2 ^ n -> 0 <= b < 2 ^ n -> 0 <= Z.lxor a b < 2 ^ n.
Proof.
  intros Hn Ha Hb.
  assert (Z.lxor a b = Z.lxor a b mod 2 ^ n) as ->.
  { rewrite <- (Z.mod_small a (2 ^ n)), <- (Z.mod_small b (2 ^ n)) by done.
    rewrite <- !Z.land_ones by done. apply Z.bits_inj'. intros i Hi.
    rewrite !Z.land_spec, !Z.lxor_spec, !Z.land_spec.
    destruct (Z.testbit a i), (Z.testbit b i), (Z.testbit (Z.ones n) i); done. }
  apply Z.mod_pos_bound. lia.
Qed.

Lemma crc_bit_range c : 0 <= c < 2 ^ 32 -> 0 <= crc_bit c < 2 ^ 32.
Proof.
  intros H. unfold crc_bit. rewrite Z.shiftr_div_pow2 by lia.
  assert (0 <= c / 2 ^ 1 < 2 ^ 32).
  { split; [apply Z.div_pos; lia|apply Z.div_lt_upper_bound; lia]. }
  destruct (Z.odd c); [|done]. apply lxor_range; [lia|done|vm_compute; split; congruence].
Qed.

Lemma crc_byte_range c b : 0 <= c < 2 ^ 32 -> 0 <= crc_byte c b < 2 ^ 32.
Proof.
  intros H. unfold crc_byte. pose proof (bZ_range b).
  assert (0 <= Z.lxor c (bZ b) < 2 ^ 32) by (apply lxor_range; lia).
  generalize dependent (Z.lxor c (bZ b)). intros z Hz.
  generalize 8%nat as k. intros k.
  induction k; simpl; [done|]. by apply crc_bit_range.
Qed.

Lemma crc32_range l : 0 <= crc32 l < 2 ^ 32.
Proof.
  unfold crc32.
  assert (forall c, 0 <= c < 2 ^ 32 -> 0 <= fold_left crc_byte l c < 2 ^ 32) as H.
  { induction l as [|b l IH]; intros c Hc; simpl; [done|]. by apply IH, crc_byte_range. }
  apply lxor_range; [lia|apply H|]; vm_compute; split; congruence.
Qed.
