(* ===== verification/Patch.v ===== *)
(** * Binary patches (src/internal/patch: generate.go, apply.go)

    [Generate] writes the edit script that turns [a] into [b]; [Apply] replays
    it. The script comes from the LCS package through the interface [Differ];
    what it promises, [edits], is exactly what the round trip needs. *)

From S2P Require Import Prelude Types GoBinary.

(** ** Edit scripts (src/internal/patch/lcs/old.go, type Diff) *)

Record Diff : Type := mkDiff {
  Start : Z; End : Z;            (* offsets of the portion to delete in A *)
  ReplStart : Z; ReplEnd : Z     (* offsets of the replacement text in B *)
}.

(** [edits a b pa pb ds]: from offset [pa] of [a] and [pb] of [b] on, copying
    [a] and performing the replacements [ds] in order yields the rest of [b]. *)
Inductive edits (a b : bytes) : Z -> Z -> list Diff -> Prop :=
| edits_nil pa pb :
    0 <= pa <= blen a -> 0 <= pb <= blen b ->
    drop (Z.to_nat pa) a = drop (Z.to_nat pb) b ->
    edits a b pa pb []
| edits_cons pa pb d ds :
    0 <= pa <= Start d -> Start d <= End d <= blen a ->
    0 <= pb <= ReplStart d -> ReplStart d <= ReplEnd d <= blen b ->
    take (Z.to_nat (Start d - pa)) (drop (Z.to_nat pa) a)
    = take (Z.to_nat (ReplStart d - pb)) (drop (Z.to_nat pb) b) ->
    Start d - pa = ReplStart d - pb ->
    edits a b (End d) (ReplEnd d) ds ->
    edits a b pa pb (d :: ds).

(** A Go slice that exists in memory: its length is an [int]. *)
Definition small {A} (l : list A) : Prop := blen l < 2 ^ 63.

(** What the patch package needs of [lcs.DiffBytes]. *)
Class Differ : Type := { DiffBytes : bytes -> bytes -> list Diff }.

Class DifferOk `{Differ} : Prop := {
  DiffBytes_edits a b : small a -> small b -> edits a b 0 0 (DiffBytes a b);
  DiffBytes_small a b : small a -> small b -> small (DiffBytes a b)
}.

(** ** Generate *)

Fixpoint genLoop (b : bytes) (diffs : list Diff) (patch : bytes) : res bytes :=
  match diffs with
  | [] => Ok patch
  | d :: ds =>
      let patch := AppendUvarint patch (u64 (Start d)) in
      let patch := AppendUvarint patch (u64 (End d)) in
      let patch := AppendUvarint patch (u64 (ReplEnd d - ReplStart d)) in
      let! repl := slice b (ReplStart d) (ReplEnd d) in
      genLoop b ds (patch ++ repl)
  end.

Definition Generate `{Differ} (a b patch : bytes) : res bytes :=
  let diffs := DiffBytes a b in
  let patch := AppendUvarint patch (u64 (blen b)) in
  let patch := AppendUvarint patch (u64 (blen diffs)) in
  genLoop b diffs patch.

(** ** Apply *)

(** [readUvarint]: the varint converted to [int]. *)
Definition readUvarint (r : bytes) : Z * bytes * option error :=
  let '(x, r', err) := ReadUvarint r in (i64 x, r', err).

(** [bytes.Buffer.Next(n)]: up to [n] bytes; a negative [n] panics. *)
Definition bufNext (r : bytes) (n : Z) : res (bytes * bytes) :=
  if n <? 0 then Panic
  else Ok (take (Z.to_nat n) r, drop (Z.to_nat n) r).

(** The [for range count] loop: yields the output so far, the final [prev] and
    the error, if any. *)
Fixpoint applyLoop (fuel : nat) (count : Z) (a r : bytes) (prev : Z) (b : nslice)
  : res (nslice * Z * option error) :=
  if count <=? 0 then Ok (b, prev, None)
  else
    match fuel with
    | O => NoFuel
    | S f =>
        let '(start, r, err) := readUvarint r in
        if isErr err || (blen a <? start) then Ok (b, prev, Some ErrCorrupt) else
        let '(end_, r, err) := readUvarint r in
        if isErr err || (blen a <? end_) then Ok (b, prev, Some ErrCorrupt) else
        let '(diff, r, err) := readUvarint r in
        if isErr err then Ok (b, prev, Some ErrCorrupt) else
        let! keep := slice a prev start in
        let! '(repl, r) := bufNext r diff in
        applyLoop f (count - 1) a r end_ (sappend (sappend b keep) repl)
    end.

(** Every round of the loop consumes a byte of the patch or returns, so the
    length of the patch bounds the number of rounds. As in Go, the output so far
    is returned next to the error. *)
Definition Apply (a patch : bytes) (b : nslice) : res (nslice * option error) :=
  let '(size, r, err) := readUvarint patch in
  if isErr err then Ok (b, Some ErrCorrupt) else
  let '(count, r, err) := readUvarint r in
  if isErr err then Ok (b, Some ErrCorrupt) else
  let b := (fun _ => []) <$> b in
  let! '(b, prev, err) := applyLoop (S (length patch)) count a r 0 b in
  if isErr err then Ok (b, err) else
  let! rest := slice a prev (blen a) in
  let b := sappend b rest in
  if negb (size =? blen (sbytes b)) then Ok (b, Some ErrCorrupt) else Ok (b, None).

(** ** The round trip *)

Section RoundTrip.

Lemma small_u64 z : 0 <= z < 2 ^ 63 -> u64 z = z.
Proof. intros H. apply u64_id. unfold is_u64. lia. Qed.

Lemma readUvarint_app z rest :
  0 <= z < 2 ^ 63 -> readUvarint (uvarint z ++ rest) = (z, rest, None).
Proof.
  intros H. unfold readUvarint. rewrite ReadUvarint_app by (unfold is_u64; lia).
  rewrite i64_id by (unfold is_i64; lia). done.
Qed.

(** The bytes [Generate] emits for one edit. *)
Definition editBytes (b : bytes) (d : Diff) : bytes :=
  uvarint (Start d) ++ uvarint (End d) ++ uvarint (ReplEnd d - ReplStart d)
  ++ take (Z.to_nat (ReplEnd d - ReplStart d)) (drop (Z.to_nat (ReplStart d)) b).

Lemma genLoop_edits a b pa pb ds p :
  small a -> small b -> edits a b pa pb ds ->
  genLoop b ds p = Ok (p ++ concat (editBytes b <$> ds)).
Proof.
  intros Ha Hb He. revert p.
  induction He as [pa pb|pa pb d ds H1 H2 H3 H4 H5 H6 He IH]; intros p.
  - simpl. by rewrite app_nil_r.
  - unfold small in *. cbn [genLoop]. rewrite !small_u64 by lia.
    rewrite slice_ok by lia. cbn [rbind]. rewrite IH. unfold AppendUvarint, editBytes.
    f_equal. simpl. by rewrite <- !app_assoc.
Qed.

(** Copying on: the piece of [b] up to the end of the edit. *)
Lemma drop_edit (b : bytes) pb s e :
  0 <= pb <= s -> s <= e <= blen b ->
  drop (Z.to_nat pb) b
  = take (Z.to_nat (s - pb)) (drop (Z.to_nat pb) b)
    ++ take (Z.to_nat (e - s)) (drop (Z.to_nat s) b) ++ drop (Z.to_nat e) b.
Proof.
  intros H1 H2. rewrite <- (take_drop (Z.to_nat (s - pb)) (drop (Z.to_nat pb) b)) at 1.
  f_equal. rewrite drop_drop. replace (Z.to_nat pb + Z.to_nat (s - pb))%nat with (Z.to_nat s) by lia.
  rewrite <- (take_drop (Z.to_nat (e - s)) (drop (Z.to_nat s) b)) at 1.
  f_equal. rewrite drop_drop. f_equal. lia.
Qed.

Lemma applyLoop_edits a b pa pb ds fuel out rest :
  small a -> small b -> edits a b pa pb ds -> (length ds <= fuel)%nat ->
  exists out' prev,
    applyLoop fuel (blen ds) a (concat (editBytes b <$> ds) ++ rest) pa out = Ok (out', prev, None)
    /\ 0 <= prev <= blen a
    /\ sbytes out' ++ drop (Z.to_nat prev) a = sbytes out ++ drop (Z.to_nat pb) b.
Proof.
  intros Ha Hb He. revert fuel out.
  induction He as [pa pb Hpa Hpb Hd|pa pb d ds H1 H2 H3 H4 H5 H6 He IH]; intros fuel out Hf.
  - exists out, pa. destruct fuel; simpl; by rewrite ?Hd.
  - unfold small in *. destruct fuel as [|fuel]; simpl in Hf; [lia|].
    destruct (IH fuel (sappend (sappend out (take (Z.to_nat (Start d - pa)) (drop (Z.to_nat pa) a)))
                (take (Z.to_nat (ReplEnd d - ReplStart d)) (drop (Z.to_nat (ReplStart d)) b)))
              ltac:(lia)) as (out' & prev & E & Hp & Ho).
    exists out', prev. split; [|split; [done|]].
    + cbn [applyLoop]. rewrite blen_cons.
      destruct (Z.leb_spec (1 + blen ds) 0); [pose proof (blen_nonneg ds); lia|].
      simpl concat. unfold editBytes at 1. rewrite <- !app_assoc.
      rewrite readUvarint_app by lia. zcases; [lia|]. simpl.
      rewrite readUvarint_app by lia. zcases; [lia|]. simpl.
      rewrite readUvarint_app by lia. simpl. rewrite slice_ok by lia. cbn [rbind].
      unfold bufNext. zcases; [lia|].
      assert (length (take (Z.to_nat (ReplEnd d - ReplStart d)) (drop (Z.to_nat (ReplStart d)) b))
              = Z.to_nat (ReplEnd d - ReplStart d)) as L.
      { rewrite length_take, length_drop. unfold blen in *. lia. }
      rewrite take_app_length' by done. rewrite drop_app_length' by done.
      cbn [rbind]. replace (1 + blen ds - 1) with (blen ds) by lia. exact E.
    + rewrite Ho, !sbytes_sappend, H5.
      rewrite (drop_edit b pb (ReplStart d) (ReplEnd d)) at 2 by lia.
      by rewrite <- !app_assoc.
Qed.

Lemma Generate_bytes `{DifferOk} a b :
  small a -> small b ->
  Generate a b [] = Ok (uvarint (blen b) ++ uvarint (blen (DiffBytes a b))
                        ++ concat (editBytes b <$> DiffBytes a b)).
Proof.
  intros Ha Hb. unfold Generate, AppendUvarint.
  pose proof (DiffBytes_small a b Ha Hb) as Hs. unfold small in *.
  rewrite !small_u64 by (pose proof (blen_nonneg b); pose proof (blen_nonneg (DiffBytes a b)); lia).
  rewrite (genLoop_edits a b 0 0) by (try apply DiffBytes_edits; done).
  by rewrite <- !app_assoc.
Qed.

Lemma editBytes_length b d : (1 <= length (editBytes b d))%nat.
Proof.
  unfold editBytes. rewrite !length_app. pose proof (uvarint_length (Start d)).
  unfold blen in *. lia.
Qed.

Lemma concat_editBytes_length b ds : (length ds <= length (concat (editBytes b <$> ds)))%nat.
Proof.
  induction ds as [|d ds IH]; [simpl; lia|].
  rewrite fmap_cons. cbn [concat length]. rewrite length_app.
  pose proof (editBytes_length b d). lia.
Qed.

(** [Apply] replays what [Generate] wrote, for every pair of values: the general
    form used by the record codec. *)
Lemma Apply_Generate `{DifferOk} a b p :
  small a -> small b -> Generate a b [] = Ok p ->
  exists s, Apply a p None = Ok (s, None) /\ sbytes s = b.
Proof.
  intros Ha Hb Hg. rewrite Generate_bytes in Hg by done. injection Hg as <-.
  pose proof (DiffBytes_small a b Ha Hb) as Hs. unfold small in *.
  pose proof (blen_nonneg b). pose proof (blen_nonneg (DiffBytes a b)).
  unfold Apply. rewrite readUvarint_app by lia. cbn [isErr].
  rewrite readUvarint_app by lia. cbn [isErr fmap option_fmap option_map].
  destruct (applyLoop_edits a b 0 0 (DiffBytes a b)
              (S (length (uvarint (blen b) ++ uvarint (blen (DiffBytes a b))
                          ++ concat (editBytes b <$> DiffBytes a b)))) None [])
    as (out' & prev & E & Hp & Ho); [done|done|by apply DiffBytes_edits| |].
  { rewrite !length_app. pose proof (concat_editBytes_length b (DiffBytes a b)). lia. }
  rewrite app_nil_r in E. rewrite E. cbn [rbind isErr]. rewrite slice_ok by lia. cbn [rbind].
  rewrite take_ge by (rewrite length_drop; unfold blen; lia).
  assert (sbytes (sappend out' (drop (Z.to_nat prev) a)) = b) as Eb
    by (by rewrite sbytes_sappend, Ho).
  rewrite Eb, Z.eqb_refl. simpl negb. eauto.
Qed.

End RoundTrip.
