(* ===== verification/Lcs.v ===== *)
(** * The search for a common subsequence (src/internal/patch/lcs)

    Myers' two-sided search with a limit of four edits from either end, and the repair
    of the partial result when the limit is reached. [Lcs.DiffBytes] is the edit
    script [Generate] encodes. Offsets are Go [int]s; no offset the search forms leaves
    the lengths of the two values by more than the limit, so they stay integers here. *)

From stdpp Require Import gmap.
From S2P Require Import Prelude Types GoBinary Patch.

Module Lcs.

Definition maxDiffs : Z := 8.

(** ** common.go: diagonals *)

(** A piece of the edit graph where [A[X+i] == B[Y+i]] for [0 <= i < Len]. *)
Record diag : Type := mkDiag { X : Z; Y : Z; Len : Z }.

Abbreviation lcs := (list diag).

(** [sort.Slice] on at most twelve elements is an insertion sort; the lists here hold
    at most two paths of five diagonals. [less x y]: [x] sorts before [y]. *)
Fixpoint insertSorted (less : diag -> diag -> bool) (x : diag) (l : lcs) : lcs :=
  match l with
  | [] => [x]
  | y :: l' => if less x y then x :: l else y :: insertSorted less x l'
  end.

Definition sortSlice (less : diag -> diag -> bool) (l : lcs) : lcs :=
  foldl (fun acc x => insertSorted less x acc) [] l.

Definition byX (a b : diag) : bool :=
  if negb (X a =? X b) then X a <? X b else Len b <? Len a.

Definition byLen (a b : diag) : bool := Len b <? Len a.

Definition sort (l : lcs) : lcs := sortSlice byX l.

Inductive direction : Type := empty | leftdown | rightup | bad.

(** The trims of [overlap]: the end of the proposed diagonal where it runs into offset
    [e], or its beginning where it starts within [e .. e+elen). Whether nothing is left,
    and the diagonal as it is then. *)
Definition trimEnd (p e : Z) (prop : diag) : bool * diag :=
  if (p <=? e) && (e <? p + Len prop) then
    let delta := p + Len prop - e in
    let prop := mkDiag (X prop) (Y prop) (Len prop - delta) in
    (Len prop <=? 0, prop)
  else (false, prop).

Definition trimBegin (e elen p : Z) (prop : diag) : bool * diag :=
  if (e <=? p) && (p <? e + elen) then
    let delta := e + elen - p in
    let prop := mkDiag (X prop) (Y prop) (Len prop - delta) in
    if Len prop <=? 0 then (true, prop)
    else (false, mkDiag (X prop + delta) (Y prop + delta) (Len prop))
  else (false, prop).

Definition overlap (exist prop : diag) : direction * diag :=
  let '(stop, prop) := trimEnd (X prop) (X exist) prop in
  if stop : bool then (empty, prop) else
  let '(stop, prop) := trimBegin (X exist) (Len exist) (X prop) prop in
  if stop : bool then (empty, prop) else
  let '(stop, prop) := trimEnd (Y prop) (Y exist) prop in
  if stop : bool then (empty, prop) else
  let '(stop, prop) := trimBegin (Y exist) (Len exist) (Y prop) prop in
  if stop : bool then (empty, prop) else
  if (X prop + Len prop <=? X exist) && (Y prop + Len prop <=? Y exist) then (leftdown, prop)
  else if (X exist + Len exist <=? X prop) && (Y exist + Len exist <=? Y prop) then (rightup, prop)
  else (bad, prop).

(** The inner loop of [fix]: the proposed diagonal against those accepted so far. *)
Fixpoint fixOne (tmp : lcs) (dir : direction) (nxt : diag) : direction * diag :=
  match tmp with
  | [] => (dir, nxt)
  | d :: tmp =>
      let '(dir, nxt) := overlap d nxt in
      match dir with
      | empty | bad => (dir, nxt)
      | _ => fixOne tmp dir nxt
      end
  end.

Fixpoint fixLoop (tmp l : lcs) : lcs :=
  match l with
  | [] => tmp
  | nxt :: l =>
      let '(dir, nxt) := fixOne tmp empty nxt in
      let keep := (0 <? Len nxt) && match dir with bad => false | _ => true end in
      fixLoop (if keep then tmp ++ [nxt] else tmp) l
  end.

Definition fix_ (l : lcs) : lcs :=
  match sortSlice byLen l with
  | [] => []
  | d :: l => sort (fixLoop [d] l)
  end.

Definition prepend (l : lcs) (x y : Z) : lcs :=
  match l with
  | d :: l' => if (X d =? x + 1) && (Y d =? y + 1) then mkDiag x y (Len d + 1) :: l' else mkDiag x y 1 :: l
  | [] => [mkDiag x y 1]
  end.

Definition append (l : lcs) (x y : Z) : lcs :=
  match last l with
  | Some d =>
      if (X d + Len d =? x) && (Y d + Len d =? y)
      then take (length l - 1) l ++ [mkDiag (X d) (Y d) (Len d + 1)]
      else l ++ [mkDiag x y 1]
  | None => [mkDiag x y 1]
  end.

Definition ok (d k : Z) : bool := (0 <=? d) && (- d <=? k) && (k <=? d).

(** ** labels.go: the label of (D, k) is stored in [vec[D][(D+k)/2]]

    The vectors come from a pool and may hold labels of an earlier search; a level that
    was never set is nil. *)
Abbreviation label := (gmap (Z * Z) Z).

Definition lset (t : label) (D k x : Z) : res label :=
  let i := (D + k) ÷ 2 in
  if (0 <=? i) && (i <=? D) then Ok (<[(D, i) := x]> t) else Panic.

Definition lget (t : label) (d k : Z) : res Z :=
  match t !! (d, (d + k) ÷ 2) with Some x => Ok x | None => Panic end.

(** ** sequence.go *)

Fixpoint commonPrefixLenBytes (a b : bytes) : Z :=
  match a, b with
  | x :: a, y :: b => if decide (x = y) then 1 + commonPrefixLenBytes a b else 0
  | _, _ => 0
  end.

(** The same count from the other end. *)
Definition commonSuffixLenBytes (a b : bytes) : Z := commonPrefixLenBytes (reverse a) (reverse b).

Section Search.
Context (A B : bytes).

Definition commonPrefixLen (ai aj bi bj : Z) : res Z :=
  let! a := slice A ai aj in let! b := slice B bi bj in Ok (commonPrefixLenBytes a b).

Definition commonSuffixLen (ai aj bi bj : Z) : res Z :=
  let! a := slice A ai aj in let! b := slice B bi bj in Ok (commonSuffixLenBytes a b).

(** ** old.go: the edit graph *)

Record editGraph : Type := mkGraph {
  vf : label; vb : label; limit : Z; lx : Z; ly : Z; ux : Z; uy : Z; delta : Z
}.

Definition withVf (e : editGraph) (t : label) : editGraph :=
  mkGraph t (vb e) (limit e) (lx e) (ly e) (ux e) (uy e) (delta e).
Definition withVb (e : editGraph) (t : label) : editGraph :=
  mkGraph (vf e) t (limit e) (lx e) (ly e) (ux e) (uy e) (delta e).
Definition withU (e : editGraph) (x y : Z) : editGraph :=
  mkGraph (vf e) (vb e) (limit e) (lx e) (ly e) x y (delta e).

Fixpoint toDiffsLoop (l : lcs) (pa pb alen blen : Z) : list Diff :=
  match l with
  | [] => if (pa <? alen) || (pb <? blen) then [mkDiff pa alen pb blen] else []
  | d :: l =>
      (if (pa <? X d) || (pb <? Y d) then [mkDiff pa (X d) pb (Y d)] else [])
      ++ toDiffsLoop l (X d + Len d) (Y d + Len d) alen blen
  end.

Definition toDiffs (l : lcs) (alen blen : Z) : list Diff := toDiffsLoop l 0 0 alen blen.

(** *** Forward *)

Definition lookForward (e : editGraph) (k relx : Z) : res Z :=
  let rely := relx - k in
  let x := relx + lx e in
  let y := rely + ly e in
  if (x <? ux e) && (y <? uy e) then let! n := commonPrefixLen x (ux e) y (uy e) in Ok (x + n) else Ok x.

Definition setForward (e : editGraph) (d k relx : Z) : res editGraph :=
  let! x := lookForward e k relx in
  let! t := lset (vf e) d k (x - lx e) in Ok (withVf e t).

Definition getForward (e : editGraph) (d k : Z) : res Z := lget (vf e) d k.

(** The loop of [forwardlcs]; each turn lowers [D + x]. *)
Fixpoint forwardlcsLoop (n : nat) (e : editGraph) (D k x : Z) (ans : lcs) : res lcs :=
  if (x =? 0) && (x - k =? 0) then Ok ans else
  match n with
  | O => NoFuel
  | S n =>
      let! v := if ok (D - 1) (k - 1) then let! p := getForward e (D - 1) (k - 1) in Ok (x - 1 =? p)
                else Ok false in
      if v then forwardlcsLoop n e (D - 1) (k - 1) (x - 1) ans else
      let! h := if ok (D - 1) (k + 1) then let! p := getForward e (D - 1) (k + 1) in Ok (x =? p)
                else Ok false in
      if h then forwardlcsLoop n e (D - 1) (k + 1) x ans else
      let y := x - k in
      forwardlcsLoop n e D k (x - 1) (prepend ans (x + lx e - 1) (y + ly e - 1))
  end.

(** Enough turns for any path from a label. *)
Definition pathFuel : nat := S (length A + length B + 20).

Definition forwardlcs (e : editGraph) (D k : Z) : res lcs :=
  let! x := getForward e D k in forwardlcsLoop pathFuel e D k x [].

Definition fdone (e : editGraph) (D k : Z) : res (option lcs) :=
  let! x := lget (vf e) D k in
  let y := x - k in
  if (x =? ux e) && (y =? uy e) then let! l := forwardlcs e D k in Ok (Some l) else Ok None.

(** The label of (D+1, k) between the ends of a level. *)
Definition innerForward (e : editGraph) (D k : Z) : res editGraph :=
  let! v := getForward e D (k - 1) in
  let! lookv := lookForward e k (v + 1) in
  let! h := getForward e D (k + 1) in
  let! lookh := lookForward e k h in
  setForward e (D + 1) k (if lookh <? lookv then lookv else lookh).

(** [for k := k0; k <= k1; k += 2]: the values of [k]. *)
Definition evens (k0 k1 : Z) : list Z :=
  (fun i => k0 + 2 * Z.of_nat i) <$> seq 0 (Z.to_nat ((k1 - k0) / 2 + 1)).

Fixpoint innerFdone (e : editGraph) (D : Z) (ks : list Z) : res (editGraph * option lcs) :=
  match ks with
  | [] => Ok (e, None)
  | k :: ks =>
      let! e := innerForward e D k in
      let! r := fdone e (D + 1) k in
      match r with Some l => Ok (e, Some l) | None => innerFdone e D ks end
  end.

(** One level of [forward], with the tests for the corner. *)
Definition forwardLevel (e : editGraph) (D : Z) : res (editGraph * option lcs) :=
  let! x := getForward e D (- D) in
  let! e := setForward e (D + 1) (- (D + 1)) x in
  let! r := fdone e (D + 1) (- (D + 1)) in
  match r with Some l => Ok (e, Some l) | None =>
  let! x := getForward e D D in
  let! e := setForward e (D + 1) (D + 1) (x + 1) in
  let! r := fdone e (D + 1) (D + 1) in
  match r with Some l => Ok (e, Some l) | None => innerFdone e D (evens (- D + 1) (D - 1)) end end.

Fixpoint forwardLevels (n : nat) (e : editGraph) (D : Z) : res (editGraph * option lcs) :=
  match n with
  | O => Ok (e, None)
  | S n =>
      let! '(e, r) := forwardLevel e D in
      match r with Some l => Ok (e, Some l) | None => forwardLevels n e (D + 1) end
  end.

(** The diagonal of the label farthest inside the rectangle. *)
Fixpoint bestForward (e : editGraph) (ks : list Z) (diagmax kmax : Z) : res Z :=
  match ks with
  | [] => Ok kmax
  | k :: ks =>
      let! x := getForward e (limit e) k in
      let y := x - k in
      if (diagmax <? x + y) && (x <=? ux e) && (y <=? uy e) then bestForward e ks (x + y) k
      else bestForward e ks diagmax kmax
  end.

Definition forward (e : editGraph) : res lcs :=
  let! e := setForward e 0 0 (lx e) in
  let! r := fdone e 0 0 in
  match r with Some l => Ok l | None =>
  let! '(e, r) := forwardLevels (Z.to_nat (limit e)) e 0 in
  match r with Some l => Ok l | None =>
  let! kmax := bestForward e (evens (- limit e) (limit e)) (-1) (- limit e - 1) in
  forwardlcs e (limit e) kmax
  end end.

(** *** Backward *)

Definition lookBackward (e : editGraph) (k relx : Z) : res Z :=
  let rely := relx - (k + delta e) in
  let x := relx + lx e in
  let y := rely + ly e in
  if (0 <? x) && (0 <? y) then let! n := commonSuffixLen 0 x 0 y in Ok (x - n) else Ok x.

Definition setBackward (e : editGraph) (d k relx : Z) : res editGraph :=
  let! x := lookBackward e k relx in
  let! t := lset (vb e) d k (x - lx e) in Ok (withVb e t).

Definition getBackward (e : editGraph) (d k : Z) : res Z := lget (vb e) d k.

(** Each turn lowers [D + (ux - x)]. *)
Fixpoint backwardlcsLoop (n : nat) (e : editGraph) (D k x : Z) (ans : lcs) : res lcs :=
  if (x =? ux e) && (x - (k + delta e) =? uy e) then Ok ans else
  match n with
  | O => NoFuel
  | S n =>
      let! v := if ok (D - 1) (k - 1) then let! p := getBackward e (D - 1) (k - 1) in Ok (x =? p)
                else Ok false in
      if v then backwardlcsLoop n e (D - 1) (k - 1) x ans else
      let! h := if ok (D - 1) (k + 1) then let! p := getBackward e (D - 1) (k + 1) in Ok (x + 1 =? p)
                else Ok false in
      if h then backwardlcsLoop n e (D - 1) (k + 1) (x + 1) ans else
      let y := x - (k + delta e) in
      backwardlcsLoop n e D k (x + 1) (append ans (x + lx e) (y + ly e))
  end.

Definition backwardlcs (e : editGraph) (D k : Z) : res lcs :=
  let! x := getBackward e D k in backwardlcsLoop pathFuel e D k x [].

Definition innerBackward (e : editGraph) (D k : Z) : res editGraph :=
  let! v := getBackward e D (k - 1) in
  let! lookv := lookBackward e k v in
  let! h := getBackward e D (k + 1) in
  let! lookh := lookBackward e k (h - 1) in
  setBackward e (D + 1) k (if lookv <? lookh then lookv else lookh).

(** *** Two-sided *)

Fixpoint innerPass (step : editGraph -> Z -> res editGraph) (e : editGraph) (ks : list Z) : res editGraph :=
  match ks with
  | [] => Ok e
  | k :: ks => let! e := step e k in innerPass step e ks
  end.

Definition forwardPass (e : editGraph) (D : Z) : res editGraph :=
  let! x := getForward e D (- D) in
  let! e := setForward e (D + 1) (- (D + 1)) x in
  let! x := getForward e D D in
  let! e := setForward e (D + 1) (D + 1) (x + 1) in
  innerPass (fun e k => innerForward e D k) e (evens (- D + 1) (D - 1)).

Definition backwardPass (e : editGraph) (D : Z) : res editGraph :=
  let! x := getBackward e D (- D) in
  let! e := setBackward e (D + 1) (- (D + 1)) (x - 1) in
  let! x := getBackward e D D in
  let! e := setBackward e (D + 1) (D + 1) x in
  innerPass (fun e k => innerBackward e D k) e (evens (- D + 1) (D - 1)).

(** The inner loop of [twoDone]: the first diagonal from [k] on that allows a short
    cut. *)
Fixpoint twoDoneFrom (e : editGraph) (df db : Z) (ls : list Z) : res (option Z) :=
  match ls with
  | [] => Ok None
  | l :: ls =>
      let! x := lget (vf e) df l in
      let y := x - l in
      let! u := lget (vb e) db (l - delta e) in
      let v := u - l in
      if (x =? u) || (u =? 0) || (v =? 0) || (y =? uy e) || (x =? ux e) then Ok (Some l)
      else twoDoneFrom e df db ls
  end.

Fixpoint twoDoneLoop (e : editGraph) (df db kmax : Z) (ks : list Z) : res (option Z) :=
  match ks with
  | [] => Ok None
  | k :: ks =>
      let! x := lget (vf e) df k in
      let! u := lget (vb e) db (k - delta e) in
      if u <=? x then
        let! r := twoDoneFrom e df db (evens k kmax) in
        Ok (Some (default k r))
      else twoDoneLoop e df db kmax ks
  end.

(** Does Myers' Lemma apply? *)
Definition twoDone (e : editGraph) (df db : Z) : res (option Z) :=
  if negb (Z.rem (df + db + delta e) 2 =? 0) then Ok None else
  let kmin := - db + delta e in
  let kmin := if kmin <? - df then - df else kmin in
  let kmax := db + delta e in
  let kmax := if df <? kmax then df else kmax in
  twoDoneLoop e df db kmax (evens kmin kmax).

(** [u > 0 && ok(d, k) && e.v.get(d, k) == x]; the conjuncts are evaluated in order. *)
Definition labelled (t : label) (guard : bool) (d k x : Z) : res bool :=
  if guard && ok d k then let! p := lget t d k in Ok (p =? x) else Ok false.

Definition twolcs (e : editGraph) (df db kf : Z) : res lcs :=
  let! x := lget (vf e) df kf in
  let y := x - kf in
  let kb := kf - delta e in
  let! u := lget (vb e) db kb in
  let v := u - kf in
  if x =? u then
    let! f := forwardlcs e df kf in let! b := backwardlcs e db kb in Ok (sort (f ++ b)) else
  let! c := labelled (vf e) (0 <? u) (df - 1) (u - 1 - v) (u - 1) in
  if c then
    let! f := forwardlcs e (df - 1) (u - 1 - v) in let! b := backwardlcs e db kb in Ok (sort (f ++ b)) else
  let! c := labelled (vf e) (0 <? v) (df - 1) (u - (v - 1)) u in
  if c then
    let! f := forwardlcs e (df - 1) (u - (v - 1)) in let! b := backwardlcs e db kb in Ok (sort (f ++ b)) else
  if (u =? 0) || (v =? 0) || (x =? ux e) || (y =? uy e) then
    (if (u =? 0) || (v =? 0) then backwardlcs e db kb else forwardlcs e df kf) else
  let! c := labelled (vb e) (x + 1 <=? ux e) (db - 1) (x + 1 - y - delta e) (x + 1) in
  if c then
    let! b := backwardlcs e (db - 1) (kb + 1) in let! f := forwardlcs e df kf in Ok (sort (b ++ f)) else
  let! c := labelled (vb e) (y + 1 <=? uy e) (db - 1) (x - (y + 1) - delta e) x in
  if c then
    let! b := backwardlcs e (db - 1) (kb - 1) in let! f := forwardlcs e df kf in Ok (sort (b ++ f)) else
  let! b := backwardlcs e db kb in
  let! f := forward (withU e u v) in
  Ok (sort (b ++ f)).

(** The levels of [twosided]: the answer, or the graph when the limit is reached. *)
Fixpoint twoLevels (n : nat) (e : editGraph) (D : Z) : res (editGraph * option lcs) :=
  match n with
  | O => Ok (e, None)
  | S n =>
      let! got := twoDone e D D in
      match got with
      | Some k => let! l := twolcs e D D k in Ok (e, Some l)
      | None =>
          let! e := forwardPass e D in
          let! got := twoDone e (D + 1) D in
          match got with
          | Some k => let! l := twolcs e (D + 1) D k in Ok (e, Some l)
          | None => let! e := backwardPass e D in twoLevels n e (D + 1)
          end
      end
  end.

(** [kmax] still holds the forward diagonal when the search starts. *)
Fixpoint bestBackward (e : editGraph) (ks : list Z) (diagmin kmax : Z) : res Z :=
  match ks with
  | [] => Ok kmax
  | k :: ks =>
      let! x := getBackward e (limit e) k in
      let y := x - (k + delta e) in
      if (x + y <? diagmin) && (0 <=? x) && (0 <=? y) then bestBackward e ks (x + y) k
      else bestBackward e ks diagmin kmax
  end.

Definition twosided (e : editGraph) : res lcs :=
  let! e := setForward e 0 0 (lx e) in
  let! e := setBackward e 0 0 (ux e) in
  let! '(e, r) := twoLevels (Z.to_nat (limit e)) e 0 in
  match r with Some l => Ok l | None =>
  let ks := evens (- limit e) (limit e) in
  let! kmax := bestForward e ks (-1) (- limit e - 1) in
  if kmax <? - limit e then Panic else
  let! f := forwardlcs e (limit e) kmax in
  let! kmax := bestBackward e ks (2 ^ 25) kmax in
  if kmax <? - limit e then Panic else
  let! b := backwardlcs e (limit e) kmax in
  Ok (fix_ (f ++ b))
  end.

(** [pf], [pb]: what the pool hands out. *)
Definition compute (pf pb : label) (limit : Z) : res (list Diff * lcs) :=
  let limit := if limit <=? 0 then 2 ^ 25 else limit in
  let e := mkGraph pf pb limit 0 0 (blen A) (blen B) (blen A - blen B) in
  let! l := twosided e in
  Ok (toDiffs l (blen A) (blen B), l).

End Search.

Definition DiffBytes (pf pb : label) (a b : bytes) : res (list Diff) :=
  let! '(ds, _) := compute a b pf pb (maxDiffs / 2) in Ok ds.

End Lcs.
