(* ===== verification/LcsFacts.v ===== *)
(** * Facts about the common-subsequence search (src/internal/patch/lcs)

    Whatever the search finds, its diagonals are matching pieces of the two values in
    increasing order ([chain]), so the edits between them rebuild the second value. *)

From stdpp Require Import gmap.
From S2P Require Import Prelude Types GoBinary Patch Lcs.
From Stdlib Require Import Permutation.

Import Lcs.

Section Chains.
Context (A B : bytes).

(** Offsets [x] of [A] and [y] of [B] hold the same byte. *)
Definition same (x y : Z) : Prop :=
  0 <= x < blen A /\ 0 <= y < blen B /\ A !! Z.to_nat x = B !! Z.to_nat y.

Definition diagOk (d : diag) : Prop :=
  1 <= Len d /\ forall i, 0 <= i < Len d -> same (X d + i) (Y d + i).

(** Diagonals that lie one after the other between two points of the edit graph. *)
Fixpoint chain (px py qx qy : Z) (l : lcs) : Prop :=
  match l with
  | [] => px <= qx /\ py <= qy
  | d :: l => px <= X d /\ py <= Y d /\ diagOk d /\ chain (X d + Len d) (Y d + Len d) qx qy l
  end.

Lemma chain_bounds px py qx qy l : chain px py qx qy l -> px <= qx /\ py <= qy.
Proof.
  revert px py. induction l as [|d l IH]; intros px py; simpl; [done|].
  intros (? & ? & [? _] & Hc). apply IH in Hc. lia.
Qed.

Lemma chain_weaken px py qx qy px' py' qx' qy' l :
  chain px py qx qy l -> px' <= px -> py' <= py -> qx <= qx' -> qy <= qy' -> chain px' py' qx' qy' l.
Proof.
  revert px py px' py'. induction l as [|d l IH]; intros px py px' py'; simpl; [lia|].
  intros (? & ? & ? & Hc) ? ? ? ?. do 2 (split; [lia|]). split; [done|]. eapply IH; [done|lia..].
Qed.

Lemma chain_concat px py mx my qx qy l l' :
  chain px py mx my l -> chain mx my qx qy l' -> chain px py qx qy (l ++ l').
Proof.
  revert px py. induction l as [|d l IH]; intros px py; simpl.
  - intros [? ?] Hc. eapply chain_weaken; [done|lia..].
  - intros (? & ? & ? & Hc) Hc'. eauto.
Qed.

Lemma chain_diagOk px py qx qy l : chain px py qx qy l -> Forall diagOk l.
Proof. revert px py. induction l as [|d l IH]; intros px py; simpl; [constructor|]. intros (? & ? & ? & ?). constructor; eauto. Qed.

(** ** Growing a path by one step of a diagonal *)

Lemma diag1_ok x y : same x y -> diagOk (mkDiag x y 1).
Proof. intros Hs. split; simpl; [lia|]. intros i Hi. replace i with 0 by lia. by rewrite !Z.add_0_r. Qed.

Lemma prepend_chain x y qx qy l :
  chain (x + 1) (y + 1) qx qy l -> same x y -> chain x y qx qy (prepend l x y).
Proof.
  intros Hc Hs. pose proof (diag1_ok _ _ Hs) as D. unfold prepend. destruct l as [|d l].
  - simpl in *. do 2 (split; [lia|]). split; [done|lia].
  - destruct Hc as (? & ? & [? Hm] & Hc). destruct (_ && _) eqn:E; simpl; do 2 (split; [lia|]).
    + apply andb_true_iff in E as [E1 E2]. apply Z.eqb_eq in E1, E2.
      split; [split; simpl; [lia|]|eapply chain_weaken; [exact Hc|lia..]].
      intros i Hi. destruct (Z.eq_dec i 0) as [->|]; [by rewrite !Z.add_0_r|].
      specialize (Hm (i - 1) ltac:(lia)).
      replace (X d + (i - 1)) with (x + i) in Hm by lia. by replace (Y d + (i - 1)) with (y + i) in Hm by lia.
    + split; [done|]. do 2 (split; [lia|]). by split.
Qed.

Lemma append_snoc l d x y :
  append (l ++ [d]) x y
  = if (X d + Len d =? x) && (Y d + Len d =? y) then l ++ [mkDiag (X d) (Y d) (Len d + 1)]
    else l ++ [d; mkDiag x y 1].
Proof.
  unfold append. rewrite last_snoc. destruct (_ && _).
  - f_equal. rewrite length_app. simpl. replace (length l + 1 - 1)%nat with (length l) by lia.
    by rewrite take_app_length.
  - by rewrite <- app_assoc.
Qed.

Lemma chain_snoc px py qx qy l d :
  chain px py qx qy (l ++ [d]) ->
  chain px py (X d) (Y d) l /\ diagOk d /\ X d + Len d <= qx /\ Y d + Len d <= qy.
Proof.
  revert px py. induction l as [|e l IH]; intros px py; simpl; [tauto|].
  intros (? & ? & ? & Hc). apply IH in Hc as (? & ? & ? & ?). tauto.
Qed.

Lemma append_chain px py x y l :
  chain px py x y l -> same x y -> chain px py (x + 1) (y + 1) (append l x y).
Proof.
  intros Hc Hs. pose proof (diag1_ok _ _ Hs) as D. destruct l as [|d l _] using rev_ind.
  - simpl in *. do 2 (split; [lia|]). split; [done|lia].
  - rewrite append_snoc. apply chain_snoc in Hc as (Hc & [Hd Hm] & ? & ?). destruct (_ && _) eqn:E.
    + apply andb_true_iff in E as [E1 E2]. apply Z.eqb_eq in E1, E2.
      eapply chain_concat; [exact Hc|]. simpl. do 2 (split; [lia|]). split; [split; simpl; [lia|]|lia].
      intros i Hi. destruct (Z.eq_dec i (Len d)) as [->|]; [by rewrite E1, E2|]. apply Hm. lia.
    + eapply chain_concat; [exact Hc|]. simpl. do 2 (split; [lia|]). split; [by split|].
      do 2 (split; [lia|]). split; [done|lia].
Qed.

(** ** From a chain to edits *)

Lemma drop_same x y : same x y ->
  exists c, drop (Z.to_nat x) A = c :: drop (Z.to_nat (x + 1)) A
         /\ drop (Z.to_nat y) B = c :: drop (Z.to_nat (y + 1)) B.
Proof.
  intros (Hx & Hy & E). destruct (A !! Z.to_nat x) as [c|] eqn:EA.
  - exists c. replace (Z.to_nat (x + 1)) with (S (Z.to_nat x)) by lia.
    replace (Z.to_nat (y + 1)) with (S (Z.to_nat y)) by lia.
    split; by rewrite <- drop_S by done.
  - apply lookup_ge_None in EA. unfold blen in Hx. lia.
Qed.

Lemma edits_same x y ds : same x y -> edits A B (x + 1) (y + 1) ds -> edits A B x y ds.
Proof.
  intros Hs He. destruct (drop_same _ _ Hs) as (c & EA & EB). destruct Hs as (Hx & Hy & _).
  inversion He as [? ? ? ? Hd|? ? d ds' H1 H2 H3 H4 H5 H6 H7]; subst.
  - constructor; try lia. by rewrite EA, EB, Hd.
  - constructor; try lia; try done. rewrite EA, EB.
    replace (Z.to_nat (Start d - x)) with (S (Z.to_nat (Start d - (x + 1)))) by lia.
    replace (Z.to_nat (ReplStart d - y)) with (S (Z.to_nat (ReplStart d - (y + 1)))) by lia.
    simpl. by rewrite H5.
Qed.

Lemma edits_diag x y n ds :
  0 <= n -> (forall i, 0 <= i < n -> same (x + i) (y + i)) ->
  edits A B (x + n) (y + n) ds -> edits A B x y ds.
Proof.
  intros Hn. revert x y. pattern n. apply natlike_ind; [|clear n Hn|done].
  - intros x y _. by rewrite !Z.add_0_r.
  - intros n Hn IH x y Hm He. apply edits_same.
    + specialize (Hm 0 ltac:(lia)). by rewrite !Z.add_0_r in Hm.
    + apply IH.
      * intros i Hi. specialize (Hm (i + 1) ltac:(lia)).
        replace (x + 1 + i) with (x + (i + 1)) by lia. by replace (y + 1 + i) with (y + (i + 1)) by lia.
      * replace (x + 1 + n) with (x + Z.succ n) by lia. by replace (y + 1 + n) with (y + Z.succ n) by lia.
Qed.

Lemma edits_here pa pb x y x' y' ds :
  0 <= pa <= x -> 0 <= pb <= y -> x <= blen A -> y <= blen B -> x = x' -> y = y' ->
  edits A B x y ds ->
  edits A B pa pb ((if (pa <? x) || (pb <? y) then [mkDiff pa x' pb y'] else []) ++ ds).
Proof.
  intros ? ? ? ? <- <- He. destruct ((pa <? x) || (pb <? y)) eqn:E.
  - simpl. constructor; simpl; try lia; try done.
    rewrite !Z.sub_diag. done.
  - apply orb_false_iff in E as [E1 E2]. apply Z.ltb_ge in E1, E2.
    assert (pa = x) as -> by lia. assert (pb = y) as -> by lia. done.
Qed.

Lemma toDiffsLoop_edits l pa pb :
  0 <= pa -> 0 <= pb -> chain pa pb (blen A) (blen B) l ->
  edits A B pa pb (toDiffsLoop l pa pb (blen A) (blen B)).
Proof.
  revert pa pb. induction l as [|d l IH]; intros pa pb Ha Hb Hc; simpl.
  - destruct Hc as [? ?].
    rewrite <- (app_nil_r (if (pa <? blen A) || (pb <? blen B) then [mkDiff pa (blen A) pb (blen B)] else [])).
    apply edits_here; try lia. constructor; [lia..|]. rewrite !drop_ge; [done|unfold blen; lia..].
  - destruct Hc as (? & ? & [? Hm] & Hc). pose proof (chain_bounds _ _ _ _ _ Hc).
    apply edits_here; try lia. apply edits_diag with (n := Len d); [lia|done|]. apply IH; [lia..|done].
Qed.

(** Every edit uses up a byte, and two edits are a matching byte apart. *)
Lemma toDiffsLoop_few l pa pb :
  chain pa pb (blen A) (blen B) l ->
  3 * blen (toDiffsLoop l pa pb (blen A) (blen B)) <= (blen A - pa) + (blen B - pb) + 2.
Proof.
  revert pa pb. induction l as [|d l IH]; intros pa pb Hc; simpl.
  - destruct Hc as [? ?]. destruct (_ || _) eqn:E; [|rewrite (@blen_nil Diff); lia].
    apply orb_true_iff in E. rewrite !Z.ltb_lt in E. rewrite blen_cons, (@blen_nil Diff). lia.
  - destruct Hc as (? & ? & [? _] & Hc). specialize (IH _ _ Hc). rewrite blen_app.
    destruct (_ || _) eqn:E; [|rewrite (@blen_nil Diff); lia].
    apply orb_true_iff in E. rewrite !Z.ltb_lt in E. rewrite blen_cons, (@blen_nil Diff). lia.
Qed.

(** ** Sorting and repairing *)

(** Two diagonals that a common subsequence may contain together. *)
Definition before (d e : diag) : Prop := X d + Len d <= X e /\ Y d + Len d <= Y e.
Definition apart (d e : diag) : Prop := before d e \/ before e d.

Definition inBox (px py qx qy : Z) (d : diag) : Prop :=
  px <= X d /\ py <= Y d /\ X d + Len d <= qx /\ Y d + Len d <= qy.

Lemma apart_perm l l' : l ≡ₚ l' -> ForallOrdPairs apart l -> ForallOrdPairs apart l'.
Proof.
  induction 1 as [|x l l' Hp IH|x y l|l l' l'' _ IH1 _ IH2]; intros Hf.
  - constructor.
  - inversion Hf; subst. constructor; [by rewrite <- Hp|auto].
  - inversion Hf as [|? ? Hx Hf']; subst. inversion Hf' as [|? ? Hy Hf'']; subst.
    inversion Hx as [|? ? Hxy Hx']; subst.
    constructor; [constructor; [by destruct Hxy; [right|left]|done]|by constructor].
  - auto.
Qed.

Lemma apart_snoc l d : ForallOrdPairs apart l -> Forall (fun e => apart e d) l -> ForallOrdPairs apart (l ++ [d]).
Proof.
  intros Hl Hd. apply (apart_perm (d :: l)); [by rewrite Permutation_app_comm|].
  constructor; [|done]. eapply Forall_impl; [exact Hd|]. intros e [?|?]; [by right|by left].
Qed.

Lemma chain_inBox px py qx qy l : chain px py qx qy l -> Forall (inBox px py qx qy) l.
Proof.
  revert px py. induction l as [|d l IH]; intros px py; simpl; [constructor|].
  intros (? & ? & [? _] & Hc). pose proof (chain_bounds _ _ _ _ _ Hc).
  constructor; [unfold inBox; lia|]. eapply Forall_impl; [by apply IH|]. unfold inBox. intros e He. lia.
Qed.

Lemma chain_apart px py qx qy l : chain px py qx qy l -> ForallOrdPairs apart l.
Proof.
  revert px py. induction l as [|d l IH]; intros px py; simpl; [constructor|].
  intros (? & ? & [? _] & Hc). constructor; [|eauto].
  apply chain_inBox in Hc. eapply Forall_impl; [exact Hc|]. unfold inBox. intros e He. left. unfold before. lia.
Qed.

Lemma sorted_chain px py qx qy l :
  px <= qx -> py <= qy -> StronglySorted (fun d e => X d <= X e) l -> ForallOrdPairs apart l ->
  Forall diagOk l -> Forall (inBox px py qx qy) l -> chain px py qx qy l.
Proof.
  intros Hx Hy. revert px py Hx Hy. induction l as [|d l IH]; intros px py Hx Hy Hs Ha Hd Hb; simpl; [done|].
  apply StronglySorted_inv in Hs as [Hs Hle]. inversion Ha as [|? ? Had Ha']; subst.
  apply Forall_cons in Hd as [Hd Hds]. apply Forall_cons in Hb as [(? & ? & ? & ?) Hbs].
  do 2 (split; [done|]). split; [done|]. apply IH; try done.
  apply Forall_forall. intros e He. rewrite Forall_forall in Hle, Had, Hbs, Hds.
  specialize (Hle e He). specialize (Had e He). specialize (Hbs e He). destruct (Hds e He).
  unfold inBox, apart, before in *. lia.
Qed.

Lemma insertSorted_perm less x l : insertSorted less x l ≡ₚ x :: l.
Proof.
  induction l as [|y l IH]; simpl; [done|]. destruct (less x y); [done|]. rewrite IH. apply Permutation_swap.
Qed.

Lemma foldl_insert_perm less l acc : foldl (fun acc x => insertSorted less x acc) acc l ≡ₚ l ++ acc.
Proof.
  revert acc. induction l as [|x l IH]; intros acc; simpl; [done|].
  rewrite IH, insertSorted_perm. by rewrite Permutation_middle.
Qed.

Lemma sortSlice_perm less l : sortSlice less l ≡ₚ l.
Proof. unfold sortSlice. by rewrite foldl_insert_perm, app_nil_r. Qed.

Lemma insertSorted_sorted x l :
  StronglySorted (fun d e => X d <= X e) l -> StronglySorted (fun d e => X d <= X e) (insertSorted byX x l).
Proof.
  induction l as [|y l IH]; intros Hs; simpl; [by repeat constructor|].
  apply StronglySorted_inv in Hs as [Hs Hy]. destruct (byX x y) eqn:E; unfold byX in E.
  - assert (X x <= X y) by (destruct (Z.eqb_spec (X x) (X y)); simpl in E; lia).
    constructor; [by constructor|]. constructor; [done|]. eapply Forall_impl; [exact Hy|]. simpl. lia.
  - assert (X y <= X x) by (destruct (Z.eqb_spec (X x) (X y)); simpl in E; lia).
    constructor; [auto|]. rewrite insertSorted_perm. by constructor.
Qed.

Lemma sort_sorted l : StronglySorted (fun d e => X d <= X e) (sort l).
Proof.
  unfold sort, sortSlice. generalize (SSorted_nil (fun d e => X d <= X e)). generalize (@nil diag).
  induction l as [|x l IH]; intros acc Hs; simpl; [done|]. apply IH. by apply insertSorted_sorted.
Qed.

Lemma sort_chain px py qx qy l :
  px <= qx -> py <= qy -> ForallOrdPairs apart l -> Forall diagOk l -> Forall (inBox px py qx qy) l ->
  chain px py qx qy (sort l).
Proof.
  intros ? ? Ha Hd Hb. pose proof (sortSlice_perm byX l : sort l ≡ₚ l) as Hp.
  apply sorted_chain; try done; [apply sort_sorted|by eapply apart_perm|by rewrite Hp|by rewrite Hp].
Qed.

(** Two chains that meet, in either order, sort into one. *)
Lemma sort_perm_chain px py qx qy l l' : l' ≡ₚ l -> chain px py qx qy l -> chain px py qx qy (sort l').
Proof.
  intros Hp Hc. pose proof (chain_bounds _ _ _ _ _ Hc). apply sort_chain; [lia|lia|..].
  - eapply apart_perm; [symmetry; exact Hp|]. by eapply chain_apart.
  - rewrite Hp. by eapply chain_diagOk.
  - rewrite Hp. by apply chain_inBox.
Qed.

(** [p'] is a part of diagonal [p]. *)
Definition part (p p' : diag) : Prop :=
  exists o, 0 <= o /\ X p' = X p + o /\ Y p' = Y p + o /\ 1 <= Len p' /\ o + Len p' <= Len p.

Lemma part_ok p p' : diagOk p -> part p p' -> diagOk p'.
Proof.
  intros [_ Hm] (o & ? & Ex & Ey & ? & ?). split; [done|]. intros i Hi.
  rewrite Ex, Ey, <- !Z.add_assoc. apply Hm. lia.
Qed.

Lemma part_trans p q r : part p q -> part q r -> part p r.
Proof. intros (o & ?) (o' & ?). exists (o + o'). lia. Qed.

Lemma part_apart e p p' : apart e p -> part p p' -> apart e p'.
Proof. intros Ha (o & ?). unfold apart, before in *. lia. Qed.

Lemma part_refl p : 1 <= Len p -> part p p.
Proof. intros. exists 0. lia. Qed.

Lemma trimEnd_spec p e d stop d' :
  1 <= Len d -> trimEnd p e d = (stop, d') -> if stop then Len d' <= 0 else part d d'.
Proof.
  intros Hd. unfold trimEnd. destruct (_ && _) eqn:E; intros Hs; injection Hs as <- <-; [|by apply part_refl].
  apply andb_true_iff in E as [E1 E2]. apply Z.leb_le in E1. apply Z.ltb_lt in E2. simpl.
  destruct (Z.leb_spec (Len d - (p + Len d - e)) 0); [done|]. exists 0. simpl. lia.
Qed.

Lemma trimBegin_spec e n p d stop d' :
  1 <= Len d -> trimBegin e n p d = (stop, d') -> if stop then Len d' <= 0 else part d d'.
Proof.
  intros Hd. unfold trimBegin. destruct (_ && _) eqn:E; [|intros Hs; injection Hs as <- <-; by apply part_refl].
  apply andb_true_iff in E as [E1 E2]. apply Z.leb_le in E1. apply Z.ltb_lt in E2. simpl.
  destruct (Z.leb_spec (Len d - (e + n - p)) 0); intros Hs; injection Hs as <- <-; [done|].
  exists (e + n - p). simpl. lia.
Qed.

Lemma part_len p p' : part p p' -> 1 <= Len p'.
Proof. intros (o & ?). lia. Qed.

Lemma overlap_spec e p dir p' :
  1 <= Len p -> overlap e p = (dir, p') ->
  match dir with
  | empty => Len p' <= 0
  | bad => True
  | _ => part p p' /\ apart e p'
  end.
Proof.
  intros Hp. unfold overlap.
  destruct (trimEnd (X p) (X e) p) as [s1 p1] eqn:E1. apply trimEnd_spec in E1; [|done].
  destruct s1; cbv beta iota; [intros Hs; by inversion Hs; subst|]. pose proof (part_len _ _ E1).
  destruct (trimBegin (X e) (Len e) (X p1) p1) as [s2 p2] eqn:E2. apply trimBegin_spec in E2; [|done].
  destruct s2; cbv beta iota; [intros Hs; by inversion Hs; subst|]. pose proof (part_len _ _ E2).
  destruct (trimEnd (Y p2) (Y e) p2) as [s3 p3] eqn:E3. apply trimEnd_spec in E3; [|done].
  destruct s3; cbv beta iota; [intros Hs; by inversion Hs; subst|]. pose proof (part_len _ _ E3).
  destruct (trimBegin (Y e) (Len e) (Y p3) p3) as [s4 p4] eqn:E4. apply trimBegin_spec in E4; [|done].
  destruct s4; cbv beta iota; [intros Hs; by inversion Hs; subst|].
  assert (part p p4) by eauto using part_trans.
  destruct (Z.leb_spec (X p4 + Len p4) (X e)), (Z.leb_spec (Y p4 + Len p4) (Y e)),
    (Z.leb_spec (X e + Len e) (X p4)), (Z.leb_spec (Y e + Len e) (Y p4)); cbn [andb];
    intros Hs; inversion Hs; subst; try done; (split; [done|]); unfold apart, before; lia.
Qed.

Lemma fixOne_spec tmp dir p dir' p' :
  1 <= Len p -> fixOne tmp dir p = (dir', p') -> dir' <> bad -> 1 <= Len p' ->
  part p p' /\ Forall (fun e => apart e p') tmp.
Proof.
  revert dir p. induction tmp as [|e tmp IH]; intros dir p Hp; simpl.
  - intros E ? ?. injection E as <- <-. split; [by apply part_refl|constructor].
  - destruct (overlap e p) as [d q] eqn:E. apply overlap_spec in E; [|done].
    intros F Hb Hl. destruct d.
    + injection F as <- <-. lia.
    + destruct E as [Hq Ha]. destruct (IH _ _ (part_len _ _ Hq) F Hb Hl) as [Hr Hf].
      split; [by eapply part_trans|]. constructor; [by eapply part_apart|done].
    + destruct E as [Hq Ha]. destruct (IH _ _ (part_len _ _ Hq) F Hb Hl) as [Hr Hf].
      split; [by eapply part_trans|]. constructor; [by eapply part_apart|done].
    + injection F as <- <-. done.
Qed.

Lemma fixLoop_spec l tmp :
  Forall diagOk tmp -> Forall diagOk l -> ForallOrdPairs apart tmp ->
  Forall diagOk (fixLoop tmp l) /\ ForallOrdPairs apart (fixLoop tmp l).
Proof.
  revert tmp. induction l as [|p l IH]; intros tmp Ht Hl Ha; simpl; [done|].
  apply Forall_cons in Hl as [Hp Hl]. destruct (fixOne tmp empty p) as [dir q] eqn:E.
  destruct (_ && _) eqn:K; [|by apply IH]. apply andb_true_iff in K as [K1 K2]. apply Z.ltb_lt in K1.
  destruct (fixOne_spec _ _ _ _ _ (proj1 Hp) E) as [Hq Hf]; [by intros ->|lia|].
  apply IH; [|done|by apply apart_snoc].
  apply Forall_app. split; [done|]. constructor; [by eapply part_ok|constructor].
Qed.

Lemma diagOk_inBox d : diagOk d -> inBox 0 0 (blen A) (blen B) d.
Proof.
  intros [Hd Hm]. destruct (Hm 0 ltac:(lia)) as (? & ? & _). destruct (Hm (Len d - 1) ltac:(lia)) as (? & ? & _).
  unfold inBox. lia.
Qed.

Lemma fix_chain l : Forall diagOk l -> chain 0 0 (blen A) (blen B) (fix_ l).
Proof.
  intros Hl. unfold fix_. pose proof (sortSlice_perm byLen l) as Hp.
  pose proof (blen_nonneg A). pose proof (blen_nonneg B).
  destruct (sortSlice byLen l) as [|d l']; [done|].
  rewrite <- Hp in Hl. apply Forall_cons in Hl as [Hd Hl].
  destruct (fixLoop_spec l' [d]) as [Hf Ha]; [by constructor|done|by repeat constructor|].
  apply sort_chain; try done. eapply Forall_impl; [exact Hf|]. apply diagOk_inBox.
Qed.

End Chains.
