(* ===== verification/LcsSearch.v ===== *)
(** * The two-sided search: labels and paths (src/internal/patch/lcs/old.go)

    The labels of each direction satisfy a recurrence ([Fwd], [Bwd]); backtracking from
    any label yields a chain of matching diagonals; and as long as the corner of the
    rectangle has not been labelled, some label lies inside it, so a search that hits its
    limit always has a partial path to offer. *)

From stdpp Require Import gmap.
From S2P Require Import Prelude Types GoBinary Patch Lcs LcsFacts.

Import Lcs.

(** ** Labels *)

Definition lab (t : label) (D k : Z) : Z := default 0 (t !! (D, (D + k) ÷ 2)).
Definition has (t : label) (D k : Z) : Prop := is_Some (t !! (D, (D + k) ÷ 2)).

(** Level [D] labels the diagonals [-D, -D+2, ..., D]. *)
Definition lvl (D k : Z) : Prop := 0 <= D /\ - D <= k <= D /\ (D + k) mod 2 = 0.

Lemma lvl_quot D k : lvl D k -> (D + k) ÷ 2 = (D + k) / 2 /\ 0 <= (D + k) / 2 <= D.
Proof.
  intros (? & ? & ?). split; [apply Z.quot_div_nonneg; lia|].
  split; [apply Z.div_pos; lia|]. apply Z.div_le_upper_bound; lia.
Qed.

Lemma lget_lab t D k : has t D k -> lget t D k = Ok (lab t D k).
Proof. unfold has, lget, lab. by intros [x ->]. Qed.

Lemma lset_ok t D k x : lvl D k -> lset t D k x = Ok (<[(D, (D + k) ÷ 2) := x]> t).
Proof. intros Hl. destruct (lvl_quot _ _ Hl) as [E ?]. unfold lset. rewrite E. zcases; try lia. done. Qed.

Lemma has_set t D k x D' k' : has t D' k' -> has (<[(D, (D + k) ÷ 2) := x]> t) D' k'.
Proof. unfold has. intros Hh. destruct (decide ((D, (D + k) ÷ 2) = (D', (D' + k') ÷ 2))) as [->|].
  - rewrite lookup_insert_eq. eauto.
  - by rewrite lookup_insert_ne.
Qed.

Lemma has_set_eq t D k x : has (<[(D, (D + k) ÷ 2) := x]> t) D k.
Proof. unfold has. rewrite lookup_insert_eq. eauto. Qed.

Lemma lab_set_eq t D k x : lab (<[(D, (D + k) ÷ 2) := x]> t) D k = x.
Proof. unfold lab. by rewrite lookup_insert_eq. Qed.

Lemma lab_set_level t D k x D' k' : D <> D' -> lab (<[(D, (D + k) ÷ 2) := x]> t) D' k' = lab t D' k'.
Proof. intros Hd. unfold lab. rewrite lookup_insert_ne; [done|]. congruence. Qed.

Lemma lab_set_ne t D k x k' :
  lvl D k -> lvl D k' -> k <> k' -> lab (<[(D, (D + k) ÷ 2) := x]> t) D k' = lab t D k'.
Proof.
  intros Hl Hl' Hk. unfold lab. rewrite lookup_insert_ne; [done|].
  destruct (lvl_quot _ _ Hl) as [-> _]. destruct (lvl_quot _ _ Hl') as [-> _].
  destruct Hl as (_ & _ & M), Hl' as (_ & _ & M'). intros E. injection E as E.
  apply Z.div_exact in M, M'; lia.
Qed.

Lemma elem_evens k k0 k1 : k ∈ evens k0 k1 <-> k0 <= k <= k1 /\ (k - k0) mod 2 = 0.
Proof.
  unfold evens. rewrite list_elem_of_fmap. split.
  - intros (i & -> & Hi). apply elem_of_seq in Hi.
    replace (k0 + 2 * Z.of_nat i - k0) with (Z.of_nat i * 2) by lia. rewrite Z.mod_mul by lia.
    destruct (Z.le_gt_cases 0 (k1 - k0)).
    + pose proof (Z.mul_div_le (k1 - k0) 2). lia.
    + assert ((k1 - k0) / 2 < 0) by (apply Z.div_lt_upper_bound; lia). lia.
  - intros [Hk Hm]. apply Z.div_exact in Hm; [|lia]. exists (Z.to_nat ((k - k0) / 2)).
    assert (0 <= (k - k0) / 2 <= (k1 - k0) / 2) by (split; [apply Z.div_pos|apply Z.div_le_mono]; lia).
    split; [lia|]. apply elem_of_seq. lia.
Qed.

Lemma lvl_cases D k :
  lvl (D + 1) k -> 0 <= D -> k = - (D + 1) \/ k = D + 1 \/ k ∈ evens (- D + 1) (D - 1).
Proof.
  intros (? & ? & M) ?. destruct (Z.eq_dec k (- (D + 1))); [by left|].
  destruct (Z.eq_dec k (D + 1)); [by right; left|]. right; right. apply elem_evens.
  assert ((k - (- D + 1)) mod 2 = 0).
  { replace (k - (- D + 1)) with (D + 1 + k + (-1) * 2) by lia. by rewrite Z.mod_add by lia. }
  assert (k <> - D) by (intros ->; replace (D + 1 + - D) with 1 in M by lia; done).
  assert (k <> D) by (intros ->; replace (D + 1 + D) with (1 + D * 2) in M by lia;
                      rewrite Z.mod_add in M by lia; done).
  lia.
Qed.

Lemma lvl_mod D k D' k' : lvl D k -> (D' + k' - (D + k)) mod 2 = 0 -> 0 <= D' -> - D' <= k' <= D' -> lvl D' k'.
Proof.
  intros (_ & _ & M) M' ? ?. split; [done|]. split; [done|].
  replace (D' + k') with ((D' + k' - (D + k)) + (D + k)) by lia.
  by rewrite Z.add_mod, M, M' by lia.
Qed.

(** ** Common prefixes and suffixes *)

Lemma commonPrefixLen_spec a b :
  let n := commonPrefixLenBytes a b in
  0 <= n /\ n <= blen a /\ n <= blen b /\ forall i, 0 <= i < n -> a !! Z.to_nat i = b !! Z.to_nat i.
Proof.
  cbv zeta. revert b. induction a as [|x a IH]; intros [|y b]; cbn [commonPrefixLenBytes];
    try (split; [lia|]; split; [apply blen_nonneg|]; split; [apply blen_nonneg|]; lia).
  destruct (decide (x = y)) as [->|].
  - specialize (IH b) as (? & ? & ? & Hi). rewrite !blen_cons. split; [lia|]. do 2 (split; [lia|]).
    intros i Hi'. destruct (Z.eq_dec i 0) as [->|]; [done|].
    replace (Z.to_nat i) with (S (Z.to_nat (i - 1))) by lia. simpl. apply Hi. lia.
  - split; [lia|]. split; [apply blen_nonneg|]. split; [apply blen_nonneg|]. lia.
Qed.

Lemma lvl_end D : 0 <= D -> lvl D (- D) /\ lvl D D.
Proof.
  intros. unfold lvl. rewrite Z.add_opp_diag_r. replace (D + D) with (D * 2) by lia. rewrite Z.mod_mul by lia.
  repeat split; lia || done.
Qed.

(** ** Labels of a rectangle

    What both directions have in common: [f D k] is how far right level [D] reaches on
    diagonal [k] of a rectangle [U] wide and [V] high, [f D k - k] how far up. *)

Record Grid (U V : Z) (f : Z -> Z -> Z) (n : Z) : Prop := {
  gr_start : f 0 0 <= U /\ f 0 0 <= V;
  gr_v D k : 0 <= D < n -> lvl (D + 1) k -> lvl D (k - 1) -> f D (k - 1) + 1 <= f (D + 1) k;
  gr_h D k : 0 <= D < n -> lvl (D + 1) k -> lvl D (k + 1) -> f D (k + 1) <= f (D + 1) k;
  (* a label outside the rectangle is one step from the level below *)
  gr_out D k : 0 <= D < n -> lvl (D + 1) k -> U < f (D + 1) k \/ V < f (D + 1) k - k ->
    (lvl D (k - 1) /\ f (D + 1) k = f D (k - 1) + 1) \/ (lvl D (k + 1) /\ f (D + 1) k = f D (k + 1))
}.

Lemma lvl_ind n (P : Z -> Z -> Prop) :
  P 0 0 -> (forall D k, 0 <= D < n -> lvl (D + 1) k -> (forall k', lvl D k' -> P D k') -> P (D + 1) k) ->
  forall D k, lvl D k -> D <= n -> P D k.
Proof.
  intros H0 HS D. destruct (Z.lt_ge_cases D 0) as [?|HD]; [intros k (? & _); lia|].
  revert D HD. apply (natlike_ind (fun D => forall k, lvl D k -> D <= n -> P D k)).
  - intros k (_ & ? & _) _. by assert (k = 0) as -> by lia.
  - intros D HD IH k Hl Hn. change (Z.succ D) with (D + 1) in *.
    apply HS; try done; [lia|]. intros k' Hl'. apply IH; [done|lia].
Qed.

Section Inside.
Context (U V : Z) (f : Z -> Z -> Z) (n : Z) (HG : Grid U V f n).

(** The level above has a label at least one to the right of, or right below, each label. *)
Lemma Grid_right_of D k : lvl D k -> 0 <= D < n -> lvl (D + 1) (k + 1) /\ f D k + 1 <= f (D + 1) (k + 1).
Proof.
  intros Hl HD. pose proof Hl as (_ & ? & _).
  assert (Hl' : lvl (D + 1) (k + 1)).
  { eapply lvl_mod; [exact Hl| |lia|lia]. by replace (D + 1 + (k + 1) - (D + k)) with 2 by lia. }
  split; [done|]. pose proof (gr_v _ _ _ _ HG D _ HD Hl') as Hv.
  replace (k + 1 - 1) with k in Hv by lia. auto.
Qed.

Lemma Grid_below D k : lvl D k -> 0 <= D < n -> lvl (D + 1) (k - 1) /\ f D k <= f (D + 1) (k - 1).
Proof.
  intros Hl HD. pose proof Hl as (_ & ? & _).
  assert (Hl' : lvl (D + 1) (k - 1)).
  { eapply lvl_mod; [exact Hl| |lia|lia]. by replace (D + 1 + (k - 1) - (D + k)) with 0 by lia. }
  split; [done|]. pose proof (gr_h _ _ _ _ HG D _ HD Hl') as Hh.
  replace (k - 1 + 1) with k in Hh by lia. auto.
Qed.

(** A label above the top by [j] is matched by one [j] further right, [2j] diagonals up. *)
Lemma Grid_top D k :
  lvl D k -> D <= n -> forall j, 0 <= j -> f D k - k = V + j ->
  lvl D (k + 2 * j) /\ f D k + j <= f D (k + 2 * j).
Proof.
  revert D k. refine (lvl_ind n (fun D k => forall j, 0 <= j -> f D k - k = V + j ->
    lvl D (k + 2 * j) /\ f D k + j <= f D (k + 2 * j)) _ _).
  - intros j Hj Ev. pose proof (gr_start _ _ _ _ HG).
    assert (j = 0) as -> by lia. split; [done|]. change (0 + 2 * 0) with 0. lia.
  - intros D k HD Hl IH j Hj Ev. destruct (Z.eq_dec j 0) as [->|].
    { replace (k + 2 * 0) with k by lia. split; [done|lia]. }
    destruct (gr_out _ _ _ _ HG D k HD Hl) as [[Hp E]|[Hp E]]; [lia|..].
    + destruct (IH _ Hp j) as [Hl' Hle]; [lia|lia|]. destruct (Grid_right_of _ _ Hl' HD) as [Hl'' Hle'].
      replace (k - 1 + 2 * j + 1) with (k + 2 * j) in * by lia. split; [done|lia].
    + destruct (IH _ Hp (j - 1)) as [Hl' Hle]; [lia|lia|]. destruct (Grid_right_of _ _ Hl' HD) as [Hl'' Hle'].
      replace (k + 1 + 2 * (j - 1) + 1) with (k + 2 * j) in * by lia. split; [done|lia].
Qed.

(** A label right of the side by [j] is matched by one that reaches it [2j] diagonals down. *)
Lemma Grid_side D k :
  lvl D k -> D <= n -> forall j, 0 <= j -> f D k = U + j -> lvl D (k - 2 * j) /\ U <= f D (k - 2 * j).
Proof.
  revert D k. refine (lvl_ind n (fun D k => forall j, 0 <= j -> f D k = U + j ->
    lvl D (k - 2 * j) /\ U <= f D (k - 2 * j)) _ _).
  - intros j Hj Ev. pose proof (gr_start _ _ _ _ HG).
    assert (j = 0) as -> by lia. split; [done|]. change (0 - 2 * 0) with 0. lia.
  - intros D k HD Hl IH j Hj Ev. destruct (Z.eq_dec j 0) as [->|].
    { replace (k - 2 * 0) with k by lia. split; [done|lia]. }
    destruct (gr_out _ _ _ _ HG D k HD Hl) as [[Hp E]|[Hp E]]; [lia|..].
    + destruct (IH _ Hp (j - 1)) as [Hl' Hle]; [lia|lia|]. destruct (Grid_below _ _ Hl' HD) as [Hl'' Hle'].
      replace (k - 1 - 2 * (j - 1) - 1) with (k - 2 * j) in * by lia. split; [done|lia].
    + destruct (IH _ Hp j) as [Hl' Hle]; [lia|lia|]. destruct (Grid_below _ _ Hl' HD) as [Hl'' Hle'].
      replace (k + 1 - 2 * j - 1) with (k - 2 * j) in * by lia. split; [done|lia].
Qed.

Definition cornerAt (D k : Z) : Prop := lvl D k /\ f D k = U /\ f D k - k = V.

(** A label beyond the corner means that the corner was labelled. *)
Lemma Grid_corner D k :
  lvl D k -> D <= n -> U <= f D k -> V <= f D k - k -> exists D' k', D' <= D /\ cornerAt D' k'.
Proof.
  revert D k. refine (lvl_ind n (fun D k => U <= f D k -> V <= f D k - k ->
    exists D' k', D' <= D /\ cornerAt D' k') _ _).
  - intros Hu Hv. pose proof (gr_start _ _ _ _ HG). exists 0, 0. split; [lia|].
    split; [split; [lia|split; [lia|done]]|lia].
  - intros D k HD Hl IH Hu Hv.
    assert (IH' : forall k', lvl D k' -> U <= f D k' -> V <= f D k' - k' ->
                    exists D' k', D' <= D + 1 /\ cornerAt D' k').
    { intros k' H1 H2 H3. destruct (IH k' H1 H2 H3) as (D' & k'' & ? & ?). exists D', k''. split; [lia|done]. }
    destruct (Z.eq_dec (f (D + 1) k) U) as [Eu|Nu];
      [destruct (Z.eq_dec (f (D + 1) k - k) V) as [Ev|Nv]; [by exists (D + 1), k|]|].
    all: destruct (gr_out _ _ _ _ HG D k HD Hl) as [[Hp E]|[Hp E]]; [lia|..].
    + destruct (Grid_top D (k - 1) Hp ltac:(lia) (f (D + 1) k - k - V)) as [Hl' Hle]; [lia|lia|].
      eapply IH'; [exact Hl'|lia|lia].
    + apply (IH' _ Hp); lia.
    + apply (IH' _ Hp); lia.
    + destruct (Z.le_gt_cases V (f D (k + 1) - (k + 1))); [apply (IH' _ Hp); lia|].
      destruct (Grid_side D (k + 1) Hp ltac:(lia) (f (D + 1) k - U)) as [Hl' Hle]; [lia|lia|].
      eapply IH'; [exact Hl'|lia|lia].
Qed.

Lemma top_exact m D k :
  lvl D k -> D <= n -> D - k <= Z.of_nat m -> V <= f D k - k -> exists k', lvl D k' /\ k <= k' /\ f D k' - k' = V.
Proof.
  revert k. induction m as [|m IH]; intros k Hl Hn Hm Hv.
  all: destruct (Z.eq_dec (f D k - k) V); [by exists k|].
  all: destruct (Grid_top D k Hl Hn (f D k - k - V)) as [Hl' Hle]; [lia|lia|].
  - destruct Hl' as (_ & ? & _). lia.
  - destruct (IH _ Hl') as (k' & ? & ? & ?); [lia|lia|lia|]. exists k'. split; [done|]. split; [lia|done].
Qed.

Lemma side_exact m D k :
  lvl D k -> D <= n -> D + k <= Z.of_nat m -> U <= f D k -> exists k', lvl D k' /\ k' <= k /\ f D k' = U.
Proof.
  revert k. induction m as [|m IH]; intros k Hl Hn Hm Hu.
  all: destruct (Z.eq_dec (f D k) U); [by exists k|].
  all: destruct (Grid_side D k Hl Hn (f D k - U)) as [Hl' Hle]; [lia|lia|].
  - destruct Hl' as (_ & ? & _). lia.
  - destruct (IH _ Hl') as (k' & ? & ? & ?); [lia|lia|lia|]. exists k'. split; [done|]. split; [lia|done].
Qed.

(** A search that has not labelled the corner still has a label inside. *)
Lemma Grid_inside :
  0 <= n -> (forall D k, D <= n -> ~ cornerAt D k) -> exists k, lvl n k /\ f n k <= U /\ f n k - k <= V.
Proof.
  intros Hn Hc. destruct (lvl_end n Hn) as [_ Hl].
  assert (Hnb : forall k, lvl n k -> U <= f n k -> V <= f n k - k -> False).
  { intros k H1 H2 H3. destruct (Grid_corner n k H1 ltac:(lia) H2 H3) as (D' & k' & ? & ?). by eapply Hc. }
  destruct (Z.le_gt_cases (f n n - n) V) as [Hv|Hv];
    [destruct (Z.le_gt_cases (f n n) U) as [Hu|Hu]; [by exists n|]|].
  - destruct (side_exact (Z.to_nat (n + n)) n n Hl) as (k & Hk & _ & E); [lia|lia|lia|].
    exists k. split; [done|]. split; [lia|]. destruct (Z.le_gt_cases (f n k - k) V); [done|].
    exfalso. apply (Hnb k Hk); lia.
  - destruct (top_exact (Z.to_nat (n - n)) n n Hl) as (k & Hk & _ & E); [lia|lia|lia|].
    exists k. split; [done|]. split; [|lia]. destruct (Z.le_gt_cases (f n k) U); [done|].
    exfalso. apply (Hnb k Hk); lia.
Qed.

End Inside.

Section Search.
Context (A B : bytes).

Abbreviation same := (LcsFacts.same A B).

(** ** Forward labels *)

(** The label [l] reached from [s] on diagonal [k] of the rectangle. *)
Record reachF (U V k s l : Z) : Prop := {
  rf_le : s <= l;
  rf_snake : forall i, s <= i < l -> same i (i - k);
  rf_in : s <= U -> s - k <= V -> l <= U /\ l - k <= V;
  rf_out : U <= s \/ V <= s - k -> l = s
}.

Lemma reachF_trans U V k s m l : reachF U V k s m -> reachF U V k m l -> reachF U V k s l.
Proof.
  intros [H1 H2 H3 H4] [G1 G2 G3 G4]. split; [lia| | |].
  - intros i Hi. destruct (Z.lt_ge_cases i m); [apply H2|apply G2]; lia.
  - intros ? ?. destruct H3; auto.
  - intros Ho. rewrite H4 in * by done. auto.
Qed.

Definition geo (e : editGraph) : Prop :=
  lx e = 0 /\ ly e = 0 /\ 0 <= ux e <= blen A /\ 0 <= uy e <= blen B /\ delta e = blen A - blen B.

Lemma lookup_piece (l : bytes) s t i :
  0 <= s -> 0 <= i < t - s -> take (Z.to_nat (t - s)) (drop (Z.to_nat s) l) !! Z.to_nat i = l !! Z.to_nat (s + i).
Proof.
  intros. rewrite lookup_take_lt by lia. rewrite lookup_drop. f_equal. lia.
Qed.

Lemma blen_piece (l : bytes) s t : 0 <= s <= t -> t <= blen l -> blen (take (Z.to_nat (t - s)) (drop (Z.to_nat s) l)) = t - s.
Proof. intros. unfold blen in *. rewrite length_take, length_drop. lia. Qed.

Lemma lookForward_reach e k x :
  geo e -> 0 <= x -> 0 <= x - k ->
  exists l, lookForward A B e k x = Ok l /\ reachF (ux e) (uy e) k x l.
Proof.
  intros (Lx & Ly & Hx & Hy & _) ? ?. unfold lookForward. rewrite Lx, Ly, !Z.add_0_r.
  destruct (Z.ltb_spec x (ux e)); [destruct (Z.ltb_spec (x - k) (uy e))|]; cbn [andb];
    try (exists x; split; [done|]; by split; [lia|lia|done|]).
  unfold commonPrefixLen. rewrite !slice_ok by lia. cbn [rbind].
  destruct (commonPrefixLen_spec (take (Z.to_nat (ux e - x)) (drop (Z.to_nat x) A))
              (take (Z.to_nat (uy e - (x - k))) (drop (Z.to_nat (x - k)) B))) as (N0 & N1 & N2 & Hn).
  rewrite blen_piece in N1, N2 by lia.
  eexists. split; [done|]. split; [lia| |lia|lia].
  intros i Hi. split; [lia|]. split; [lia|]. specialize (Hn (i - x) ltac:(lia)).
  rewrite !lookup_piece in Hn by lia.
  replace (x + (i - x)) with i in Hn by lia. by replace (x - k + (i - x)) with (i - k) in Hn by lia.
Qed.

(** How the label of (D+1, k) follows from level [D]. *)
Record stepF (U V : Z) (t : label) (D k : Z) : Prop := {
  sf_has : has t (D + 1) k;
  sf_v : lvl D (k - 1) -> lab t D (k - 1) + 1 <= lab t (D + 1) k;
  sf_h : lvl D (k + 1) -> lab t D (k + 1) <= lab t (D + 1) k;
  sf_from : (lvl D (k - 1) /\ reachF U V k (lab t D (k - 1) + 1) (lab t (D + 1) k))
         \/ (lvl D (k + 1) /\ reachF U V k (lab t D (k + 1)) (lab t (D + 1) k))
}.

(** Levels [0 .. n] are labelled. *)
Record Fwd (U V : Z) (t : label) (n : Z) : Prop := {
  fw_has : has t 0 0;
  fw_start : reachF U V 0 0 (lab t 0 0);
  fw_step D k : 0 <= D < n -> lvl (D + 1) k -> stepF U V t D k
}.

Lemma lvl_pred D k : lvl D k -> 1 <= D -> lvl (D - 1 + 1) k.
Proof. intros Hl ?. by replace (D - 1 + 1) with D by lia. Qed.

Lemma Fwd_has U V t n D k : Fwd U V t n -> lvl D k -> D <= n -> has t D k.
Proof.
  intros HF Hl Hn. pose proof (proj1 Hl). destruct (Z.eq_dec D 0) as [->|].
  - destruct Hl as (_ & ? & _). assert (k = 0) as -> by lia. apply HF.
  - pose proof (fw_step _ _ _ _ HF (D - 1) k ltac:(lia) (lvl_pred _ _ Hl ltac:(lia))) as Hs.
    apply sf_has in Hs. by replace (D - 1 + 1) with D in Hs by lia.
Qed.

Lemma reachF_bound U V k s l : reachF U V k s l -> s <= l <= Z.max U s.
Proof.
  intros [? ? Hin Hout]. split; [done|].
  destruct (Z.le_gt_cases U s); [rewrite Hout by lia; lia|].
  destruct (Z.le_gt_cases V (s - k)); [rewrite Hout by lia; lia|]. destruct Hin; lia.
Qed.

(** A label lies right of and above the origin, and not far beyond the rectangle. *)
Definition boundF (U : Z) (t : label) (D k : Z) : Prop :=
  0 <= lab t D k /\ 0 <= lab t D k - k /\ lab t D k <= Z.max U 0 + D.

Lemma stepF_bound U V t D k :
  0 <= D -> (forall k', lvl D k' -> boundF U t D k') -> stepF U V t D k -> boundF U t (D + 1) k.
Proof.
  intros HD IH Hs. destruct (sf_from _ _ _ _ _ Hs) as [[Hp Hr]|[Hp Hr]];
    apply reachF_bound in Hr; specialize (IH _ Hp); unfold boundF in *; lia.
Qed.

Lemma Fwd_nonneg U V t n D k : Fwd U V t n -> lvl D k -> D <= n -> boundF U t D k.
Proof.
  intros HF. revert D k. refine (lvl_ind n (boundF U t) _ _).
  - pose proof (reachF_bound _ _ _ _ _ (fw_start _ _ _ _ HF)). unfold boundF. lia.
  - intros D k HD Hl IH. eapply stepF_bound; [lia|done|by apply HF].
Qed.

Lemma Fwd_grid U V t n : 0 <= U -> 0 <= V -> Fwd U V t n -> Grid U V (lab t) n.
Proof.
  intros HU HV HF. split.
  - pose proof (fw_start _ _ _ _ HF) as [_ _ Hin _]. lia.
  - intros D k HD Hl. apply (fw_step _ _ _ _ HF D k HD Hl).
  - intros D k HD Hl. apply (fw_step _ _ _ _ HF D k HD Hl).
  - intros D k HD Hl Ho. destruct (sf_from _ _ _ _ _ (fw_step _ _ _ _ HF D k HD Hl)) as [[Hp [? _ Hin Hout]]|[Hp [? _ Hin Hout]]].
    + left. split; [done|]. apply Hout. lia.
    + right. split; [done|]. apply Hout. lia.
Qed.

(** The label of (D, k) is the corner of the rectangle. *)
Definition corner (U V : Z) (t : label) (D k : Z) : Prop := cornerAt U V (lab t) D k.


(** *** Setting the labels of a level *)

(** [t'] adds labels to level [D+1] of [t] only. *)
Definition grows (t t' : label) (D : Z) : Prop :=
  (forall D' k, has t D' k -> has t' D' k) /\ (forall D' k, D' <> D + 1 -> lab t' D' k = lab t D' k).

Lemma grows_refl t D : grows t t D.
Proof. done. Qed.

Lemma grows_trans t t' t'' D : grows t t' D -> grows t' t'' D -> grows t t'' D.
Proof. intros [H1 H2] [G1 G2]. split; [auto|]. intros D' k Hd. by rewrite G2, H2. Qed.

Lemma stepF_grows U V t t' D D' k : D' < D -> grows t t' D -> stepF U V t D' k -> stepF U V t' D' k.
Proof.
  intros Hd [Hh Hl] [S1 S2 S3 S4]. split; [auto|..]; rewrite ?Hl by lia; done.
Qed.

Lemma Fwd_grows U V t t' D : 0 <= D -> Fwd U V t D -> grows t t' D -> Fwd U V t' D.
Proof.
  intros HD [F1 F2 F3] Hg. pose proof Hg as [Hh Hl]. split; [auto|by rewrite Hl by lia|].
  intros D' k ? ?. eapply stepF_grows; [|exact Hg|by apply F3]. lia.
Qed.

(** Levels other than [D+1] keep their labels. *)
Definition keeps (t t' : label) (D : Z) : Prop := forall D' k, D' <> D + 1 -> lab t' D' k = lab t D' k.

Lemma keeps_trans t t' t'' D : keeps t t' D -> keeps t' t'' D -> keeps t t'' D.
Proof. intros H1 H2 D' k Hd. by rewrite H2, H1. Qed.

(** The labels of level [D+1] on the diagonals [S] are set. *)
Definition partF (U V : Z) (t : label) (D : Z) (S : Z -> Prop) : Prop :=
  Fwd U V t D /\ forall k, lvl (D + 1) k -> S k -> stepF U V t D k.

(** [s] is where the label of (D+1, k) starts. *)
Record startF (U V : Z) (t : label) (D k s : Z) : Prop := {
  st_x : 0 <= s;
  st_y : 0 <= s - k;
  st_v : lvl D (k - 1) -> lab t D (k - 1) + 1 <= s;
  st_h : lvl D (k + 1) -> lab t D (k + 1) <= s;
  st_from : (lvl D (k - 1) /\ reachF U V k (lab t D (k - 1) + 1) s)
         \/ (lvl D (k + 1) /\ reachF U V k (lab t D (k + 1)) s)
}.

Lemma reachF_refl U V k s : reachF U V k s s.
Proof. split; [lia|lia|done|done]. Qed.

Lemma set_part U V t D k s l (S : Z -> Prop) :
  0 <= D -> lvl (D + 1) k -> partF U V t D S -> startF U V t D k s -> reachF U V k s l ->
  partF U V (<[(D + 1, (D + 1 + k) ÷ 2) := l]> t) D (fun k' => S k' \/ k' = k).
Proof.
  intros HD Hk [HF HS] [Sx Sy Sv Sh Hfrom] Hr. pose proof (rf_le _ _ _ _ _ Hr).
  split.
  - eapply Fwd_grows; [done|exact HF|]. split; [intros; by apply has_set|].
    intros. apply lab_set_level. lia.
  - intros k' Hl Hk'. destruct (Z.eq_dec k' k) as [->|Hne].
    + split; [apply has_set_eq|..]; rewrite lab_set_eq, !lab_set_level by lia;
        [intros Q; specialize (Sv Q); lia|intros Q; specialize (Sh Q); lia|].
      destruct Hfrom as [[? ?]|[? ?]]; [left|right]; (split; [done|]); by eapply reachF_trans.
    + destruct Hk' as [Hk'|?]; [|done]. destruct (HS k' Hl Hk') as [S1 S2 S3 S4].
      split; [by apply has_set|..]; rewrite (lab_set_ne _ _ _ _ _ Hk Hl), !lab_set_level by lia; done.
Qed.

Lemma geo_withVf e t : geo e -> geo (withVf e t).
Proof. done. Qed.

(** [t'] differs from [t] in the label of (D+1, k) at most. *)
Definition sets (t t' : label) (D k : Z) : Prop :=
  (forall D' k', D' <> D + 1 -> lab t' D' k' = lab t D' k')
  /\ (forall k', lvl (D + 1) k' -> k' <> k -> lab t' (D + 1) k' = lab t (D + 1) k').

Lemma sets_insert t D k l : lvl (D + 1) k -> sets t (<[(D + 1, (D + 1 + k) ÷ 2) := l]> t) D k.
Proof. intros Hk. split; intros; [apply lab_set_level; lia|by apply lab_set_ne]. Qed.

Lemma setForward_part e D k s (S : Z -> Prop) :
  geo e -> 0 <= D -> lvl (D + 1) k -> partF (ux e) (uy e) (vf e) D S ->
  startF (ux e) (uy e) (vf e) D k s ->
  exists t, setForward A B e (D + 1) k s = Ok (withVf e t)
         /\ partF (ux e) (uy e) t D (fun k' => S k' \/ k' = k) /\ sets (vf e) t D k.
Proof.
  intros Hg HD Hk Hp Hs. destruct (lookForward_reach e k s) as (l & El & Hr); [done|apply Hs|apply Hs|].
  unfold setForward. rewrite El. cbn [rbind]. rewrite lset_ok by done. cbn [rbind].
  destruct Hg as (-> & _). rewrite Z.sub_0_r. eexists. split; [done|]. split; [by eapply set_part|].
  by apply sets_insert.
Qed.

Lemma partF_get U V t D (S : Z -> Prop) k : partF U V t D S -> lvl D k -> lget t D k = Ok (lab t D k).
Proof. intros [HF _] Hl. apply lget_lab. eapply Fwd_has; [done|done|lia]. Qed.

Lemma startF_low U V t D : 0 <= D -> Fwd U V t D -> startF U V t D (- (D + 1)) (lab t D (- D)).
Proof.
  intros HD HF. destruct (lvl_end D HD) as [Hl _].
  pose proof (Fwd_nonneg _ _ _ _ _ _ HF Hl ltac:(lia)) as (? & ? & ?).
  split; try lia; replace (- (D + 1) + 1) with (- D) by lia; [|done|right; split; [done|apply reachF_refl]].
  intros (_ & ? & _). lia.
Qed.

Lemma startF_high U V t D : 0 <= D -> Fwd U V t D -> startF U V t D (D + 1) (lab t D D + 1).
Proof.
  intros HD HF. destruct (lvl_end D HD) as [_ Hl].
  pose proof (Fwd_nonneg _ _ _ _ _ _ HF Hl ltac:(lia)) as (? & ? & ?).
  split; try lia; replace (D + 1 - 1) with D by lia; [done| |left; split; [done|apply reachF_refl]].
  intros (_ & ? & _). lia.
Qed.

Lemma inner_lvl D k : 0 <= D -> k ∈ evens (- D + 1) (D - 1) -> lvl D (k - 1) /\ lvl D (k + 1) /\ lvl (D + 1) k.
Proof.
  intros HD Hk. apply elem_evens in Hk as [Hk Hm].
  assert (M : (D + (k - 1)) mod 2 = 0).
  { replace (D + (k - 1)) with (k - (- D + 1)) by lia. done. }
  assert (Hl : lvl D (k - 1)) by (split; [done|split; [lia|done]]).
  split; [done|]. split; (eapply lvl_mod; [exact Hl| |lia|lia]).
  - by replace (D + (k + 1) - (D + (k - 1))) with 2 by lia.
  - by replace (D + 1 + k - (D + (k - 1))) with 2 by lia.
Qed.

Lemma innerForward_part e D k (S : Z -> Prop) :
  geo e -> 0 <= D -> k ∈ evens (- D + 1) (D - 1) -> partF (ux e) (uy e) (vf e) D S ->
  exists t, innerForward A B e D k = Ok (withVf e t)
         /\ partF (ux e) (uy e) t D (fun k' => S k' \/ k' = k) /\ sets (vf e) t D k.
Proof.
  intros Hg HD Hk Hp. destruct (inner_lvl D k HD Hk) as (Hv & Hh & Hl). pose proof Hp as [HF _].
  pose proof (Fwd_nonneg _ _ _ _ _ _ HF Hv ltac:(lia)) as (? & ? & ?).
  pose proof (Fwd_nonneg _ _ _ _ _ _ HF Hh ltac:(lia)) as (? & ? & ?).
  destruct (lookForward_reach e k (lab (vf e) D (k - 1) + 1)) as (lv & Ev & Rv); [done|lia|lia|].
  destruct (lookForward_reach e k (lab (vf e) D (k + 1))) as (lh & Eh & Rh); [done|lia|lia|].
  unfold innerForward, getForward.
  rewrite (partF_get _ _ _ _ _ _ Hp Hv). cbn [rbind]. rewrite Ev. cbn [rbind].
  rewrite (partF_get _ _ _ _ _ _ Hp Hh). cbn [rbind]. rewrite Eh. cbn [rbind].
  pose proof (rf_le _ _ _ _ _ Rv). pose proof (rf_le _ _ _ _ _ Rh).
  apply setForward_part; try done. destruct (Z.ltb_spec lh lv); split; try lia; [left|right]; done.
Qed.

Lemma partF_impl U V t D (S S' : Z -> Prop) :
  (forall k, lvl (D + 1) k -> S' k -> S k) -> partF U V t D S -> partF U V t D S'.
Proof. intros Hs [HF HS]. split; [done|]. auto. Qed.

Lemma partF_level U V t D (S : Z -> Prop) :
  0 <= D -> (forall k, lvl (D + 1) k -> S k) -> partF U V t D S -> Fwd U V t (D + 1).
Proof.
  intros HD Hs [[F1 F2 F3] HS]. split; [done|done|]. intros D' k ? ?.
  destruct (Z.eq_dec D' D) as [->|]; [auto|]. apply F3; [lia|done].
Qed.

Lemma innerPass_forward D ks e (S : Z -> Prop) :
  geo e -> 0 <= D -> (forall k, k ∈ ks -> k ∈ evens (- D + 1) (D - 1)) -> partF (ux e) (uy e) (vf e) D S ->
  exists t, innerPass (fun e k => innerForward A B e D k) e ks = Ok (withVf e t)
         /\ partF (ux e) (uy e) t D (fun k' => S k' \/ k' ∈ ks) /\ keeps (vf e) t D.
Proof.
  revert e S. induction ks as [|k ks IH]; intros e S Hg HD Hk Hp; cbn [innerPass].
  - exists (vf e). split; [by destruct e|]. split; [|done].
    eapply partF_impl; [|exact Hp]. intros k _ [?|Hn]; [done|]. by apply not_elem_of_nil in Hn.
  - destruct (innerForward_part e D k S) as (t & -> & Hp' & [Hs _]); [done|done|apply Hk; constructor|done|]. cbn [rbind].
    destruct (IH (withVf e t) (fun k' => S k' \/ k' = k) Hg HD) as (t' & -> & Hp'' & Hs'); [|exact Hp'|].
    { intros k' ?. apply Hk. by constructor. }
    exists t'. split; [done|]. split; [|by eapply keeps_trans]. eapply partF_impl; [|exact Hp''].
    intros k' _ [?|Hn]; [by left; left|]. apply elem_of_cons in Hn as [->|?]; [by left; right|by right].
Qed.

Lemma forwardPass_spec e D :
  geo e -> 0 <= D -> Fwd (ux e) (uy e) (vf e) D ->
  exists t, forwardPass A B e D = Ok (withVf e t) /\ Fwd (ux e) (uy e) t (D + 1) /\ keeps (vf e) t D.
Proof.
  intros Hg HD HF. destruct (lvl_end D HD) as [Hlo Hhi]. destruct (lvl_end (D + 1) ltac:(lia)) as [Hlo' Hhi'].
  assert (P0 : partF (ux e) (uy e) (vf e) D (fun _ => False)) by (by split).
  unfold forwardPass, getForward. rewrite (partF_get _ _ _ _ _ _ P0 Hlo). cbn [rbind].
  destruct (setForward_part e D (- (D + 1)) (lab (vf e) D (- D)) _ Hg HD Hlo' P0) as (t1 & -> & P1 & [K1 _]);
    [by apply startF_low|]. cbn [rbind].
  change (vf (withVf e t1)) with t1. rewrite (partF_get _ _ _ _ _ _ P1 Hhi). cbn [rbind].
  destruct (setForward_part (withVf e t1) D (D + 1) (lab t1 D D + 1) _ Hg HD Hhi' P1) as (t2 & -> & P2 & [K2 _]);
    [apply startF_high; [done|apply P1]|]. cbn [rbind].
  change (withVf (withVf e t1) t2) with (withVf e t2).
  destruct (innerPass_forward D (evens (- D + 1) (D - 1)) (withVf e t2) _ Hg HD (fun _ Hk => Hk) P2)
    as (t3 & -> & P3 & K3).
  exists t3. split; [done|]. split; [|exact (keeps_trans _ _ _ _ (keeps_trans _ _ _ _ K1 K2) K3)].
  eapply partF_level; [done| |exact P3].
  intros k Hk. apply lvl_cases in Hk as [->|[->|?]]; [..|done]; tauto.
Qed.

(** *** Backtracking from a label *)

(** [(x, x-k)] lies on the snake that ends in the label of (D, k); the level below is
    labelled. *)
Definition onF (t : label) (n D k x : Z) : Prop :=
  lvl D k /\ D - 1 <= n /\ exists s, s <= x <= lab t D k /\ (forall i, s <= i < lab t D k -> same i (i - k)) /\
    ((D = 0 /\ s = 0) \/ (lvl (D - 1) (k - 1) /\ s = lab t (D - 1) (k - 1) + 1)
     \/ (lvl (D - 1) (k + 1) /\ s = lab t (D - 1) (k + 1))).

Lemma onF_step U V t n D k : lvl (D + 1) k -> D <= n -> stepF U V t D k -> onF t n (D + 1) k (lab t (D + 1) k).
Proof.
  intros Hl Hn [_ _ _ Hf]. split; [done|]. split; [lia|]. replace (D + 1 - 1) with D by lia.
  destruct Hf as [[Hp [? Hs _ _]]|[Hp [? Hs _ _]]]; (eexists; split; [|split; [exact Hs|]]); [lia| |lia|]; tauto.
Qed.

Lemma onF_label U V t n D k : Fwd U V t n -> lvl D k -> D <= n -> onF t n D k (lab t D k).
Proof.
  intros HF Hl Hn. pose proof (proj1 Hl). destruct (Z.eq_dec D 0) as [->|].
  - split; [done|]. split; [lia|].
    destruct Hl as (_ & ? & _). assert (k = 0) as -> by lia. pose proof (fw_start _ _ _ _ HF) as [? Hs _ _].
    exists 0. split; [lia|]. split; [done|]. by left.
  - pose proof (lvl_pred _ _ Hl ltac:(lia)) as Hl'.
    pose proof (onF_step U V t n (D - 1) k Hl' ltac:(lia) (fw_step _ _ _ _ HF (D - 1) k ltac:(lia) Hl')) as Ho.
    by replace (D - 1 + 1) with D in Ho by lia.
Qed.

Lemma lvl_ok D k D' k' : lvl D k -> ok D' k' = true -> (D' + k' - (D + k)) mod 2 = 0 -> lvl D' k'.
Proof.
  intros Hl Ho Hm. unfold ok in Ho. rewrite !andb_true_iff, !Z.leb_le in Ho. eapply lvl_mod; [done|done|lia|lia].
Qed.

(** [let! v := if ok ... then let! p := get ... in Ok (x =? p) else Ok false]: what the
    test of a predecessor returns. *)
Lemma ok_lvl D k : lvl D k -> ok D k = true.
Proof. intros (? & ? & _). unfold ok. zcases; try lia; done. Qed.

Lemma pred_test (t : label) n D k D' k' x :
  (forall D k, lvl D k -> D <= n -> has t D k) -> lvl D k -> D' <= n ->
  (D' + k' - (D + k)) mod 2 = 0 ->
  exists b, (if ok D' k' then let! p := lget t D' k' in Ok (x =? p) else Ok false) = Ok b
         /\ (b = true -> lvl D' k' /\ x = lab t D' k') /\ (lvl D' k' -> x = lab t D' k' -> b = true).
Proof.
  intros Hh Hl Hd Hm. destruct (ok D' k') eqn:E.
  - assert (Hl' : lvl D' k') by (by eapply lvl_ok). rewrite lget_lab by (apply Hh; [done|lia]). cbn [rbind].
    eexists. split; [done|]. split; [intros Eb; apply Z.eqb_eq in Eb; done|]. intros _ ->. apply Z.eqb_refl.
  - exists false. split; [done|]. split; [done|]. intros Hl'. by rewrite ok_lvl in E.
Qed.

Lemma forwardlcsLoop_spec e n U V m D k x ans qx qy :
  lx e = 0 -> ly e = 0 -> Fwd U V (vf e) n -> onF (vf e) n D k x -> D + x <= Z.of_nat m ->
  chain A B x (x - k) qx qy ans ->
  exists l, forwardlcsLoop m e D k x ans = Ok l /\ chain A B 0 0 qx qy l.
Proof.
  intros Lx Ly HF. revert D k x ans. induction m as [|m IH]; intros D k x ans Hon Hm Hc.
  all: pose proof Hon as (Hl & Hn & s & Hs & Hsn & Hsrc); pose proof (proj1 Hl);
       assert (Hk : - D <= k <= D) by apply Hl.
  all: assert (0 <= s /\ 0 <= s - k) by
    (destruct Hsrc as [[-> ->]|[[Hp ->]|[Hp ->]]]; [lia|..];
     pose proof (Fwd_nonneg _ _ _ _ _ _ HF Hp ltac:(lia)) as (? & ? & ?); lia).
  all: cbn [forwardlcsLoop]; destruct ((x =? 0) && (x - k =? 0)) eqn:E0;
    [exists ans; split; [done|]; apply andb_true_iff in E0; rewrite !Z.eqb_eq in E0;
     eapply chain_weaken; [exact Hc|lia..]|].
  { exfalso. apply andb_false_iff in E0. rewrite !Z.eqb_neq in E0. lia. }
  pose proof (fun D k Hl Hd => Fwd_has _ _ _ _ D k HF Hl Hd) as Hhas.
  unfold getForward.
  destruct (pred_test (vf e) n D k (D - 1) (k - 1) (x - 1) Hhas Hl ltac:(lia)) as (b & -> & Hb1 & Hb2).
  { by replace (D - 1 + (k - 1) - (D + k)) with (-1 * 2) by lia. }
  cbn [rbind]. destruct b.
  { destruct (Hb1 eq_refl) as [Hl' Ex]. apply IH; [|lia|eapply chain_weaken; [exact Hc|lia..]].
    rewrite Ex. eapply onF_label; [done|done|lia]. }
  destruct (pred_test (vf e) n D k (D - 1) (k + 1) x Hhas Hl ltac:(lia)) as (b & -> & Hc1 & Hc2).
  { by replace (D - 1 + (k + 1) - (D + k)) with 0 by lia. }
  cbn [rbind]. destruct b.
  { destruct (Hc1 eq_refl) as [Hl' Ex]. apply IH; [|lia|eapply chain_weaken; [exact Hc|lia..]].
    rewrite Ex. eapply onF_label; [done|done|lia]. }
  assert (s < x).
  { destruct (Z.eq_dec s x) as [->|]; [exfalso|lia]. destruct Hsrc as [[-> ->]|[[Hp Ex]|[Hp Ex]]].
    - assert (k = 0) as -> by lia. done.
    - discriminate Hb2; [done|lia].
    - by discriminate Hc2. }
  rewrite Lx, Ly, !Z.add_0_r. apply IH.
  - split; [done|]. split; [done|]. exists s. split; [lia|done].
  - lia.
  - replace (x - 1 - k) with (x - k - 1) by lia.
    apply prepend_chain; [by rewrite !Z.sub_add|]. replace (x - k - 1) with (x - 1 - k) by lia. apply Hsn. lia.
Qed.

(** From any label, also one of a level that is being set. *)
Lemma forwardlcs_from e n U V D k :
  lx e = 0 -> ly e = 0 -> U <= blen A -> Fwd U V (vf e) n -> D <= 8 -> has (vf e) D k ->
  onF (vf e) n D k (lab (vf e) D k) -> boundF U (vf e) D k ->
  exists l, forwardlcs A B e D k = Ok l /\ chain A B 0 0 (lab (vf e) D k) (lab (vf e) D k - k) l.
Proof.
  intros Lx Ly HU HF H8 Hh Ho (? & ? & ?). unfold forwardlcs, getForward. rewrite lget_lab by done. cbn [rbind].
  eapply forwardlcsLoop_spec; [done|done|done|done| |simpl; lia].
  pose proof (blen_nonneg A). unfold pathFuel, blen in *. lia.
Qed.

Lemma forwardlcs_spec e n U V D k :
  lx e = 0 -> ly e = 0 -> U <= blen A -> Fwd U V (vf e) n -> lvl D k -> D <= n -> D <= 8 ->
  exists l, forwardlcs A B e D k = Ok l /\ chain A B 0 0 (lab (vf e) D k) (lab (vf e) D k - k) l.
Proof.
  intros. eapply forwardlcs_from; try done; [by eapply Fwd_has|by eapply onF_label|by eapply Fwd_nonneg].
Qed.

(** *** The forward search *)

Lemma fdone_at e n D k :
  geo e -> Fwd (ux e) (uy e) (vf e) n -> D <= 8 -> has (vf e) D k ->
  onF (vf e) n D k (lab (vf e) D k) -> boundF (ux e) (vf e) D k ->
  exists r, fdone A B e D k = Ok r
    /\ match r with
       | Some l => chain A B 0 0 (ux e) (uy e) l
       | None => ~ corner (ux e) (uy e) (vf e) D k
       end.
Proof.
  intros Hg HF H8 Hh Ho Hb. pose proof Hg as (Lx & Ly & Hx & Hy & _). unfold fdone. rewrite lget_lab by done. cbn [rbind].
  destruct (forwardlcs_from e n (ux e) (uy e) D k) as (l & El & Hc); try done; [lia|].
  destruct (Z.eqb_spec (lab (vf e) D k) (ux e)) as [E1|N1];
    [destruct (Z.eqb_spec (lab (vf e) D k - k) (uy e)) as [E2|N2]|]; cbn [andb].
  - rewrite El. cbn [rbind]. eexists. split; [done|]. simpl. by rewrite E2, E1 in Hc.
  - eexists. split; [done|]. intros (_ & ? & ?). done.
  - eexists. split; [done|]. intros (_ & ? & ?). done.
Qed.

(** No corner in the levels up to [D] and on the diagonals [S] of the next. *)
Definition noCorner (U V : Z) (t : label) (D : Z) (S : Z -> Prop) : Prop :=
  (forall D' k, D' <= D -> ~ corner U V t D' k) /\ (forall k, lvl (D + 1) k -> S k -> ~ corner U V t (D + 1) k).

Lemma noCorner_sets U V t t' D k (S : Z -> Prop) :
  sets t t' D k -> noCorner U V t D S -> ~ corner U V t' (D + 1) k ->
  noCorner U V t' D (fun k' => S k' \/ k' = k).
Proof.
  intros [S1 S2] [N1 N2] Hk. split.
  - intros D' k' HD. unfold corner, cornerAt. rewrite S1 by lia. apply N1. lia.
  - intros k' Hl HS. destruct (Z.eq_dec k' k) as [->|Hne]; [done|]. destruct HS as [HS|?]; [|done].
    unfold corner, cornerAt. rewrite S2 by done. by apply N2.
Qed.

(** What one set-and-test of [forward] leaves: an answer, or one more label that is not
    the corner. *)
Lemma set_fdone e t D k (S : Z -> Prop) :
  geo e -> 0 <= D <= 7 -> lvl (D + 1) k -> partF (ux e) (uy e) t D S -> S k ->
  exists r, fdone A B (withVf e t) (D + 1) k = Ok r
    /\ match r with Some l => chain A B 0 0 (ux e) (uy e) l | None => ~ corner (ux e) (uy e) t (D + 1) k end.
Proof.
  intros Hg HD Hl [HF HS] Hk. specialize (HS k Hl Hk).
  apply (fdone_at (withVf e t) D); [done|done|lia|apply HS|by eapply onF_step|].
  eapply stepF_bound; [lia| |exact HS]. intros k' Hk'. eapply Fwd_nonneg; [done|done|lia].
Qed.

(** Answer or invariant, for a piece of the level. *)
Definition levelOk (e : editGraph) (D : Z) (S : Z -> Prop) (p : editGraph * option lcs) : Prop :=
  match snd p with
  | Some l => chain A B 0 0 (ux e) (uy e) l
  | None => exists t, fst p = withVf e t /\ partF (ux e) (uy e) t D S /\ noCorner (ux e) (uy e) t D S
  end.

Lemma innerFdone_spec D ks e (S : Z -> Prop) :
  geo e -> 0 <= D <= 7 -> (forall k, k ∈ ks -> k ∈ evens (- D + 1) (D - 1)) ->
  partF (ux e) (uy e) (vf e) D S -> noCorner (ux e) (uy e) (vf e) D S ->
  exists p, innerFdone A B e D ks = Ok p /\ levelOk e D (fun k' => S k' \/ k' ∈ ks) p.
Proof.
  revert e S. induction ks as [|k ks IH]; intros e S Hg HD Hk Hp Hc; cbn [innerFdone].
  - eexists. split; [done|]. exists (vf e). split; [by destruct e|].
    split; [eapply partF_impl; [|exact Hp]|split; [apply Hc|intros k Hl; rewrite elem_of_nil; intros []; [by apply Hc|done]]].
    intros k _ [?|Hn]; [done|]. by apply not_elem_of_nil in Hn.
  - destruct (innerForward_part e D k S) as (t & -> & Hp' & Hs); [done|lia|apply Hk; constructor|done|]. cbn [rbind].
    destruct (inner_lvl D k) as (_ & _ & Hl); [lia|apply Hk; constructor|].
    destruct (set_fdone e t D k _ Hg HD Hl Hp') as (r & -> & Hr); [by right|]. cbn [rbind].
    destruct r as [l|]; [by eexists|].
    destruct (IH (withVf e t) (fun k' => S k' \/ k' = k) Hg HD) as (p & -> & Hl'); [|exact Hp'|by eapply noCorner_sets|].
    { intros k' ?. apply Hk. by constructor. }
    exists p. split; [done|]. unfold levelOk in *. destruct (snd p); [done|]. destruct Hl' as (t' & E & P' & [N1 N2]).
    assert (Hi : forall k', S k' \/ k' ∈ k :: ks -> (S k' \/ k' = k) \/ k' ∈ ks)
      by (intros k' [?|Hn]; [by left; left|]; apply elem_of_cons in Hn as [->|?]; [by left; right|by right]).
    exists t'. split; [done|]. split; [eapply partF_impl; [|exact P']; intros; by apply Hi|].
    split; [done|]. intros k' Hk1 Hk2. apply N2; [done|by apply Hi].
Qed.

Lemma forwardLevel_spec e D :
  geo e -> 0 <= D <= 7 -> Fwd (ux e) (uy e) (vf e) D -> (forall D' k, D' <= D -> ~ corner (ux e) (uy e) (vf e) D' k) ->
  exists p, forwardLevel A B e D = Ok p /\ levelOk e D (fun _ => True) p.
Proof.
  intros Hg HD HF Hc. destruct (lvl_end D ltac:(lia)) as [Hlo Hhi]. destruct (lvl_end (D + 1) ltac:(lia)) as [Hlo' Hhi'].
  assert (P0 : partF (ux e) (uy e) (vf e) D (fun _ => False)) by (by split).
  assert (N0 : noCorner (ux e) (uy e) (vf e) D (fun _ => False)) by (by split).
  unfold forwardLevel, getForward. rewrite (partF_get _ _ _ _ _ _ P0 Hlo). cbn [rbind].
  destruct (setForward_part e D (- (D + 1)) (lab (vf e) D (- D)) _ Hg ltac:(lia) Hlo' P0) as (t1 & -> & P1 & S1);
    [apply startF_low; [lia|done]|]. cbn [rbind].
  destruct (set_fdone e t1 D _ _ Hg HD Hlo' P1) as (r & -> & Hr); [by right|]. cbn [rbind].
  destruct r as [l|]; [by eexists|]. pose proof (noCorner_sets _ _ _ _ _ _ _ S1 N0 Hr) as N1.
  change (vf (withVf e t1)) with t1. rewrite (partF_get _ _ _ _ _ _ P1 Hhi). cbn [rbind].
  destruct (setForward_part (withVf e t1) D (D + 1) (lab t1 D D + 1) _ Hg ltac:(lia) Hhi' P1) as (t2 & -> & P2 & S2);
    [apply startF_high; [lia|apply P1]|]. cbn [rbind]. change (withVf (withVf e t1) t2) with (withVf e t2).
  destruct (set_fdone e t2 D _ _ Hg HD Hhi' P2) as (r & -> & Hr2); [by right|]. cbn [rbind].
  destruct r as [l|]; [by eexists|]. pose proof (noCorner_sets _ _ _ _ _ _ _ S2 N1 Hr2) as N2.
  destruct (innerFdone_spec D (evens (- D + 1) (D - 1)) (withVf e t2) _ Hg HD (fun _ Hk => Hk) P2 N2)
    as (p & -> & Hp). exists p. split; [done|]. unfold levelOk in *. destruct (snd p); [done|].
  destruct Hp as (t3 & E & P3 & [M1 M2]).
  assert (Hi : forall k, lvl (D + 1) k ->
    ((False \/ k = - (D + 1)) \/ k = D + 1) \/ k ∈ evens (- D + 1) (D - 1)).
  { intros k Hk. apply lvl_cases in Hk as [->|[->|?]]; [..|lia]; tauto. }
  exists t3. split; [done|]. split; [eapply partF_impl; [|exact P3]; intros; by apply Hi|].
  split; [done|]. intros k Hk _. apply M2; [done|by apply Hi].
Qed.

Lemma forwardLevels_spec m e D :
  geo e -> 0 <= D -> D + Z.of_nat m <= 8 -> Fwd (ux e) (uy e) (vf e) D ->
  (forall D' k, D' <= D -> ~ corner (ux e) (uy e) (vf e) D' k) ->
  exists p, forwardLevels A B m e D = Ok p
    /\ match snd p with
       | Some l => chain A B 0 0 (ux e) (uy e) l
       | None => exists t, fst p = withVf e t /\ Fwd (ux e) (uy e) t (D + Z.of_nat m)
                  /\ (forall D' k, D' <= D + Z.of_nat m -> ~ corner (ux e) (uy e) t D' k)
       end.
Proof.
  revert e D. induction m as [|m IH]; intros e D Hg HD Hm HF Hc; cbn [forwardLevels].
  - eexists. split; [done|]. exists (vf e). rewrite Z.add_0_r. split; [by destruct e|done].
  - destruct (forwardLevel_spec e D Hg ltac:(lia) HF Hc) as ([e' r] & -> & Hl). cbn [rbind].
    unfold levelOk in Hl. cbn [fst snd] in Hl. destruct r as [l|]; [by eexists|].
    destruct Hl as (t & -> & P & [N1 N2]).
    assert (HF' : Fwd (ux e) (uy e) t (D + 1)) by (eapply partF_level; [done| |exact P]; done).
    destruct (IH (withVf e t) (D + 1) Hg) as (p & -> & Hp); [lia|lia|done| |].
    { intros D' k HD'. destruct (Z.eq_dec D' (D + 1)) as [->|]; [|apply N1; lia].
      intros Hk. exact (N2 k (proj1 Hk) I Hk). }
    exists p. split; [done|]. destruct (snd p); [done|].
    by replace (D + Z.of_nat (S m)) with (D + 1 + Z.of_nat m) by lia.
Qed.

(** The best label of the last level is one inside the rectangle, if there is one. *)
Lemma bestForward_spec e n ks dm km :
  limit e = n -> (forall k, k ∈ ks -> has (vf e) n k) ->
  exists r, bestForward e ks dm km = Ok r
    /\ ((r = km /\ forall k, k ∈ ks -> lab (vf e) n k <= ux e -> lab (vf e) n k - k <= uy e ->
             lab (vf e) n k + (lab (vf e) n k - k) <= dm)
        \/ (r ∈ ks /\ lab (vf e) n r <= ux e /\ lab (vf e) n r - r <= uy e)).
Proof.
  intros Hn. revert dm km. induction ks as [|k ks IH]; intros dm km Hh; cbn [bestForward].
  - exists km. split; [done|]. left. split; [done|]. intros k Hk. by apply not_elem_of_nil in Hk.
  - unfold getForward. rewrite Hn, lget_lab by (apply Hh; constructor). cbn [rbind].
    assert (Hh' : forall k, k ∈ ks -> has (vf e) n k) by (intros; apply Hh; by constructor).
    destruct ((dm <? _) && _ && _) eqn:E.
    + rewrite !andb_true_iff, Z.ltb_lt, !Z.leb_le in E.
      destruct (IH (lab (vf e) n k + (lab (vf e) n k - k)) k Hh') as (r & -> & [[-> _]|Hr]); eexists; (split; [done|]); right.
      * split; [constructor|lia].
      * split; [apply elem_of_cons; right; apply Hr|apply Hr].
    + destruct (IH dm km Hh') as (r & -> & [[-> Hr]|Hr]); eexists; (split; [done|]).
      * left. split; [done|]. intros k' Hk' H1 H2. apply elem_of_cons in Hk' as [->|Hk']; [|by apply Hr].
        rewrite !andb_false_iff, Z.ltb_ge, !Z.leb_gt in E. lia.
      * right. split; [apply elem_of_cons; right; apply Hr|apply Hr].
Qed.

Lemma levels_evens n k : 0 <= n -> (k ∈ evens (- n) n <-> lvl n k).
Proof.
  intros Hn. rewrite elem_evens. unfold lvl. replace (k - - n) with (n + k) by lia. tauto.
Qed.

(** When no corner was labelled, the best label lies inside. *)
Lemma bestForward_inside e :
  0 <= ux e -> 0 <= uy e -> 0 <= limit e -> Fwd (ux e) (uy e) (vf e) (limit e) ->
  (exists k, lvl (limit e) k /\ lab (vf e) (limit e) k <= ux e /\ lab (vf e) (limit e) k - k <= uy e) ->
  exists k, bestForward e (evens (- limit e) (limit e)) (-1) (- limit e - 1) = Ok k
    /\ lvl (limit e) k /\ lab (vf e) (limit e) k <= ux e /\ lab (vf e) (limit e) k - k <= uy e.
Proof.
  intros Hx Hy Hn HF (k & Hk & Hin).
  destruct (bestForward_spec e (limit e) (evens (- limit e) (limit e)) (-1) (- limit e - 1) eq_refl)
    as (r & -> & [[-> Hr]|[Hr ?]]).
  - intros k' Hk'. apply levels_evens in Hk'; [|done]. eapply Fwd_has; [done|done|lia].
  - exfalso. specialize (Hr k). rewrite levels_evens in Hr by done. specialize (Hr Hk (proj1 Hin) (proj2 Hin)).
    destruct (Fwd_nonneg _ _ _ _ _ _ HF Hk ltac:(lia)) as (? & ? & ?). lia.
  - exists r. split; [done|]. split; [by apply levels_evens|done].
Qed.

Lemma setForward_first e :
  geo e -> exists t, setForward A B e 0 0 (lx e) = Ok (withVf e t) /\ Fwd (ux e) (uy e) t 0.
Proof.
  intros Hg. pose proof Hg as (Lx & _ & Hx & Hy & _). rewrite Lx.
  destruct (lookForward_reach e 0 0) as (l & El & Hr); [done|lia|lia|].
  unfold setForward. rewrite El. cbn [rbind]. rewrite lset_ok by (split; [lia|split; [lia|done]]). cbn [rbind].
  rewrite Lx, Z.sub_0_r. eexists. split; [done|]. split; [apply has_set_eq|by rewrite lab_set_eq|lia].
Qed.

Lemma forward_spec e :
  geo e -> 0 <= limit e <= 8 -> exists l, forward A B e = Ok l /\ chain A B 0 0 (ux e) (uy e) l.
Proof.
  intros Hg Hn. pose proof Hg as (Lx & Ly & Hx & Hy & _). unfold forward.
  destruct (setForward_first e Hg) as (t0 & -> & HF0). cbn [rbind].
  assert (L0 : lvl 0 0) by (split; [lia|split; [lia|done]]).
  destruct (fdone_at (withVf e t0) 0 0 0 Hg HF0 ltac:(lia)) as (r & -> & Hr);
    [by eapply Fwd_has|by eapply onF_label|by eapply Fwd_nonneg|]. cbn [rbind].
  destruct r as [l|]; [by exists l|]. change (limit (withVf e t0)) with (limit e).
  destruct (forwardLevels_spec (Z.to_nat (limit e)) (withVf e t0) 0 Hg) as ([e' r] & -> & Hl); [lia|lia|done| |].
  { intros D' k HD' Hc. pose proof Hc as ((? & ? & _) & _). assert (D' = 0) as -> by lia.
    assert (k = 0) as -> by lia. done. }
  cbn [rbind]. cbn [fst snd] in Hl. destruct r as [l|]; [by exists l|].
  destruct Hl as (t & -> & HF & Hc). change (withVf (withVf e t0) t) with (withVf e t).
  rewrite Z2Nat.id, Z.add_0_l in HF by lia. rewrite Z2Nat.id, Z.add_0_l in Hc by lia.
  destruct (bestForward_inside (withVf e t)) as (k & -> & Hk & Hin); simpl; [lia|lia|lia|done| |].
  { apply Grid_inside; [apply Fwd_grid; [lia|lia|done]|lia|done]. }
  cbn [rbind].
  destruct (forwardlcs_spec (withVf e t) (limit e) (ux e) (uy e) (limit e) k) as (l & -> & Hl); simpl; try done; [lia|lia|].
  exists l. split; [done|]. eapply chain_weaken; [exact Hl|lia|lia|apply Hin|apply Hin].
Qed.

End Search.
