(* ===== verification/LcsTwoSided.v ===== *)
(** * The two-sided search: backward labels and the answer (src/internal/patch/lcs/old.go)

    The backward half mirrors the forward one. [twosided_spec]: the search always ends
    with a chain of matching diagonals, by way of every case of [twolcs] and of the
    repair at the limit; hence the edit script rebuilds the second value. *)

From stdpp Require Import gmap.
From S2P Require Import Prelude Types GoBinary Patch Lcs LcsFacts LcsSearch.

Import Lcs.

(** Arithmetic with parities. *)
Ltac mod2 := Z.to_euclidean_division_equations; lia.

Section TwoSided.
Context (A B : bytes).

Abbreviation same := (LcsFacts.same A B).
Abbreviation dl := (blen A - blen B).

(** The graph with its full rectangle. *)
Definition full (e : editGraph) : Prop := geo A B e /\ ux e = blen A /\ uy e = blen B.

(** ** Backward labels *)

Record reachB (k s l : Z) : Prop := {
  rb_le : l <= s;
  rb_snake : forall i, l <= i < s -> same i (i - (k + dl));
  rb_in : 0 <= s -> 0 <= s - (k + dl) -> 0 <= l /\ 0 <= l - (k + dl);
  rb_out : s <= 0 \/ s - (k + dl) <= 0 -> l = s
}.

Lemma reachB_trans k s m l : reachB k s m -> reachB k m l -> reachB k s l.
Proof.
  intros [H1 H2 H3 H4] [G1 G2 G3 G4]. split; [lia| | |].
  - intros i Hi. destruct (Z.lt_ge_cases i m); [apply G2|apply H2]; lia.
  - intros ? ?. destruct H3; auto.
  - intros Ho. rewrite H4 in * by done. auto.
Qed.

Lemma reachB_refl k s : reachB k s s.
Proof. split; [lia|lia|done|done]. Qed.

Lemma rb_low k s l : reachB k s l -> Z.min s 0 <= l.
Proof.
  intros [? _ Hin Hout]. destruct (Z.le_gt_cases s 0); [rewrite Hout; lia|].
  destruct (Z.le_gt_cases (s - (k + dl)) 0); [rewrite Hout; lia|lia].
Qed.

Lemma lookup_rev_piece (l : bytes) x i :
  0 <= x <= blen l -> 0 <= i < x ->
  reverse (take (Z.to_nat (x - 0)) (drop (Z.to_nat 0) l)) !! Z.to_nat i = l !! Z.to_nat (x - 1 - i).
Proof.
  intros Hx Hi. change (drop (Z.to_nat 0) l) with l. rewrite Z.sub_0_r.
  assert (L : length (take (Z.to_nat x) l) = Z.to_nat x) by (rewrite length_take; unfold blen in Hx; lia).
  rewrite reverse_lookup by lia. rewrite L, lookup_take_lt by lia. f_equal. lia.
Qed.

Lemma lookBackward_reach e k x :
  geo A B e -> x <= blen A -> x - (k + dl) <= blen B ->
  exists l, lookBackward A B e k x = Ok l /\ reachB k x l.
Proof.
  intros (Lx & Ly & _ & _ & Hd) ? ?. unfold lookBackward. rewrite Lx, Ly, Hd, !Z.add_0_r.
  destruct (Z.ltb_spec 0 x); [destruct (Z.ltb_spec 0 (x - (k + dl)))|]; cbn [andb];
    try (exists x; split; [done|apply reachB_refl]).
  unfold commonSuffixLen, commonSuffixLenBytes. rewrite !slice_ok by lia. cbn [rbind].
  set (a := take (Z.to_nat (x - 0)) (drop (Z.to_nat 0) A)).
  set (b := take (Z.to_nat (x - (k + dl) - 0)) (drop (Z.to_nat 0) B)).
  destruct (commonPrefixLen_spec (reverse a) (reverse b)) as (N0 & N1 & N2 & Hn).
  set (n := commonPrefixLenBytes (reverse a) (reverse b)) in *.
  assert (blen (reverse a) = x) as La.
  { unfold blen at 1. rewrite length_reverse. change (blen a = x). unfold a. rewrite blen_piece; lia. }
  assert (blen (reverse b) = x - (k + dl)) as Lb.
  { unfold blen at 1. rewrite length_reverse. change (blen b = x - (k + dl)). unfold b. rewrite blen_piece; lia. }
  eexists. split; [done|]. split; [lia| |lia|lia].
  intros i Hi. split; [lia|]. split; [lia|]. specialize (Hn (x - 1 - i) ltac:(lia)).
  unfold a, b in Hn. rewrite !lookup_rev_piece in Hn by lia.
  replace (x - 1 - (x - 1 - i)) with i in Hn by lia.
  by replace (x - (k + dl) - 1 - (x - 1 - i)) with (i - (k + dl)) in Hn by lia.
Qed.

Record stepB (t : label) (D k : Z) : Prop := {
  sb_has : has t (D + 1) k;
  sb_v : lvl D (k - 1) -> lab t (D + 1) k <= lab t D (k - 1);
  sb_h : lvl D (k + 1) -> lab t (D + 1) k <= lab t D (k + 1) - 1;
  sb_from : (lvl D (k - 1) /\ reachB k (lab t D (k - 1)) (lab t (D + 1) k))
         \/ (lvl D (k + 1) /\ reachB k (lab t D (k + 1) - 1) (lab t (D + 1) k))
}.

Record Bwd (t : label) (n : Z) : Prop := {
  bw_has : has t 0 0;
  bw_start : reachB 0 (blen A) (lab t 0 0);
  bw_step D k : 0 <= D < n -> lvl (D + 1) k -> stepB t D k
}.

(** A label lies left of and below the far corner, and not far before the origin. *)
Definition boundB (t : label) (D k : Z) : Prop :=
  lab t D k <= blen A /\ lab t D k - (k + dl) <= blen B /\ - D <= lab t D k.

Lemma stepB_bound t D k :
  0 <= D -> (forall k', lvl D k' -> boundB t D k') -> stepB t D k -> boundB t (D + 1) k.
Proof.
  intros HD IH Hs. destruct (sb_from _ _ _ Hs) as [[Hp Hr]|[Hp Hr]];
    pose proof (rb_le _ _ _ Hr); pose proof (rb_low _ _ _ Hr); specialize (IH _ Hp); unfold boundB in *; lia.
Qed.

Lemma Bwd_bound t n D k : Bwd t n -> lvl D k -> D <= n -> boundB t D k.
Proof.
  intros HB Hl. pose proof (proj1 Hl) as HD. revert D HD k Hl.
  apply (natlike_ind (fun D => forall k, lvl D k -> D <= n -> boundB t D k)).
  - intros k (_ & ? & _) _. assert (k = 0) as -> by lia. pose proof (bw_start _ _ HB) as Hr.
    pose proof (rb_le _ _ _ Hr). pose proof (rb_low _ _ _ Hr). pose proof (blen_nonneg A). unfold boundB. lia.
  - intros D HD IH k Hl Hn. change (Z.succ D) with (D + 1) in *. eapply stepB_bound; [done| |apply HB; [lia|done]].
    intros k' Hl'. apply IH; [done|lia].
Qed.

Lemma Bwd_has t n D k : Bwd t n -> lvl D k -> D <= n -> has t D k.
Proof.
  intros HB Hl Hn. pose proof (proj1 Hl). destruct (Z.eq_dec D 0) as [->|].
  - destruct Hl as (_ & ? & _). assert (k = 0) as -> by lia. apply HB.
  - pose proof (bw_step _ _ HB (D - 1) k ltac:(lia) (lvl_pred _ _ Hl ltac:(lia))) as Hs.
    apply sb_has in Hs. by replace (D - 1 + 1) with D in Hs by lia.
Qed.

(** *** Setting the labels of a level *)

Definition partB (t : label) (D : Z) (S : Z -> Prop) : Prop :=
  Bwd t D /\ forall k, lvl (D + 1) k -> S k -> stepB t D k.

Lemma partB_get t D (S : Z -> Prop) k : partB t D S -> lvl D k -> lget t D k = Ok (lab t D k).
Proof. intros [HB _] Hl. apply lget_lab. eapply Bwd_has; [done|done|lia]. Qed.

(** [s] is where the label of (D+1, k) starts. *)
Definition startB (t : label) (D k s : Z) : Prop :=
  s <= blen A /\ s - (k + dl) <= blen B /\
  (lvl D (k - 1) -> s <= lab t D (k - 1)) /\ (lvl D (k + 1) -> s <= lab t D (k + 1) - 1) /\
  ((lvl D (k - 1) /\ reachB k (lab t D (k - 1)) s) \/ (lvl D (k + 1) /\ reachB k (lab t D (k + 1) - 1) s)).

Lemma set_partB t D k s l (S : Z -> Prop) :
  0 <= D -> lvl (D + 1) k -> partB t D S -> startB t D k s -> reachB k s l ->
  partB (<[(D + 1, (D + 1 + k) ÷ 2) := l]> t) D (fun k' => S k' \/ k' = k).
Proof.
  intros HD Hk [[B1 B2 B3] HS] (_ & _ & Sv & Sh & Hfrom) Hr. pose proof (rb_le _ _ _ Hr). split.
  - split; [by apply has_set|by rewrite lab_set_level by lia|]. intros D' k' HD' Hl.
    destruct (B3 D' k' HD' Hl) as [S1 S2 S3 S4]. split; [by apply has_set|..]; rewrite !lab_set_level by lia; done.
  - intros k' Hl Hk'. destruct (Z.eq_dec k' k) as [->|Hne].
    + split; [apply has_set_eq|..]; rewrite lab_set_eq, !lab_set_level by lia;
        [intros Q; specialize (Sv Q); lia|intros Q; specialize (Sh Q); lia|].
      destruct Hfrom as [[? ?]|[? ?]]; [left|right]; (split; [done|]); by eapply reachB_trans.
    + destruct Hk' as [Hk'|?]; [|done]. destruct (HS k' Hl Hk') as [S1 S2 S3 S4].
      split; [by apply has_set|..]; rewrite (lab_set_ne _ _ _ _ _ Hk Hl), !lab_set_level by lia; done.
Qed.

Lemma setBackward_part e D k s (S : Z -> Prop) :
  geo A B e -> 0 <= D -> lvl (D + 1) k -> partB (vb e) D S -> startB (vb e) D k s ->
  exists t, setBackward A B e (D + 1) k s = Ok (withVb e t)
         /\ partB t D (fun k' => S k' \/ k' = k) /\ keeps (vb e) t D.
Proof.
  intros Hg HD Hk Hp Hs. pose proof Hs as (? & ? & _).
  destruct (lookBackward_reach e k s) as (l & El & Hr); [done|done|done|].
  unfold setBackward. rewrite El. cbn [rbind]. rewrite lset_ok by done. cbn [rbind].
  destruct Hg as (-> & _). rewrite Z.sub_0_r. eexists. split; [done|]. split; [by eapply set_partB|].
  intros D' k' ?. apply lab_set_level. lia.
Qed.

Lemma startB_low t D : 0 <= D -> Bwd t D -> startB t D (- (D + 1)) (lab t D (- D) - 1).
Proof.
  intros HD HB. destruct (lvl_end D HD) as [Hl _]. pose proof (Bwd_bound _ _ _ _ HB Hl ltac:(lia)) as (? & ? & ?).
  split; [lia|]. split; [lia|]. replace (- (D + 1) + 1) with (- D) by lia. split; [intros (_ & ? & _); lia|].
  split; [lia|]. right. split; [done|apply reachB_refl].
Qed.

Lemma startB_high t D : 0 <= D -> Bwd t D -> startB t D (D + 1) (lab t D D).
Proof.
  intros HD HB. destruct (lvl_end D HD) as [_ Hl]. pose proof (Bwd_bound _ _ _ _ HB Hl ltac:(lia)) as (? & ? & ?).
  split; [lia|]. split; [lia|]. replace (D + 1 - 1) with D by lia. split; [lia|].
  split; [intros (_ & ? & _); lia|]. left. split; [done|apply reachB_refl].
Qed.

Lemma innerBackward_part e D k (S : Z -> Prop) :
  geo A B e -> 0 <= D -> k ∈ evens (- D + 1) (D - 1) -> partB (vb e) D S ->
  exists t, innerBackward A B e D k = Ok (withVb e t)
         /\ partB t D (fun k' => S k' \/ k' = k) /\ keeps (vb e) t D.
Proof.
  intros Hg HD Hk Hp. destruct (inner_lvl D k HD Hk) as (Hv & Hh & Hl). pose proof Hp as [HB _].
  pose proof (Bwd_bound _ _ _ _ HB Hv ltac:(lia)) as (? & ? & ?).
  pose proof (Bwd_bound _ _ _ _ HB Hh ltac:(lia)) as (? & ? & ?).
  destruct (lookBackward_reach e k (lab (vb e) D (k - 1))) as (lv & Ev & Rv); [done|lia|lia|].
  destruct (lookBackward_reach e k (lab (vb e) D (k + 1) - 1)) as (lh & Eh & Rh); [done|lia|lia|].
  unfold innerBackward, getBackward.
  rewrite (partB_get _ _ _ _ Hp Hv). cbn [rbind]. rewrite Ev. cbn [rbind].
  rewrite (partB_get _ _ _ _ Hp Hh). cbn [rbind]. rewrite Eh. cbn [rbind].
  pose proof (rb_le _ _ _ Rv). pose proof (rb_le _ _ _ Rh).
  apply setBackward_part; try done.
  destruct (Z.ltb_spec lv lh); (do 4 (split; [lia|])); [by left|by right].
Qed.

Lemma innerPass_backward D ks e (S : Z -> Prop) :
  geo A B e -> 0 <= D -> (forall k, k ∈ ks -> k ∈ evens (- D + 1) (D - 1)) -> partB (vb e) D S ->
  exists t, innerPass (fun e k => innerBackward A B e D k) e ks = Ok (withVb e t)
         /\ partB t D (fun k' => S k' \/ k' ∈ ks) /\ keeps (vb e) t D.
Proof.
  revert e S. induction ks as [|k ks IH]; intros e S Hg HD Hk Hp; cbn [innerPass].
  - exists (vb e). split; [by destruct e|]. split; [|done]. split; [apply Hp|].
    intros k Hl [?|Hn]; [by apply Hp|]. by apply not_elem_of_nil in Hn.
  - destruct (innerBackward_part e D k S) as (t & -> & Hp' & K); [done|done|apply Hk; constructor|done|]. cbn [rbind].
    destruct (IH (withVb e t) (fun k' => S k' \/ k' = k) Hg HD) as (t' & -> & [P1 P2] & K'); [|exact Hp'|].
    { intros k' ?. apply Hk. by constructor. }
    exists t'. split; [done|]. split; [|by eapply keeps_trans]. split; [done|].
    intros k' Hl [?|Hn]; [by apply P2; [|left; left]|].
    apply elem_of_cons in Hn as [->|?]; apply P2; try done; [by left; right|by right].
Qed.

Lemma backwardPass_spec e D :
  geo A B e -> 0 <= D -> Bwd (vb e) D -> exists t, backwardPass A B e D = Ok (withVb e t) /\ Bwd t (D + 1) /\ keeps (vb e) t D.
Proof.
  intros Hg HD HB. destruct (lvl_end D HD) as [Hlo Hhi]. destruct (lvl_end (D + 1) ltac:(lia)) as [Hlo' Hhi'].
  assert (P0 : partB (vb e) D (fun _ => False)) by (by split).
  unfold backwardPass, getBackward. rewrite (partB_get _ _ _ _ P0 Hlo). cbn [rbind].
  destruct (setBackward_part e D (- (D + 1)) (lab (vb e) D (- D) - 1) _ Hg HD Hlo' P0) as (t1 & -> & P1 & K1);
    [by apply startB_low|]. cbn [rbind].
  change (vb (withVb e t1)) with t1. rewrite (partB_get _ _ _ _ P1 Hhi). cbn [rbind].
  destruct (setBackward_part (withVb e t1) D (D + 1) (lab t1 D D) _ Hg HD Hhi' P1) as (t2 & -> & P2 & K2);
    [apply startB_high; [done|apply P1]|]. cbn [rbind]. change (withVb (withVb e t1) t2) with (withVb e t2).
  destruct (innerPass_backward D (evens (- D + 1) (D - 1)) (withVb e t2) _ Hg HD (fun _ Hk => Hk) P2)
    as (t3 & -> & [[B1 B2 B3] P3] & K3).
  exists t3. split; [done|]. split; [|exact (keeps_trans _ _ _ _ (keeps_trans _ _ _ _ K1 K2) K3)]. split; [done|done|]. intros D' k HD' Hl.
  destruct (Z.eq_dec D' D) as [->|]; [|apply B3; [lia|done]]. apply P3; [done|].
  apply lvl_cases in Hl as [->|[->|?]]; [..|done]; tauto.
Qed.

(** *** Backtracking from a label *)

Definition onB (t : label) (n D k x : Z) : Prop :=
  lvl D k /\ D <= n /\ exists s, lab t D k <= x <= s /\ (forall i, lab t D k <= i < s -> same i (i - (k + dl))) /\
    ((D = 0 /\ s = blen A) \/ (lvl (D - 1) (k - 1) /\ s = lab t (D - 1) (k - 1))
     \/ (lvl (D - 1) (k + 1) /\ s = lab t (D - 1) (k + 1) - 1)).

Lemma onB_label t n D k : Bwd t n -> lvl D k -> D <= n -> onB t n D k (lab t D k).
Proof.
  intros HB Hl Hn. split; [done|]. split; [done|]. pose proof (proj1 Hl). destruct (Z.eq_dec D 0) as [->|].
  - destruct Hl as (_ & ? & _). assert (k = 0) as -> by lia. pose proof (bw_start _ _ HB) as [? Hs _ _].
    exists (blen A). split; [lia|]. split; [done|]. by left.
  - pose proof (bw_step _ _ HB (D - 1) k ltac:(lia) (lvl_pred _ _ Hl ltac:(lia))) as [_ _ _ Hf].
    replace (D - 1 + 1) with D in Hf by lia.
    destruct Hf as [[Hp [? Hs _ _]]|[Hp [? Hs _ _]]]; (eexists; split; [|split; [exact Hs|]]); [lia| |lia|]; tauto.
Qed.

Lemma backwardlcsLoop_spec e n m D k x ans px py :
  full e -> Bwd (vb e) n -> onB (vb e) n D k x -> D + (blen A - x) <= Z.of_nat m ->
  chain A B px py x (x - (k + dl)) ans ->
  exists l, backwardlcsLoop m e D k x ans = Ok l /\ chain A B px py (blen A) (blen B) l.
Proof.
  intros ((Lx & Ly & _ & _ & Hd) & Ux & Uy) HB. revert D k x ans. induction m as [|m IH]; intros D k x ans Hon Hm Hc.
  all: pose proof Hon as (Hl & Hn & s & Hs & Hsn & Hsrc); pose proof (proj1 Hl);
       assert (Hk : - D <= k <= D) by apply Hl.
  all: assert (s <= blen A /\ s - (k + dl) <= blen B) by
    (destruct Hsrc as [[-> ->]|[[Hp ->]|[Hp ->]]]; [lia|..];
     pose proof (Bwd_bound _ _ _ _ HB Hp ltac:(lia)) as (? & ? & ?); lia).
  all: cbn [backwardlcsLoop]; rewrite Hd, Ux, Uy;
    destruct ((x =? blen A) && (x - (k + dl) =? blen B)) eqn:E0;
    [exists ans; split; [done|]; apply andb_true_iff in E0; rewrite !Z.eqb_eq in E0;
     eapply chain_weaken; [exact Hc|lia..]|].
  { exfalso. apply andb_false_iff in E0. rewrite !Z.eqb_neq in E0. lia. }
  pose proof (fun D k Hl Hd => Bwd_has _ _ D k HB Hl Hd) as Hhas.
  unfold getBackward.
  destruct (pred_test (vb e) n D k (D - 1) (k - 1) x Hhas Hl ltac:(lia)) as (b & -> & Hb1 & Hb2).
  { by replace (D - 1 + (k - 1) - (D + k)) with (-1 * 2) by lia. }
  cbn [rbind]. destruct b.
  { destruct (Hb1 eq_refl) as [Hl' Ex]. apply IH; [|lia|eapply chain_weaken; [exact Hc|lia..]].
    rewrite Ex. eapply onB_label; [done|done|lia]. }
  destruct (pred_test (vb e) n D k (D - 1) (k + 1) (x + 1) Hhas Hl ltac:(lia)) as (b & -> & Hc1 & Hc2).
  { by replace (D - 1 + (k + 1) - (D + k)) with 0 by lia. }
  cbn [rbind]. destruct b.
  { destruct (Hc1 eq_refl) as [Hl' Ex]. apply IH; [|lia|eapply chain_weaken; [exact Hc|lia..]].
    rewrite Ex. eapply onB_label; [done|done|lia]. }
  assert (x < s).
  { destruct (Z.eq_dec x s) as [->|]; [exfalso|lia]. destruct Hsrc as [[-> ->]|[[Hp Ex]|[Hp Ex]]].
    - apply andb_false_iff in E0. rewrite !Z.eqb_neq in E0. lia.
    - by discriminate Hb2.
    - discriminate Hc2; [done|lia]. }
  rewrite Lx, Ly, !Z.add_0_r. apply IH.
  - split; [done|]. split; [done|]. exists s. split; [lia|done].
  - lia.
  - replace (x + 1 - (k + dl)) with (x - (k + dl) + 1) by lia. apply append_chain; [done|]. apply Hsn. lia.
Qed.

Lemma backwardlcs_spec e n D k :
  full e -> Bwd (vb e) n -> lvl D k -> D <= n -> D <= 8 ->
  exists l, backwardlcs A B e D k = Ok l
    /\ chain A B (lab (vb e) D k) (lab (vb e) D k - (k + dl)) (blen A) (blen B) l.
Proof.
  intros He HB Hl Hn H8. unfold backwardlcs, getBackward.
  rewrite lget_lab by (by eapply Bwd_has). cbn [rbind].
  eapply backwardlcsLoop_spec; [done|done|by eapply onB_label| |simpl; lia].
  pose proof (Bwd_bound _ _ _ _ HB Hl Hn) as (? & ? & ?). unfold pathFuel, blen in *. lia.
Qed.

(** ** The backward labels as those of the mirrored rectangle *)

Definition mirror (t : label) (D k : Z) : Z := blen A - lab t D (- k).

Lemma lvl_opp D k : lvl D k <-> lvl D (- k).
Proof.
  assert (M : forall k, lvl D k -> lvl D (- k)).
  { intros j Hl. pose proof Hl as (? & ? & _). eapply lvl_mod; [exact Hl| |lia|lia].
    replace (D + - j - (D + j)) with (- j * 2) by lia. by rewrite Z.mod_mul. }
  split; [apply M|]. intros Hl. apply M in Hl. by rewrite Z.opp_involutive in Hl.
Qed.

Lemma Bwd_grid t n : Bwd t n -> Grid (blen A) (blen B) (mirror t) n.
Proof.
  intros HB. pose proof (blen_nonneg A). pose proof (blen_nonneg B). unfold mirror. split.
  - destruct (bw_start _ _ HB) as [_ _ Hin _]. change (- 0) with 0. lia.
  - intros D k HD Hl Hp. apply lvl_opp in Hl, Hp. replace (- (k - 1)) with (- k + 1) in * by lia.
    pose proof (sb_h _ _ _ (bw_step _ _ HB D _ HD Hl) Hp). lia.
  - intros D k HD Hl Hp. apply lvl_opp in Hl, Hp. replace (- (k + 1)) with (- k - 1) in * by lia.
    pose proof (sb_v _ _ _ (bw_step _ _ HB D _ HD Hl) Hp). lia.
  - intros D k HD Hl Ho. apply lvl_opp in Hl.
    destruct (sb_from _ _ _ (bw_step _ _ HB D _ HD Hl)) as [[Hp [? _ Hin Hout]]|[Hp [? _ Hin Hout]]].
    + right. rewrite lvl_opp. replace (- (k + 1)) with (- k - 1) by lia. split; [done|]. rewrite Hout; lia.
    + left. rewrite lvl_opp. replace (- (k - 1)) with (- k + 1) by lia. split; [done|]. rewrite Hout; lia.
Qed.

(** ** Where the two searches meet *)

(** The state of the two-sided search: both triangles are labelled. *)
Record two (e : editGraph) (df db : Z) : Prop := {
  tw_full : full e;
  tw_f : Fwd A B (blen A) (blen B) (vf e) df;
  tw_b : Bwd (vb e) db
}.

(** A diagonal both searches have labelled. *)
Definition meets (df db k : Z) : Prop := lvl df k /\ lvl db (k - dl).

(** The diagonals [twoDone] prefers: both labels coincide, or one is on a border. *)
Definition shortcut (e : editGraph) (df db k : Z) : Prop :=
  let x := lab (vf e) df k in
  let u := lab (vb e) db (k - dl) in
  x = u \/ u = 0 \/ u - k = 0 \/ x - k = blen B \/ x = blen A.

(** On diagonal [k] the forward label has not passed the backward one. *)
Definition open (e : editGraph) (df db k : Z) : Prop := lab (vf e) df k < lab (vb e) db (k - dl).

Lemma twoDoneFrom_spec e df db ls :
  two e df db -> (forall l, l ∈ ls -> meets df db l) ->
  exists r, twoDoneFrom e df db ls = Ok r
    /\ match r with
       | Some l => l ∈ ls /\ shortcut e df db l
       | None => forall l, l ∈ ls -> ~ shortcut e df db l
       end.
Proof.
  intros [((_ & _ & _ & _ & Hd) & Ux & Uy) HF HB]. induction ls as [|l ls IH]; intros Hl; cbn [twoDoneFrom].
  - eexists. split; [done|]. intros l Hn. by apply not_elem_of_nil in Hn.
  - destruct (Hl l ltac:(constructor)) as [Hf Hb].
    rewrite lget_lab by (eapply Fwd_has; [done|done|lia]). cbn [rbind].
    rewrite Hd, lget_lab by (eapply Bwd_has; [done|done|lia]). cbn [rbind]. rewrite Ux, Uy.
    destruct (_ || _) eqn:E.
    + rewrite !orb_true_iff, !Z.eqb_eq in E. eexists. split; [done|]. split; [constructor|]. unfold shortcut. tauto.
    + rewrite !orb_false_iff, !Z.eqb_neq in E.
      destruct IH as (r & -> & Hr); [intros l' ?; apply Hl; by constructor|]. exists r. split; [done|].
      destruct r as [k|]; [split; [apply elem_of_cons; right|]; apply Hr|].
      intros l' Hl'. apply elem_of_cons in Hl' as [->|?]; [unfold shortcut; tauto|by apply Hr].
Qed.

(** What a diagonal returned by [twoDone] is good for. *)
Definition found (e : editGraph) (df db k : Z) : Prop :=
  meets df db k /\
  (shortcut e df db k
   \/ ((forall l, meets df db l -> k <= l -> ~ shortcut e df db l) /\ (forall l, meets df db l -> l < k -> open e df db l))).

(** [ks] are the diagonals from [k0] on that both have labelled. *)
Lemma twoDoneLoop_spec e df db kmax ks k0 :
  two e df db -> (forall l, l ∈ ks <-> meets df db l /\ k0 <= l) ->
  (forall k l, meets df db k -> (l ∈ evens k kmax <-> meets df db l /\ k <= l)) ->
  StronglySorted Z.lt ks -> (forall l, meets df db l -> l < k0 -> open e df db l) ->
  exists r, twoDoneLoop e df db kmax ks = Ok r
    /\ match r with
       | Some k => found e df db k
       | None => forall k, meets df db k -> open e df db k
       end.
Proof.
  intros Ht Hks Hev. pose proof Ht as [((_ & _ & _ & _ & Hd) & _) HF HB].
  revert k0 Hks. induction ks as [|k ks IH]; intros k0 Hks Hs Hbelow; cbn [twoDoneLoop].
  - eexists. split; [done|]. intros k Hk. apply Hbelow; [done|]. destruct (Z.lt_ge_cases k k0); [done|].
    exfalso. by apply (not_elem_of_nil k), Hks.
  - assert (Hk : meets df db k /\ k0 <= k) by (apply Hks; constructor). destruct Hk as [Hk Hk0].
    pose proof Hk as [Hf Hb]. apply StronglySorted_inv in Hs as [Hs Hlt]. rewrite Forall_forall in Hlt.
    assert (Hb' : forall l, meets df db l -> l < k -> open e df db l).
    { intros l Hl Hlk. destruct (Z.lt_ge_cases l k0); [by apply Hbelow|exfalso].
      assert (Hin : l ∈ k :: ks) by (by apply Hks). apply elem_of_cons in Hin as [->|Hin]; [lia|].
      apply Hlt in Hin. lia. }
    rewrite lget_lab by (eapply Fwd_has; [done|done|lia]). cbn [rbind].
    rewrite Hd, lget_lab by (eapply Bwd_has; [done|done|lia]). cbn [rbind].
    destruct (Z.leb_spec (lab (vb e) db (k - dl)) (lab (vf e) df k)) as [Hle|Hopen].
    + destruct (twoDoneFrom_spec e df db (evens k kmax) Ht) as (r & -> & Hr); [intros l Hl; by apply (Hev k) in Hl as [? _]|].
      cbn [rbind]. eexists. split; [done|]. destruct r as [l|]; simpl.
      * destruct Hr as [Hl Hsc]. apply (Hev k) in Hl as [Hl _]; [|done]. split; [done|by left].
      * split; [done|]. right. split; [|done]. intros l Hl Hkl. apply Hr. by apply (Hev k).
    + apply (IH (k + 1)); [|done|].
      * intros l. specialize (Hks l). rewrite elem_of_cons in Hks. split.
        -- intros Hl. pose proof (Hlt _ Hl). split; [apply Hks; by right|lia].
        -- intros [Hl Hlk]. destruct Hks as [_ Hks]. destruct Hks as [->|?]; [split; [done|lia]|lia|done].
      * intros l Hl Hlk. destruct (Z.eq_dec l k) as [->|]; [done|]. apply Hb'; [done|lia].
Qed.

Lemma evens_sorted k0 k1 : StronglySorted Z.lt (evens k0 k1).
Proof.
  unfold evens. generalize (Z.to_nat ((k1 - k0) / 2 + 1)) as m. intros m. generalize 0%nat as i.
  induction m as [|m IH]; intros i; simpl; constructor; [apply IH|].
  apply Forall_forall. intros z Hz. apply list_elem_of_fmap in Hz as (j & -> & Hj). apply elem_of_seq in Hj. lia.
Qed.

Lemma twoDone_spec e df db :
  0 <= df -> 0 <= db -> two e df db ->
  exists r, twoDone e df db = Ok r
    /\ match r with
       | Some k => found e df db k
       | None => forall k, meets df db k -> open e df db k
       end.
Proof.
  intros Hdf Hdb Ht. pose proof Ht as [((_ & _ & _ & _ & Hd) & _) _ _]. unfold twoDone. rewrite Hd.
  assert (R : Z.rem (df + db + dl) 2 = 0 <-> (df + db + dl) mod 2 = 0).
  { rewrite Z.rem_divide, Z.mod_divide by lia. done. }
  destruct (Z.eqb_spec (Z.rem (df + db + dl) 2) 0) as [E|N]; cbn [negb].
  - apply R in E.
    set (kmin := if - db + dl <? - df then - df else - db + dl).
    set (kmax := if df <? db + dl then df else db + dl).
    assert (Hmin : kmin = Z.max (- df) (- db + dl)) by (unfold kmin; zcases; lia).
    assert (Hmax : kmax = Z.min df (db + dl)) by (unfold kmax; zcases; lia).
    assert (P : forall k, meets df db k <-> kmin <= k <= kmax /\ (k - kmin) mod 2 = 0).
    { intros k. unfold meets, lvl. rewrite Hmin, Hmax. clear - Hdf Hdb E. mod2. }
    apply (twoDoneLoop_spec e df db kmax (evens kmin kmax) kmin); [done| | |apply evens_sorted|].
    + intros l. rewrite elem_evens, P. clear. lia.
    + intros k l Hk. apply P in Hk. rewrite elem_evens, P. clear - Hk. mod2.
    + intros l Hl Hlt. apply P in Hl. lia.
  - eexists. split; [done|]. intros k [(_ & _ & Hk2) (_ & _ & Hk4)]. exfalso. apply N, R.
    clear - Hk2 Hk4. mod2.
Qed.

(** The backward search has labelled the origin at (D, k) (in mirrored coordinates). *)
Definition origin (t : label) (D k : Z) : Prop := cornerAt (blen A) (blen B) (mirror t) D k.

Section Found.
Context (e : editGraph) (df db k : Z) (Hdf : 0 <= df) (Hdb : 0 <= db) (Ht : two e df db)
  (Hf : found e df db k) (Hn : ~ shortcut e df db k)
  (Ho : forall D' k', D' < db -> ~ origin (vb e) D' k').

Lemma found_no_origin D' k' : D' <= db -> ~ origin (vb e) D' k'.
Proof.
  intros Hd Hc. destruct (Z.eq_dec D' db) as [->|]; [|by apply (Ho D' k'); [lia|]].
  destruct Hc as (Hl & E1 & E2). unfold mirror in E1, E2.
  assert (k' = dl) as -> by lia. assert (E0 : lab (vb e) db (0 - dl) = 0) by (rewrite Z.sub_0_l; lia).
  destruct Hf as [Hk [?|[Hs Hop]]]; [done|].
  assert (Hm : meets df db 0).
  { destruct Hk as [(_ & R1 & M1) (_ & R2 & M2)]. destruct Hl as (_ & R3 & M3).
    split; (split; [done|split; [lia|]]); clear - M1 M2 M3; mod2. }
  destruct (Z.lt_ge_cases 0 k).
  - specialize (Hop 0 Hm ltac:(lia)). unfold open in Hop.
    destruct (Fwd_nonneg _ _ _ _ _ _ _ _ (tw_f _ _ _ Ht) (proj1 Hm) ltac:(lia)) as (? & ? & ?). lia.
  - apply (Hs 0 Hm ltac:(lia)). right. left. done.
Qed.

Lemma found_inside : 0 <= lab (vb e) db (k - dl) /\ 0 <= lab (vb e) db (k - dl) - k.
Proof.
  destruct Ht as [_ HF HB]. pose proof (Bwd_grid _ _ HB) as HG. pose proof Hf as [[Hk1 Hk2] [?|[Hs Hop]]]; [done|].
  pose proof Hk1 as (_ & ? & M1). pose proof Hk2 as (_ & ? & M2).
  pose proof (proj1 (lvl_opp _ _) Hk2) as Hm.
  assert (C : forall k', lvl db k' -> blen A <= mirror (vb e) db k' -> blen B <= mirror (vb e) db k' - k' -> False).
  { intros k' H1 H2 H3. destruct (Grid_corner _ _ _ _ HG db k' H1 ltac:(lia) H2 H3) as (D' & k'' & Hd & Hc).
    by eapply found_no_origin. }
  split.
  - destruct (Z.le_gt_cases 0 (lab (vb e) db (k - dl))) as [|Hu]; [done|exfalso].
    destruct (side_exact _ _ _ _ HG (Z.to_nat (db + - (k - dl))) db _ Hm) as (k' & Hl' & Hle & E);
      [lia|destruct Hm as (_ & ? & _); lia|unfold mirror; rewrite Z.opp_involutive; lia|].
    unfold mirror in E. pose proof Hl' as (_ & ? & M3).
    destruct (Z.le_gt_cases (- k' + dl) df).
    + apply (Hs (- k' + dl)); [|lia|right; left; replace (- k' + dl - dl) with (- k') by lia; lia].
      split; [|replace (- k' + dl - dl) with (- k') by lia; by apply lvl_opp in Hl'].
      split; [done|]. split; [lia|]. clear - M1 M2 M3. mod2.
    + apply (C k' Hl'); unfold mirror; lia.
  - destruct (Z.le_gt_cases 0 (lab (vb e) db (k - dl) - k)) as [|Hv]; [done|exfalso].
    destruct (top_exact _ _ _ _ HG (Z.to_nat (db - - (k - dl))) db _ Hm) as (k' & Hl' & Hle & E);
      [lia|destruct Hm as (_ & ? & _); lia|unfold mirror; rewrite Z.opp_involutive; lia|].
    unfold mirror in E. pose proof Hl' as (_ & ? & M3).
    destruct (Z.le_gt_cases (- df) (- k' + dl)).
    + assert (Hm' : meets df db (- k' + dl)).
      { split; [|replace (- k' + dl - dl) with (- k') by lia; by apply lvl_opp in Hl'].
        split; [done|]. split; [lia|]. clear - M1 M2 M3. mod2. }
      assert (- k' + dl <> k).
      { intros <-. replace (- k' + dl - dl) with (- k') in Hv by lia. lia. }
      specialize (Hop _ Hm' ltac:(lia)). unfold open in Hop. replace (- k' + dl - dl) with (- k') in Hop by lia.
      destruct (Fwd_nonneg _ _ _ _ _ _ _ _ HF (proj1 Hm') ltac:(lia)) as (? & ? & ?). lia.
    + apply (C k' Hl'); unfold mirror; lia.
Qed.

End Found.

(** ** Putting the two halves together *)

(** A chain stays within the two values, whatever its ends. *)
Lemma chain_full px py qx qy l : chain A B px py qx qy l -> chain A B 0 0 (blen A) (blen B) l.
Proof.
  intros Hc. pose proof (blen_nonneg A). pose proof (blen_nonneg B). apply sorted_chain; try done.
  - clear - Hc. revert px py Hc. induction l as [|d l IH]; intros px py; simpl; [constructor|].
    intros (_ & _ & [? _] & Hc). constructor; [by eapply IH|]. apply chain_inBox in Hc.
    eapply Forall_impl; [exact Hc|]. unfold inBox. intros d' ?. lia.
  - by eapply chain_apart.
  - by eapply chain_diagOk.
  - apply chain_diagOk in Hc. eapply Forall_impl; [exact Hc|]. apply diagOk_inBox.
Qed.

Lemma joined px py x y x' y' qx qy f b l :
  chain A B px py x y f -> chain A B x' y' qx qy b -> x <= x' -> y <= y' -> l ≡ₚ f ++ b ->
  chain A B 0 0 (blen A) (blen B) (sort l).
Proof.
  intros Hf Hb Hx Hy Hp. eapply sort_perm_chain; [exact Hp|]. apply (chain_full px py qx qy).
  eapply chain_concat; [exact Hf|]. eapply chain_weaken; [exact Hb|lia..].
Qed.

Lemma labelled_spec (t : label) n guard d k x D K :
  (forall D k, lvl D k -> D <= n -> has t D k) -> lvl D K -> d <= n -> (d + k - (D + K)) mod 2 = 0 ->
  exists c, labelled t guard d k x = Ok c /\ (c = true -> lvl d k /\ lab t d k = x).
Proof.
  intros Hh Hl Hd Hm. unfold labelled. destruct guard; cbn [andb]; [|by exists false].
  destruct (ok d k) eqn:E; [|by exists false].
  assert (Hl' : lvl d k) by (by eapply lvl_ok). rewrite lget_lab by (by apply Hh). cbn [rbind].
  eexists. split; [done|]. intros Ec. apply Z.eqb_eq in Ec. done.
Qed.

Lemma twolcs_spec e df db kf :
  0 <= limit e <= 8 -> df <= 8 -> db <= 8 -> two e df db -> meets df db kf ->
  (~ shortcut e df db kf -> 0 <= lab (vb e) db (kf - dl) /\ 0 <= lab (vb e) db (kf - dl) - kf) ->
  exists l, twolcs A B e df db kf = Ok l /\ chain A B 0 0 (blen A) (blen B) l.
Proof.
  intros Hlim H8 H8' Ht [Hf Hb] Hin. pose proof Ht as [Hfull HF HB].
  pose proof Hfull as (Hg & Ux & Uy). pose proof Hg as (Lx & Ly & _ & _ & Hd).
  pose proof (fun D k Hl Hd => Fwd_has _ _ _ _ _ _ D k HF Hl Hd) as HhF.
  pose proof (fun D k Hl Hd => Bwd_has _ _ D k HB Hl Hd) as HhB.
  unfold twolcs. rewrite Hd.
  rewrite lget_lab by (apply HhF; [done|lia]). cbn [rbind]. rewrite lget_lab by (apply HhB; [done|lia]). cbn [rbind].
  set (x := lab (vf e) df kf) in *. set (u := lab (vb e) db (kf - dl)) in *.
  assert (PF : forall D k, lvl D k -> D <= df -> exists l, forwardlcs A B e D k = Ok l
             /\ chain A B 0 0 (lab (vf e) D k) (lab (vf e) D k - k) l).
  { intros D k Hl HD. eapply forwardlcs_spec; try done; lia. }
  assert (PB : forall D k, lvl D k -> D <= db -> exists l, backwardlcs A B e D k = Ok l
             /\ chain A B (lab (vb e) D k) (lab (vb e) D k - (k + dl)) (blen A) (blen B) l).
  { intros D k Hl HD. eapply backwardlcs_spec; try done; lia. }
  destruct (PF df kf Hf ltac:(lia)) as (f & Ef & Cf). destruct (PB db (kf - dl) Hb ltac:(lia)) as (b & Eb & Cb).
  fold x in Cf. fold u in Cb. replace (u - (kf - dl + dl)) with (u - kf) in Cb by lia.
  destruct (Z.eqb_spec x u) as [E1|N1].
  { rewrite Ef, Eb. cbn [rbind]. eexists. split; [done|]. by eapply joined; [exact Cf|exact Cb|lia|lia|]. }
  destruct (labelled_spec (vf e) df (0 <? u) (df - 1) (u - 1 - (u - kf)) (u - 1) df kf HhF Hf ltac:(lia)) as (c & -> & Hc);
    [by replace (df - 1 + (u - 1 - (u - kf)) - (df + kf)) with (-1 * 2) by lia|]. cbn [rbind].
  destruct c.
  { destruct (Hc eq_refl) as [Hl El]. destruct (PF _ _ Hl ltac:(lia)) as (f' & -> & Cf'). rewrite Eb. cbn [rbind].
    eexists. split; [done|]. rewrite El in Cf'. by eapply joined; [exact Cf'|exact Cb|lia|lia|]. }
  destruct (labelled_spec (vf e) df (0 <? u - kf) (df - 1) (u - (u - kf - 1)) u df kf HhF Hf ltac:(lia)) as (c & -> & Hc');
    [by replace (df - 1 + (u - (u - kf - 1)) - (df + kf)) with 0 by lia|]. cbn [rbind].
  destruct c.
  { destruct (Hc' eq_refl) as [Hl El]. destruct (PF _ _ Hl ltac:(lia)) as (f' & -> & Cf'). rewrite Eb. cbn [rbind].
    eexists. split; [done|]. rewrite El in Cf'. by eapply joined; [exact Cf'|exact Cb|lia|lia|]. }
  rewrite Ux, Uy. destruct ((u =? 0) || (u - kf =? 0) || (x =? blen A) || (x - kf =? blen B)) eqn:E4.
  { destruct ((u =? 0) || (u - kf =? 0)); eexists; (split; [first [exact Eb|exact Ef]|]); by eapply chain_full. }
  rewrite !orb_false_iff, !Z.eqb_neq in E4.
  destruct (labelled_spec (vb e) db (x + 1 <=? blen A) (db - 1) (x + 1 - (x - kf) - dl) (x + 1) db (kf - dl) HhB Hb ltac:(lia))
    as (c & -> & Hc5); [by replace (db - 1 + (x + 1 - (x - kf) - dl) - (db + (kf - dl))) with 0 by lia|]. cbn [rbind].
  destruct c.
  { destruct (Hc5 eq_refl) as [Hl El]. replace (x + 1 - (x - kf) - dl) with (kf - dl + 1) in * by lia.
    destruct (PB _ _ Hl ltac:(lia)) as (b' & -> & Cb'). rewrite Ef. cbn [rbind].
    eexists. split; [done|]. rewrite El in Cb'. eapply joined; [exact Cf|exact Cb'|lia|lia|apply Permutation_app_comm]. }
  destruct (labelled_spec (vb e) db (x - kf + 1 <=? blen B) (db - 1) (x - (x - kf + 1) - dl) x db (kf - dl) HhB Hb ltac:(lia))
    as (c & -> & Hc6); [by replace (db - 1 + (x - (x - kf + 1) - dl) - (db + (kf - dl))) with (-1 * 2) by lia|]. cbn [rbind].
  destruct c.
  { destruct (Hc6 eq_refl) as [Hl El]. replace (x - (x - kf + 1) - dl) with (kf - dl - 1) in * by lia.
    destruct (PB _ _ Hl ltac:(lia)) as (b' & -> & Cb'). rewrite Ef. cbn [rbind].
    eexists. split; [done|]. rewrite El in Cb'. eapply joined; [exact Cf|exact Cb'|lia|lia|apply Permutation_app_comm]. }
  rewrite Eb. cbn [rbind]. pose proof (Bwd_bound _ _ _ _ HB Hb ltac:(lia)) as (? & ? & ?). fold u in H, H0, H1.
  destruct Hin as [? ?]; [unfold shortcut; fold x; fold u; lia|].
  destruct (forward_spec A B (withU e u (u - kf))) as (f' & -> & Cf'); [|done|].
  { split; [done|]. split; [done|]. simpl. split; [lia|]. split; [lia|done]. }
  cbn [rbind]. eexists. split; [done|]. simpl in Cf'. eapply joined; [exact Cf'|exact Cb|lia|lia|apply Permutation_app_comm].
Qed.

(** A check that found nothing rules out that one search has crossed the whole
    rectangle, when the other's level is even. *)
Lemma open_no_corner e df db n k :
  Bwd (vb e) n -> 0 <= db <= n -> db mod 2 = 0 -> (forall k, meets df db k -> open e df db k) ->
  ~ corner (blen A) (blen B) (vf e) df k.
Proof.
  intros HB Hdb He Hop (Hl & E1 & E2). assert (k = dl) as -> by lia.
  assert (L0 : lvl db 0) by (split; [lia|split; [lia|by rewrite Z.add_0_r]]).
  assert (Hm : meets df db dl) by (split; [done|by rewrite Z.sub_diag]).
  specialize (Hop _ Hm). unfold open in Hop. rewrite Z.sub_diag, E1 in Hop.
  destruct (Bwd_bound _ _ _ _ HB L0 ltac:(lia)) as (? & _). lia.
Qed.

Lemma open_no_origin e df db n k :
  Fwd A B (blen A) (blen B) (vf e) n -> 0 <= df <= n -> df mod 2 = 0 -> (forall k, meets df db k -> open e df db k) ->
  ~ origin (vb e) db k.
Proof.
  intros HF Hdf He Hop (Hl & E1 & E2). unfold mirror in E1, E2. assert (k = dl) as -> by lia.
  assert (L0 : lvl df 0) by (split; [lia|split; [lia|by rewrite Z.add_0_r]]).
  assert (Hm : meets df db 0) by (split; [done|rewrite Z.sub_0_l; by apply lvl_opp in Hl]).
  specialize (Hop _ Hm). unfold open in Hop. rewrite Z.sub_0_l in Hop.
  destruct (Fwd_nonneg _ _ _ _ _ _ _ _ HF L0 ltac:(lia)) as (? & _). lia.
Qed.

Lemma odd_next D : 0 <= D -> D mod 2 <> 0 -> 1 <= D /\ (D - 1) mod 2 = 0 /\ (D + 1) mod 2 = 0.
Proof. intros. mod2. Qed.

(** The state at the start of level [D]. *)
Record atLevel (e : editGraph) (D : Z) : Prop := {
  al_two : two e D D;
  al_f D' k : D' < D -> ~ corner (blen A) (blen B) (vf e) D' k;
  al_b D' k : D' < D -> ~ origin (vb e) D' k;
  al_prev : 1 <= D -> forall k, meets D (D - 1) k -> open e D (D - 1) k
}.

Lemma atLevel_next e D tf tb :
  0 <= D -> atLevel e D -> (forall k, meets D D k -> open e D D k) ->
  Fwd A B (blen A) (blen B) tf (D + 1) -> keeps (vf e) tf D ->
  (forall k, meets (D + 1) D k -> open (withVf e tf) (D + 1) D k) ->
  Bwd tb (D + 1) -> keeps (vb e) tb D ->
  atLevel (withVb (withVf e tf) tb) (D + 1).
Proof.
  intros HD [[Hfull HF HB] NF NB Hprev] Hop HF' Kf Hop' HB' Kb. split.
  - split; [done|done|done].
  - intros D' k HD'. unfold corner, cornerAt. simpl. rewrite Kf by lia.
    destruct (Z.eq_dec D' D) as [->|]; [|apply NF; lia].
    change (~ corner (blen A) (blen B) (vf e) D k).
    destruct (Z.eq_dec (D mod 2) 0); [eapply (open_no_corner e D D D); [exact HB|lia|done|done]|].
    destruct (odd_next D) as (? & ? & ?); [done|done|].
    eapply (open_no_corner e D (D - 1) D); [exact HB|lia|done|]. by apply Hprev.
  - intros D' k HD'. unfold origin, cornerAt, mirror. simpl. rewrite Kb by lia.
    destruct (Z.eq_dec D' D) as [->|]; [|apply NB; lia].
    change (~ origin (vb (withVf e tf)) D k).
    destruct (Z.eq_dec (D mod 2) 0); [eapply (open_no_origin e D D D); [exact HF|lia|done|done]|].
    destruct (odd_next D) as (? & ? & ?); [done|done|].
    eapply (open_no_origin (withVf e tf) (D + 1) D (D + 1)); [exact HF'|lia|done|done].
  - intros _ k. replace (D + 1 - 1) with D by lia. intros Hk. specialize (Hop' k Hk).
    unfold open in *. simpl in *. by rewrite Kb by lia.
Qed.

Lemma twoLevels_spec m e D :
  0 <= limit e <= 8 -> 0 <= D -> D + Z.of_nat m <= 8 -> atLevel e D ->
  exists e' r, twoLevels A B m e D = Ok (e', r)
    /\ match r with
       | Some l => chain A B 0 0 (blen A) (blen B) l
       | None => limit e' = limit e /\ atLevel e' (D + Z.of_nat m)
       end.
Proof.
  intros Hlim. revert e Hlim D. induction m as [|m IH]; intros e Hlim D HD Hm Hal; cbn [twoLevels].
  { eexists _, _. split; [done|]. rewrite Z.add_0_r. done. }
  pose proof Hal as [Ht NF NB Hprev]. pose proof Ht as [Hfull HF HB]. pose proof Hfull as (Hg & Ux & Uy).
  destruct (twoDone_spec e D D HD HD Ht) as (got & -> & Hgot). cbn [rbind]. destruct got as [k|].
  { destruct (twolcs_spec e D D k Hlim ltac:(lia) ltac:(lia) Ht) as (l & -> & Hc);
      [apply Hgot|intros Hn; by eapply found_inside|]. by eexists _, _. }
  destruct (forwardPass_spec A B e D Hg HD) as (tf & -> & HF' & Kf); [by rewrite Ux, Uy|]. cbn [rbind].
  rewrite Ux, Uy in HF'. assert (Ht1 : two (withVf e tf) (D + 1) D) by (by split).
  destruct (twoDone_spec (withVf e tf) (D + 1) D ltac:(lia) HD Ht1) as (got & -> & Hgot'). cbn [rbind].
  destruct got as [k|].
  { destruct (twolcs_spec (withVf e tf) (D + 1) D k Hlim ltac:(lia) ltac:(lia) Ht1) as (l & -> & Hc);
      [apply Hgot'|intros Hn; eapply found_inside; [| |exact Ht1| |exact Hn|]; [lia|lia|done|done]|]. by eexists _, _. }
  destruct (backwardPass_spec (withVf e tf) D Hg HD HB) as (tb & -> & HB' & Kb). cbn [rbind].
  destruct (IH (withVb (withVf e tf) tb) Hlim (D + 1) ltac:(lia) ltac:(lia)) as (e' & r & -> & Hr).
  { by eapply atLevel_next. }
  eexists _, _. split; [done|]. replace (D + Z.of_nat (S m)) with (D + 1 + Z.of_nat m) by lia. done.
Qed.

Lemma bestBackward_spec e n ks dm km :
  limit e = n -> (forall k, k ∈ ks -> has (vb e) n k) -> km ∈ ks ->
  exists r, bestBackward e ks dm km = Ok r /\ r ∈ ks.
Proof.
  intros Hn Hh Hk.
  assert (G : forall ks' dm km, (forall k, k ∈ ks' -> k ∈ ks) -> km ∈ ks ->
    exists r, bestBackward e ks' dm km = Ok r /\ r ∈ ks).
  { clear km dm Hk. induction ks' as [|k ks' IH]; intros dm km Hs Hk; cbn [bestBackward]; [by exists km|].
    unfold getBackward. rewrite Hn, lget_lab by (apply Hh, Hs; constructor). cbn [rbind].
    assert (Hs' : forall k, k ∈ ks' -> k ∈ ks) by (intros k' ?; apply Hs; by constructor).
    destruct (_ && _ && _); apply IH; try done. apply Hs. constructor. }
  by apply G.
Qed.

Lemma setBackward_first e :
  full e -> exists t, setBackward A B e 0 0 (ux e) = Ok (withVb e t) /\ Bwd t 0.
Proof.
  intros (Hg & Ux & Uy). pose proof Hg as (Lx & _). pose proof (blen_nonneg A). pose proof (blen_nonneg B).
  destruct (lookBackward_reach e 0 (blen A)) as (l & El & Hr); [done|lia|lia|].
  unfold setBackward. rewrite Ux, El. cbn [rbind]. rewrite lset_ok by (split; [lia|split; [lia|done]]). cbn [rbind].
  rewrite Lx, Z.sub_0_r. eexists. split; [done|]. split; [apply has_set_eq|by rewrite lab_set_eq|lia].
Qed.

Lemma twosided_spec e :
  full e -> 0 <= limit e <= 8 -> exists l, twosided A B e = Ok l /\ chain A B 0 0 (blen A) (blen B) l.
Proof.
  intros Hfull Hlim. pose proof Hfull as (Hg & Ux & Uy). pose proof (blen_nonneg A). pose proof (blen_nonneg B).
  unfold twosided. destruct (setForward_first A B e Hg) as (tf & -> & HF). cbn [rbind]. rewrite Ux, Uy in HF.
  destruct (setBackward_first (withVf e tf) Hfull) as (tb & -> & HB). cbn [rbind].
  set (e0 := withVb (withVf e tf) tb). change (limit e0) with (limit e).
  destruct (twoLevels_spec (Z.to_nat (limit e)) e0 0) as (e' & r & -> & Hr); [done|lia|lia| |].
  { split; [by split|intros ? ? ? ((? & _) & _); lia|intros ? ? ? ((? & _) & _); lia|lia]. }
  cbn [rbind]. destruct r as [l|]; [by exists l|]. destruct Hr as [Elim [Ht NF NB _]].
  rewrite Z2Nat.id, Z.add_0_l in * by lia. change (limit e0) with (limit e) in Elim.
  destruct Ht as [Hfull' HF' HB']. pose proof Hfull' as (Hg' & Ux' & Uy'). pose proof Hg' as (Lx & Ly & _).
  rewrite <- Elim in *.
  assert (Hev : forall k, k ∈ evens (- limit e') (limit e') <-> lvl (limit e') k) by (intros; apply levels_evens; lia).
  destruct (bestForward_inside A B e') as (kmax & -> & Hk & _); [lia|lia|lia|by rewrite Ux', Uy'| |].
  { rewrite Ux', Uy'.
    assert (Hc : (exists k, corner (blen A) (blen B) (vf e') (limit e') k)
              \/ forall k, ~ corner (blen A) (blen B) (vf e') (limit e') k).
    { destruct (decide (lvl (limit e') dl /\ lab (vf e') (limit e') dl = blen A)) as [[? ?]|Hn].
      - left. exists dl. split; [done|lia].
      - right. intros k (Hl & E1 & E2). apply Hn. assert (k = dl) as -> by lia. done. }
    destruct Hc as [[k (Hl & E1 & E2)]|Hc].
    - exists k. split; [done|lia].
    - apply Grid_inside; [by apply (Fwd_grid A B)|lia|]. intros D k HD.
      destruct (Z.eq_dec D (limit e')) as [->|]; [apply Hc|apply NF; lia]. }
  cbn [rbind]. destruct (Z.ltb_spec kmax (- limit e')) as [Hlt|_]; [destruct Hk as (_ & ? & _); lia|].
  destruct (forwardlcs_spec A B e' (limit e') (blen A) (blen B) (limit e') kmax) as (f & -> & Cf); try lia; try done.
  cbn [rbind].
  destruct (bestBackward_spec e' (limit e') (evens (- limit e') (limit e')) (2 ^ 25) kmax eq_refl) as (kb & -> & Hkb);
    [|by apply Hev|].
  { intros k Hk'. apply Hev in Hk'. eapply Bwd_has; [done|done|lia]. }
  apply Hev in Hkb. cbn [rbind]. destruct (Z.ltb_spec kb (- limit e')) as [Hlt|_]; [destruct Hkb as (_ & ? & _); lia|].
  destruct (backwardlcs_spec e' (limit e') (limit e') kb) as (b & -> & Cb); try lia; try done. cbn [rbind].
  eexists. split; [done|]. apply fix_chain. apply Forall_app. split; by eapply chain_diagOk.
Qed.

End TwoSided.

(** ** The edit script *)

Lemma DiffBytes_spec pf pb a b :
  exists ds l, DiffBytes pf pb a b = Ok ds /\ ds = toDiffs l (blen a) (blen b)
            /\ chain a b 0 0 (blen a) (blen b) l.
Proof.
  unfold DiffBytes, compute. change (maxDiffs / 2) with 4. change (4 <=? 0) with false. cbv iota.
  pose proof (blen_nonneg a). pose proof (blen_nonneg b).
  destruct (twosided_spec a b (mkGraph pf pb 4 0 0 (blen a) (blen b) (blen a - blen b))) as (l & -> & Hc).
  - split; [|done]. repeat split; simpl; lia.
  - simpl. lia.
  - cbn [rbind]. eexists _, _. split; [done|]. split; [done|exact Hc].
Qed.

(** [lcs.DiffBytes] as the patch package's [Differ]; [pf] and [pb] are what the pool of
    label vectors hands out. *)
Definition lcsDiffer (pf pb : bytes -> bytes -> label) : Differ :=
  {| Patch.DiffBytes a b := match Lcs.DiffBytes (pf a b) (pb a b) a b with Ok ds => ds | _ => [] end |}.

Lemma lcsDiffer_ok pf pb : @DifferOk (lcsDiffer pf pb).
Proof.
  split; intros a b Ha Hb; cbn; destruct (DiffBytes_spec (pf a b) (pb a b) a b) as (ds & l & -> & -> & Hc).
  - by apply toDiffsLoop_edits.
  - pose proof (toDiffsLoop_few a b l 0 0 Hc). unfold toDiffs, small in *. lia.
Qed.
