(* ===== verification/Kv.v ===== *)
(** * Key revisions and stored records (src/kv.go, src/crc.go)

    A [keyrev] packs a revision, a sub-revision and a tombstone bit into a
    [uint64]; a [keyrecord] is one duplicate of the revision index, a [kv] one
    entry of the value table, both checksummed. Values are stored either as they
    are, or as a patch against the next newer value, and possibly compressed. *)

From S2P Require Import Prelude Types GoBinary Patch.

(** ** crc.go *)

Definition crc (key val : bytes) : Z := crc32 (key ++ val).

(** ** keyrev *)

Definition revMaskLower : Z := Z.shiftr (2 ^ 64 - 1) 54.
Definition revMaskDelete : Z := Z.shiftl 1 1.
Definition revMaskReserved : Z := Z.shiftl 1 2.

Definition newkeyrev (upper lower : Z) (isdel : bool) : Z :=
  let a := u64 (u64 (Z.shiftl upper 12) + u64 (Z.shiftl lower 2)) in
  if isdel then Z.lor a revMaskDelete else a.

Definition keyrev_invert (kr : Z) : Z := u64 (2 ^ 64 - 1 - kr).

Definition keyrev_upper (kr : Z) : Z := Z.shiftr kr 12.

Definition keyrev_lower (kr : Z) : Z := Z.land (Z.shiftr kr 2) revMaskLower.

Definition keyrev_isdel (kr : Z) : bool := 0 <? Z.land kr revMaskDelete.

Definition keyrev_appendbytes (kr : Z) (buf : bytes) : bytes := AppendUint64 buf kr.

Definition keyrev_key (kr : Z) : bytes := keyrev_appendbytes kr [].

(** [binary.BigEndian.Uint32(buf[len(buf)-4:]) == crc(key, buf[:len(buf)-4])] *)
Definition sumOk (key buf : bytes) : res bool :=
  let! tail := slice buf (blen buf - 4) (blen buf) in
  let! chk := Uint32 tail in
  let! body := slice buf 0 (blen buf - 4) in
  Ok (chk =? crc key body).

Definition keyrev_FromBytes (key buf : bytes) : res Z :=
  if blen buf <? 11 then Err ErrChecksumMissing else
  let! good := sumOk key buf in
  if negb good then Err ErrChecksumInvalid else
  let! hd := slice buf 0 8 in
  let! v := Uint64 hd in
  Ok (keyrev_invert v).

Definition keyrev_FromKey (key buf : bytes) : res Z :=
  if blen buf <? 4 then Err ErrChecksumMissing else
  let! good := sumOk key buf in
  if negb good then Err ErrChecksumInvalid else
  Uint64 key.

Definition keyrev_Bytes (kr : Z) (key buf : bytes) : bytes :=
  let buf := keyrev_appendbytes (keyrev_invert kr) buf in
  AppendUint32 buf (crc key buf).

(** ** keyrecord *)

Record keyrecord : Type := mkKeyrecord {
  kr_key : bytes;
  kr_rev : Z;
  kr_lease : Z
}.

Definition keyrecord_zero : keyrecord := mkKeyrecord [] 0 0.

(** On an error the receiver is returned unchanged; for a tombstone it keeps
    its lease. *)
Definition keyrecord_FromBytes (kr : keyrecord) (key buf : bytes) : res keyrecord :=
  if blen buf <? 11 then Err ErrChecksumMissing else
  let! good := sumOk key buf in
  if negb good then Err ErrChecksumInvalid else
  let! hd := slice buf 0 8 in
  let! v := Uint64 hd in
  let rev := keyrev_invert v in
  let! tl := slice buf 8 (blen buf) in
  Ok (mkKeyrecord key rev
        (if keyrev_isdel rev then kr_lease kr else fst (Uvarint tl))).

Definition keyrecord_Bytes (kr : keyrecord) (buf : bytes) : bytes :=
  let buf := keyrev_appendbytes (keyrev_invert (kr_rev kr)) buf in
  let buf := if keyrev_isdel (kr_rev kr) then buf else AppendUvarint buf (kr_lease kr) in
  AppendUint32 buf (crc (kr_key kr) buf).

(** ** kv *)

Record kv : Type := mkKv {
  kv_rev : Z;
  kv_version : Z;
  kv_created : Z;
  kv_lease : Z;
  kv_flags : Z;
  kv_key : bytes;
  kv_val : nslice
}.

Definition kv_zero : kv := mkKv 0 0 0 0 0 [] None.

(** Snappy (github.com/golang/snappy): block compression. *)
Class Snappy : Type := {
  snappy_Encode : bytes -> bytes;
  snappy_Decode : bytes -> res bytes
}.

(** Documented behaviour: decoding an encoded block gives the block back. *)
Class SnappyOk `{Snappy} : Prop := {
  snappy_roundtrip b : snappy_Decode (snappy_Encode b) = Ok b
}.

Section Codec.
Context (cfg : config) `{Differ} `{Snappy}.

(** The value bytes and flags [Bytes] writes: patched, then compressed, each
    only when it makes the value shorter. *)
Definition kv_pack (val next : nslice) : res (bytes * Z) :=
  let val0 := sbytes val in
  let! '(val1, fl1) :=
    match next with
    | Some n =>
        if PCB_PATCH_ENABLED cfg then
          let! p := Generate n val0 [] in
          Ok (if blen p <? blen val0 then (p, KV_FLAG_PATCH) else (val0, 0))
        else Ok (val0, 0)
    | None => Ok (val0, 0)
    end in
  if PCB_COMPRESSION_ENABLED cfg && (16 <? blen val1) then
    let p := snappy_Encode val1 in
    Ok (if blen p <? blen val1 then (p, Z.lor fl1 KV_FLAG_COMPRESSED) else (val1, fl1))
  else Ok (val1, fl1).

Definition kv_Bytes (k : kv) (next : nslice) (buf : bytes) : res bytes :=
  let buf := AppendUvarint buf (u64 (blen (kv_key k))) in
  let buf := buf ++ kv_key k in
  let! buf :=
    if keyrev_isdel (kv_rev k) then Ok buf
    else
      let buf := AppendUvarint buf (kv_created k) in
      let buf := AppendUvarint buf (kv_version k) in
      let buf := AppendUvarint buf (kv_lease k) in
      let! '(val, flags) := kv_pack (kv_val k) next in
      Ok ((buf ++ [Zb flags]) ++ val) in
  Ok (AppendUint32 buf (crc (keyrev_key (kv_rev k)) buf)).

(** The value part of [FromBytes]: decompress, then patch against [next]; the
    value so far is returned next to the error. *)
Definition kv_unpack (flags : Z) (raw : bytes) (next : nslice) : res (nslice * option error) :=
  let! '(v, err) :=
    if 0 <? Z.land flags KV_FLAG_COMPRESSED then
      match snappy_Decode raw with
      | Ok d => Ok (Some d, None)
      | Err e => Ok (None, Some e)
      | Panic => Panic
      | NoFuel => NoFuel
      end
    else Ok (Some raw, None) in
  if isErr err then Ok (v, err)
  else if 0 <? Z.land flags KV_FLAG_PATCH then
    match next with
    | None => Ok (v, Some ErrPatchInvalid)
    | Some n => Apply n (sbytes v) None
    end
  else Ok (v, None).

(** Go returns the record filled so far together with the error. *)
Definition kv_FromBytes (k : kv) (revKey buf : bytes) (next : nslice) (noval : bool)
  : res (kv * option error) :=
  if blen buf <? 11 then Ok (k, Some ErrChecksumMissing) else
  let! good := sumOk revKey buf in
  if negb good then Ok (k, Some ErrChecksumInvalid) else
  let! rev := Uint64 revKey in
  let k := mkKv rev (kv_version k) (kv_created k) (kv_lease k) (kv_flags k) (kv_key k) (kv_val k) in
  if keyrev_isdel rev then Ok (k, None) else
  let '(keylen, n) := Uvarint buf in
  let! key := slice buf n (n + i64 keylen) in
  let k := mkKv rev (kv_version k) (kv_created k) (kv_lease k) (kv_flags k) key (kv_val k) in
  let! r := slice buf (n + i64 keylen) (blen buf - 4) in
  let '(created, r, err) := ReadUvarint r in
  let k := mkKv rev (kv_version k) created (kv_lease k) (kv_flags k) key (kv_val k) in
  if isErr err then Ok (k, err) else
  let '(version, r, err) := ReadUvarint r in
  let k := mkKv rev version created (kv_lease k) (kv_flags k) key (kv_val k) in
  if isErr err then Ok (k, err) else
  let '(lease, r, err) := ReadUvarint r in
  let k := mkKv rev version created lease (kv_flags k) key (kv_val k) in
  if isErr err then Ok (k, err) else
  match r with
  | [] => Ok (mkKv rev version created lease 0 key (kv_val k), Some ErrEOF)
  | fl :: r =>
      let k := mkKv rev version created lease (bZ fl) key (kv_val k) in
      if noval then Ok (k, None) else
      let! '(v, err) := kv_unpack (bZ fl) r next in
      Ok (mkKv rev version created lease (bZ fl) key v, err)
  end.

End Codec.

(** ** Wire form (internal.KeyValue) *)

Record KeyValue : Type := mkKeyValue {
  CreateRevision : Z; ModRevision : Z; Version : Z; Lease : Z;
  Key : bytes; Value : nslice
}.

Definition kv_ToProto (k : kv) : KeyValue :=
  mkKeyValue (i64 (kv_created k)) (i64 (keyrev_upper (kv_rev k)))
    (i64 (kv_version k)) (i64 (kv_lease k)) (kv_key k) (kv_val k).

(** ** Events *)

Inductive EventType : Type := Event_PUT | Event_DELETE.

Record kvEvent : Type := mkKvEvent { ev_epoch : Z; ev_key : bytes; ev_rev : Z }.

Definition kvEvent_etype (e : kvEvent) : EventType :=
  if keyrev_isdel (ev_rev e) then Event_DELETE else Event_PUT.

(** ** Arithmetic of key revisions *)

Definition keyrev_ok (upper lower : Z) : Prop := 0 <= upper < 2 ^ 52 /\ 0 <= lower < PCB_TXN_OPS_LIMIT.

Lemma lor_2 q : Z.lor (4 * q) 2 = 4 * q + 2.
Proof.
  assert (Z.land (4 * q) 2 = 0) as H.
  { apply Z.bits_inj'. intros i Hi. rewrite Z.land_spec, Z.bits_0.
    replace (4 * q) with (Z.shiftl q 2) by (rewrite Z.shiftl_mul_pow2; lia).
    destruct (Z.eq_dec i 1) as [->|Hne].
    - rewrite Z.shiftl_spec_low by lia. done.
    - change 2 with (2 ^ 1). rewrite Z.pow2_bits_false by lia. by rewrite andb_false_r. }
  pose proof (Z.add_lor_land (4 * q) 2) as E. rewrite H in E. lia.
Qed.

Lemma newkeyrev_eq u l d :
  keyrev_ok u l -> newkeyrev u l d = u * 4096 + l * 4 + (if d then 2 else 0).
Proof.
  unfold keyrev_ok, PCB_TXN_OPS_LIMIT. intros [Hu Hl]. unfold newkeyrev, revMaskDelete.
  rewrite !Z.shiftl_mul_pow2 by lia. change (2 ^ 12) with 4096. change (2 ^ 2) with 4.
  rewrite (u64_id (u * 4096)), (u64_id (l * 4)), u64_id by (unfold is_u64; lia).
  destruct d; [|lia].
  change (1 * 2 ^ 1) with 2.
  replace (u * 4096 + l * 4) with (4 * (u * 1024 + l)) by lia. rewrite lor_2. lia.
Qed.

Lemma newkeyrev_u64 u l d : keyrev_ok u l -> is_u64 (newkeyrev u l d).
Proof.
  intros H. rewrite newkeyrev_eq by done. unfold keyrev_ok, PCB_TXN_OPS_LIMIT, is_u64 in *.
  destruct d; lia.
Qed.

Lemma keyrev_isdel_testbit kr : keyrev_isdel kr = Z.testbit kr 1.
Proof.
  unfold keyrev_isdel, revMaskDelete. change (Z.shiftl 1 1) with (2 ^ 1).
  assert (Z.land kr (2 ^ 1) = if Z.testbit kr 1 then 2 else 0) as ->.
  { apply Z.bits_inj'. intros i Hi. rewrite Z.land_spec.
    destruct (Z.eq_dec i 1) as [->|Hne].
    - rewrite Z.pow2_bits_true by lia. rewrite andb_true_r.
      destruct (Z.testbit kr 1); done.
    - rewrite Z.pow2_bits_false by lia. rewrite andb_false_r.
      destruct (Z.testbit kr 1); [|by rewrite Z.bits_0].
      change 2 with (2 ^ 1). by rewrite Z.pow2_bits_false by lia. }
  by destruct (Z.testbit kr 1).
Qed.

Lemma testbit1_low q r : 0 <= r < 4 -> Z.testbit (4 * q + r) 1 = (2 <=? r).
Proof.
  intros H. rewrite Z.testbit_odd, Z.shiftr_div_pow2 by lia. change (2 ^ 1) with 2.
  destruct (Z.leb_spec 2 r).
  - replace ((4 * q + r) / 2) with (2 * q + 1)
      by (apply (Z.div_unique_pos _ 2 _ (r - 2)); lia).
    rewrite Z.odd_add, Z.odd_mul. done.
  - replace ((4 * q + r) / 2) with (2 * q)
      by (apply (Z.div_unique_pos _ 2 _ r); lia).
    rewrite Z.odd_mul. done.
Qed.

Lemma keyrev_isdel_new u l d : keyrev_ok u l -> keyrev_isdel (newkeyrev u l d) = d.
Proof.
  intros H. rewrite keyrev_isdel_testbit, newkeyrev_eq by done.
  replace (u * 4096 + l * 4 + (if d then 2 else 0))
    with (4 * (u * 1024 + l) + (if d then 2 else 0)) by lia.
  rewrite testbit1_low by (destruct d; lia). by destruct d.
Qed.

Lemma keyrev_upper_new u l d : keyrev_ok u l -> keyrev_upper (newkeyrev u l d) = u.
Proof.
  intros H. unfold keyrev_upper. rewrite newkeyrev_eq by done.
  unfold keyrev_ok, PCB_TXN_OPS_LIMIT in H.
  rewrite Z.shiftr_div_pow2 by lia. change (2 ^ 12) with 4096.
  symmetry. apply (Z.div_unique_pos _ 4096 _ (l * 4 + if d then 2 else 0)); destruct d; lia.
Qed.

Lemma keyrev_lower_new u l d : keyrev_ok u l -> keyrev_lower (newkeyrev u l d) = l.
Proof.
  intros H. unfold keyrev_lower, revMaskLower. rewrite newkeyrev_eq by done.
  unfold keyrev_ok, PCB_TXN_OPS_LIMIT in H.
  change (Z.shiftr (2 ^ 64 - 1) 54) with (Z.ones 10). rewrite Z.land_ones by lia.
  rewrite Z.shiftr_div_pow2 by lia. change (2 ^ 2) with 4. change (2 ^ 10) with 1024.
  replace ((u * 4096 + l * 4 + (if d then 2 else 0)) / 4) with (l + u * 1024)
    by (apply (Z.div_unique_pos _ 4 _ (if d then 2 else 0)); destruct d; lia).
  rewrite Z.mod_add by lia. apply Z.mod_small. lia.
Qed.

Lemma keyrev_invert_eq kr : is_u64 kr -> keyrev_invert kr = 2 ^ 64 - 1 - kr.
Proof. intros H. unfold keyrev_invert, is_u64 in *. apply u64_id. unfold is_u64. lia. Qed.

Lemma keyrev_invert_u64 kr : is_u64 (keyrev_invert kr).
Proof. apply u64_range. Qed.

Lemma keyrev_invert_invol kr : is_u64 kr -> keyrev_invert (keyrev_invert kr) = kr.
Proof.
  intros H. rewrite (keyrev_invert_eq kr) by done. rewrite keyrev_invert_eq; [lia|].
  unfold is_u64 in *. lia.
Qed.

Lemma keyrev_upper_mono a b : a <= b -> keyrev_upper a <= keyrev_upper b.
Proof.
  intros H. unfold keyrev_upper. rewrite !Z.shiftr_div_pow2 by lia.
  apply Z.div_le_mono; lia.
Qed.

#[export] Hint Resolve newkeyrev_u64 keyrev_invert_u64 : go.

(** ** Checksums *)

Lemma crc_range key val : 0 <= crc key val < 2 ^ 32.
Proof. apply crc32_range. Qed.

Lemma sumOk_app key body : sumOk key (body ++ be_put 4 (crc key body)) = Ok true.
Proof.
  unfold sumOk. set (s := be_put 4 (crc key body)).
  assert (length s = 4%nat) as Ls by apply be_put_length.
  assert (blen s = 4) as Bs by (unfold blen; lia).
  assert (Uint32 s = Ok (crc key body)) as Us by (apply Uint32_be, crc_range).
  clearbody s. pose proof (blen_nonneg body).
  rewrite !slice_ok by (rewrite blen_app; lia).
  rewrite !blen_app. cbn [rbind].
  replace (Z.to_nat (blen body + blen s - 4)) with (length body) by (unfold blen in *; lia).
  rewrite drop_app_length' by done. rewrite take_ge by (unfold blen in *; lia).
  rewrite Us. cbn [rbind].
  change (Z.to_nat 0) with 0%nat. rewrite drop_0.
  rewrite take_app_length' by (unfold blen in *; lia). by rewrite Z.eqb_refl.
Qed.

Lemma be_put_get b : be_put (length b) (be_get b) = b.
Proof.
  induction b as [|x b IH] using rev_ind; [done|].
  rewrite length_app, Nat.add_comm. cbn [length Nat.add be_put]. rewrite be_get_snoc.
  pose proof (bZ_range x).
  replace ((be_get b * 256 + bZ x) / 256) with (be_get b)
    by (apply (Z.div_unique_pos _ 256 _ (bZ x)); lia).
  rewrite IH. f_equal. f_equal. apply bZ_inj. rewrite bZ_Zb, Z.add_comm, Z.mod_add by lia.
  by apply Z.mod_small.
Qed.

(** A buffer that passes the check is a body followed by its checksum. *)
Lemma sumOk_inv key buf :
  4 <= blen buf -> sumOk key buf = Ok true ->
  exists body, buf = body ++ be_put 4 (crc key body).
Proof.
  intros L. unfold sumOk. rewrite !slice_ok by lia. cbn [rbind].
  change (Z.to_nat 0) with 0%nat. rewrite drop_0, Z.sub_0_r.
  replace (Z.to_nat (blen buf - (blen buf - 4))) with 4%nat by lia.
  set (n := Z.to_nat (blen buf - 4)).
  assert (length (drop n buf) = 4%nat) as L4 by (rewrite length_drop; unfold n, blen in *; lia).
  rewrite take_ge by lia. unfold Uint32. unfold blen at 1. rewrite L4. cbn [rbind].
  rewrite (take_ge (drop n buf)) by lia.
  intros [= E%Z.eqb_eq]. exists (take n buf). rewrite <- E, <- L4, be_put_get.
  by rewrite take_drop.
Qed.

(** ** keyrecord round trip and order *)

Lemma keyrecord_Bytes_eq kr :
  keyrecord_Bytes kr [] =
  (be_put 8 (keyrev_invert (kr_rev kr)) ++
     (if keyrev_isdel (kr_rev kr) then [] else uvarint (kr_lease kr)))
  ++ be_put 4 (crc (kr_key kr) (be_put 8 (keyrev_invert (kr_rev kr)) ++
                 (if keyrev_isdel (kr_rev kr) then [] else uvarint (kr_lease kr)))).
Proof.
  unfold keyrecord_Bytes, keyrev_appendbytes, AppendUint64, AppendUvarint, AppendUint32.
  destruct (keyrev_isdel (kr_rev kr)); simpl app at 1; [|done]. by rewrite app_nil_r.
Qed.

Lemma keyrecord_Bytes_blen kr : 12 <= blen (keyrecord_Bytes kr []) <= 22.
Proof.
  rewrite keyrecord_Bytes_eq. destruct (keyrev_isdel (kr_rev kr));
    pose proof (uvarint_length (kr_lease kr)); blia.
Qed.

Lemma keyrecord_roundtrip recv kr :
  is_u64 (kr_rev kr) -> is_u64 (kr_lease kr) ->
  keyrecord_FromBytes recv (kr_key kr) (keyrecord_Bytes kr [])
  = Ok (mkKeyrecord (kr_key kr) (kr_rev kr)
          (if keyrev_isdel (kr_rev kr) then kr_lease recv else kr_lease kr)).
Proof.
  intros Hr Hl. pose proof (keyrecord_Bytes_blen kr) as Hb.
  unfold keyrecord_FromBytes. zcases; [lia|].
  rewrite slice_ok by lia. rewrite (slice_ok _ 8) by lia.
  rewrite keyrecord_Bytes_eq in *.
  rewrite sumOk_app. cbn [rbind negb]. change (Z.to_nat 0) with 0%nat. rewrite drop_0.
  change (Z.to_nat (8 - 0)) with 8%nat. rewrite <- app_assoc, take_app_be.
  rewrite Uint64_be by apply keyrev_invert_u64. cbn [rbind].
  rewrite keyrev_invert_invol by done. change (Z.to_nat 8) with 8%nat. rewrite drop_app_be.
  destruct (keyrev_isdel (kr_rev kr)); [done|].
  rewrite take_ge by (unfold blen; rewrite !length_app, !be_put_length; lia).
  by rewrite Uvarint_app.
Qed.

Lemma keyrecord_Bytes_lt a b :
  is_u64 (kr_rev a) -> is_u64 (kr_rev b) ->
  kr_rev b < kr_rev a -> blt (keyrecord_Bytes a []) (keyrecord_Bytes b []).
Proof.
  intros Ha Hb Hlt. rewrite !keyrecord_Bytes_eq, <- !app_assoc.
  apply blt_app_prefix; [by rewrite !be_put_length|].
  apply be8_lt; auto with go. rewrite !keyrev_invert_eq by done. lia.
Qed.

(** ** kv round trip *)

(** The fields of a record fit their Go types. *)
Record kv_wf (k : kv) : Prop := {
  wf_rev : is_u64 (kv_rev k);
  wf_version : is_u64 (kv_version k);
  wf_created : is_u64 (kv_created k);
  wf_lease : is_u64 (kv_lease k);
  wf_key : small (kv_key k);
  wf_val : small (sbytes (kv_val k))
}.

Section KvFacts.
Context (cfg : config) `{DifferOk} `{SnappyOk}.

Lemma flag_tests fl :
  fl = 0 \/ fl = 1 \/ fl = 2 \/ fl = 3 ->
  bZ (Zb fl) = fl /\ (0 <? Z.land fl KV_FLAG_COMPRESSED) = (2 <=? fl)
  /\ (0 <? Z.land fl KV_FLAG_PATCH) = Z.odd fl.
Proof. by intros [->|[->|[->| ->]]]. Qed.

(** Unpacking with the value the packing used (or any, if it used none). *)
Lemma kv_unpack_pack val next :
  small (sbytes val) -> small (sbytes next) ->
  exists raw fl,
    kv_pack cfg val next = Ok (raw, fl)
    /\ bZ (Zb fl) = fl
    /\ forall next', next = None \/ next' = next ->
         exists v, kv_unpack fl raw next' = Ok (v, None) /\ sbytes v = sbytes val.
Proof.
  intros Hv Hn.
  assert (exists v1 fl1,
    (match next with
     | Some n =>
        if PCB_PATCH_ENABLED cfg then
          let! p := Generate n (sbytes val) [] in
          Ok (if blen p <? blen (sbytes val) then (p, KV_FLAG_PATCH) else (sbytes val, 0))
        else Ok (sbytes val, 0)
     | None => Ok (sbytes val, 0)
     end) = Ok (v1, fl1)
    /\ (fl1 = 0 /\ v1 = sbytes val
        \/ fl1 = 1 /\ exists n, next = Some n /\ exists s, Apply n v1 None = Ok (s, None) /\ sbytes s = sbytes val))
    as (v1 & fl1 & E1 & C1).
  { destruct next as [n|]; [|eauto 10]. destruct (PCB_PATCH_ENABLED cfg); [|eauto 10].
    rewrite Generate_bytes by done. cbn [rbind]. set (p := _ ++ _).
    destruct (blen p <? blen (sbytes val)); [|eauto 10].
    exists p, 1. split; [done|]. right. split; [done|]. exists n. split; [done|].
    apply Apply_Generate; [done|done|]. by apply Generate_bytes. }
  assert (forall fl raw next', (next = None \/ next' = next) ->
    (fl = fl1 /\ raw = v1) \/ (fl = Z.lor fl1 2 /\ snappy_Decode raw = Ok v1) ->
    exists v, kv_unpack fl raw next' = Ok (v, None) /\ sbytes v = sbytes val) as Hun.
  { intros fl raw next' Hnext Hraw. unfold kv_unpack.
    destruct C1 as [[-> ->]|(-> & n & -> & s & Ea & Es)];
      destruct Hraw as [[-> ->]|[-> Hd]]; simpl; rewrite ?Hd; simpl.
    - eauto.
    - eauto.
    - destruct Hnext as [?| ->]; [done|]. rewrite Ea. eauto.
    - destruct Hnext as [?| ->]; [done|]. rewrite Ea. eauto. }
  assert (bZ (Zb fl1) = fl1 /\ bZ (Zb (Z.lor fl1 2)) = Z.lor fl1 2) as [F1 F2].
  { by destruct C1 as [[-> _]|[-> _]]. }
  unfold kv_pack. rewrite E1. cbn [rbind].
  destruct (PCB_COMPRESSION_ENABLED cfg && (16 <? blen v1)); [|eauto 10].
  destruct (blen (snappy_Encode v1) <? blen v1); [|eauto 10].
  exists (snappy_Encode v1), (Z.lor fl1 KV_FLAG_COMPRESSED).
  split; [done|]. split; [done|]. intros next' Hn'. apply Hun; [done|].
  right. split; [done|]. apply snappy_roundtrip.
Qed.

(** Body of the stored bytes of a live record. *)
Definition kvBody (k : kv) (fl : Z) (raw : bytes) : bytes :=
  uvarint (blen (kv_key k)) ++ kv_key k ++ uvarint (kv_created k)
  ++ uvarint (kv_version k) ++ uvarint (kv_lease k) ++ Zb fl :: raw.

Lemma kv_Bytes_eq k next raw fl :
  kv_wf k -> keyrev_isdel (kv_rev k) = false -> kv_pack cfg (kv_val k) next = Ok (raw, fl) ->
  kv_Bytes cfg k next [] = Ok (kvBody k fl raw ++ be_put 4 (crc (keyrev_key (kv_rev k)) (kvBody k fl raw))).
Proof.
  intros Hw Hd Hp. unfold kv_Bytes. rewrite Hd, Hp. cbn [rbind].
  rewrite small_u64 by (pose proof (wf_key k Hw); pose proof (blen_nonneg (kv_key k)); unfold small in *; lia).
  unfold AppendUvarint, AppendUint32, kvBody. rewrite <- !app_assoc. done.
Qed.

Lemma kvBody_blen k fl raw : 5 + blen (kv_key k) + blen raw <= blen (kvBody k fl raw).
Proof.
  unfold kvBody. pose proof (uvarint_length (blen (kv_key k))).
  pose proof (uvarint_length (kv_created k)). pose proof (uvarint_length (kv_version k)).
  pose proof (uvarint_length (kv_lease k)). blia.
Qed.

Lemma kv_FromBytes_body recv k fl raw next noval :
  kv_wf k -> keyrev_isdel (kv_rev k) = false -> bZ (Zb fl) = fl -> 7 <= blen (kvBody k fl raw) ->
  kv_FromBytes recv (keyrev_key (kv_rev k))
    (kvBody k fl raw ++ be_put 4 (crc (keyrev_key (kv_rev k)) (kvBody k fl raw))) next noval
  = if noval
    then Ok (mkKv (kv_rev k) (kv_version k) (kv_created k) (kv_lease k) fl (kv_key k) (kv_val recv), None)
    else let! '(v, err) := kv_unpack fl raw next in
         Ok (mkKv (kv_rev k) (kv_version k) (kv_created k) (kv_lease k) fl (kv_key k) v, err).
Proof.
  intros Hw Hd Hfl Hlen. unfold kv_FromBytes. rewrite blen_app, blen_be_put.
  zcases; [lia|]. rewrite sumOk_app. cbn [rbind negb].
  change (keyrev_key (kv_rev k)) with (be_put 8 (kv_rev k)).
  rewrite Uint64_be by apply Hw. cbn [rbind]. rewrite Hd.
  set (s := be_put 4 _). assert (length s = 4%nat) as Ls by apply be_put_length.
  assert (blen s = 4) as Bs by (unfold blen; lia). clearbody s.
  pose proof (wf_key k Hw) as Hk. unfold small in Hk. pose proof (blen_nonneg (kv_key k)).
  assert (Uvarint (kvBody k fl raw ++ s) = (blen (kv_key k), blen (uvarint (blen (kv_key k))))) as ->.
  { unfold kvBody. rewrite <- app_assoc. apply Uvarint_app. unfold is_u64; lia. }
  rewrite i64_id by (unfold is_i64; lia).
  set (n := blen (uvarint (blen (kv_key k)))).
  pose proof (uvarint_length (blen (kv_key k))) as Hn. fold n in Hn.
  set (r := uvarint (kv_created k) ++ uvarint (kv_version k) ++ uvarint (kv_lease k) ++ Zb fl :: raw).
  assert (kvBody k fl raw = uvarint (blen (kv_key k)) ++ kv_key k ++ r) as Eb by done.
  assert (blen (kvBody k fl raw) = n + blen (kv_key k) + blen r) as Lb by (rewrite Eb; unfold n; blia).
  pose proof (blen_nonneg r).
  rewrite !slice_ok by (rewrite ?blen_app; lia).
  cbn [rbind]. rewrite Eb, <- !app_assoc.
  replace (Z.to_nat n) with (length (uvarint (blen (kv_key k)))) by (unfold n, blen; lia).
  rewrite drop_app_length.
  replace (Z.to_nat (n + blen (kv_key k) - n)) with (length (kv_key k)) by (unfold blen; lia).
  rewrite take_app_length.
  replace (Z.to_nat (n + blen (kv_key k)))
    with (length (uvarint (blen (kv_key k)) ++ kv_key k)) by (rewrite length_app; unfold n, blen; lia).
  rewrite (app_assoc (uvarint (blen (kv_key k))) (kv_key k) (r ++ s)), drop_app_length, <- Eb.
  rewrite take_app_length' by (unfold blen in *; lia).
  unfold r. rewrite ReadUvarint_app by apply Hw. cbn [isErr].
  rewrite ReadUvarint_app by apply Hw. cbn [isErr].
  rewrite ReadUvarint_app by apply Hw. cbn [isErr]. rewrite Hfl. done.
Qed.

(** Reading keys only does not look at the newer value. *)
Lemma kv_FromBytes_noval_next recv revKey b next next' :
  kv_FromBytes recv revKey b next true = kv_FromBytes recv revKey b next' true.
Proof. reflexivity. Qed.

(** Reading back what was written, with values or keys only. *)
Lemma kv_read_back recv k next next' b noval :
  kv_wf k -> small (sbytes next) -> keyrev_isdel (kv_rev k) = false ->
  (next = None \/ next' = next) ->
  kv_Bytes cfg k next [] = Ok b -> 11 <= blen b ->
  exists fl v,
    kv_FromBytes recv (keyrev_key (kv_rev k)) b next' noval
    = Ok (mkKv (kv_rev k) (kv_version k) (kv_created k) (kv_lease k) fl (kv_key k)
            (if noval then kv_val recv else v), None)
    /\ sbytes v = sbytes (kv_val k).
Proof.
  intros Hw Hn Hd Hnx Hb Hlen.
  destruct (kv_unpack_pack (kv_val k) next) as (raw & fl & Ep & Hfl & Hun); [apply Hw|done|].
  rewrite (kv_Bytes_eq k next raw fl) in Hb by done. apply Ok_inj in Hb as <-.
  rewrite blen_app, blen_be_put in Hlen.
  destruct (Hun next' Hnx) as (v & Ev & Es). exists fl, v. split; [|done].
  rewrite kv_FromBytes_body by (done || lia). destruct noval; [done|]. by rewrite Ev.
Qed.

(** Encoding never fails. *)
Lemma kv_Bytes_total k next :
  kv_wf k -> small (sbytes next) -> keyrev_isdel (kv_rev k) = false ->
  exists b, kv_Bytes cfg k next [] = Ok b /\ 9 + blen (kv_key k) <= blen b.
Proof.
  intros Hw Hn Hd.
  destruct (kv_unpack_pack (kv_val k) next) as (raw & fl & Ep & _ & _); [apply Hw|done|].
  eexists. split; [by apply kv_Bytes_eq|]. rewrite blen_app, blen_be_put.
  pose proof (kvBody_blen k fl raw). pose proof (blen_nonneg raw). lia.
Qed.

End KvFacts.
