(* ===== verification/Mdb.v ===== *)
(** * The ordered key-value engine (LMDB): interface, laws, reference instance

    The program stores everything in LMDB tables through a transaction and its
    cursors. LMDB is not part of the repository, so it is an interface here:
    [Mdb] has the operations the program calls, [MdbOk] the documented behaviour
    it relies on, stated on the sorted contents ([view]) of each table. Every
    theorem about the program is proved for any instance of the two classes;
    [refMdb] is a concrete instance (sorted lists) on which witnesses compute. *)

From S2P Require Import Prelude Types.

(** ** Tables

    The tables the program opens by name; the two created with [DupSort] hold
    several sorted values per key (src/db_kv.go, [newDbKv]). *)

Inductive dbi : Type :=
| DbiMeta | DbiStats | DbiRev | DbiEvt | DbiVal | DbiLease | DbiLeaseExp | DbiLeaseKey.

#[global] Instance dbi_eq_dec : EqDecision dbi.
Proof. solve_decision. Defined.

Definition dupsort (d : dbi) : bool :=
  match d with DbiRev | DbiEvt => true | _ => false end.

(** ** Contents of a table *)

Abbreviation entry := (bytes * bytes)%type.
Abbreviation table := (list entry).

Definition klt (p q : entry) : Prop := blt p.1 q.1.
Definition plt (p q : entry) : Prop := blt p.1 q.1 \/ p.1 = q.1 /\ blt p.2 q.2.

#[global] Instance klt_dec p q : Decision (klt p q).
Proof. unfold klt. apply _. Defined.
#[global] Instance plt_dec p q : Decision (plt p q).
Proof. unfold plt. apply _. Defined.

#[global] Instance plt_strict : StrictOrder plt.
Proof.
  split.
  - intros p [H|[_ H]]; by apply blt_irrefl in H.
  - intros p q r [H|[E H]] [H'|[E' H']]; unfold plt.
    + left. by etrans.
    + left. congruence.
    + left. congruence.
    + right. split; [congruence|by etrans].
Qed.

Definition sortedBy (dup : bool) : table -> Prop :=
  StronglySorted (if dup then plt else klt).

Fixpoint vput (dup : bool) (k v : bytes) (l : table) : table :=
  match l with
  | [] => [(k, v)]
  | (k', v') :: l' =>
      match bcompare k k' with
      | Lt => (k, v) :: l
      | Gt => (k', v') :: vput dup k v l'
      | Eq =>
          if dup then
            match bcompare v v' with
            | Lt => (k, v) :: l
            | Eq => l
            | Gt => (k', v') :: vput dup k v l'
            end
          else (k, v) :: l'
      end
  end.

Definition vdelkey (k : bytes) (l : table) : table := filter (fun p => p.1 <> k) l.
Definition vremove (p : entry) (l : table) : table := filter (fun q => q <> p) l.
Definition dups (k : bytes) (l : table) : list bytes := snd <$> filter (fun p => p.1 = k) l.

Definition vget (k : bytes) (l : table) : option bytes := head (dups k l).

(** ** Cursors *)

Inductive curop : Type := SetRange | Next | NextDup | NextNoDup.

Definition seek (k : bytes) (l : table) : table := filter (fun p => ~ blt p.1 k) l.
Definition after (p : entry) (l : table) : table := filter (plt p) l.
Definition afterKey (k : bytes) (l : table) : table := filter (fun p => blt k p.1) l.

(** The entry a cursor at [pos] moves to. *)
Definition curSpec (l : table) (pos : option entry) (k : bytes) (op : curop) : option entry :=
  match op, pos with
  | SetRange, _ => head (seek k l)
  | Next, None => head l
  | Next, Some p => head (after p l)
  | NextDup, Some p =>
      match head (after p l) with
      | Some q => if decide (q.1 = p.1) then Some q else None
      | None => None
      end
  | NextNoDup, Some p => head (afterKey p.1 l)
  | _, None => None
  end.

Definition curOpOk (pos : option entry) (k : bytes) (op : curop) : Prop :=
  match op with
  | SetRange => k <> []
  | Next => True
  | NextDup | NextNoDup => pos <> None
  end.

(** ** The interface *)

Class Mdb : Type := {
  txn : Type;
  cursor : Type;
  mdb_get : txn -> dbi -> bytes -> res bytes;
  mdb_put : txn -> dbi -> bytes -> bytes -> res txn;
  mdb_del : txn -> dbi -> bytes -> res txn;
  cur_open : txn -> dbi -> res cursor;
  cur_get : txn -> cursor -> bytes -> curop -> cursor * res entry;
  cur_del : txn -> cursor -> res (txn * cursor);
  (** A transaction nested in another, and what is left of the outer one when the nested
      one is committed into it or aborted. *)
  sub_begin : txn -> res txn;
  sub_commit : txn -> txn -> res txn;
  sub_abort : txn -> txn -> txn
}.

(** LMDB's limit on keys, and on the values of a [DupSort] table. *)
Definition maxKeySize : Z := 511.

Definition keyFits (k : bytes) : Prop := 0 < blen k <= maxKeySize.
Definition entryFits (d : dbi) (k v : bytes) : Prop :=
  keyFits k /\ (dupsort d = true -> blen v <= maxKeySize).

(** Documented behaviour, in an environment with free map space: lookups and
    cursor moves follow the byte order of the sorted contents, [put] inserts
    (replacing the value of the key in a plain table), [del] removes a key,
    a cursor keeps its place when entries around it change, so that after a
    deletion through it the next move finds the entry that followed. Whatever its
    arguments, an operation that succeeds changes the contents of its own table only.
    A nested transaction sees the contents of the outer one; its commit makes its contents
    those of the outer one, and its abort leaves the outer one as it was. *)
Class MdbOk `{Mdb} : Type := {
  view : txn -> dbi -> table;
  cur_dbi : cursor -> dbi;
  cur_pos : cursor -> option entry;
  view_sorted t d : sortedBy (dupsort d) (view t d);
  mdb_get_ok t d k :
    k <> [] ->
    mdb_get t d k = match vget k (view t d) with Some v => Ok v | None => Err ErrMdbNotFound end;
  mdb_put_ok t d k v :
    entryFits d k v ->
    exists t', mdb_put t d k v = Ok t' /\
      forall d', view t' d' = if decide (d' = d) then vput (dupsort d) k v (view t d) else view t d';
  mdb_del_ok t d k :
    k <> [] ->
    match vget k (view t d) with
    | Some _ =>
        exists t', mdb_del t d k = Ok t' /\
          forall d', view t' d' = if decide (d' = d) then vdelkey k (view t d) else view t d'
    | None => mdb_del t d k = Err ErrMdbNotFound
    end;
  cur_open_ok t d :
    exists c, cur_open t d = Ok c /\ cur_dbi c = d /\ cur_pos c = None;
  cur_get_ok t c k op :
    curOpOk (cur_pos c) k op ->
    exists c', cur_dbi c' = cur_dbi c /\
      match curSpec (view t (cur_dbi c)) (cur_pos c) k op with
      | Some p => cur_get t c k op = (c', Ok p) /\ cur_pos c' = Some p
      | None =>
          cur_get t c k op = (c', Err ErrMdbNotFound) /\
          (op = NextDup -> cur_pos c' = cur_pos c)
      end;
  cur_del_ok t c p :
    cur_pos c = Some p -> p ∈ view t (cur_dbi c) ->
    exists t' c', cur_del t c = Ok (t', c') /\ cur_dbi c' = cur_dbi c /\ cur_pos c' = Some p /\
      forall d', view t' d' = if decide (d' = cur_dbi c) then vremove p (view t (cur_dbi c)) else view t d';
  cur_open_dbi t d c : cur_open t d = Ok c -> cur_dbi c = d;
  cur_get_dbi t c k op : cur_dbi (fst (cur_get t c k op)) = cur_dbi c;
  mdb_put_frame t d k v t' d' : mdb_put t d k v = Ok t' -> d' <> d -> view t' d' = view t d';
  mdb_del_frame t d k t' d' : mdb_del t d k = Ok t' -> d' <> d -> view t' d' = view t d';
  cur_del_frame t c t' c' d' :
    cur_del t c = Ok (t', c') -> cur_dbi c' = cur_dbi c /\ (d' <> cur_dbi c -> view t' d' = view t d');
  sub_begin_ok t : exists s, sub_begin t = Ok s;
  sub_commit_ok t s : exists t', sub_commit t s = Ok t';
  sub_begin_view t s d : sub_begin t = Ok s -> view s d = view t d;
  sub_commit_view t s t' d : sub_commit t s = Ok t' -> view t' d = view s d;
  sub_abort_view t s d : view (sub_abort t s) d = view t d
}.

(** ** Reference instance: a sorted list per table *)

Record refTxn : Type := mkRef {
  tbl : dbi -> table;
  tbl_sorted : forall d, sortedBy (dupsort d) (tbl d)
}.

Lemma sortedBy_filter dup (P : entry -> Prop) `{forall p, Decision (P p)} l :
  sortedBy dup l -> sortedBy dup (filter P l).
Proof.
  unfold sortedBy. induction 1 as [|p l Hs IH Hf]; [constructor|].
  rewrite filter_cons. case_decide; [|done]. constructor; [done|].
  apply Forall_forall. intros q [_ Hq]%list_elem_of_filter.
  by eapply Forall_forall in Hf.
Qed.

Lemma vput_elem dup k v l q : q ∈ vput dup k v l -> q = (k, v) \/ q ∈ l.
Proof.
  induction l as [|[k' v'] l IH]; simpl; rewrite ?elem_of_cons; [tauto|].
  destruct (bcompare k k'), dup; [destruct (bcompare v v')| | | | |];
    rewrite ?elem_of_cons; tauto.
Qed.

Lemma vput_in dup k v l : (k, v) ∈ vput dup k v l.
Proof.
  induction l as [|[k' v'] l IH]; cbn [vput]; [constructor|].
  destruct (bcompare k k') eqn:E; [apply bcompare_eq in E as <-; destruct dup;
    [destruct (bcompare v v') eqn:F; [apply bcompare_eq in F as <-| |]|]| |];
    try (by constructor).
Qed.

Lemma plt_of_order (dup : bool) p q : (if dup then plt else klt) p q -> plt p q.
Proof. destruct dup; [done|]. by left. Qed.

Lemma sortedBy_vput dup k v l : sortedBy dup l -> sortedBy dup (vput dup k v l).
Proof.
  unfold sortedBy.
  induction 1 as [|[k' v'] l Hs IH Hf]; simpl; [repeat constructor|].
  destruct (bcompare k k') eqn:E.
  - apply bcompare_eq in E as ->. destruct dup.
    + destruct (bcompare v v') eqn:F.
      * by constructor.
      * constructor; [by constructor|]. constructor; [by right|].
        eapply Forall_impl; [exact Hf|]. intros q Hq. etrans; [|exact Hq]. by right.
      * constructor; [done|]. apply Forall_forall. intros q Hq.
        apply vput_elem in Hq as [->|Hq]; [right; split; [done|by apply bcompare_gt]|].
        by eapply Forall_forall in Hf.
    + constructor; [done|]. exact Hf.
  - assert ((if dup then plt else klt) (k, v) (k', v')) as Hlt by (destruct dup; [by left|done]).
    constructor; [by constructor|]. constructor; [done|].
    eapply Forall_impl; [exact Hf|]. intros q Hq.
    destruct dup; [by etrans|]. unfold klt in *. by etrans.
  - apply bcompare_gt in E. constructor; [done|]. apply Forall_forall. intros q Hq.
    apply vput_elem in Hq as [->|Hq]; [destruct dup; [by left|done]|].
    by eapply Forall_forall in Hf.
Qed.

Definition refSet (t : refTxn) (d : dbi) (l : table) (Hl : sortedBy (dupsort d) l) : refTxn.
Proof.
  refine (mkRef (fun d' => if decide (d' = d) then l else tbl t d') _).
  abstract (intros d'; case_decide as E; [by rewrite E|apply tbl_sorted]).
Defined.

Definition refEmpty : refTxn :=
  mkRef (fun _ => []) (fun d => SSorted_nil _).

Definition refMdb : Mdb := {|
  txn := refTxn;
  cursor := dbi * option entry;
  mdb_get t d k :=
    if blen k =? 0 then Err (ErrMdb 0)
    else match vget k (tbl t d) with Some v => Ok v | None => Err ErrMdbNotFound end;
  mdb_put t d k v :=
    if (0 <? blen k) && (blen k <=? maxKeySize) && (negb (dupsort d) || (blen v <=? maxKeySize))
    then Ok (refSet t d (vput (dupsort d) k v (tbl t d)) (sortedBy_vput _ k v _ (tbl_sorted t d)))
    else Err (ErrMdb 0);
  mdb_del t d k :=
    if blen k =? 0 then Err (ErrMdb 0)
    else match vget k (tbl t d) with
         | Some _ => Ok (refSet t d (vdelkey k (tbl t d)) (sortedBy_filter _ _ _ (tbl_sorted t d)))
         | None => Err ErrMdbNotFound
         end;
  cur_open _ d := Ok (d, None);
  cur_get t c k op :=
    match curSpec (tbl t c.1) c.2 k op with
    | Some p => ((c.1, Some p), Ok p)
    | None => (c, Err ErrMdbNotFound)
    end;
  cur_del t c :=
    match c.2 with
    | Some p =>
        Ok (refSet t c.1 (vremove p (tbl t c.1)) (sortedBy_filter _ _ _ (tbl_sorted t c.1)), c)
    | None => Err (ErrMdb 1)
    end;
  sub_begin t := Ok t;
  sub_commit _ s := Ok s;
  sub_abort t _ := t
|}.

Lemma blen_nonempty {A} (k : list A) : k <> [] <-> blen k <> 0.
Proof. split; [intros H E; by apply blen_zero_inv in E|]. intros H ->. done. Qed.

#[global] Instance refMdbOk : @MdbOk refMdb.
Proof.
  refine {| view := (fun t : @txn refMdb => tbl t); cur_dbi := fst; cur_pos := snd |}.
  - intros t d. apply tbl_sorted.
  - intros t d k Hk%blen_nonempty. simpl. zcases; [lia|done].
  - intros t d k v [[H1 H2] H3]. simpl.
    assert ((0 <? blen k) && (blen k <=? maxKeySize)
            && (negb (dupsort d) || (blen v <=? maxKeySize)) = true) as ->.
    { zcases; try lia; destruct (dupsort d); simpl; try done. specialize (H3 eq_refl). lia. }
    eexists. split; [done|]. intros d'. simpl. case_decide; by subst.
  - intros t d k Hk%blen_nonempty. simpl.
    destruct (Z.eqb_spec (blen k) 0) as [E|E]; [lia|]. destruct (vget k (tbl t d)); [|done].
    eexists. split; [done|]. intros d'. simpl. case_decide; by subst.
  - intros t d. exists (d, None). repeat split.
  - intros t [d pos] k op _. simpl. destruct (curSpec (tbl t d) pos k op) as [p|];
      [by exists (d, Some p)|by exists (d, pos)].
  - intros t [d pos] p E Hp. simpl in *. subst pos. do 2 eexists. split; [done|].
    repeat split.
  - intros t d c [= <-]. done.
  - intros t [d pos] k op. simpl. by destruct (curSpec (tbl t d) pos k op).
  - intros t d k v t' d' E Hne. simpl in E. destruct (_ && _ && _); [|done]. injection E as <-. simpl.
    by rewrite decide_False.
  - intros t d k t' d' E Hne. simpl in E. destruct (blen k =? 0); [done|].
    destruct (vget k (tbl t d)); [|done]. injection E as <-. simpl. by rewrite decide_False.
  - intros t [d [p|]] t' c' d' E; simpl in E; [|done]. injection E as <- <-. split; [done|].
    intros Hne. simpl. by rewrite decide_False.
  - intros t. by exists t.
  - intros t s. by exists s.
  - intros t s d E. by injection E as <-.
  - intros t s t' d E. by injection E as <-.
  - done.
Defined.
