(* ===== verification/MdbFacts.v ===== *)
(** * Facts about table contents and cursor moves

    How insertion and removal act on the values of one key, and what the cursor
    moves of the program find, in terms of [dups] (the sorted values of a key). *)

From S2P Require Import Prelude Types Mdb.

(** ** Values of one key *)

Lemma dups_cons k k' v l :
  dups k ((k', v) :: l) = if decide (k' = k) then v :: dups k l else dups k l.
Proof. unfold dups. rewrite filter_cons. cbn [fst]. by case_decide. Qed.

Lemma elem_dups k v l : v ∈ dups k l <-> (k, v) ∈ l.
Proof.
  induction l as [|[k' v'] l IH]; [by split; intros H; inversion H|].
  rewrite dups_cons, elem_of_cons. case_decide as E; rewrite ?elem_of_cons, IH.
  - subst. split; [intros [->|?]; auto|intros [[= ->]|?]; auto].
  - split; [auto|]. intros [[= -> ->]|?]; [done|auto].
Qed.

Lemma dups_nil_lt k l : Forall (fun p => blt k p.1) l -> dups k l = [].
Proof.
  induction 1 as [|[k' v] l Hlt _ IH]; [done|]. rewrite dups_cons. case_decide as E; [|done].
  subst. cbn in Hlt. by apply blt_irrefl in Hlt.
Qed.

Lemma sortedBy_keys_le dup p l : sortedBy dup (p :: l) -> Forall (fun q => ~ blt q.1 p.1) l.
Proof.
  intros [_ Hf]%StronglySorted_inv. eapply Forall_impl; [exact Hf|]. intros q Hq%plt_of_order Hlt.
  destruct Hq as [Hq|[Hq _]]; [exact (blt_irrefl _ (blt_trans _ _ _ Hlt Hq))|].
  rewrite Hq in Hlt. by apply blt_irrefl in Hlt.
Qed.

Lemma sortedBy_tail dup p l : sortedBy dup (p :: l) -> sortedBy dup l.
Proof. by intros [H _]%StronglySorted_inv. Qed.

(** Everything after an entry with a larger key has larger keys still. *)
Lemma sortedBy_keys_lt dup k p l :
  sortedBy dup (p :: l) -> blt k p.1 -> Forall (fun q => blt k q.1) (p :: l).
Proof.
  intros Hs Hk. constructor; [done|]. eapply Forall_impl; [by eapply sortedBy_keys_le|].
  intros q Hq. cbn in Hq. destruct (blt_total p.1 q.1) as [H|[H|H]]; [by etrans|congruence|done].
Qed.

Lemma dups_vput_ne dup k k' v l : k' <> k -> dups k' (vput dup k v l) = dups k' l.
Proof.
  intros Hne. induction l as [|[a b] l IH]; cbn [vput].
  - rewrite dups_cons. by case_decide.
  - destruct (bcompare k a) eqn:E; [apply bcompare_eq in E as <-; destruct dup;
      [destruct (bcompare v b)|]| |];
      rewrite ?dups_cons, ?IH; repeat case_decide; congruence.
Qed.

Lemma dups_plain_le1 k l : sortedBy false l -> (length (dups k l) <= 1)%nat.
Proof.
  induction l as [|[a b] l IH]; intros Hs; [simpl; lia|]. rewrite dups_cons.
  case_decide as E; [|by eapply IH, sortedBy_tail].
  subst. apply StronglySorted_inv in Hs as [_ Hf].
  rewrite dups_nil_lt; [simpl; lia|]. exact Hf.
Qed.

Lemma dups_vput_plain k v l : sortedBy false l -> dups k (vput false k v l) = [v].
Proof.
  induction l as [|[a b] l IH]; intros Hs; cbn [vput].
  - rewrite dups_cons. by rewrite decide_True.
  - destruct (bcompare k a) eqn:E.
    + apply bcompare_eq in E as <-. rewrite dups_cons, decide_True by done.
      apply StronglySorted_inv in Hs as [_ Hf]. by rewrite dups_nil_lt.
    + rewrite dups_cons, decide_True by done. f_equal. apply dups_nil_lt.
      by eapply sortedBy_keys_lt.
    + rewrite dups_cons, decide_False by (intros ->; by rewrite bcompare_refl in E).
      eapply IH, sortedBy_tail, Hs.
Qed.

Lemma vget_vput_eq k v l : sortedBy false l -> vget k (vput false k v l) = Some v.
Proof. intros Hs. unfold vget. by rewrite dups_vput_plain. Qed.

Lemma vget_vput_ne dup k k' v l : k' <> k -> vget k' (vput dup k v l) = vget k' l.
Proof. intros Hne. unfold vget. by rewrite dups_vput_ne. Qed.

(** A value smaller than all others of its key becomes the first of them. *)
Lemma dups_vput_first k v l :
  sortedBy true l -> Forall (blt v) (dups k l) -> dups k (vput true k v l) = v :: dups k l.
Proof.
  induction l as [|[a b] l IH]; intros Hs Hf; cbn [vput].
  - rewrite dups_cons. by rewrite decide_True.
  - rewrite dups_cons in Hf. destruct (bcompare k a) eqn:E.
    + apply bcompare_eq in E as <-. rewrite decide_True in Hf by done.
      apply Forall_cons in Hf as [Hv _]. unfold blt in Hv. rewrite Hv.
      by rewrite dups_cons, decide_True.
    + by rewrite dups_cons, decide_True.
    + assert (a <> k) as Hne by (intros ->; by rewrite bcompare_refl in E).
      rewrite decide_False in Hf by done. rewrite !dups_cons, !decide_False by done.
      apply IH; [by eapply sortedBy_tail|done].
Qed.

Lemma dups_sorted k l : sortedBy true l -> StronglySorted blt (dups k l).
Proof.
  induction l as [|[a b] l IH]; intros Hs; [constructor|]. rewrite dups_cons.
  case_decide as E; [|by eapply IH, sortedBy_tail]. subst a. constructor; [by eapply IH, sortedBy_tail|].
  apply StronglySorted_inv in Hs as [_ Hf]. apply Forall_forall. intros v Hv%elem_dups.
  eapply Forall_forall in Hf; [|exact Hv]. destruct Hf as [Hf|[_ Hf]]; [|done].
  by apply blt_irrefl in Hf.
Qed.

Lemma dups_vdelkey k k' l : dups k' (vdelkey k l) = if decide (k' = k) then [] else dups k' l.
Proof.
  unfold vdelkey. induction l as [|[a b] l IH]; [by case_decide|]. rewrite filter_cons. cbn [fst].
  destruct (decide (a <> k)) as [E|E%dec_stable]; rewrite ?dups_cons, IH;
    repeat case_decide; congruence.
Qed.

Lemma dups_vremove k k' v l :
  dups k' (vremove (k, v) l) = if decide (k' = k) then filter (.≠ v) (dups k' l) else dups k' l.
Proof.
  unfold vremove. induction l as [|[a b] l IH]; [by case_decide|]. rewrite filter_cons.
  destruct (decide ((a, b) <> (k, v))) as [E|E%dec_stable]; rewrite ?dups_cons, IH;
    repeat case_decide; subst; rewrite ?filter_cons; cbn [fst snd] in *;
    repeat case_decide; congruence.
Qed.

(** ** Cursor moves *)

Lemma seek_cons k p l : seek k (p :: l) = if decide (blt p.1 k) then seek k l else p :: seek k l.
Proof. unfold seek. rewrite filter_cons. by repeat case_decide. Qed.

Lemma after_cons p q l : after p (q :: l) = if decide (plt p q) then q :: after p l else after p l.
Proof. unfold after. by rewrite filter_cons. Qed.

(** Seeking a key that has values finds the first of them. *)
Lemma seek_found dup k v vs l :
  sortedBy dup l -> dups k l = v :: vs -> head (seek k l) = Some (k, v).
Proof.
  induction l as [|[a b] l IH]; intros Hs; [done|]. rewrite dups_cons, seek_cons. cbn [fst].
  destruct (decide (a = k)) as [->|Hne].
  - intros [= -> _]. rewrite decide_False by apply blt_irrefl. done.
  - intros Hd. destruct (decide (blt a k)) as [Hlt|Hlt]; [by eapply IH; [eapply sortedBy_tail|]|].
    exfalso. assert (blt k a) as Hk by (destruct (blt_total a k) as [?|[?|?]]; done).
    rewrite dups_nil_lt in Hd; [done|]. eapply sortedBy_keys_lt in Hs; [|exact Hk].
    by apply Forall_cons in Hs as [_ Hs].
Qed.

(** Seeking a key that has none finds another key or nothing. *)
Lemma seek_missing k l p : dups k l = [] -> head (seek k l) = Some p -> p.1 <> k.
Proof.
  intros Hd Hh E. assert (p ∈ l) as Hp.
  { apply head_Some in Hh as [l' Hl']. assert (p ∈ seek k l) as Hin by (rewrite Hl'; constructor).
    unfold seek in Hin. by apply list_elem_of_filter in Hin as [_ ?]. }
  destruct p as [a b]. cbn in E. subst a. apply elem_dups in Hp. rewrite Hd in Hp. by apply not_elem_of_nil in Hp.
Qed.

(** From the value [v] of [k], [NextDup] finds the value that follows it. *)
Lemma nextDup_step k v pre post l :
  sortedBy true l -> dups k l = pre ++ v :: post ->
  curSpec l (Some (k, v)) [] NextDup = match post with [] => None | w :: _ => Some (k, w) end.
Proof.
  cbn [curSpec]. revert pre. induction l as [|[a b] l IH]; intros pre Hs Hd.
  { by destruct pre. }
  pose proof Hs as [Hs' Hf]%StronglySorted_inv. rewrite dups_cons in Hd. rewrite after_cons.
  destruct (decide (a = k)) as [->|Hne].
  - destruct pre as [|x pre]; injection Hd as -> Hd.
    + rewrite decide_False by (intros [H|[_ H]]; by apply blt_irrefl in H).
      clear IH. assert (after (k, v) l = l) as ->.
      { clear - Hf. induction Hf as [|q l Hq _ IH]; [done|]. rewrite after_cons, IH. by rewrite decide_True. }
      destruct l as [|[a b] l]; [cbn in Hd; by subst|]. cbn [head fst]. rewrite dups_cons in Hd.
      destruct (decide (a = k)) as [->|Hne]; [by subst|].
      rewrite <- Hd. rewrite dups_nil_lt; [done|].
      assert (blt k a) as Hlt. { apply Forall_cons in Hf as [[H|[H _]] _]; [done|]. by subst. }
      apply (sortedBy_keys_lt true k (a, b) l Hs') in Hlt. by apply Forall_cons in Hlt as [_ ?].
    + assert (blt x v) as Hx.
      { assert (v ∈ dups k l) as Hv by (rewrite Hd; apply elem_of_app; right; constructor).
        apply elem_dups in Hv. eapply Forall_forall in Hf; [|exact Hv].
        destruct Hf as [H|[_ H]]; [by apply blt_irrefl in H|done]. }
      rewrite decide_False.
      2:{ intros [H|[_ H]]; [by apply blt_irrefl in H|]. cbn in H.
          exact (blt_irrefl _ (blt_trans _ _ _ Hx H)). }
      by eapply IH.
  - assert (blt a k) as Hlt.
    { assert (v ∈ dups k l) as Hv by (rewrite Hd; apply elem_of_app; right; constructor).
      apply elem_dups in Hv. eapply Forall_forall in Hf; [|exact Hv].
      destruct Hf as [H|[H _]]; [done|]. by cbn in H. }
    rewrite decide_False; [by eapply IH|].
    intros [H|[H _]]; cbn in H; [|by subst]. exact (blt_irrefl _ (blt_trans _ _ _ Hlt H)).
Qed.

(** ** The interface, in terms of the values of a key *)

Section Interface.
Context `{MdbOk}.

Lemma cur_seek t c key v vs :
  key <> [] -> dups key (view t (cur_dbi c)) = v :: vs ->
  exists c', cur_get t c key SetRange = (c', Ok (key, v))
    /\ cur_dbi c' = cur_dbi c /\ cur_pos c' = Some (key, v).
Proof.
  intros Hk Hd. destruct (cur_get_ok t c key SetRange Hk) as (c' & Hc & Hs). cbn [curSpec] in Hs.
  rewrite (seek_found _ _ _ _ _ (view_sorted t _) Hd) in Hs. destruct Hs. eauto.
Qed.

Lemma cur_seek_missing t c key :
  key <> [] -> dups key (view t (cur_dbi c)) = [] ->
  exists c', cur_dbi c' = cur_dbi c /\
    (cur_get t c key SetRange = (c', Err ErrMdbNotFound)
     \/ exists p, p.1 <> key /\ cur_get t c key SetRange = (c', Ok p)).
Proof.
  intros Hk Hd. destruct (cur_get_ok t c key SetRange Hk) as (c' & Hc & Hs). cbn [curSpec] in Hs.
  exists c'. split; [done|]. destruct (head (seek key (view t (cur_dbi c)))) as [p|] eqn:E.
  - right. exists p. destruct Hs. split; [by eapply seek_missing|done].
  - left. by destruct Hs.
Qed.

Lemma cur_nextDup t c key v pre post :
  dupsort (cur_dbi c) = true -> cur_pos c = Some (key, v) ->
  dups key (view t (cur_dbi c)) = pre ++ v :: post ->
  exists c', cur_dbi c' = cur_dbi c /\
    match post with
    | w :: _ => cur_get t c [] NextDup = (c', Ok (key, w)) /\ cur_pos c' = Some (key, w)
    | [] => cur_get t c [] NextDup = (c', Err ErrMdbNotFound) /\ cur_pos c' = Some (key, v)
    end.
Proof.
  intros Hdup Hp Hd.
  destruct (cur_get_ok t c [] NextDup) as (c' & Hc & Hs); [by rewrite Hp|].
  pose proof (view_sorted t (cur_dbi c)) as Hv. rewrite Hdup in Hv.
  rewrite Hp, (nextDup_step key v pre post) in Hs by done. exists c'. split; [done|].
  destruct post; destruct Hs as [Hs1 Hs2]; [|done]. split; [done|]. by rewrite Hs2.
Qed.

Lemma mdb_get_vget t d key v :
  key <> [] -> vget key (view t d) = Some v -> mdb_get t d key = Ok v.
Proof. intros Hk Hv. by rewrite mdb_get_ok, Hv. Qed.

(** A write to one table leaves the others alone. *)
Lemma view_other (t t' : txn) (d d' : dbi) (tb : table) :
  (forall x, view t' x = if decide (x = d) then tb else view t x) -> d' <> d -> view t' d' = view t d'.
Proof. intros Hv Hne. rewrite Hv. by rewrite decide_False. Qed.

Lemma view_same (t t' : txn) (d : dbi) (tb : table) :
  (forall x, view t' x = if decide (x = d) then tb else view t x) -> view t' d = tb.
Proof. intros Hv. rewrite Hv. by rewrite decide_True. Qed.

End Interface.
