(* ===== verification/MdbKeys.v ===== *)
(** * The keys of a table in order, and the cursor moves from key to key *)

From stdpp Require Import sorting.
From S2P Require Import Prelude Types Mdb MdbFacts.

(** The distinct keys of a table. *)
Fixpoint tkeys (l : table) : list bytes :=
  match l with
  | [] => []
  | (k, _) :: l' =>
      match tkeys l' with
      | [] => [k]
      | k' :: _ => if decide (k = k') then tkeys l' else k :: tkeys l'
      end
  end.

Lemma tkeys_cons k v l :
  tkeys ((k, v) :: l)
  = if decide (head (tkeys l) = Some k) then tkeys l else k :: tkeys l.
Proof.
  cbn [tkeys]. destruct (tkeys l) as [|k' ks]; cbn [head]; [by rewrite decide_False|].
  repeat case_decide; congruence.
Qed.

Lemma elem_tkeys k l : k ∈ tkeys l <-> dups k l <> [].
Proof.
  induction l as [|[a v] l IH]; [by split; [intros X; inversion X|]|].
  rewrite tkeys_cons, dups_cons. destruct (decide (head (tkeys l) = Some a)) as [E|E].
  - destruct (decide (a = k)) as [->|Hne]; [|done]. split; [done|]. intros _.
    apply head_Some in E as [ks ->]. constructor.
  - rewrite elem_of_cons. destruct (decide (a = k)) as [->|Hne].
    + split; [done|]. by left.
    + rewrite IH. split; [intros [->|?]; done|auto].
Qed.

Lemma elem_tkeys_entry k l : k ∈ tkeys l <-> exists v, (k, v) ∈ l.
Proof.
  rewrite elem_tkeys. destruct (dups k l) as [|v vs] eqn:E; split; try done.
  - intros (v & Hv). apply elem_dups in Hv. rewrite E in Hv. inversion Hv.
  - intros _. exists v. apply elem_dups. rewrite E. constructor.
Qed.

Lemma tkeys_sorted dup l : sortedBy dup l -> StronglySorted blt (tkeys l).
Proof.
  induction l as [|[k v] l IH]; intros Hs; [constructor|].
  rewrite tkeys_cons. pose proof (IH (sortedBy_tail _ _ _ Hs)) as IH'.
  case_decide as E; [done|]. constructor; [done|]. apply Forall_forall. intros k' Hk'.
  assert (~ blt k' k) as Hnlt.
  { apply elem_tkeys_entry in Hk' as (v' & Hv'). apply sortedBy_keys_le in Hs.
    by eapply Forall_forall in Hs; [|exact Hv']. }
  destruct (blt_total k k') as [?|[->|?]]; [done| |done]. exfalso. apply E.
  destruct (tkeys l) as [|k0 ks] eqn:El; [inversion Hk'|]. cbn. f_equal.
  apply elem_of_cons in Hk' as [->|Hk']; [done|]. exfalso.
  apply StronglySorted_inv in IH' as [_ Hf]. eapply Forall_forall in Hf; [|exact Hk'].
  assert (k0 ∈ tkeys l) as Hk0 by (rewrite El; constructor).
  apply elem_tkeys_entry in Hk0 as (v0 & Hv0). apply sortedBy_keys_le in Hs.
  by eapply Forall_forall in Hs; [|exact Hv0].
Qed.

(** A strictly sorted list is determined by its elements. *)
Lemma sorted_ext (l1 l2 : list bytes) :
  StronglySorted blt l1 -> StronglySorted blt l2 -> (forall k, k ∈ l1 <-> k ∈ l2) -> l1 = l2.
Proof.
  revert l2. induction l1 as [|a l1 IH]; intros [|b l2] H1 H2 He; [done| | |].
  - exfalso. assert (b ∈ @nil bytes) as X by (apply He; constructor). inversion X.
  - exfalso. assert (a ∈ @nil bytes) as X by (apply He; constructor). inversion X.
  - apply StronglySorted_inv in H1 as [H1 F1], H2 as [H2 F2]. rewrite Forall_forall in F1, F2.
    assert (a = b) as ->.
    { assert (a ∈ b :: l2) as Xa by (apply He; constructor).
      assert (b ∈ a :: l1) as Xb by (apply He; constructor).
      apply elem_of_cons in Xa as [->|Xa]; [done|]. apply elem_of_cons in Xb as [->|Xb]; [done|].
      destruct (blt_irrefl a). etrans; eauto. }
    f_equal. apply IH; [done|done|]. intros k. split; intros Hk.
    + assert (k ∈ b :: l2) as X by (apply He; by constructor).
      apply elem_of_cons in X as [->|X]; [|done]. by destruct (blt_irrefl b); apply F1.
    + assert (k ∈ b :: l1) as X by (apply He; by constructor).
      apply elem_of_cons in X as [->|X]; [|done]. by destruct (blt_irrefl b); apply F2.
Qed.

Lemma sorted_filter (P : bytes -> Prop) `{forall k, Decision (P k)} ks :
  StronglySorted blt ks -> StronglySorted blt (filter P ks).
Proof.
  induction 1 as [|k ks Hs IH Hf]; [constructor|]. rewrite filter_cons. case_decide; [|done].
  constructor; [done|]. apply Forall_forall. intros k' [_ Hk']%list_elem_of_filter.
  by eapply Forall_forall in Hf.
Qed.

Lemma sorted_nodup ks : StronglySorted blt ks -> NoDup ks.
Proof.
  induction 1 as [|k ks Hs IH Hf]; constructor; [|done]. intros Hin.
  eapply Forall_forall in Hf; [|exact Hin]. by apply blt_irrefl in Hf.
Qed.

(** Adding a value to a key that has one does not change the keys. *)
Lemma tkeys_vput_in dup k v l :
  sortedBy dup l -> dups k l <> [] -> tkeys (vput dup k v l) = tkeys l.
Proof.
  intros Hs Hk. apply sorted_ext; [by eapply tkeys_sorted, sortedBy_vput|by eapply tkeys_sorted|].
  intros k'. rewrite !elem_tkeys. destruct (decide (k' = k)) as [->|Hne].
  - split; [done|]. intros _. apply elem_tkeys, elem_tkeys_entry. exists v. apply vput_in.
  - by rewrite dups_vput_ne.
Qed.

(** ** Moves *)

(** The first entry whose key satisfies [P] is the first value of the first such key. *)
Lemma head_filter_keys (P : bytes -> Prop) `{forall k, Decision (P k)} l :
  head (filter (fun p : entry => P p.1) l)
  = match filter P (tkeys l) with
    | [] => None
    | k :: _ => (fun v => (k, v)) <$> vget k l
    end.
Proof.
  induction l as [|[a v] l IH]; [done|]. rewrite filter_cons, tkeys_cons. cbn [fst].
  unfold vget. destruct (decide (P a)) as [Pa|Pa].
  - assert (filter P (if decide (head (tkeys l) = Some a) then tkeys l else a :: tkeys l)
            = a :: filter P (if decide (head (tkeys l) = Some a) then tail (tkeys l) else tkeys l)) as ->.
    { case_decide as E; [|by rewrite filter_cons_True]. apply head_Some in E as [ks ->].
      by rewrite filter_cons_True. }
    rewrite dups_cons, decide_True by done. done.
  - assert (filter P (if decide (head (tkeys l) = Some a) then tkeys l else a :: tkeys l)
            = filter P (tkeys l)) as -> by (case_decide; [done|by rewrite filter_cons_False]).
    rewrite IH. destruct (filter P (tkeys l)) as [|k ks] eqn:Ef; [done|].
    assert (P k) as Pk.
    { assert (k ∈ filter P (tkeys l)) as X by (rewrite Ef; constructor).
      by apply list_elem_of_filter in X as [? _]. }
    rewrite dups_cons, decide_False by (intros ->; done). done.
Qed.

Lemma filter_after pre k post :
  StronglySorted blt (pre ++ k :: post) -> filter (blt k) (pre ++ k :: post) = post.
Proof.
  intros Hs. rewrite filter_app, filter_cons_False by apply blt_irrefl.
  assert (filter (blt k) pre = []) as ->.
  { induction pre as [|a pre IH]; [done|]. cbn [app] in Hs. apply StronglySorted_inv in Hs as [Hs Hf].
    rewrite filter_cons_False; [by apply IH|]. intros Hlt.
    rewrite Forall_forall in Hf. assert (blt a k) as Hak by (apply Hf, elem_of_app; right; constructor).
    exact (blt_irrefl _ (blt_trans _ _ _ Hak Hlt)). }
  cbn [app]. apply StronglySorted_app_1_r in Hs. apply StronglySorted_inv in Hs as [_ Hf].
  clear pre. induction post as [|a post IH]; [done|]. apply Forall_cons in Hf as [Ha Hf].
  rewrite filter_cons_True by done. by rewrite IH.
Qed.

Lemma head_seek_keys key l :
  head (seek key l)
  = match filter (fun k => ~ blt k key) (tkeys l) with
    | [] => None
    | k :: _ => (fun v => (k, v)) <$> vget k l
    end.
Proof. exact (head_filter_keys (fun k => ~ blt k key) l). Qed.

Lemma head_afterKey_keys key l :
  head (afterKey key l)
  = match filter (blt key) (tkeys l) with
    | [] => None
    | k :: _ => (fun v => (k, v)) <$> vget k l
    end.
Proof. exact (head_filter_keys (blt key) l). Qed.

(** ** Cursor moves over the keys *)

Section Moves.
Context `{MdbOk}.

Lemma cur_seek_keys t c key :
  key <> [] ->
  exists c', cur_dbi c' = cur_dbi c /\
    match filter (fun k => ~ blt k key) (tkeys (view t (cur_dbi c))) with
    | [] => cur_get t c key SetRange = (c', Err ErrMdbNotFound)
    | k :: _ =>
        exists v, vget k (view t (cur_dbi c)) = Some v
          /\ cur_get t c key SetRange = (c', Ok (k, v)) /\ cur_pos c' = Some (k, v)
    end.
Proof.
  intros Hk. destruct (cur_get_ok t c key SetRange Hk) as (c' & Hc & Hs). exists c'. split; [done|].
  cbn [curSpec] in Hs. rewrite head_seek_keys in Hs.
  destruct (filter _ (tkeys _)) as [|k ks] eqn:E; [by destruct Hs|].
  destruct (vget k _) as [v|] eqn:Ev; cbn in Hs; [eauto|]. exfalso.
  assert (k ∈ tkeys (view t (cur_dbi c))) as Hin%elem_tkeys.
  { assert (k ∈ filter (fun k => ~ blt k key) (tkeys (view t (cur_dbi c)))) as X by (rewrite E; constructor).
    by apply list_elem_of_filter in X as [_ ?]. }
  unfold vget in Ev. by destruct (dups k _).
Qed.

Lemma cur_nextKey t c k v arg pre post :
  cur_pos c = Some (k, v) -> tkeys (view t (cur_dbi c)) = pre ++ k :: post ->
  exists c', cur_dbi c' = cur_dbi c /\
    match post with
    | [] => cur_get t c arg NextNoDup = (c', Err ErrMdbNotFound)
    | k' :: _ =>
        exists v', vget k' (view t (cur_dbi c)) = Some v'
          /\ cur_get t c arg NextNoDup = (c', Ok (k', v')) /\ cur_pos c' = Some (k', v')
    end.
Proof.
  intros Hp Hk. destruct (cur_get_ok t c arg NextNoDup) as (c' & Hc & Hs); [by rewrite Hp|].
  exists c'. split; [done|]. rewrite Hp in Hs. cbn [curSpec fst] in Hs.
  rewrite head_afterKey_keys, Hk, filter_after in Hs
    by (rewrite <- Hk; eapply tkeys_sorted, view_sorted).
  destruct post as [|k' post]; [by destruct Hs|].
  destruct (vget k' _) as [v'|] eqn:Ev; cbn in Hs; [eauto|]. exfalso.
  assert (k' ∈ tkeys (view t (cur_dbi c))) as Hin%elem_tkeys.
  { rewrite Hk. apply elem_of_app. right. right. constructor. }
  unfold vget in Ev. by destruct (dups k' _).
Qed.

End Moves.

(** ** Walking a table entry by entry *)

Lemma plt_sorted dup l : sortedBy dup l -> StronglySorted plt l.
Proof.
  unfold sortedBy. induction 1 as [|p l Hs IH Hf]; [constructor|]. constructor; [done|].
  eapply Forall_impl; [exact Hf|]. apply plt_of_order.
Qed.

Lemma after_suffix p pre post :
  StronglySorted plt (pre ++ p :: post) -> after p (pre ++ p :: post) = post /\ after p (pre ++ post) = post.
Proof.
  intros Hs. assert (Forall (fun q => plt q p) pre /\ Forall (plt p) post) as [Hpre Hpost].
  { split.
    - apply Forall_forall. intros q Hq. eapply StronglySorted_app_1_elem_of; [exact Hs|done|constructor].
    - apply StronglySorted_app_1_r in Hs. by apply StronglySorted_inv in Hs as [_ ?]. }
  assert (filter (plt p) pre = []) as E1.
  { apply filter_none. intros q Hq Hlt. rewrite Forall_forall in Hpre.
    exact (StrictOrder_Irreflexive _ (transitivity (Hpre q Hq) Hlt)). }
  assert (filter (plt p) post = post) as E2.
  { apply filter_all. intros q Hq. by eapply Forall_forall in Hpost. }
  unfold after. rewrite !filter_app, E1, filter_cons_False, E2; [done|]. apply StrictOrder_Irreflexive.
Qed.

Lemma vremove_mid p pre post :
  StronglySorted plt (pre ++ p :: post) -> vremove p (pre ++ p :: post) = pre ++ post.
Proof.
  intros Hs. unfold vremove. rewrite filter_app, filter_cons_False by (intros X; by apply X).
  f_equal; apply filter_all; intros q Hq ->.
  - eapply StronglySorted_app_1_elem_of in Hs; [|exact Hq|constructor]. by apply StrictOrder_Irreflexive in Hs.
  - apply StronglySorted_app_1_r, StronglySorted_inv in Hs as [_ Hf].
    eapply Forall_forall in Hf; [|exact Hq]. by apply StrictOrder_Irreflexive in Hf.
Qed.

(** Entries at or after a key are a suffix of the table. *)
Lemma seek_suffix dup key l : sortedBy dup l -> exists pre, l = pre ++ seek key l.
Proof.
  induction l as [|p l IH]; intros Hs; [by exists []|]. rewrite seek_cons.
  destruct (decide (blt p.1 key)) as [Hlt|Hge].
  - destruct (IH (sortedBy_tail _ _ _ Hs)) as [pre E]. exists (p :: pre). cbn. by f_equal.
  - exists []. cbn. f_equal. unfold seek. rewrite filter_all; [done|]. intros q Hq Hlt.
    apply sortedBy_keys_le in Hs. rewrite Forall_forall in Hs. specialize (Hs q Hq). cbn in Hs.
    destruct (blt_total p.1 q.1) as [?|[E|?]]; [|congruence|done]. apply Hge. by etrans.
Qed.

Section Walk.
Context `{MdbOk}.

(** After deleting the entry it stands on, a cursor moves to the one that followed. *)
Lemma cur_del_next t c p pre post :
  cur_pos c = Some p -> view t (cur_dbi c) = pre ++ p :: post ->
  exists t' c', cur_del t c = Ok (t', c') /\ cur_dbi c' = cur_dbi c
    /\ (forall d, view t' d = if decide (d = cur_dbi c) then pre ++ post else view t d)
    /\ exists c2, cur_dbi c2 = cur_dbi c /\
         match post with
         | [] => cur_get t' c' [] Next = (c2, Err ErrMdbNotFound)
         | q :: _ => cur_get t' c' [] Next = (c2, Ok q) /\ cur_pos c2 = Some q
         end.
Proof.
  intros Hp Hv. pose proof (plt_sorted _ _ (view_sorted t (cur_dbi c))) as Hs. rewrite Hv in Hs.
  destruct (cur_del_ok t c p Hp) as (t' & c' & E & Hc & Hp' & V).
  { rewrite Hv. apply elem_of_app. right. constructor. }
  exists t', c'. split; [done|]. split; [done|].
  assert (forall d, view t' d = if decide (d = cur_dbi c) then pre ++ post else view t d) as V'.
  { intros d. rewrite V. case_decide; [|done]. by rewrite Hv, vremove_mid. }
  split; [done|]. destruct (cur_get_ok t' c' [] Next I) as (c2 & Hc2 & Hg). exists c2. split; [congruence|].
  rewrite Hp', Hc, V', decide_True in Hg by done. cbn [curSpec] in Hg.
  destruct (after_suffix p pre post Hs) as [_ Ea]. rewrite Ea in Hg.
  destruct post; destruct Hg; [done|by split].
Qed.

(** Otherwise it moves to the next entry. *)
Lemma cur_next t c p pre post :
  cur_pos c = Some p -> view t (cur_dbi c) = pre ++ p :: post ->
  exists c2, cur_dbi c2 = cur_dbi c /\
    match post with
    | [] => cur_get t c [] Next = (c2, Err ErrMdbNotFound)
    | q :: _ => cur_get t c [] Next = (c2, Ok q) /\ cur_pos c2 = Some q
    end.
Proof.
  intros Hp Hv. pose proof (plt_sorted _ _ (view_sorted t (cur_dbi c))) as Hs. rewrite Hv in Hs.
  destruct (cur_get_ok t c [] Next I) as (c2 & Hc2 & Hg). exists c2. split; [done|].
  rewrite Hp, Hv in Hg. cbn [curSpec] in Hg. destruct (after_suffix p pre post Hs) as [Ea _].
  rewrite Ea in Hg. destruct post; destruct Hg; [done|by split].
Qed.

End Walk.
