(* ===== verification/Db.v ===== *)
(** * Checksummed tables and the metadata table (src/db.go, src/db_meta.go) *)

From Stdlib Require Import Strings.String.
From S2P Require Import Prelude Types GoBinary Patch Kv Mdb.

Definition str (s : string) : bytes := list_byte_of_string s.

(** ** db.go *)

Definition trimChecksum (key val : bytes) : res bytes :=
  if blen val <? 4 then Err ErrChecksumInvalid else
  let! tail := slice val (blen val - 4) (blen val) in
  let! chk := Uint32 tail in
  let! body := slice val 0 (blen val - 4) in
  if negb (chk =? crc key body) then Err ErrChecksumInvalid else Ok body.

Definition addChecksum (key val : bytes) : bytes := AppendUint32 val (crc key val).

Section Db.
Context `{Mdb}.

(** The trimmed slice keeps its capacity, so reading eight bytes of a shorter
    value reaches into the checksum and only panics past it. *)
Definition getUint64 (d : dbi) (t : txn) (key : bytes) : res Z :=
  let! val := mdb_get t d key in
  let! val := trimChecksum key val in
  if blen val <? 8 then (if blen val + 4 <? 8 then Panic else Err ErrValueInvalid)
  else let! hd := slice val 0 8 in Uint64 hd.

Definition putUint64 (d : dbi) (t : txn) (key : bytes) (val : Z) : res txn :=
  mdb_put t d key (addChecksum key (AppendUint64 [] val)).

(** ** db_meta.go *)

(** Logical clock representing seconds of uptime since shard creation *)
Definition metaKeyEpoch : bytes := str "epoch".
(** Index of last applied raft log entry *)
Definition metaKeyIndex : bytes := str "index".
(** Autoincrement cursor for generating lease ids *)
Definition metaKeyLeaseID : bytes := str "lease_id".
(** Last applied data revision *)
Definition metaKeyRevision : bytes := str "rev".
(** Compaction cursor *)
Definition metaKeyRevisionCompacted : bytes := str "rev_compacted".
(** Compaction target *)
Definition metaKeyRevisionMin : bytes := str "rev_min".
(** Shard raft term - Prevents duplicate controllers *)
Definition metaKeyTerm : bytes := str "term".

(** One loop of [newDbMeta]: give each missing key its default. *)
Fixpoint metaInit (t : txn) (keys : list bytes) (def : Z) : res txn :=
  match keys with
  | [] => Ok t
  | k :: ks =>
      match getUint64 DbiMeta t k with
      | Ok _ => metaInit t ks def
      | Err ErrMdbNotFound => let! t := putUint64 DbiMeta t k def in metaInit t ks def
      | Err e => Err e
      | Panic => Panic
      | NoFuel => NoFuel
      end
  end.

Definition newDbMeta (t : txn) : res (txn * Z) :=
  let! t := metaInit t [metaKeyEpoch; metaKeyIndex; metaKeyLeaseID;
                        metaKeyRevisionCompacted; metaKeyTerm] 0 in
  let! t := metaInit t [metaKeyRevision; metaKeyRevisionMin] 1 in
  let! index := getUint64 DbiMeta t metaKeyIndex in
  Ok (t, index).

Definition getEpoch (t : txn) : res Z := getUint64 DbiMeta t metaKeyEpoch.
Definition setEpoch (t : txn) (val : Z) : res txn := putUint64 DbiMeta t metaKeyEpoch val.
Definition getIndex (t : txn) : res Z := getUint64 DbiMeta t metaKeyIndex.
Definition setIndex (t : txn) (val : Z) : res txn := putUint64 DbiMeta t metaKeyIndex val.
Definition getLeaseID (t : txn) : res Z := getUint64 DbiMeta t metaKeyLeaseID.
Definition setLeaseID (t : txn) (val : Z) : res txn := putUint64 DbiMeta t metaKeyLeaseID val.
Definition getRevision (t : txn) : res Z := getUint64 DbiMeta t metaKeyRevision.
Definition setRevision (t : txn) (val : Z) : res txn := putUint64 DbiMeta t metaKeyRevision val.
Definition getRevisionCompacted (t : txn) : res Z := getUint64 DbiMeta t metaKeyRevisionCompacted.
Definition setRevisionCompacted (t : txn) (val : Z) : res txn :=
  putUint64 DbiMeta t metaKeyRevisionCompacted val.
Definition getRevisionMin (t : txn) : res Z := getUint64 DbiMeta t metaKeyRevisionMin.
Definition setRevisionMin (t : txn) (val : Z) : res txn := putUint64 DbiMeta t metaKeyRevisionMin val.
Definition getTerm (t : txn) : res Z := getUint64 DbiMeta t metaKeyTerm.
Definition setTerm (t : txn) (val : Z) : res txn := putUint64 DbiMeta t metaKeyTerm val.

End Db.
