(* ===== verification/DbFacts.v ===== *)
(** * Checksummed tables and metadata: facts (src/db.go, src/db_meta.go) *)

From S2P Require Import Prelude Types GoBinary Patch Kv Mdb MdbFacts Db.

Lemma trim_add key val : trimChecksum key (addChecksum key val) = Ok val.
Proof.
  pose proof (sumOk_app key val) as Hs. unfold sumOk in Hs. unfold trimChecksum, addChecksum, AppendUint32.
  set (b := val ++ be_put 4 (crc key val)) in *.
  assert (blen b = blen val + 4) as Hb by (unfold b; rewrite blen_app, blen_be_put; lia).
  pose proof (blen_nonneg val). zcases; [lia|].
  rewrite !slice_ok in * by lia. cbn [rbind] in *.
  destruct (Uint32 _) as [chk| | |]; cbn [rbind] in *; try done. apply Ok_inj in Hs. rewrite Hs. cbn [negb].
  f_equal. unfold b. rewrite blen_app, blen_be_put, drop_0. apply take_app_length'. unfold blen. lia.
Qed.

(** A value that is accepted carries its checksum. *)
Lemma trim_inv key val body : trimChecksum key val = Ok body -> val = addChecksum key body.
Proof.
  unfold trimChecksum. destruct (Z.ltb_spec (blen val) 4) as [|Hl]; [done|].
  intros Ht. assert (sumOk key val = Ok true /\ body = take (Z.to_nat (blen val - 4)) val) as [Hs ->].
  { unfold sumOk. rewrite !slice_ok in * by lia. cbn [rbind] in *.
    destruct (Uint32 _) as [chk| | |]; cbn [rbind] in *; try done.
    destruct (chk =? crc key _) eqn:E; cbn [negb] in Ht; [|done]. apply Ok_inj in Ht. subst body.
    split; [f_equal; exact E|]. rewrite drop_0, Z.sub_0_r. done. }
  destruct (sumOk_inv key val Hl Hs) as [b ->]. unfold addChecksum, AppendUint32.
  rewrite blen_app, blen_be_put. rewrite take_app_length' by (unfold blen; lia). done.
Qed.

Section Meta.
Context `{MdbOk}.

(** A metadata value as it is stored. *)
Definition metaVal (key : bytes) (v : Z) : bytes := addChecksum key (AppendUint64 [] v).

Lemma getUint64_stored d t key v :
  key <> [] -> is_u64 v -> vget key (view t d) = Some (metaVal key v) -> getUint64 d t key = Ok v.
Proof.
  intros Hk Hv Hg. unfold getUint64. rewrite (mdb_get_vget t d key (metaVal key v)) by done.
  cbn [rbind]. unfold metaVal. rewrite trim_add. cbn [rbind].
  unfold AppendUint64. cbn [app]. rewrite blen_be_put.
  change (Z.of_nat 8 <? 8) with false. cbn iota. rewrite slice_ok by (rewrite ?blen_be_put; lia).
  cbn [rbind]. change (Z.to_nat 0) with 0%nat. rewrite drop_0.
  rewrite take_ge by (rewrite be_put_length; lia). by apply Uint64_be.
Qed.

Lemma getUint64_missing d t key :
  key <> [] -> vget key (view t d) = None -> getUint64 d t key = Err ErrMdbNotFound.
Proof. intros Hk Hg. unfold getUint64. by rewrite mdb_get_ok, Hg. Qed.

(** Reading looks only at the entry of the key. *)
Lemma getUint64_view d t t' key :
  key <> [] -> vget key (view t' d) = vget key (view t d) -> getUint64 d t' key = getUint64 d t key.
Proof. intros Hk Hg. unfold getUint64. by rewrite !mdb_get_ok, Hg. Qed.

Lemma putUint64_ok t key v :
  keyFits key ->
  exists t', putUint64 DbiMeta t key v = Ok t'
    /\ vget key (view t' DbiMeta) = Some (metaVal key v)
    /\ (forall k, k <> key -> vget k (view t' DbiMeta) = vget k (view t DbiMeta))
    /\ forall d, d <> DbiMeta -> view t' d = view t d.
Proof.
  intros Hk. unfold putUint64. fold (metaVal key v).
  destruct (mdb_put_ok t DbiMeta key (metaVal key v)) as (t' & -> & V); [by split|].
  exists t'. split; [done|]. rewrite (V DbiMeta), decide_True by done. split; [|split].
  - apply vget_vput_eq, (view_sorted t DbiMeta).
  - intros k Hne. by apply vget_vput_ne.
  - intros d Hd. by rewrite V, decide_False.
Qed.

(** ** The metadata as a whole *)

Record metadata : Type := mkMeta {
  m_epoch : Z; m_index : Z; m_leaseID : Z; m_rev : Z; m_revCompacted : Z; m_revMin : Z; m_term : Z
}.

Definition metaHas (t : txn) (key : bytes) (v : Z) : Prop :=
  is_u64 v /\ vget key (view t DbiMeta) = Some (metaVal key v).

Record MetaRep (t : txn) (m : metadata) : Prop := {
  mr_epoch : metaHas t metaKeyEpoch (m_epoch m);
  mr_index : metaHas t metaKeyIndex (m_index m);
  mr_leaseID : metaHas t metaKeyLeaseID (m_leaseID m);
  mr_rev : metaHas t metaKeyRevision (m_rev m);
  mr_revCompacted : metaHas t metaKeyRevisionCompacted (m_revCompacted m);
  mr_revMin : metaHas t metaKeyRevisionMin (m_revMin m);
  mr_term : metaHas t metaKeyTerm (m_term m)
}.

Lemma metaHas_get t key v : key <> [] -> metaHas t key v -> getUint64 DbiMeta t key = Ok v.
Proof. intros Hk [Hv Hg]. by apply getUint64_stored. Qed.

Lemma epoch_u64 t m : MetaRep t m -> is_u64 (m_epoch m).
Proof. intros []. by destruct mr_epoch0. Qed.

Lemma getEpoch_rep t m : MetaRep t m -> getEpoch t = Ok (m_epoch m).
Proof. intros HM. apply metaHas_get; [done|exact (mr_epoch t m HM)]. Qed.

Lemma getIndex_rep t m : MetaRep t m -> getIndex t = Ok (m_index m).
Proof. intros HM. apply metaHas_get; [done|exact (mr_index t m HM)]. Qed.

Lemma getLeaseID_rep t m : MetaRep t m -> getLeaseID t = Ok (m_leaseID m).
Proof. intros HM. apply metaHas_get; [done|exact (mr_leaseID t m HM)]. Qed.

Lemma getRevision_rep t m : MetaRep t m -> getRevision t = Ok (m_rev m).
Proof. intros HM. apply metaHas_get; [done|exact (mr_rev t m HM)]. Qed.

Lemma getRevisionMin_rep t m : MetaRep t m -> getRevisionMin t = Ok (m_revMin m).
Proof. intros HM. apply metaHas_get; [done|exact (mr_revMin t m HM)]. Qed.

Lemma getRevisionCompacted_rep t m : MetaRep t m -> getRevisionCompacted t = Ok (m_revCompacted m).
Proof. intros HM. apply metaHas_get; [done|exact (mr_revCompacted t m HM)]. Qed.

Lemma getTerm_rep t m : MetaRep t m -> getTerm t = Ok (m_term m).
Proof. intros HM. apply metaHas_get; [done|exact (mr_term t m HM)]. Qed.

(** Only the metadata table matters. *)
Lemma MetaRep_view t t' m : view t' DbiMeta = view t DbiMeta -> MetaRep t m -> MetaRep t' m.
Proof. intros Hv []. split; unfold metaHas in *; rewrite Hv; assumption. Qed.

(** Writing one value keeps the others. *)
Lemma putUint64_has t key v :
  keyFits key -> is_u64 v ->
  exists t', putUint64 DbiMeta t key v = Ok t' /\ metaHas t' key v
    /\ (forall k w, k <> key -> metaHas t k w -> metaHas t' k w)
    /\ forall d, d <> DbiMeta -> view t' d = view t d.
Proof.
  intros Hk Hv. destruct (putUint64_ok t key v Hk) as (t' & E & Hg & Ho & Hd).
  exists t'. split; [done|]. split; [by split|]. split; [|done].
  intros k w Hne [Hw Hkw]. split; [done|]. by rewrite Ho.
Qed.

End Meta.

Ltac metaKey := by vm_compute.

(** ** Opening *)

Section Open.
Context `{MdbOk}.

(** Each missing key gets the default, each present one keeps its value. *)
Lemma metaInit_ok t keys def :
  is_u64 def -> NoDup keys -> Forall keyFits keys ->
  Forall (fun k => vget k (view t DbiMeta) = None \/ exists v, metaHas t k v) keys ->
  exists t', metaInit t keys def = Ok t'
    /\ (forall k, k ∈ keys ->
          (vget k (view t DbiMeta) = None -> metaHas t' k def)
          /\ (forall v, metaHas t k v -> metaHas t' k v))
    /\ (forall k, k ∉ keys -> vget k (view t' DbiMeta) = vget k (view t DbiMeta))
    /\ forall d, d <> DbiMeta -> view t' d = view t d.
Proof.
  intros Hdef. revert t. induction keys as [|k ks IH]; intros t Hnd Hfit Hst.
  { exists t. split; [done|]. split; [intros k X; inversion X|done]. }
  apply NoDup_cons in Hnd as [Hni Hnd]. apply Forall_cons in Hfit as [Hf Hfit]. apply Forall_cons in Hst as [Hk Hst].
  assert (k <> []) as Hne by (intros ->; by destruct Hf as [Hf _]; vm_compute in Hf).
  cbn [metaInit]. destruct Hk as [Hk|[v Hk]].
  - rewrite getUint64_missing by done.
    destruct (putUint64_ok t k def Hf) as (t1 & -> & Hh & Ho & Hd). cbn [rbind].
    assert (forall k', k' <> k -> (forall w, metaHas t k' w <-> metaHas t1 k' w)) as Hsame.
    { intros k' Hne' w. unfold metaHas. by rewrite Ho. }
    destruct (IH t1) as (t' & E & Hin & Hout & Hd'); auto.
    { rewrite Forall_forall in Hst |- *. intros k' Hk'. assert (k' <> k) as Hne' by (by intros ->).
      destruct (Hst k' Hk') as [?|[v ?]]; [left; by rewrite Ho|right; exists v; by apply Hsame]. }
    exists t'. split; [done|]. split; [|split].
    + intros k' [->|Hk']%elem_of_cons.
      * split; [|intros v [_ Hv]; congruence]. intros _. split; [done|]. by rewrite Hout.
      * assert (k' <> k) as Hne' by (by intros ->). destruct (Hin k' Hk') as [H1' H2']. split.
        -- intros Hn. apply H1'. by rewrite Ho.
        -- intros v Hv. apply H2'. by apply Hsame.
    + intros k' Hk'. apply not_elem_of_cons in Hk' as [Hne' Hk']. by rewrite Hout, Ho.
    + intros d Hd0. by rewrite Hd', Hd.
  - rewrite (metaHas_get t k v) by done. destruct (IH t) as (t' & E & Hin & Hout & Hd'); auto.
    exists t'. split; [done|]. split; [|split; [|done]].
    + intros k' [->|Hk']%elem_of_cons; [|by apply Hin]. unfold metaHas in *.
      rewrite Hout by done. split; [|done]. destruct Hk as [_ Hk]. congruence.
    + intros k' Hk'. apply not_elem_of_cons in Hk' as [_ Hk']. by apply Hout.
Qed.

Definition metaKeys0 : list bytes :=
  [metaKeyEpoch; metaKeyIndex; metaKeyLeaseID; metaKeyRevisionCompacted; metaKeyTerm].
Definition metaKeys1 : list bytes := [metaKeyRevision; metaKeyRevisionMin].

Lemma metaKeys_ok : NoDup (metaKeys0 ++ metaKeys1) /\ Forall keyFits (metaKeys0 ++ metaKeys1).
Proof.
  split; [|repeat constructor; by vm_compute].
  apply (bool_decide_unpack _). by vm_compute.
Qed.

(** Both loops of [newDbMeta]: missing keys get their default, the others keep theirs. *)
Lemma newDbMeta_ok t :
  Forall (fun k => vget k (view t DbiMeta) = None \/ exists v, metaHas t k v) (metaKeys0 ++ metaKeys1) ->
  exists t' index, newDbMeta t = Ok (t', index) /\ metaHas t' metaKeyIndex index
    /\ (forall k, k ∈ metaKeys0 ++ metaKeys1 ->
          (vget k (view t DbiMeta) = None -> metaHas t' k (if decide (k ∈ metaKeys0) then 0 else 1))
          /\ (forall v, metaHas t k v -> metaHas t' k v))
    /\ forall d, d <> DbiMeta -> view t' d = view t d.
Proof.
  intros Hst. destruct metaKeys_ok as [Hnd Hfit]. apply Forall_app in Hst as [S0 S1].
  apply Forall_app in Hfit as [F0 F1]. apply NoDup_app in Hnd as (N0 & Hdisj & N1).
  destruct (metaInit_ok t metaKeys0 0) as (t1 & E1 & I1 & O1 & D1); auto; [by vm_compute|].
  assert (forall k, k ∈ metaKeys1 -> vget k (view t1 DbiMeta) = vget k (view t DbiMeta)) as Hk1.
  { intros k Hk. apply O1. intros Hk0. by eapply Hdisj. }
  destruct (metaInit_ok t1 metaKeys1 1) as (t2 & E2 & I2 & O2 & D2); auto; [by vm_compute| |].
  { rewrite Forall_forall in S1 |- *. intros k Hk. destruct (S1 k Hk) as [?|[v Hv]].
    - left. by rewrite Hk1.
    - right. exists v. unfold metaHas in *. by rewrite Hk1. }
  assert (forall k, k ∈ metaKeys0 ++ metaKeys1 ->
          (vget k (view t DbiMeta) = None -> metaHas t2 k (if decide (k ∈ metaKeys0) then 0 else 1))
          /\ (forall v, metaHas t k v -> metaHas t2 k v)) as Hall.
  { intros k Hk. destruct (decide (k ∈ metaKeys0)) as [Hk0|Hk0].
    - assert (k ∉ metaKeys1) as Hn by (intros ?; by eapply Hdisj).
      unfold metaHas in *. rewrite !(O2 k Hn). by apply I1.
    - apply elem_of_app in Hk as [?|Hk]; [done|]. rewrite <- (Hk1 k Hk). destruct (I2 k Hk) as [Ha Hb].
      split; [done|]. intros v Hv. apply Hb. unfold metaHas in *. by rewrite Hk1. }
  assert (exists index, metaHas t2 metaKeyIndex index) as [index Hidx].
  { assert (metaKeyIndex ∈ metaKeys0) as Hi by (right; left).
    rewrite Forall_forall in S0. destruct (S0 metaKeyIndex Hi) as [Hn|[v Hv]];
      [exists 0|exists v]; (destruct (Hall metaKeyIndex) as [Ha Hb]; [apply elem_of_app; by left|]).
    - specialize (Ha Hn). by rewrite decide_True in Ha.
    - by apply Hb. }
  exists t2, index. unfold newDbMeta. fold metaKeys0 metaKeys1. rewrite E1. cbn [rbind].
  rewrite E2. cbn [rbind]. rewrite (metaHas_get t2 metaKeyIndex index) by done. cbn [rbind].
  split; [done|]. split; [done|]. split; [done|]. intros d Hd. by rewrite D2, D1.
Qed.

End Open.
