(* ===== verification/DbLease.v ===== *)
(** * Leases (src/db_lease.go, src/db_lease_exp.go, src/db_lease_key.go)

    Three tables: leases by id, the expiry index ordered by expiry then id, and
    the attachment index holding one entry per lease and key. *)

From S2P Require Import Prelude Types GoBinary Patch Kv Mdb Db.

(** ** Lease records *)

Record lease : Type := mkLease { l_id : Z; l_expires : Z; l_renewed : Z }.

Definition lease_zero : lease := mkLease 0 0 0.

Definition lease_FromBytes (key buf : bytes) : res lease :=
  if blen buf <? 6 then Err ErrChecksumMissing else
  let! good := sumOk key buf in
  if negb good then Err ErrChecksumInvalid else
  let '(id, n) := Uvarint key in
  if n =? 0 then Err ErrLeaseKeyInvalid else
  let! r := slice buf 0 (blen buf - 4) in
  let '(expires, r, err) := ReadUvarint r in
  match err with Some e => Err e | None =>
  let '(renewed, r, err) := ReadUvarint r in
  match err with Some e => Err e | None =>
  Ok (mkLease id expires renewed)
  end end.

Definition lease_Bytes (item : lease) (buf : bytes) : bytes :=
  let buf := AppendUvarint buf (l_expires item) in
  let buf := AppendUvarint buf (l_renewed item) in
  AppendUint32 buf (crc (AppendUvarint [] (l_id item)) buf).

Section Leases.
Context `{Mdb}.

(** ** db_lease.go *)

Definition dbLease_get (t : txn) (id : Z) : res lease :=
  let k := AppendUvarint [] id in
  match mdb_get t DbiLease k with
  | Ok v => lease_FromBytes k v
  | Err ErrMdbNotFound => Ok lease_zero
  | Err e => Err e
  | Panic => Panic
  | NoFuel => NoFuel
  end.

Definition dbLease_put (t : txn) (item : lease) : res txn :=
  mdb_put t DbiLease (AppendUvarint [] (l_id item)) (lease_Bytes item []).

(** The body of the loop of [all] after a successful read. The error of a later
    cursor move is assigned to a shadowed variable: any failure ends the loop
    and the items read so far are returned without error. *)
Fixpoint leaseAllLoop (fuel : nat) (t : txn) (c : cursor) (p : entry) (items : list lease)
  : res (list lease) :=
  match fuel with
  | O => NoFuel
  | S f =>
      if blen p.1 =? 0 then Ok items else
      let! item := lease_FromBytes p.1 p.2 in
      let items := items ++ [item] in
      let '(c, r) := cur_get t c [] Next in
      match r with
      | Ok p => leaseAllLoop f t c p items
      | Err _ => Ok items
      | Panic => Panic
      | NoFuel => NoFuel
      end
  end.

Definition dbLease_all (fuel : nat) (t : txn) : res (list lease) :=
  let! c := cur_open t DbiLease in
  let '(c, r) := cur_get t c [] Next in
  match r with
  | Ok p => leaseAllLoop fuel t c p []
  | Err ErrMdbNotFound => Ok []
  | Err e => Err e
  | Panic => Panic
  | NoFuel => NoFuel
  end.

Definition dbLease_del (t : txn) (id : Z) : res txn :=
  mdb_del t DbiLease (AppendUvarint [] id).

(** ** db_lease_exp.go *)

Definition leaseExpKey (item : lease) : bytes :=
  AppendUvarint (AppendUint64 [] (l_expires item)) (l_id item).

Definition dbLeaseExp_put (t : txn) (item : lease) : res txn :=
  let k := leaseExpKey item in
  mdb_put t DbiLeaseExp k (addChecksum k []).

Definition dbLeaseExp_del (t : txn) (item : lease) : res txn :=
  mdb_del t DbiLeaseExp (leaseExpKey item).

(** The iterator of [scan]: [yield] is the body of the caller's range loop, which
    may change the transaction while the cursor is open; an error it returns
    ends the loop. *)
Fixpoint leaseExpLoop {S} (fuel : nat) (t : txn) (c : cursor) (r : res entry) (expires : Z)
    (yield : txn -> S -> Z -> res (txn * S)) (s : S) : res (txn * S) :=
  match fuel with
  | O => NoFuel
  | Datatypes.S f =>
      match r with
      | Err _ => Ok (t, s)
      | Panic => Panic
      | NoFuel => NoFuel
      | Ok (k, v) =>
          match trimChecksum k v with
          | Err _ => Ok (t, s)
          | Panic => Panic
          | NoFuel => NoFuel
          | Ok _ =>
              if blen k <? 9 then Ok (t, s) else
              let! hd := slice k 0 8 in
              let! exp := Uint64 hd in
              if expires <? exp then Ok (t, s) else
              let! tl := slice k 8 (blen k) in
              let id := fst (Uvarint tl) in
              let! '(t, s) := yield t s id in
              let '(c, r) := cur_get t c [] Next in
              leaseExpLoop f t c r expires yield s
          end
      end
  end.

Definition dbLeaseExp_scan {S} (fuel : nat) (t : txn) (expires : Z)
    (yield : txn -> S -> Z -> res (txn * S)) (s : S) : res (txn * S) :=
  match cur_open t DbiLeaseExp with
  | Ok c =>
      let '(c, r) := cur_get t c [] Next in
      leaseExpLoop fuel t c r expires yield s
  | Err _ => Panic           (* a nil iterator is called *)
  | Panic => Panic
  | NoFuel => NoFuel
  end.

(** ** db_lease_key.go *)

Definition leaseKeyKey (id : Z) (key : bytes) : bytes := AppendUvarint [] id ++ key.

Definition dbLeaseKey_put (t : txn) (id : Z) (key : bytes) : res txn :=
  let k := leaseKeyKey id key in
  mdb_put t DbiLeaseKey k (addChecksum k []).

(** [for range cap(batch)]: [n] rounds are left. A failed cursor move leaves an
    empty key, which ends the loop without error. *)
Fixpoint sweepLoop (n : nat) (t : txn) (c : cursor) (r : res entry) (id : Z) (batch : list bytes)
  : res (txn * list bytes) :=
  match n with
  | O => Ok (t, batch)
  | S n =>
      match r with
      | Err _ => Ok (t, batch)
      | Panic => Panic
      | NoFuel => NoFuel
      | Ok (k, v) =>
          if blen k =? 0 then Ok (t, batch) else
          let! body := trimChecksum k v in
          let '(found, key, err) := ReadUvarint k in
          match err with Some e => Err e | None =>
          if negb (found =? id) then Ok (t, batch) else
          let! '(t, c) := cur_del t c in
          let '(c, r) := cur_get t c [] Next in
          sweepLoop n t c r id (batch ++ [key])
          end
      end
  end.

Definition dbLeaseKey_sweep (t : txn) (id : Z) (capBatch : nat) : res (txn * list bytes) :=
  let! c := cur_open t DbiLeaseKey in
  let '(c, r) := cur_get t c (AppendUvarint [] id) SetRange in
  sweepLoop capBatch t c r id [].

Definition dbLeaseKey_del (t : txn) (id : Z) (key : bytes) : res txn :=
  mdb_del t DbiLeaseKey (leaseKeyKey id key).

End Leases.
