(* ===== verification/DbKv.v ===== *)
(** * The revisioned key-value store (src/db_kv.go)

    Three tables: [DbiRev] maps a key to its records, newest first; [DbiVal] maps
    a key revision to the stored value; [DbiEvt] maps a key revision to the event
    (epoch and key) watchers read. *)

From S2P Require Import Prelude Types GoBinary Patch Kv Mdb Db.

Section DbKv.
Context (cfg : config) `{Differ} `{Snappy} `{Mdb}.

(** ** put *)

(** The three writes that end both branches of [put]: record, value, event. *)
Definition kvWrite (t : txn) (krec : keyrecord) (next : kv) (epoch : Z) (key : bytes) : res txn :=
  let! t := mdb_put t DbiRev key (keyrecord_Bytes krec []) in
  let revkey := keyrev_key (kr_rev krec) in
  let! b := kv_Bytes cfg next None [] in
  let! t := mdb_put t DbiVal revkey b in
  let evt := AppendUvarint [] epoch ++ key in
  mdb_put t DbiEvt revkey (addChecksum revkey evt).

Definition dbKv_put (t : txn) (rev subrev lease epoch : Z) (key : bytes) (val : nslice)
    (ignoreValue ignoreLease : bool) : res (txn * (kv * kv * bool)) :=
  if blen key =? 0 then Err ErrGRPCEmptyKey else
  if PCB_LIMIT_KEY_LENGTH <? blen key then Err ErrGRPCKeyTooLong else
  let! c := cur_open t DbiRev in
  let '(c, r) := cur_get t c key SetRange in
  let! krec :=
    match r with
    | Ok (k, b) => if beqb k key then keyrecord_FromBytes keyrecord_zero k b else Ok keyrecord_zero
    | Err ErrMdbNotFound => Ok keyrecord_zero
    | Err e => Err e
    | Panic => Panic
    | NoFuel => NoFuel
    end in
  if (kr_rev krec =? 0) || keyrev_isdel (kr_rev krec) then
    let next := mkKv (newkeyrev rev subrev false) 1 rev lease 0 key val in
    let krec := mkKeyrecord key (kv_rev next) lease in
    let! t := kvWrite t krec next epoch key in
    Ok (t, (kv_zero, next, false))
  else if (keyrev_upper (kr_rev krec) =? rev) && negb (PCB_TXN_MULTI_WRITE_ENABLED cfg) then
    Err ErrGRPCDuplicateKey
  else
    let! v := mdb_get t DbiVal (keyrev_key (kr_rev krec)) in
    let! '(prev, err) := kv_FromBytes kv_zero (keyrev_key (kr_rev krec)) v None false in
    match err with Some e => Err e | None =>
    let next :=
      mkKv (newkeyrev rev subrev false) (u64 (kv_version prev + 1)) (kv_created prev)
        (if ignoreLease then kv_lease prev else lease) 0 key
        (if ignoreValue then kv_val prev else val) in
    let! '(t, patched) :=
      if PCB_PATCH_ENABLED cfg && negb (keyrev_isdel (kr_rev krec)) then
        let! buf := kv_Bytes cfg prev val [] in
        if blen buf <? blen v
        then let! t := mdb_put t DbiVal (keyrev_key (kv_rev prev)) buf in Ok (t, true)
        else Ok (t, false)
      else Ok (t, false) in
    let krec := mkKeyrecord key (kv_rev next) lease in
    let! t := kvWrite t krec next epoch key in
    Ok (t, (prev, next, patched))
    end.

(** ** getRange *)

(** Decode a chain of revisions, newest first, each value against the newer one. *)
Fixpoint readChain (t : txn) (revs : list Z) (item : kv) (noval : bool) : res (kv * option error) :=
  match revs with
  | [] => Ok (item, None)
  | r :: rs =>
      match mdb_get t DbiVal (keyrev_key r) with
      | Ok v =>
          let! '(item, err) := kv_FromBytes item (keyrev_key r) v (kv_val item) noval in
          if isErr err then Ok (item, err) else readChain t rs item noval
      | Err e => Ok (item, Some e)
      | Panic => Panic
      | NoFuel => NoFuel
      end
  end.

(** Walk the duplicates of a key down to [revision], collecting the revisions
    passed since the last tombstone. The last component is the error that ended
    the walk ([NotFound]: every record is newer). *)
Fixpoint skipNewer (fuel : nat) (t : txn) (c : cursor) (krec : keyrecord) (revision : Z)
    (keep : bool) (next : list Z) : res (cursor * keyrecord * list Z * option error) :=
  if (0 <? revision) && (revision <? keyrev_upper (kr_rev krec)) then
    match fuel with
    | O => NoFuel
    | S f =>
        let next := if keyrev_isdel (kr_rev krec) then []
                    else if keep then next ++ [kr_rev krec] else next in
        let '(c, r) := cur_get t c [] NextDup in
        match r with
        | Ok (k, b) =>
            match keyrecord_FromBytes krec k b with
            | Ok krec => skipNewer f t c krec revision keep next
            | Err e => Err e
            | Panic => Panic
            | NoFuel => NoFuel
            end
        | Err e => Ok (c, krec, next, Some e)
        | Panic => Panic
        | NoFuel => NoFuel
        end
    end
  else Ok (c, krec, next, None).

Record rangeReq : Type := mkRangeReq {
  rq_key : bytes; rq_end : bytes; rq_revision : Z;
  rq_minMod : Z; rq_maxMod : Z; rq_minCreated : Z; rq_maxCreated : Z;
  rq_limit : Z; rq_keysOnly : bool
}.

Record rangeState : Type := mkRangeState {
  rs_items : list kv; rs_count : Z; rs_more : bool; rs_countOnly : bool;
  rs_krec : keyrecord; rs_item : kv
}.

(** What one iteration decides about a key: go on with the next key, leave the
    loop, or return. *)
Inductive rangeStep : Type :=
| RangeNext (c : cursor) (s : rangeState)
| RangeBreak (s : rangeState).

(** The body of the loop after the bounds checks, up to the label [next]. *)
Definition rangeBody (fuel : nat) (t : txn) (c : cursor) (rq : rangeReq) (k b : bytes)
    (s : rangeState) : res rangeStep :=
  let! krec := keyrecord_FromBytes (rs_krec s) k b in
  let full := negb (rs_countOnly s) && (0 <? rq_limit rq)
              && (blen (rs_items s) =? i64 (rq_limit rq)) in
  if full && negb (PCB_RANGE_COUNT_FULL cfg) && negb (PCB_RANGE_COUNT_FAKE cfg) then
    Ok (RangeBreak (mkRangeState (rs_items s) (rs_count s) true (rs_countOnly s) krec (rs_item s)))
  else
  let more := rs_more s || full in
  let countOnly := rs_countOnly s || full in
  let! '(c, krec, next, err) := skipNewer fuel t c krec (rq_revision rq) (negb countOnly) [] in
  let skip := Ok (RangeNext c (mkRangeState (rs_items s) (rs_count s) more countOnly krec (rs_item s))) in
  match err with
  | Some ErrMdbNotFound => skip
  | Some e => Err e
  | None =>
  let rev := kr_rev krec in
  if (0 <? rq_minMod rq) && (keyrev_upper rev <? rq_minMod rq) then skip else
  if (0 <? rq_maxMod rq) && (rq_maxMod rq <? keyrev_upper rev) then skip else
  if keyrev_isdel rev then skip else
  if countOnly then
    let s := mkRangeState (rs_items s) (rs_count s + 1) more countOnly krec (rs_item s) in
    if PCB_RANGE_COUNT_FAKE cfg then Ok (RangeBreak s) else Ok (RangeNext c s)
  else
    let item0 := mkKv (kv_rev (rs_item s)) (kv_version (rs_item s)) (kv_created (rs_item s))
                   (kv_lease (rs_item s)) (kv_flags (rs_item s)) (kv_key (rs_item s)) None in
    let! '(item, err) := readChain t (next ++ [rev]) item0 (rq_keysOnly rq) in
    match err with Some e => Err e | None =>
    if ((0 <? rq_minCreated rq) && (kv_created item <? rq_minCreated rq))
       || ((0 <? rq_maxCreated rq) && (rq_maxCreated rq <? kv_created item))
    then Ok (RangeNext c (mkRangeState (rs_items s) (rs_count s) more countOnly krec item))
    else Ok (RangeNext c (mkRangeState (rs_items s ++ [item]) (rs_count s + 1) more countOnly krec item))
    end
  end.

Fixpoint rangeLoop (fuel : nat) (t : txn) (c : cursor) (r : res entry) (rq : rangeReq)
    (s : rangeState) : res rangeState :=
  match fuel with
  | O => NoFuel
  | S f =>
      match r with
      | Err ErrMdbNotFound => Ok s
      | Err e => Err e
      | Panic => Panic
      | NoFuel => NoFuel
      | Ok (k, b) =>
          let isFullScan := beqb (rq_key rq) [Zb 0] && beqb (rq_end rq) [Zb 0] in
          if negb isFullScan && (blen (rq_end rq) =? 0) && negb (beqb k (rq_key rq)) then Ok s else
          if negb isFullScan && (0 <? blen (rq_end rq)) && negb (bltb k (rq_end rq)) then Ok s else
          let! st := rangeBody f t c rq k b s in
          match st with
          | RangeBreak s => Ok s
          | RangeNext c s =>
              if blen (rq_end rq) =? 0 then Ok s
              else let '(c, r) := cur_get t c [] NextNoDup in rangeLoop f t c r rq s
          end
      end
  end.

Definition dbKv_getRange (fuel : nat) (t : txn) (rq : rangeReq) (countOnly : bool)
  : res (list kv * Z * bool) :=
  let! c := cur_open t DbiRev in
  let '(c, r) := cur_get t c (rq_key rq) SetRange in
  let! s := rangeLoop fuel t c r rq (mkRangeState [] 0 false countOnly keyrecord_zero kv_zero) in
  Ok (rs_items s, rs_count s, rs_more s).

(** ** deleteRange *)

(** A tombstone record and its event. *)
Definition writeTombstone (t : txn) (k : bytes) (tombstone epoch : Z) : res txn :=
  let! t := mdb_put t DbiRev k (keyrecord_Bytes (mkKeyrecord k tombstone 0) []) in
  let tk := keyrev_key tombstone in
  let data := AppendUvarint [] epoch ++ k in
  mdb_put t DbiEvt tk (addChecksum tk data).

(** [prev, err = prev.FromBytes(k, v)] with the error looked at only later. *)
Definition rereadRecord (prev : keyrecord) (k v : bytes) : res (keyrecord * option error) :=
  match keyrecord_FromBytes prev k v with
  | Ok p => Ok (p, None)
  | Err e => Ok (prev, Some e)
  | Panic => Panic
  | NoFuel => NoFuel
  end.

Fixpoint deleteRangeLoop (fuel : nat) (t : txn) (c : cursor) (r : res entry)
    (rev subrev epoch : Z) (key end_ : bytes) (prev : keyrecord) (items : list keyrecord) (count : Z)
  : res (txn * (list keyrecord * Z)) :=
  match fuel with
  | O => NoFuel
  | S f =>
      match r with
      | Err ErrMdbNotFound => Ok (t, (items, count))
      | Err e => Err e
      | Panic => Panic
      | NoFuel => NoFuel
      | Ok (k, v) =>
          if blen v <? 12 then Err ErrValueInvalid else
          if (blen end_ =? 0) && negb (beqb k key) then Ok (t, (items, count)) else
          if (0 <? blen end_) && bltb end_ k then Ok (t, (items, count)) else
          let! '(prev, err) := rereadRecord prev k v in
          if negb (keyrev_isdel (kr_rev prev))
             && (keyrev_upper (kr_rev prev) =? rev) && negb (PCB_TXN_MULTI_WRITE_ENABLED cfg)
          then Err ErrGRPCDuplicateKey
          else
          let! '(t, items, count, err) :=
            if keyrev_isdel (kr_rev prev) then Ok (t, items, count, err)
            else
              let! t := writeTombstone t k (newkeyrev rev subrev true) epoch in
              Ok (t, items ++ [prev], count + 1, None) in
          if blen end_ =? 0 then
            match err with Some e => Err e | None => Ok (t, (items, count)) end
          else
            let '(c, r) := cur_get t c k NextNoDup in
            deleteRangeLoop f t c r rev subrev epoch key end_ prev items count
      end
  end.

Definition dbKv_deleteRange (fuel : nat) (t : txn) (rev subrev epoch : Z) (key end_ : bytes)
  : res (txn * (list keyrecord * Z)) :=
  let! c := cur_open t DbiRev in
  let '(c, r) := cur_get t c key SetRange in
  deleteRangeLoop fuel t c r rev subrev epoch key end_ keyrecord_zero [] 0.

(** ** deleteBatch *)

Fixpoint deleteBatchLoop (t : txn) (c : cursor) (rev subrev epoch : Z) (keys : list bytes)
    (prev : keyrecord) (err : option error) : res txn :=
  match keys with
  | [] => match err with Some e => Err e | None => Ok t end
  | key :: keys =>
      let '(c, r) := cur_get t c key SetRange in
      match r with
      | Err ErrMdbNotFound => Err ErrNotFound
      | Err e => Err e
      | Panic => Panic
      | NoFuel => NoFuel
      | Ok (k, v) =>
          if blen v <? 12 then Err ErrValueInvalid else
          if negb (beqb k key) then Err ErrNotFound else
          let! '(prev, err) := rereadRecord prev k v in
          if keyrev_isdel (kr_rev prev) then deleteBatchLoop t c rev subrev epoch keys prev err
          else
            let! t := writeTombstone t key (newkeyrev rev subrev true) epoch in
            deleteBatchLoop t c rev subrev epoch keys prev None
      end
  end.

Definition dbKv_deleteBatch (t : txn) (rev subrev epoch : Z) (keys : list bytes) : res txn :=
  let! c := cur_open t DbiRev in
  deleteBatchLoop t c rev subrev epoch keys keyrecord_zero None.

(** ** compact *)

(** [keys[string(v[n:])] = rev]: a Go map from key to the newest event revision
    seen; as an association list in order of first insertion. *)
Fixpoint keysSet (keys : list (bytes * Z)) (key : bytes) (rev : Z) : list (bytes * Z) :=
  match keys with
  | [] => [(key, rev)]
  | (k, r) :: ks => if beqb k key then (k, rev) :: ks else (k, r) :: keysSet ks key rev
  end.

(** The variables of [compact] that live across its loops: the event cursor and
    the entry last read from it, its revision and the error of that read. *)
Record compactState : Type := mkCompactState {
  cs_t : txn; cs_cur : cursor; cs_k : bytes; cs_v : bytes; cs_rev : Z;
  cs_err : option error; cs_keys : list (bytes * Z); cs_last : Z; cs_done : bool
}.

(** [k, v, err = curEvt.Get(nil, nil, NextDup)], falling back to [Next], then
    [rev.FromKey]. *)
Definition nextEvent (t : txn) (c : cursor) (rev : Z) : res (cursor * bytes * bytes * Z * option error) :=
  let '(c, r) := cur_get t c [] NextDup in
  let '(c, r) := if isNotFound r then cur_get t c [] Next else (c, r) in
  match r with
  | Ok (k, v) =>
      match keyrev_FromKey k v with
      | Ok rev => Ok (c, k, v, rev, None)
      | Err e => Ok (c, k, v, rev, Some e)
      | Panic => Panic
      | NoFuel => NoFuel
      end
  | Err e => Ok (c, [], [], rev, Some e)
  | Panic => Panic
  | NoFuel => NoFuel
  end.

(** The first inner loop: take events off the table until [max], the batch limit
    or the end, remembering for each key its newest event. *)
Fixpoint compactEvents (fuel : nat) (max : Z) (s : compactState) : res compactState :=
  match fuel with
  | O => NoFuel
  | S f =>
      let stop done := Ok (mkCompactState (cs_t s) (cs_cur s) (cs_k s) (cs_v s) (cs_rev s)
                             (cs_err s) (cs_keys s) (cs_last s) done) in
      match cs_err s with
      | Some ErrMdbNotFound => stop false
      | Some _ => stop true
      | None =>
          if (0 <? max) && (max <=? keyrev_upper (cs_rev s)) then stop true else
          if limitCompactionMaxKeys <=? blen (cs_keys s) then stop false else
          let! v := trimChecksum (cs_k s) (cs_v s) in
          let n := snd (Uvarint v) in
          let! key := slice v n (blen v) in
          let keys := keysSet (cs_keys s) key (cs_rev s) in
          let! '(t, c) := cur_del (cs_t s) (cs_cur s) in
          let! '(c, k, v, rev, err) := nextEvent t c (cs_rev s) in
          compactEvents f max
            (mkCompactState t c k v rev err keys (keyrev_upper (cs_rev s)) false)
      end
  end.

(** The innermost loop: drop the records of [key] older than its newest event
    [rev], with the values of those that have a newer record. *)
Fixpoint compactKey (fuel : nat) (t : txn) (c : cursor) (r : res entry) (key : bytes) (rev : Z)
    (rec : keyrecord) (hasNewer : bool) : res (txn * cursor * keyrecord * option error) :=
  match fuel with
  | O => NoFuel
  | S f =>
      match r with
      | Err ErrMdbNotFound => Ok (t, c, rec, Some ErrMdbNotFound)
      | Err e => Err e
      | Panic => Panic
      | NoFuel => NoFuel
      | Ok (k, v) =>
          if negb (beqb k key) then Ok (t, c, rec, None) else
          let! rec := keyrecord_FromBytes rec k v in
          if rev <=? kr_rev rec then
            let '(c, r) := cur_get t c [] NextDup in
            compactKey f t c r key rev rec true
          else
            let! t := if hasNewer && negb (keyrev_isdel (kr_rev rec))
                      then mdb_del t DbiVal (keyrev_key (kr_rev rec)) else Ok t in
            let! '(t, c) := cur_del t c in
            let '(c, r) := cur_get t c [] NextDup in
            compactKey f t c r key rev rec true
      end
  end.

(** [for key, rev := range keys]; the error is the one the last key left. *)
Fixpoint compactKeys (fuel : nat) (t : txn) (c : cursor) (keys : list (bytes * Z))
    (rec : keyrecord) (err : option error) : res (txn * cursor * option error) :=
  match keys with
  | [] => Ok (t, c, err)
  | (key, rev) :: keys =>
      let '(c, r) := cur_get t c key SetRange in
      let! '(t, c, rec, err) := compactKey fuel t c r key rev rec false in
      compactKeys fuel t c keys rec err
  end.

(** The outer loop. [mapRange] is the order in which Go ranges over the map, which
    the language leaves unspecified. *)
Fixpoint compactLoop (n fuel : nat) (mapRange : list (bytes * Z) -> list (bytes * Z)) (max : Z)
    (curRev : cursor) (s : compactState) : res (txn * Z) :=
  match n with
  | O => NoFuel
  | S n =>
      let! s := compactEvents fuel max s in
      let! '(t, curRev, err) :=
        compactKeys fuel (cs_t s) curRev (mapRange (cs_keys s)) keyrecord_zero (cs_err s) in
      let err := match err with Some ErrMdbNotFound => None | e => e end in
      if cs_done s then
        match err with Some e => Err e | None => Ok (t, cs_last s) end
      else
        compactLoop n fuel mapRange max curRev
          (mkCompactState t (cs_cur s) (cs_k s) (cs_v s) (cs_rev s) err [] (cs_last s) false)
  end.

Definition dbKv_compact (n fuel : nat) (mapRange : list (bytes * Z) -> list (bytes * Z))
    (t : txn) (max : Z) : res (txn * Z) :=
  let! curRev := cur_open t DbiRev in
  let! curEvt := cur_open t DbiEvt in
  let '(curEvt, r) := cur_get t curEvt [] Next in
  let! '(k, v) :=
    match r with
    | Ok p => Ok p
    | Err ErrMdbNotFound => Ok ([], [])
    | Err e => Err e
    | Panic => Panic
    | NoFuel => NoFuel
    end in
  let! rev := keyrev_FromKey k v in
  compactLoop n fuel mapRange max curRev (mkCompactState t curEvt k v rev None [] 0 false).

(** ** get, getRev, prev *)

Definition dbKv_prev (t : txn) (c : cursor) (item : kv) : res (kv * option error) :=
  match snd (cur_get t c [] NextDup) with
  | Ok (k, v) =>
      match keyrecord_FromBytes keyrecord_zero k v with
      | Ok prec =>
          match mdb_get t DbiVal (keyrev_key (kr_rev prec)) with
          | Ok v => kv_FromBytes kv_zero (keyrev_key (kr_rev prec)) v (kv_val item) false
          | Err e => Ok (kv_zero, Some e)
          | Panic => Panic
          | NoFuel => NoFuel
          end
      | Err e => Ok (kv_zero, Some e)
      | Panic => Panic
      | NoFuel => NoFuel
      end
  | Err e => Ok (kv_zero, Some e)
  | Panic => Panic
  | NoFuel => NoFuel
  end.

(** The body of [getRev], before its deferred function. *)
Definition getRevBody (fuel : nat) (t : txn) (key : bytes) (revision : Z) (withPrev : bool)
  : res (kv * kv * option error) :=
  let fail e := Ok (kv_zero, kv_zero, Some e) in
  match cur_open t DbiRev with
  | Err e => fail e
  | Panic => Panic
  | NoFuel => NoFuel
  | Ok c =>
  let '(c, r) := cur_get t c key SetRange in
  match r with
  | Err e => fail e
  | Panic => Panic
  | NoFuel => NoFuel
  | Ok (k, v) =>
  if negb (beqb k key) then Ok (kv_zero, kv_zero, None) else
  match keyrecord_FromBytes keyrecord_zero k v with
  | Err e => fail e
  | Panic => Panic
  | NoFuel => NoFuel
  | Ok krec =>
  match skipNewer fuel t c krec revision true [] with
  | Err e => fail e
  | Panic => Panic
  | NoFuel => NoFuel
  | Ok (c, krec, next, err) =>
  match err with Some e => fail e | None =>
  if keyrev_isdel (kr_rev krec) then
    if withPrev then
      let! '(prev, err) := dbKv_prev t c kv_zero in Ok (kv_zero, prev, err)
    else Ok (kv_zero, kv_zero, None)
  else
    let! '(item, err) := readChain t (next ++ [kr_rev krec]) kv_zero false in
    if isErr err then Ok (item, kv_zero, err)
    else if withPrev then
      let! '(prev, err) := dbKv_prev t c item in Ok (item, prev, err)
    else Ok (item, kv_zero, None)
  end end end end end.

(** Items and the error are returned together. *)
Definition dbKv_getRev (fuel : nat) (t : txn) (key : bytes) (revision : Z) (withPrev : bool)
  : res (kv * kv * option error) :=
  let! '(item, prev, err) := getRevBody fuel t key revision withPrev in
  Ok (item, prev, match err with Some ErrMdbNotFound => None | e => e end).

Definition dbKv_get (fuel : nat) (t : txn) (key : bytes) : res (kv * option error) :=
  let! '(item, prev, err) := dbKv_getRev fuel t key 0 false in Ok (item, err).

(** ** scan *)

Definition evtFromBytes (k v : bytes) : res kvEvent :=
  let! rev := keyrev_FromKey k v in
  let! v := trimChecksum k v in
  let '(epoch, n) := Uvarint v in
  let! key := slice v n (blen v) in
  Ok (mkKvEvent epoch key rev).

(** The iterator of [scan]: [yield] is the caller's loop body and says whether to
    go on. Any error ends the scan silently. *)
Fixpoint scanLoop {S} (fuel : nat) (t : txn) (c : cursor) (r : res entry)
    (yield : S -> kvEvent -> res (S * bool)) (s : S) : res S :=
  match fuel with
  | O => NoFuel
  | Datatypes.S f =>
      match r with
      | Err _ => Ok s
      | Panic => Panic
      | NoFuel => NoFuel
      | Ok (k, v) =>
          match evtFromBytes k v with
          | Err _ => Ok s
          | Panic => Panic
          | NoFuel => NoFuel
          | Ok evt =>
              let! '(s, go_on) := yield s evt in
              if negb go_on then Ok s else
              let '(c, r) := cur_get t c [] NextDup in
              let '(c, r) := if isNotFound r then cur_get t c [] Next else (c, r) in
              scanLoop f t c r yield s
          end
      end
  end.

Definition dbKv_scan {S} (fuel : nat) (t : txn) (revision : Z)
    (yield : S -> kvEvent -> res (S * bool)) (s : S) : res S :=
  match cur_open t DbiEvt with
  | Ok c =>
      let '(c, r) := cur_get t c (AppendUint64 [] (u64 (Z.shiftl revision 12))) SetRange in
      scanLoop fuel t c r yield s
  | Err _ => Panic           (* a nil iterator is called *)
  | Panic => Panic
  | NoFuel => NoFuel
  end.

End DbKv.
