(* ===== verification/ModStore.v ===== *)
(** * The storage module: its store (src/module/storage-kv/kv_store.go)

    The module is the store and state machine compiled for a wasm host. Its encodings,
    tables and most of its methods are the native code line by line, with the host's
    LMDB interface in place of the Go binding; these are named here as what they equal.
    [compact], [scan] and [revScan] are code of its own.

    The native binding returns fresh slices; the host's [Get] writes into the slice it is
    passed when that has room ([HostSlices]). Where the module keeps what an earlier [Get]
    returned and passes the same slice again, the buffer is written out: in [getRev] the
    value a patch is applied to lies in the slice the patch is read into, and in
    [deleteRange] all records kept have their keys in one slice. Elsewhere nothing is kept
    over the next [Get] into its slice: [getRange] copies each value, [compact] keeps keys
    as strings, [put] and [prev] read one value, [deleteBatch] keeps the revision only, and
    an event's key is used before the cursor moves on.

    An error no longer ends the replica: the caller of [compact] reports it and goes on
    with the same transaction, so the result of a failed compaction carries the contents
    it leaves. *)

From S2P Require Import Prelude Types GoBinary Patch Kv Mdb Db DbLease DbKv.

(** [limitCompactionMaxKeys] of the module: the events one compaction takes. *)
Definition mod_limitCompactionMaxKeys : Z := 1024.

(** ** Slices the host fills

    Capacities of the slices the host and Go's [append] allocate, by length, and whether
    the host writes into a slice of a capacity it is passed; it can when the data fits. *)
Class HostSlices : Type := {
  host_reuses : Z -> Z -> bool;
  host_cap : Z -> Z;
  append_cap : Z -> Z
}.

(** Passing a slice of capacity [cap] for data of length [len]: the data is written into
    it ([None]), or returned in a new slice of the capacity given. *)
Definition refill `{HostSlices} (cap len : Z) : option Z :=
  if (len <=? cap) && host_reuses cap len then None else Some (host_cap len).

(** A buffer after data was written at its start. *)
Definition overwrite (data buf : bytes) : bytes := data ++ drop (length data) buf.

(** A record with whether its key lies in the slice the cursor of [deleteRange] fills. *)
Abbreviation heldrec := (keyrecord * bool)%type.

Definition isPatch (flags : Z) : bool := 0 <? Z.land flags KV_FLAG_PATCH.
Definition isPlain (flags : Z) : bool := negb (0 <? Z.land flags KV_FLAG_COMPRESSED) && negb (isPatch flags).

Section ModStore.
Context (cfg : config) `{Differ} `{Snappy} `{Mdb} `{HostSlices}.

(** ** The methods the module shares with src/db_kv.go *)

Definition mod_put := dbKv_put cfg.
Definition mod_getRange := dbKv_getRange cfg.
Definition mod_deleteBatch := dbKv_deleteBatch.
Definition mod_prev := dbKv_prev.
Definition mod_evtFromBytes := evtFromBytes.

(** ** get, getRev *)

(** The slice [v2] of [getRev]: its capacity and contents, and where in it the value of the
    item read last lies, when that is no slice of its own. *)
Record valBuf : Type := mkValBuf { vb_cap : Z; vb_buf : bytes; vb_at : option nat }.

Definition withVal (item : kv) (val : nslice) : kv :=
  mkKv (kv_rev item) (kv_version item) (kv_created item) (kv_lease item) (kv_flags item) (kv_key item) val.

(** [v2, err = txn.Get(db.val.i, rev.key(), v2)]: the slice, and the item as it reads then. *)
Definition mod_refillVal (b : valBuf) (item : kv) (v : bytes) : valBuf * kv :=
  match refill (vb_cap b) (blen v) with
  | Some cap => (mkValBuf cap v None, item)
  | None =>
      let buf := overwrite v (vb_buf b) in
      (mkValBuf (vb_cap b) buf (vb_at b),
       match vb_at b, kv_val item with
       | Some at_, Some x => withVal item (Some (take (length x) (drop at_ buf)))
       | _, _ => item
       end)
  end.

(** Where the item just read from [v] has its value: a stored value that is neither
    compressed nor a patch is the rest of [v] before the checksum. *)
Definition mod_valAt (item : kv) (v : bytes) : option nat :=
  if isPlain (kv_flags item) then Some (length v - 4 - length (sbytes (kv_val item)))%nat else None.

Fixpoint mod_readChain (t : txn) (revs : list Z) (b : valBuf) (item : kv) : res (kv * option error) :=
  match revs with
  | [] => Ok (item, None)
  | r :: rs =>
      match mdb_get t DbiVal (keyrev_key r) with
      | Ok v =>
          let '(b, item) := mod_refillVal b item v in
          let! '(item, err) := kv_FromBytes item (keyrev_key r) v (kv_val item) false in
          if isErr err then Ok (item, err)
          else mod_readChain t rs (mkValBuf (vb_cap b) (vb_buf b) (mod_valAt item v)) item
      | Err e => Ok (item, Some e)
      | Panic => Panic
      | NoFuel => NoFuel
      end
  end.

(** The body of [getRev], before its deferred function; [v2] is nil at first. *)
Definition mod_getRevBody (fuel : nat) (t : txn) (key : bytes) (revision : Z) (withPrev : bool)
  : res (kv * kv * option error) :=
  let fail e := Ok (kv_zero, kv_zero, Some e) in
  match cur_open t DbiRev with
  | Err e => fail e
  | Panic => Panic
  | NoFuel => NoFuel
  | Ok c =>
  let '(c, r) := cur_get t c key SetRange in
  match r with
  | Err e => fail e
  | Panic => Panic
  | NoFuel => NoFuel
  | Ok (k, v) =>
  if negb (beqb k key) then Ok (kv_zero, kv_zero, None) else
  match keyrecord_FromBytes keyrecord_zero k v with
  | Err e => fail e
  | Panic => Panic
  | NoFuel => NoFuel
  | Ok krec =>
  match skipNewer fuel t c krec revision true [] with
  | Err e => fail e
  | Panic => Panic
  | NoFuel => NoFuel
  | Ok (c, krec, next, err) =>
  match err with Some e => fail e | None =>
  if keyrev_isdel (kr_rev krec) then
    if withPrev then
      let! '(prev, err) := mod_prev t c kv_zero in Ok (kv_zero, prev, err)
    else Ok (kv_zero, kv_zero, None)
  else
    let! '(item, err) := mod_readChain t (next ++ [kr_rev krec]) (mkValBuf 0 [] None) kv_zero in
    if isErr err then Ok (item, kv_zero, err)
    else if withPrev then
      let! '(prev, err) := mod_prev t c item in Ok (item, prev, err)
    else Ok (item, kv_zero, None)
  end end end end end.

Definition mod_getRev (fuel : nat) (t : txn) (key : bytes) (revision : Z) (withPrev : bool)
  : res (kv * kv * option error) :=
  let! '(item, prev, err) := mod_getRevBody fuel t key revision withPrev in
  Ok (item, prev, match err with Some ErrMdbNotFound => None | e => e end).

Definition mod_get (fuel : nat) (t : txn) (key : bytes) : res (kv * option error) :=
  let! '(item, prev, err) := mod_getRev fuel t key 0 false in Ok (item, err).

(** ** deleteRange *)

(** A record after [k] was written into the slice. *)
Definition mod_overKey (k : bytes) (x : heldrec) : heldrec :=
  let '(krec, held) := x in
  (if held then mkKeyrecord (take (length (kr_key krec)) (overwrite k (kr_key krec))) (kr_rev krec) (kr_lease krec)
   else krec, held).

(** [k, v, err = cur.Get(k, v[:0], op)] found [k]: the capacity of the slice, and the
    records kept as they read then. *)
Definition mod_refillKeys (cap : Z) (k : bytes) (prev : heldrec) (items : list heldrec) : Z * heldrec * list heldrec :=
  match refill cap (blen k) with
  | Some cap => (cap, (prev.1, false), (fun x => (x.1, false)) <$> items)
  | None => (cap, mod_overKey k prev, mod_overKey k <$> items)
  end.

Fixpoint mod_deleteRangeLoop (fuel : nat) (t : txn) (c : cursor) (r : res entry) (cap : Z)
    (rev subrev epoch : Z) (key end_ : bytes) (prev : heldrec) (items : list heldrec) (count : Z)
  : res (txn * (list heldrec * Z)) :=
  match fuel with
  | O => NoFuel
  | S f =>
      match r with
      | Err ErrMdbNotFound => Ok (t, (items, count))
      | Err e => Err e
      | Panic => Panic
      | NoFuel => NoFuel
      | Ok (k, v) =>
          let '(cap, prev, items) := mod_refillKeys cap k prev items in
          if blen v <? 12 then Err ErrValueInvalid else
          if (blen end_ =? 0) && negb (beqb k key) then Ok (t, (items, count)) else
          if (0 <? blen end_) && bltb end_ k then Ok (t, (items, count)) else
          let! '(prec, err) := rereadRecord prev.1 k v in
          let prev := (prec, if isErr err then prev.2 else true) in
          if negb (keyrev_isdel (kr_rev prec))
             && (keyrev_upper (kr_rev prec) =? rev) && negb (PCB_TXN_MULTI_WRITE_ENABLED cfg)
          then Err ErrGRPCDuplicateKey
          else
          let! '(t, items, count, err) :=
            if keyrev_isdel (kr_rev prec) then Ok (t, items, count, err)
            else
              let! t := writeTombstone t k (newkeyrev rev subrev true) epoch in
              Ok (t, items ++ [prev], count + 1, None) in
          if blen end_ =? 0 then
            match err with Some e => Err e | None => Ok (t, (items, count)) end
          else
            let '(c, r) := cur_get t c k NextNoDup in
            mod_deleteRangeLoop f t c r cap rev subrev epoch key end_ prev items count
      end
  end.

Definition mod_deleteRange (fuel : nat) (t : txn) (rev subrev epoch : Z) (key end_ : bytes)
  : res (txn * (list keyrecord * Z)) :=
  let! c := cur_open t DbiRev in
  let '(c, r) := cur_get t c key SetRange in
  let! '(t, (items, count)) :=
    mod_deleteRangeLoop fuel t c r (append_cap (blen key)) rev subrev epoch key end_ (keyrecord_zero, false) [] 0 in
  Ok (t, (items.*1, count)).

(** ** compact *)

(** The first inner loop. [scanned] counts the events taken; the limit ends the whole
    compaction. [Some e]: the function returns [e]. *)
Fixpoint mod_compactEvents (fuel : nat) (max scanned : Z) (s : compactState)
  : res (compactState * Z * option error) :=
  match fuel with
  | O => NoFuel
  | S f =>
      let stop done := Ok (mkCompactState (cs_t s) (cs_cur s) (cs_k s) (cs_v s) (cs_rev s)
                             (cs_err s) (cs_keys s) (cs_last s) done, scanned, None) in
      let fail t e := Ok (mkCompactState t (cs_cur s) (cs_k s) (cs_v s) (cs_rev s)
                            (cs_err s) (cs_keys s) (keyrev_upper (cs_rev s)) false, scanned + 1, Some e) in
      match cs_err s with
      | Some ErrMdbNotFound => stop false
      | Some _ => stop true
      | None =>
          if (0 <? max) && (max <=? keyrev_upper (cs_rev s)) then stop true else
          if mod_limitCompactionMaxKeys <=? scanned then stop true else
          match trimChecksum (cs_k s) (cs_v s) with
          | Err e => fail (cs_t s) e
          | Panic => Panic
          | NoFuel => NoFuel
          | Ok v =>
              let! key := slice v (snd (Uvarint v)) (blen v) in
              let keys := keysSet (cs_keys s) key (cs_rev s) in
              match cur_del (cs_t s) (cs_cur s) with
              | Err e => fail (cs_t s) e
              | Panic => Panic
              | NoFuel => NoFuel
              | Ok (t, c) =>
                  let! '(c, k, v, rev, err) := nextEvent t c (cs_rev s) in
                  mod_compactEvents f max (scanned + 1)
                    (mkCompactState t c k v rev err keys (keyrev_upper (cs_rev s)) false)
              end
          end
      end
  end.

(** The innermost loop: the error of the last cursor move, and the error to return. *)
Fixpoint mod_compactKey (fuel : nat) (t : txn) (c : cursor) (r : res entry) (key : bytes) (rev : Z)
    (rec : keyrecord) (hasNewer : bool) : res (txn * cursor * keyrecord * option error * option error) :=
  match fuel with
  | O => NoFuel
  | S f =>
      let fail t e := Ok (t, c, rec, None, Some e) in
      match r with
      | Err ErrMdbNotFound => Ok (t, c, rec, Some ErrMdbNotFound, None)
      | Err e => fail t e
      | Panic => Panic
      | NoFuel => NoFuel
      | Ok (k, v) =>
          if negb (beqb k key) then Ok (t, c, rec, None, None) else
          match keyrecord_FromBytes rec k v with
          | Err e => fail t e
          | Panic => Panic
          | NoFuel => NoFuel
          | Ok rec =>
              if rev <=? kr_rev rec then
                let '(c, r) := cur_get t c [] NextDup in
                mod_compactKey f t c r key rev rec true
              else
                match (if hasNewer && negb (keyrev_isdel (kr_rev rec))
                       then mdb_del t DbiVal (keyrev_key (kr_rev rec)) else Ok t) with
                | Err e => fail t e
                | Panic => Panic
                | NoFuel => NoFuel
                | Ok t =>
                    match cur_del t c with
                    | Err e => fail t e
                    | Panic => Panic
                    | NoFuel => NoFuel
                    | Ok (t, c) =>
                        let '(c, r) := cur_get t c [] NextDup in
                        mod_compactKey f t c r key rev rec true
                    end
                end
          end
      end
  end.

Fixpoint mod_compactKeys (fuel : nat) (t : txn) (c : cursor) (keys : list (bytes * Z))
    (rec : keyrecord) (err : option error) : res (txn * cursor * option error * option error) :=
  match keys with
  | [] => Ok (t, c, err, None)
  | (key, rev) :: keys =>
      let '(c, r) := cur_get t c key SetRange in
      let! '(t, c, rec, err, ret) := mod_compactKey fuel t c r key rev rec false in
      match ret with
      | Some e => Ok (t, c, err, Some e)
      | None => mod_compactKeys fuel t c keys rec err
      end
  end.

Fixpoint mod_compactLoop (n fuel : nat) (mapRange : list (bytes * Z) -> list (bytes * Z)) (max scanned : Z)
    (curRev : cursor) (s : compactState) : res (txn * Z * option error) :=
  match n with
  | O => NoFuel
  | S n =>
      let! '(s, scanned, ret) := mod_compactEvents fuel max scanned s in
      match ret with
      | Some e => Ok (cs_t s, cs_last s, Some e)
      | None =>
          let! '(t, curRev, err, ret) :=
            mod_compactKeys fuel (cs_t s) curRev (mapRange (cs_keys s)) keyrecord_zero (cs_err s) in
          match ret with
          | Some e => Ok (t, cs_last s, Some e)
          | None =>
              let err := match err with Some ErrMdbNotFound => None | e => e end in
              if cs_done s then Ok (t, cs_last s, err)
              else mod_compactLoop n fuel mapRange max scanned curRev
                     (mkCompactState t (cs_cur s) (cs_k s) (cs_v s) (cs_rev s) err [] (cs_last s) false)
          end
      end
  end.

(** The contents, [last] and the error. *)
Definition mod_compact (n fuel : nat) (mapRange : list (bytes * Z) -> list (bytes * Z))
    (t : txn) (max : Z) : res (txn * Z * option error) :=
  let fail e := Ok (t, 0, Some e) in
  match cur_open t DbiRev with
  | Err e => fail e
  | Panic => Panic
  | NoFuel => NoFuel
  | Ok curRev =>
  match cur_open t DbiEvt with
  | Err e => fail e
  | Panic => Panic
  | NoFuel => NoFuel
  | Ok curEvt =>
  let '(curEvt, r) := cur_get t curEvt [] Next in
  let start k v :=
    match keyrev_FromKey k v with
    | Err e => fail e
    | Panic => Panic
    | NoFuel => NoFuel
    | Ok rev => mod_compactLoop n fuel mapRange max 0 curRev (mkCompactState t curEvt k v rev None [] 0 false)
    end in
  match r with
  | Ok (k, v) => start k v
  | Err ErrMdbNotFound => start [] []
  | Err e => fail e
  | Panic => Panic
  | NoFuel => NoFuel
  end end end.

(** ** scan: an error panics *)

Fixpoint mod_scanLoop {S} (fuel : nat) (t : txn) (c : cursor) (r : res entry)
    (yield : S -> kvEvent -> res (S * bool)) (s : S) : res S :=
  match fuel with
  | O => NoFuel
  | Datatypes.S f =>
      match r with
      | Err ErrMdbNotFound => Ok s
      | Err _ => Panic
      | Panic => Panic
      | NoFuel => NoFuel
      | Ok (k, v) =>
          match mod_evtFromBytes k v with
          | Err _ => Panic
          | Panic => Panic
          | NoFuel => NoFuel
          | Ok evt =>
              let! '(s, go_on) := yield s evt in
              if negb go_on then Ok s else
              let '(c, r) := cur_get t c [] NextDup in
              let '(c, r) := if isNotFound r then cur_get t c [] Next else (c, r) in
              mod_scanLoop f t c r yield s
          end
      end
  end.

Definition mod_scan {S} (fuel : nat) (t : txn) (revision : Z)
    (yield : S -> kvEvent -> res (S * bool)) (s : S) : res S :=
  match cur_open t DbiEvt with
  | Ok c =>
      let '(c, r) := cur_get t c (AppendUint64 [] (u64 (Z.shiftl revision 12))) SetRange in
      mod_scanLoop fuel t c r yield s
  | Err _ => Panic           (* a nil iterator is called *)
  | Panic => Panic
  | NoFuel => NoFuel
  end.

(** ** revScan: the events of given revisions

    The inner loop runs while the error is not NotFound, and decodes what the last move
    returned; another error of a move leaves nothing to decode. *)
Fixpoint mod_revDups {S} (fuel : nat) (t : txn) (c : cursor) (k v : bytes)
    (yield : S -> kvEvent -> res (S * bool)) (s : S) : res (cursor * S * bool) :=
  match fuel with
  | O => NoFuel
  | Datatypes.S f =>
      match mod_evtFromBytes k v with
      | Err _ => Panic
      | Panic => Panic
      | NoFuel => NoFuel
      | Ok evt =>
          let! '(s, go_on) := yield s evt in
          if negb go_on then Ok (c, s, false) else
          let '(c, r) := cur_get t c [] NextDup in
          match r with
          | Ok (k, v) => mod_revDups f t c k v yield s
          | Err ErrMdbNotFound => Ok (c, s, true)
          | Err _ => mod_revDups f t c [] [] yield s
          | Panic => Panic
          | NoFuel => NoFuel
          end
      end
  end.

Fixpoint mod_revScanLoop {S} (fuel : nat) (t : txn) (c : cursor) (revisions : list Z)
    (yield : S -> kvEvent -> res (S * bool)) (s : S) : res S :=
  match revisions with
  | [] => Ok s
  | rev :: revisions =>
      let '(c, r) := cur_get t c (AppendUint64 [] (u64 (Z.shiftl rev 12))) SetRange in
      match r with
      | Err _ => Panic
      | Panic => Panic
      | NoFuel => NoFuel
      | Ok (k, v) =>
          let! '(c, s, go_on) := mod_revDups fuel t c k v yield s in
          if negb go_on then Ok s else mod_revScanLoop fuel t c revisions yield s
      end
  end.

Definition mod_revScan {S} (fuel : nat) (t : txn) (revisions : list Z)
    (yield : S -> kvEvent -> res (S * bool)) (s : S) : res S :=
  match cur_open t DbiEvt with
  | Ok c => mod_revScanLoop fuel t c revisions yield s
  | Err _ => Panic
  | Panic => Panic
  | NoFuel => NoFuel
  end.

End ModStore.
