(* ===== verification/Frame.v ===== *)
(** * Which tables an operation writes

    Whatever its arguments and whatever the store holds, an operation that returns
    changes only the tables it is meant to write. *)

From S2P Require Import Prelude Types GoBinary Patch Kv Mdb MdbFacts Db DbLease DbKv.

(** Take apart the hypothesis that a computation returned. *)
Ltac go_inv1 :=
  match goal with
  | H : rbind _ _ = Ok _ |- _ => apply rbind_ok in H as (? & ? & H)
  | H : Err _ = Ok _ |- _ => discriminate H
  | H : Panic = Ok _ |- _ => discriminate H
  | H : NoFuel = Ok _ |- _ => discriminate H
  | H : Ok _ = Ok _ |- _ => apply Ok_inj in H; simplify_eq
  | H : (if ?b then _ else _) = Ok _ |- _ => destruct b eqn:?
  | H : match ?x with _ => _ end = Ok _ |- _ => destruct x eqn:?
  end.
Ltac go_inv := repeat go_inv1.

Section Frame.
Context `{MdbOk}.

Definition only (ds : list dbi) (t t' : txn) : Prop := forall d, d ∉ ds -> view t' d = view t d.

Lemma only_refl ds t : only ds t t.
Proof. by intros d _. Qed.

Lemma only_trans ds t1 t2 t3 : only ds t1 t2 -> only ds t2 t3 -> only ds t1 t3.
Proof. intros H1' H2' d Hd. by rewrite H2', H1'. Qed.

Lemma only_weaken ds ds' t t' : ds ⊆ ds' -> only ds t t' -> only ds' t t'.
Proof. intros Hs Ho d Hd. apply Ho. intros X. by apply Hd, Hs. Qed.

Lemma only_put ds t d k v t' : mdb_put t d k v = Ok t' -> d ∈ ds -> only ds t t'.
Proof. intros E Hd d' Hd'. eapply mdb_put_frame; [exact E|]. by intros ->. Qed.

Lemma only_del ds t d k t' : mdb_del t d k = Ok t' -> d ∈ ds -> only ds t t'.
Proof. intros E Hd d' Hd'. eapply mdb_del_frame; [exact E|]. by intros ->. Qed.

Lemma only_cur_del ds t c t' c' : cur_del t c = Ok (t', c') -> cur_dbi c ∈ ds -> only ds t t'.
Proof.
  intros E Hd d' Hd'. eapply cur_del_frame; [exact E|]. by intros ->.
Qed.

Lemma cur_del_dbi t c t' c' : cur_del t c = Ok (t', c') -> cur_dbi c' = cur_dbi c.
Proof. intros E. by apply (cur_del_frame t c t' c' DbiMeta) in E as [? _]. Qed.

Lemma cur_get_dbi' t c k op c' r : cur_get t c k op = (c', r) -> cur_dbi c' = cur_dbi c.
Proof. intros E. pose proof (cur_get_dbi t c k op) as Hc. by rewrite E in Hc. Qed.

End Frame.

(** Chain the writes of a computation taken apart by [go_inv]. *)
Ltac dbi_in := repeat first [apply list_elem_of_here | apply list_elem_of_further].
Ltac only_step :=
  match goal with
  | |- only _ ?t ?t => apply only_refl
  | E : mdb_put ?t _ _ _ = Ok ?t1 |- only _ ?t _ =>
      eapply only_trans; [eapply only_put; [exact E|dbi_in]|]; clear E
  | E : mdb_del ?t _ _ = Ok ?t1 |- only _ ?t _ =>
      eapply only_trans; [eapply only_del; [exact E|dbi_in]|]; clear E
  end.

Section StoreFrame.
Context (cfg : config) `{Differ} `{Snappy} `{MdbOk}.

Definition kvTables : list dbi := [DbiRev; DbiVal; DbiEvt].

Lemma kvWrite_only t krec next epoch key t' :
  kvWrite cfg t krec next epoch key = Ok t' -> only kvTables t t'.
Proof. unfold kvWrite. intros E. go_inv. repeat only_step. Qed.

Lemma put_only t rev subrev lease epoch key val iv il t' out :
  dbKv_put cfg t rev subrev lease epoch key val iv il = Ok (t', out) -> only kvTables t t'.
Proof.
  unfold dbKv_put. intros E. go_inv; repeat only_step; eauto using kvWrite_only.
Qed.

Definition delTables : list dbi := [DbiRev; DbiEvt].

Lemma writeTombstone_only t k tombstone epoch t' :
  writeTombstone t k tombstone epoch = Ok t' -> only delTables t t'.
Proof. unfold writeTombstone. intros E. go_inv. repeat only_step. Qed.

Lemma deleteRangeLoop_only fuel t c r rev subrev epoch key end_ prev items count t' out :
  deleteRangeLoop cfg fuel t c r rev subrev epoch key end_ prev items count = Ok (t', out) ->
  only delTables t t'.
Proof.
  revert t c r prev items count. induction fuel as [|fuel IH]; intros t c r prev items count E; [done|].
  cbn [deleteRangeLoop] in E. go_inv; repeat only_step; eauto using writeTombstone_only, only_trans.
Qed.

Lemma deleteRange_only fuel t rev subrev epoch key end_ t' out :
  dbKv_deleteRange cfg fuel t rev subrev epoch key end_ = Ok (t', out) -> only delTables t t'.
Proof. unfold dbKv_deleteRange. intros E. go_inv. eauto using deleteRangeLoop_only. Qed.

Lemma deleteBatch_only t rev subrev epoch keys t' :
  dbKv_deleteBatch t rev subrev epoch keys = Ok t' -> only delTables t t'.
Proof.
  unfold dbKv_deleteBatch. intros E. destruct (cur_open t DbiRev) as [c| | |]; try done.
  cbn [rbind] in E. revert t c E. generalize keyrecord_zero (@None error).
  induction keys as [|k keys IH]; intros prev err t c E; cbn [deleteBatchLoop] in E; go_inv;
    eauto using only_refl, writeTombstone_only, only_trans.
Qed.

Lemma nextEvent_dbi t c rev c' k v rev' err :
  nextEvent t c rev = Ok (c', k, v, rev', err) -> cur_dbi c' = cur_dbi c.
Proof.
  unfold nextEvent. destruct (cur_get t c [] NextDup) as [c1 r1] eqn:E1. apply cur_get_dbi' in E1.
  destruct (isNotFound r1).
  - destruct (cur_get t c1 [] Next) as [c2 r2] eqn:E2. apply cur_get_dbi' in E2. intros E. go_inv; congruence.
  - intros E. go_inv; congruence.
Qed.

Lemma compactEvents_only fuel max s s' :
  cur_dbi (cs_cur s) = DbiEvt -> compactEvents fuel max s = Ok s' ->
  only kvTables (cs_t s) (cs_t s') /\ cur_dbi (cs_cur s') = DbiEvt.
Proof.
  revert s. induction fuel as [|fuel IH]; intros s Hc E; [done|]. cbn [compactEvents] in E.
  go_inv; try (split; [apply only_refl|done]).
  match goal with E1 : cur_del _ _ = Ok _, E2 : nextEvent _ _ _ = Ok _ |- _ =>
    pose proof (cur_del_dbi _ _ _ _ E1); pose proof (nextEvent_dbi _ _ _ _ _ _ _ _ E2);
    apply (only_cur_del kvTables) in E1; [|rewrite Hc; dbi_in] end.
  apply IH in E as [Eo Ec]; [|cbn; congruence]. split; [|done]. by eapply only_trans.
Qed.

Lemma compactKey_only fuel t c r key rev rec hasNewer t' c' rec' err :
  cur_dbi c = DbiRev -> compactKey fuel t c r key rev rec hasNewer = Ok (t', c', rec', err) ->
  only kvTables t t' /\ cur_dbi c' = DbiRev.
Proof.
  revert t c r rec hasNewer. induction fuel as [|fuel IH]; intros t c r rec hasNewer Hc E; [done|].
  cbn [compactKey] in E. go_inv; try (split; [apply only_refl|done]);
    repeat match goal with
      | E : cur_get _ _ _ _ = (_, _) |- _ => apply cur_get_dbi' in E
      | E : cur_del _ _ = Ok (_, _) |- _ =>
          pose proof (cur_del_dbi _ _ _ _ E);
          apply (only_cur_del kvTables) in E; [|rewrite Hc; dbi_in]
      | E : mdb_del _ _ _ = Ok _ |- _ => apply (only_del kvTables) in E; [|dbi_in]
      end;
    apply IH in E as [Eo Ec]; try congruence; split; try done; eauto using only_trans.
Qed.

Lemma compactKeys_only fuel t c keys rec err t' c' err' :
  cur_dbi c = DbiRev -> compactKeys fuel t c keys rec err = Ok (t', c', err') ->
  only kvTables t t' /\ cur_dbi c' = DbiRev.
Proof.
  revert t c rec err. induction keys as [|[key rev] keys IH]; intros t c rec err Hc E; cbn [compactKeys] in E.
  { go_inv. split; [apply only_refl|done]. }
  destruct (cur_get t c key SetRange) as [c1 r] eqn:E1. apply cur_get_dbi' in E1. go_inv.
  match goal with E2 : compactKey _ _ _ _ _ _ _ _ = Ok _ |- _ =>
    apply compactKey_only in E2 as [Eo Ec]; [|congruence] end.
  apply IH in E as [Eo' Ec']; [|done]. split; [|done]. by eapply only_trans.
Qed.

Lemma compact_only n fuel mapRange t max t' last :
  dbKv_compact n fuel mapRange t max = Ok (t', last) -> only kvTables t t'.
Proof.
  unfold dbKv_compact. intros E. destruct (cur_open t DbiRev) as [cr| | |] eqn:Er; try done.
  apply cur_open_dbi in Er. cbn [rbind] in E. destruct (cur_open t DbiEvt) as [ce| | |] eqn:Ee; try done.
  apply cur_open_dbi in Ee. cbn [rbind] in E. destruct (cur_get t ce [] Next) as [ce' r] eqn:Eg.
  apply cur_get_dbi' in Eg. destruct (match r with Ok p => _ | Err _ => _ | Panic => _ | NoFuel => _ end)
    as [[k v]| | |]; try done. cbn [rbind] in E.
  destruct (keyrev_FromKey k v) as [rev| | |]; try done. cbn [rbind] in E.
  set (s := mkCompactState t ce' k v rev None [] 0 false) in E.
  assert (cur_dbi (cs_cur s) = DbiEvt) as Hc by (cbn; congruence).
  change t with (cs_t s) at 1. clearbody s. clear - E Hc Er H2.
  revert s cr Er Hc E. induction n as [|n IH]; intros s cr Er Hc E; [done|]. cbn [compactLoop] in E.
  destruct (compactEvents fuel max s) as [s1| | |] eqn:E1; try done. cbn [rbind] in E.
  apply compactEvents_only in E1 as [O1 C1]; [|done].
  destruct (compactKeys fuel (cs_t s1) cr _ _ _) as [[[t1 cr1] err]| | |] eqn:E2; try done. cbn [rbind] in E.
  apply compactKeys_only in E2 as [O2 C2]; [|done].
  destruct (cs_done s1); [go_inv; by eapply only_trans|].
  apply IH in E; [|done|done]. eapply only_trans; [exact O1|]. eapply only_trans; [exact O2|]. exact E.
Qed.

(** ** Leases *)

Lemma lease_put_only t item t' : dbLease_put t item = Ok t' -> only [DbiLease] t t'.
Proof. unfold dbLease_put. intros E. only_step. apply only_refl. Qed.

Lemma lease_del_only t id t' : dbLease_del t id = Ok t' -> only [DbiLease] t t'.
Proof. unfold dbLease_del. intros E. only_step. apply only_refl. Qed.

Lemma leaseExp_put_only t item t' : dbLeaseExp_put t item = Ok t' -> only [DbiLeaseExp] t t'.
Proof. unfold dbLeaseExp_put. intros E. only_step. apply only_refl. Qed.

Lemma leaseExp_del_only t item t' : dbLeaseExp_del t item = Ok t' -> only [DbiLeaseExp] t t'.
Proof. unfold dbLeaseExp_del. intros E. only_step. apply only_refl. Qed.

Lemma leaseKey_put_only t id key t' : dbLeaseKey_put t id key = Ok t' -> only [DbiLeaseKey] t t'.
Proof. unfold dbLeaseKey_put. intros E. only_step. apply only_refl. Qed.

Lemma leaseKey_del_only t id key t' : dbLeaseKey_del t id key = Ok t' -> only [DbiLeaseKey] t t'.
Proof. unfold dbLeaseKey_del. intros E. only_step. apply only_refl. Qed.

Lemma sweep_only t id n t' batch : dbLeaseKey_sweep t id n = Ok (t', batch) -> only [DbiLeaseKey] t t'.
Proof.
  unfold dbLeaseKey_sweep. intros E. destruct (cur_open t DbiLeaseKey) as [c| | |] eqn:Eo; try done.
  apply cur_open_dbi in Eo. cbn [rbind] in E. destruct (cur_get t c _ SetRange) as [c1 r] eqn:Eg.
  apply cur_get_dbi' in Eg. assert (cur_dbi c1 = DbiLeaseKey) as Hc by congruence. clear Eo Eg c.
  revert t c1 r E Hc. generalize (@nil bytes). induction n as [|n IH]; intros b t c r E Hc; cbn [sweepLoop] in E.
  { go_inv. apply only_refl. }
  go_inv; try apply only_refl.
  repeat match goal with
    | E : cur_get _ _ _ _ = (_, _) |- _ => apply cur_get_dbi' in E
    | E : cur_del _ _ = Ok (_, _) |- _ =>
        pose proof (cur_del_dbi _ _ _ _ E);
        apply (only_cur_del [DbiLeaseKey]) in E; [|rewrite Hc; dbi_in]
    end.
  eapply only_trans; [eassumption|]. eapply IH; [exact E|congruence].
Qed.

(** A scan of the expiry index writes what its body writes. *)
Lemma leaseExp_scan_only {S} ds fuel t expires (yield : txn -> S -> Z -> res (txn * S)) s t' s' :
  (forall t s id t' s', yield t s id = Ok (t', s') -> only ds t t') ->
  dbLeaseExp_scan fuel t expires yield s = Ok (t', s') -> only ds t t'.
Proof.
  intros Hy. unfold dbLeaseExp_scan. destruct (cur_open t DbiLeaseExp) as [c| | |]; try done.
  destruct (cur_get t c [] Next) as [c1 r]. revert t c1 r s.
  induction fuel as [|fuel IH]; intros t c1 r s E; [done|]. cbn [leaseExpLoop] in E.
  go_inv; try apply only_refl. eapply only_trans; eauto.
Qed.

End StoreFrame.
