(* ===== verification/LeaseFacts.v ===== *)
(** * Leases: facts (src/db_lease.go, src/db_lease_exp.go, src/db_lease_key.go) *)

From stdpp Require Import sorting.
From S2P Require Import Prelude Types GoBinary Patch Kv Mdb MdbFacts MdbKeys Db DbFacts DbLease Frame.

(** ** Lease records *)

Record lease_ok (item : lease) : Prop := {
  lo_id : is_u64 (l_id item); lo_expires : is_u64 (l_expires item); lo_renewed : is_u64 (l_renewed item)
}.

Lemma lease_roundtrip item :
  lease_ok item -> lease_FromBytes (AppendUvarint [] (l_id item)) (lease_Bytes item []) = Ok item.
Proof.
  intros [Hi He Hr]. unfold lease_FromBytes, lease_Bytes, AppendUvarint, AppendUint32. cbn [app].
  set (body := uvarint (l_expires item) ++ uvarint (l_renewed item)).
  pose proof (uvarint_length (l_expires item)). pose proof (uvarint_length (l_renewed item)).
  assert (blen body = blen (uvarint (l_expires item)) + blen (uvarint (l_renewed item))) as Hb
    by (unfold body; by rewrite blen_app).
  rewrite blen_app, blen_be_put. destruct (Z.ltb_spec (blen body + Z.of_nat 4) 6); [lia|].
  rewrite sumOk_app. cbn [rbind negb].
  assert (Uvarint (uvarint (l_id item)) = (l_id item, blen (uvarint (l_id item)))) as ->.
  { rewrite <- (app_nil_r (uvarint (l_id item))) at 1. by apply Uvarint_app. }
  pose proof (uvarint_length (l_id item)). destruct (Z.eqb_spec (blen (uvarint (l_id item))) 0); [lia|].
  rewrite slice_ok by (rewrite ?blen_app, ?blen_be_put; lia). cbn [rbind].
  rewrite drop_0, take_app_length' by (unfold blen in *; lia).
  unfold body. rewrite ReadUvarint_app by done. cbn iota.
  rewrite <- (app_nil_r (uvarint (l_renewed item))), ReadUvarint_app by done. by destruct item.
Qed.

Lemma uvarint_fits id : keyFits (AppendUvarint [] id).
Proof.
  unfold keyFits, AppendUvarint, maxKeySize. cbn [app]. pose proof (uvarint_length id). lia.
Qed.

Lemma uvarint_nonempty id : AppendUvarint [] id <> [].
Proof. apply blen_nonempty. pose proof (uvarint_fits id) as [? _]. lia. Qed.

Lemma uvarint_inj id id' : is_u64 id -> is_u64 id' -> AppendUvarint [] id = AppendUvarint [] id' -> id = id'.
Proof.
  unfold AppendUvarint. cbn [app]. intros Hi Hi' E.
  by apply (uvarint_app_inj id id' [] []); [..|by rewrite !app_nil_r].
Qed.

(** Keys of the expiry index: expiry first, then id. *)
Lemma leaseExpKey_fits item : keyFits (leaseExpKey item).
Proof.
  unfold keyFits, leaseExpKey, AppendUvarint, AppendUint64, maxKeySize. cbn [app].
  rewrite blen_app, blen_be_put. pose proof (uvarint_length (l_id item)). lia.
Qed.

Lemma leaseExpKey_inj a b : lease_ok a -> lease_ok b -> leaseExpKey a = leaseExpKey b -> l_expires a = l_expires b /\ l_id a = l_id b.
Proof.
  intros [Ha1 Ha2 _] [Hb1 Hb2 _]. unfold leaseExpKey, AppendUvarint, AppendUint64. cbn [app]. intros E.
  apply app_inj_1 in E as [E1 E2]; [|by rewrite !be_put_length].
  split; [by apply be8_inj|]. by apply (uvarint_app_inj _ _ [] []); [..|by rewrite !app_nil_r].
Qed.

(** Keys of the attachment index determine lease and key. *)
Lemma leaseKeyKey_inj id id' key key' :
  is_u64 id -> is_u64 id' -> leaseKeyKey id key = leaseKeyKey id' key' -> id = id' /\ key = key'.
Proof.
  unfold leaseKeyKey, AppendUvarint. cbn [app]. intros Hi Hi' E.
  assert (id = id') as -> by (by eapply uvarint_app_inj). split; [done|]. by apply app_inv_head in E.
Qed.

Lemma leaseKeyKey_fits id key : blen key <= 480 -> keyFits (leaseKeyKey id key).
Proof.
  intros Hk. unfold keyFits, leaseKeyKey, AppendUvarint, maxKeySize. cbn [app]. rewrite blen_app.
  pose proof (uvarint_length id). pose proof (blen_nonneg key). lia.
Qed.

Section Leases.
Context `{MdbOk}.

(** ** The lease table *)

Definition leaseStored (t : txn) (id : Z) (o : option lease) : Prop :=
  vget (AppendUvarint [] id) (view t DbiLease) = (fun it => lease_Bytes it []) <$> o
  /\ forall it, o = Some it -> l_id it = id /\ lease_ok it.

Lemma lease_get_ok t id o : leaseStored t id o -> dbLease_get t id = Ok (default lease_zero o).
Proof.
  intros [Hg Ho]. unfold dbLease_get. rewrite mdb_get_ok, Hg by apply uvarint_nonempty.
  destruct o as [it|]; [|done]. cbn. destruct (Ho it eq_refl) as [<- Hok]. by apply lease_roundtrip.
Qed.

Lemma lease_put_ok t item :
  lease_ok item ->
  exists t', dbLease_put t item = Ok t' /\ leaseStored t' (l_id item) (Some item)
    /\ (forall id o, is_u64 id -> id <> l_id item -> leaseStored t id o -> leaseStored t' id o)
    /\ forall d, d <> DbiLease -> view t' d = view t d.
Proof.
  intros Hok. unfold dbLease_put.
  destruct (mdb_put_ok t DbiLease (AppendUvarint [] (l_id item)) (lease_Bytes item [])) as (t' & -> & V).
  { split; [apply uvarint_fits|done]. }
  exists t'. split; [done|]. unfold leaseStored. rewrite (V DbiLease), decide_True by done. split; [|split].
  - split; [by rewrite vget_vput_eq by apply (view_sorted t DbiLease)|]. by intros it [= <-].
  - intros id o Hid Hne [Hg Ho]. split; [|done]. rewrite vget_vput_ne; [done|].
    intros E%uvarint_inj; [done|done|apply Hok].
  - intros d Hd. by rewrite V, decide_False.
Qed.

Lemma lease_del_ok t id it :
  leaseStored t id (Some it) -> is_u64 id ->
  exists t', dbLease_del t id = Ok t' /\ leaseStored t' id None
    /\ (forall id' o, is_u64 id' -> id' <> id -> leaseStored t id' o -> leaseStored t' id' o)
    /\ forall d, d <> DbiLease -> view t' d = view t d.
Proof.
  intros [Hg _] Hid. unfold dbLease_del. pose proof (mdb_del_ok t DbiLease (AppendUvarint [] id) (uvarint_nonempty id)) as Hd.
  rewrite Hg in Hd. cbn [fmap option_fmap option_map] in Hd. destruct Hd as (t' & -> & V). exists t'. split; [done|].
  assert (forall k, vget k (view t' DbiLease) = if decide (k = AppendUvarint [] id) then None else vget k (view t DbiLease)) as Hv.
  { intros k. rewrite (V DbiLease), decide_True by done. unfold vget. rewrite dups_vdelkey. by case_decide. }
  unfold leaseStored. split; [|split].
  - rewrite Hv, decide_True by done. by split.
  - intros id' o Hid' Hne [Hg' Ho']. split; [|done]. rewrite Hv, decide_False; [done|].
    by intros E%uvarint_inj.
  - intros d Hne. by rewrite V, decide_False.
Qed.

End Leases.

(** ** The attachment index *)

Definition attEntry (p : Z * bytes) : entry :=
  (leaseKeyKey p.1 p.2, addChecksum (leaseKeyKey p.1 p.2) []).

Definition attKeys (id : Z) (A : list (Z * bytes)) : list bytes := snd <$> filter (fun p => p.1 = id) A.

(** The first [n] keys of [id], read from the start of the list. *)
Fixpoint sweepTake (n : nat) (id : Z) (A : list (Z * bytes)) : list bytes :=
  match n, A with
  | S n, (i, k) :: A => if i =? id then k :: sweepTake n id A else []
  | _, _ => []
  end.

Section Attachments.
Context `{MdbOk}.

Record AttRep (t : txn) (A : list (Z * bytes)) : Prop := {
  att_view : view t DbiLeaseKey = attEntry <$> A;
  att_u64 : Forall (fun p => is_u64 p.1) A
}.

Lemma sweepLoop_ok n t c r id batch pre A :
  view t DbiLeaseKey = attEntry <$> (pre ++ A) -> Forall (fun p => is_u64 p.1) A -> cur_dbi c = DbiLeaseKey ->
  match A with
  | [] => r = Err ErrMdbNotFound
  | p :: _ => r = Ok (attEntry p) /\ cur_pos c = Some (attEntry p)
  end ->
  exists t', sweepLoop n t c r id batch = Ok (t', batch ++ sweepTake n id A)
    /\ view t' DbiLeaseKey = attEntry <$> (pre ++ drop (length (sweepTake n id A)) A)
    /\ forall d, d <> DbiLeaseKey -> view t' d = view t d.
Proof.
  revert t c r batch pre A. induction n as [|n IH]; intros t c r batch pre A Hv Hu Hc Hr; cbn [sweepLoop sweepTake].
  { exists t. rewrite app_nil_r. by split; [|split]. }
  destruct A as [|[i k] A]; [subst r; exists t; rewrite app_nil_r; by split; [|split]|].
  destruct Hr as [-> Hp]. apply Forall_cons in Hu as [Hi Hu]. cbn [fst] in Hi.
  unfold attEntry at 1 in Hp. unfold attEntry at 1. cbn [fst snd] in *.
  assert ((blen (leaseKeyKey i k) =? 0) = false) as ->.
  { apply Z.eqb_neq. unfold leaseKeyKey, AppendUvarint. cbn [app]. rewrite blen_app.
    pose proof (uvarint_length i). pose proof (blen_nonneg k). lia. }
  rewrite trim_add. cbn [rbind]. unfold leaseKeyKey at 1, AppendUvarint. cbn [app].
  rewrite ReadUvarint_app by done.
  destruct (Z.eqb_spec i id) as [->|Hne]; cbn [negb].
  2:{ exists t. rewrite app_nil_r. by split; [|split]. }
  destruct (cur_del_next t c (attEntry (id, k)) (attEntry <$> pre) (attEntry <$> A))
    as (t' & c' & -> & Hc' & V & c2 & Hc2 & Hg).
  { done. } { by rewrite Hc, Hv, fmap_app. }
  cbn [rbind]. destruct (cur_get t' c' [] Next) as [c3 r3] eqn:Eg.
  destruct (IH t' c3 r3 (batch ++ [k]) pre A) as (t2 & -> & Hv2 & Hd2).
  - by rewrite V, Hc, decide_True, fmap_app by done.
  - done.
  - apply cur_get_dbi' in Eg. congruence.
  - destruct A as [|p A]; cbn [fmap list_fmap] in Hg; [by injection Hg as <- <-|].
    destruct Hg as [Hg Hp2]. injection Hg as <- <-. by split.
  - exists t2. cbn [length drop]. split; [by rewrite <- app_assoc|]. split; [done|].
    intros d Hd. rewrite Hd2, V, Hc, decide_False by done. done.
Qed.

End Attachments.

(** The entries of a lease stand together at the front of those at or after its id. *)
Lemma prefix_between x p k : ~ blt x p -> blt x (p ++ k) -> exists k', x = p ++ k'.
Proof.
  unfold blt. revert x. induction p as [|a p IH]; intros [|b x] Hn Hlt; cbn in *; [by exists []|by exists (b :: x)|done|].
  destruct (Z.compare_spec (bZ b) (bZ a)) as [E|E|E]; [|done|done].
  apply bZ_inj in E as ->. destruct (IH x Hn Hlt) as [k' ->]. by exists k'.
Qed.

Lemma sweepTake_front n id A :
  Forall (fun p => is_u64 p.1) A -> is_u64 id ->
  StronglySorted klt (attEntry <$> A) -> Forall (fun p => ~ blt (attEntry p).1 (AppendUvarint [] id)) A ->
  sweepTake n id A = take n (attKeys id A)
  /\ attKeys id (drop (length (sweepTake n id A)) A) = drop n (attKeys id A)
  /\ forall id', id' <> id -> attKeys id' (drop (length (sweepTake n id A)) A) = attKeys id' A.
Proof.
  intros Hu Hid. revert n. induction A as [|[i k] A IH]; intros n Hs Hge.
  { destruct n; cbn; by repeat split. }
  destruct n as [|n]; [by cbn [sweepTake take length drop]; repeat split|].
  apply Forall_cons in Hu as [Hi Hu]. apply Forall_cons in Hge as [Hgi Hge].
  rewrite fmap_cons in Hs. apply StronglySorted_inv in Hs as [Hs Hf].
  cbn [fst] in Hi. cbn [sweepTake]. destruct (Z.eqb_spec i id) as [->|Hne].
  - destruct (IH Hu n Hs Hge) as (E1 & E2 & E3). unfold attKeys in *. cbn [length drop].
    rewrite filter_cons_True by done. cbn [fmap list_fmap snd take drop]. split; [by rewrite E1|].
    split; [done|]. intros id' Hne'. rewrite filter_cons_False by (cbn; congruence). by apply E3.
  - assert (attKeys id ((i, k) :: A) = []) as En.
    { unfold attKeys. rewrite filter_none; [done|]. intros [i' k'] Hin Ei. cbn in Ei. subst i'.
      apply elem_of_cons in Hin as [[= ? ?]|Hin]; [congruence|].
      rewrite Forall_forall in Hf. assert (klt (attEntry (i, k)) (attEntry (id, k'))) as Hlt.
      { apply Hf, list_elem_of_fmap. eauto. }
      unfold klt, attEntry in Hlt. cbn [fst snd] in *. unfold leaseKeyKey at 2 in Hlt.
      destruct (prefix_between _ _ _ Hgi Hlt) as [k2 E]. cbn [fst snd attEntry] in E.
      change (AppendUvarint [] id ++ k2) with (leaseKeyKey id k2) in E.
      apply leaseKeyKey_inj in E as [E _]; done. }
    rewrite En. cbn [take drop length]. split; [done|]. split; [done|]. done.
Qed.
