(* ===== verification/History.v ===== *)
(** * Abstract specification of the revisioned store

    A history gives each key its records, newest first. [Rep] says that the tables
    of a transaction hold a history; the operations of src/db_kv.go are specified on
    histories and proved to implement them. *)

From S2P Require Import Prelude Types GoBinary Patch Kv Mdb.

(** ** Records and histories *)

(** [h_klease] is the lease of the index record, [h_lease] the one of the stored
    value; a tombstone has no value and its other fields do not matter. *)
Record hrec : Type := mkHrec {
  h_rev : Z; h_klease : Z; h_version : Z; h_created : Z; h_lease : Z; h_val : bytes
}.

Abbreviation history := (bytes -> list hrec).

Definition isLive (h : hrec) : bool := negb (keyrev_isdel (h_rev h)).

Definition tombstoneRec (rev : Z) : hrec := mkHrec rev 0 0 0 0 [].

Definition hset (H : history) (key : bytes) (hs : list hrec) : history :=
  fun k => if decide (k = key) then hs else H k.

(** Every recorded revision precedes the write number [subrev] of revision [rev]. *)
Definition fresh (H : history) (rev subrev : Z) : Prop :=
  forall key h, h ∈ H key -> h_rev h < newkeyrev rev subrev false.

(** ** Reads *)

Definition newer (revision : Z) (h : hrec) : bool :=
  (0 <? revision) && (revision <? keyrev_upper (h_rev h)).

Fixpoint dropNewer (revision : Z) (hs : list hrec) : list hrec :=
  match hs with
  | [] => []
  | h :: hs' => if newer revision h then dropNewer revision hs' else hs
  end.

(** The record of a key visible at a revision (0: now). *)
Definition visible (revision : Z) (hs : list hrec) : option hrec :=
  match dropNewer revision hs with
  | h :: _ => if isLive h then Some h else None
  | [] => None
  end.

(** The record it replaced, if that was live. *)
Definition prevOf (revision : Z) (hs : list hrec) : option hrec :=
  match dropNewer revision hs with
  | _ :: p :: _ => if isLive p then Some p else None
  | _ => None
  end.

(** What a read returns for a record. *)
Record kvIs (key : bytes) (h : hrec) (item : kv) : Prop := {
  is_rev : kv_rev item = h_rev h;
  is_version : kv_version item = h_version h;
  is_created : kv_created item = h_created h;
  is_lease : kv_lease item = h_lease h;
  is_key : kv_key item = key;
  is_val : sbytes (kv_val item) = h_val h
}.

(** The zero value stands for no record. *)
Definition kvOr (key : bytes) (o : option hrec) (item : kv) : Prop :=
  match o with Some h => kvIs key h item | None => item = kv_zero end.

(** The same, up to the value, for a read of keys only. *)
Definition kvIsKey (key : bytes) (h : hrec) (item : kv) : Prop :=
  exists v, kvIs key h (mkKv (kv_rev item) (kv_version item) (kv_created item) (kv_lease item)
                          (kv_flags item) (kv_key item) v).

(** ** Writes *)

(** The record [put] adds on top of [hs]. *)
Definition putRec (rev subrev lease : Z) (val : nslice) (ignoreValue ignoreLease : bool)
    (hs : list hrec) : hrec :=
  match hs with
  | h :: _ =>
      if isLive h then
        mkHrec (newkeyrev rev subrev false) lease (u64 (h_version h + 1)) (h_created h)
          (if ignoreLease then h_lease h else lease)
          (if ignoreValue then h_val h else sbytes val)
      else mkHrec (newkeyrev rev subrev false) lease 1 rev lease (sbytes val)
  | [] => mkHrec (newkeyrev rev subrev false) lease 1 rev lease (sbytes val)
  end.

(** A delete adds a tombstone on top of a live record. *)
Definition delRecs (rev subrev : Z) (hs : list hrec) : list hrec :=
  match hs with
  | h :: _ => if isLive h then tombstoneRec (newkeyrev rev subrev true) :: hs else hs
  | [] => []
  end.

(** ** Representation *)

Definition recOf (key : bytes) (h : hrec) : keyrecord := mkKeyrecord key (h_rev h) (h_klease h).
Definition recBytes (key : bytes) (h : hrec) : bytes := keyrecord_Bytes (recOf key h) [].
Definition kvOf (key : bytes) (h : hrec) : kv :=
  mkKv (h_rev h) (h_version h) (h_created h) (h_lease h) 0 key (Some (h_val h)).

Record hrec_ok (h : hrec) : Prop := {
  ok_rev : exists u l d, keyrev_ok u l /\ 0 < u /\ h_rev h = newkeyrev u l d;
  ok_klease : is_u64 (h_klease h);
  ok_version : is_u64 (h_version h);
  ok_created : is_u64 (h_created h);
  ok_lease : is_u64 (h_lease h);
  ok_val : small (h_val h)
}.

(** The value a record may be stored as a patch against: that of the record just
    above it, if it is live and not empty. *)
Definition patchBase (above : option hrec) : nslice :=
  match above with
  | Some h => if isLive h && negb (blen (h_val h) =? 0) then Some (h_val h) else None
  | None => None
  end.

(** Keys shorter than two bytes are left out: the entry of a one-byte key may be
    shorter than [kv.FromBytes] accepts. *)
Definition key_ok (key : bytes) : Prop := 2 <= blen key <= PCB_LIMIT_KEY_LENGTH.

Definition newestFirst (a b : hrec) : Prop := h_rev b < h_rev a.

Section Rep.
Context (cfg : config) `{Differ} `{Snappy} `{MdbOk}.

Definition stored (key : bytes) (above : option hrec) (h : hrec) (b : bytes) : Prop :=
  exists n, (n = None \/ n = patchBase above) /\ kv_Bytes cfg (kvOf key h) n [] = Ok b.

Fixpoint chain (key : bytes) (vals : table) (above : option hrec) (hs : list hrec) : Prop :=
  match hs with
  | [] => True
  | h :: hs' =>
      (isLive h = true -> exists b, vget (keyrev_key (h_rev h)) vals = Some b /\ stored key above h b)
      /\ chain key vals (Some h) hs'
  end.

Record Rep (t : txn) (H : history) : Prop := {
  rep_rev key : dups key (view t DbiRev) = recBytes key <$> H key;
  rep_key key : H key <> [] -> key_ok key;
  rep_ok key : Forall hrec_ok (H key);
  rep_sorted key : StronglySorted newestFirst (H key);
  rep_vals key : chain key (view t DbiVal) None (H key);
  rep_tomb r : is_u64 r -> keyrev_isdel r = true -> vget (keyrev_key r) (view t DbiVal) = None;
  rep_unique k1 k2 h1 h2 :
    h1 ∈ H k1 -> h2 ∈ H k2 -> isLive h1 = true -> h_rev h1 = h_rev h2 -> k1 = k2
}.

End Rep.
