(* ===== verification/DbKvRead.v ===== *)
(** * Reads of the store implement the history (src/db_kv.go: get, getRev) *)

From S2P Require Import Prelude Types GoBinary Patch Kv Mdb MdbFacts Db DbKv History.

(** ** Records *)

Lemma hrec_rev_u64 h : hrec_ok h -> is_u64 (h_rev h) /\ 0 < h_rev h.
Proof.
  intros [(u & l & d & Hok & Hu & ->) _ _ _ _ _]. split; [by apply newkeyrev_u64|].
  rewrite newkeyrev_eq by done. unfold keyrev_ok in Hok. destruct d; lia.
Qed.

Lemma recBytes_decode recv key h :
  hrec_ok h ->
  keyrecord_FromBytes recv key (recBytes key h)
  = Ok (mkKeyrecord key (h_rev h) (if isLive h then h_klease h else kr_lease recv)).
Proof.
  intros Hh. unfold recBytes. change key with (kr_key (recOf key h)) at 1.
  rewrite keyrecord_roundtrip; [|by apply hrec_rev_u64|apply Hh].
  unfold isLive. cbn. by destruct (keyrev_isdel (h_rev h)).
Qed.

Lemma keyrev_key_nonempty kr : keyrev_key kr <> [].
Proof.
  apply blen_nonempty. unfold keyrev_key, keyrev_appendbytes, AppendUint64.
  rewrite blen_app, blen_be_put, blen_nil. lia.
Qed.

Lemma key_ok_nonempty key : key_ok key -> key <> [].
Proof. intros [Hk _] ->. rewrite blen_nil in Hk. lia. Qed.

Lemma key_ok_small key : key_ok key -> small key.
Proof. unfold key_ok, small, PCB_LIMIT_KEY_LENGTH. lia. Qed.

Lemma kvOf_wf key h : key_ok key -> hrec_ok h -> kv_wf (kvOf key h).
Proof.
  intros Hk Hh. split; cbn; try apply Hh; [by apply hrec_rev_u64|by apply key_ok_small].
Qed.

#[export] Hint Resolve keyrev_key_nonempty key_ok_nonempty key_ok_small kvOf_wf : go.

Lemma patchBase_small above : (forall h, above = Some h -> hrec_ok h) -> small (sbytes (patchBase above)).
Proof.
  intros Hok. destruct above as [h|]; [|done]. cbn.
  destruct (isLive h && _); [|done]. by apply (Hok h).
Qed.

Section Reads.
Context (cfg : config) `{DifferOk} `{SnappyOk} `{MdbOk}.

(** ** One stored value *)

Lemma stored_blen key above h b :
  key_ok key -> hrec_ok h -> isLive h = true -> (forall h', above = Some h' -> hrec_ok h') ->
  stored cfg key above h b -> 11 <= blen b.
Proof.
  intros Hk Hh Hl Ha (n & Hn & Hb). unfold isLive in Hl. apply negb_true_iff in Hl.
  destruct (kv_Bytes_total cfg (kvOf key h) n) as (b' & Hb' & Hlen); auto with go.
  { destruct Hn as [-> | ->]; [done|by apply patchBase_small]. }
  rewrite Hb in Hb'. apply Ok_inj in Hb' as <-. cbn in Hlen. unfold key_ok in Hk. lia.
Qed.

(** A stored value reads back, given the value above it when it may be a patch. *)
Lemma stored_read recv key above h b next noval :
  key_ok key -> hrec_ok h -> isLive h = true -> (forall h', above = Some h' -> hrec_ok h') ->
  stored cfg key above h b ->
  noval = true \/ patchBase above = None \/ next = patchBase above ->
  exists item, kv_FromBytes recv (keyrev_key (h_rev h)) b next noval = Ok (item, None)
    /\ (if noval then kvIsKey key h item /\ kv_val item = kv_val recv else kvIs key h item).
Proof.
  intros Hk Hh Hl Ha Hst Hnext. pose proof (stored_blen key above h b Hk Hh Hl Ha Hst) as Hlen.
  destruct Hst as (n & Hn & Hb). unfold isLive in Hl. apply negb_true_iff in Hl.
  assert (small (sbytes n)) as Hns by (destruct Hn as [-> | ->]; [done|by apply patchBase_small]).
  destruct noval.
  - destruct (kv_read_back cfg recv (kvOf key h) n n b true) as (fl & v & E & Ev); auto with go.
    cbn [kvOf kv_rev] in E. rewrite (kv_FromBytes_noval_next _ _ _ next n), E. eexists. split; [done|].
    split; [|done]. exists v. by split.
  - destruct (kv_read_back cfg recv (kvOf key h) n next b false) as (fl & v & E & Ev); auto with go.
    { destruct Hnext as [?|[Hp|Hp]]; [done| |]; destruct Hn as [Hn|Hn]; rewrite ?Hn, ?Hp; auto. }
    cbn [kvOf kv_rev] in E. rewrite E. eexists. split; [done|]. by split.
Qed.

(** ** Chains of values *)

Lemma chain_app key vals above l1 l2 :
  chain cfg key vals above (l1 ++ l2)
  <-> chain cfg key vals above l1
      /\ chain cfg key vals (match last l1 with Some h => Some h | None => above end) l2.
Proof.
  revert above. induction l1 as [|h l1 IH]; intros above; [cbn; tauto|].
  rewrite last_cons. cbn [app chain]. rewrite IH. destruct (last l1); tauto.
Qed.

(** Reading a segment of live records from the newest down gives the last one, if
    the first can be read. *)
Lemma readChain_ok t key l h above item0 noval :
  key_ok key -> Forall hrec_ok (l ++ [h]) -> (forall h', above = Some h' -> hrec_ok h') ->
  Forall (fun h => isLive h = true) (l ++ [h]) ->
  chain cfg key (view t DbiVal) above (l ++ [h]) ->
  noval = true \/ patchBase above = None \/ kv_val item0 = patchBase above ->
  exists item, readChain t (h_rev <$> (l ++ [h])) item0 noval = Ok (item, None)
    /\ (if noval then kvIsKey key h item /\ kv_val item = kv_val item0 else kvIs key h item).
Proof.
  intros Hk. revert above item0. induction l as [|a l IH]; intros above item0 Hok Ha Hl Hc Hn;
    cbn [app] in *; apply Forall_cons in Hok as [Hok1 Hok2]; apply Forall_cons in Hl as [Hl1 Hl2];
    destruct Hc as [Hc1 Hc2]; destruct (Hc1 Hl1) as (b & Hg & Hst);
    rewrite fmap_cons; cbn [readChain]; rewrite (mdb_get_vget _ _ _ _ (keyrev_key_nonempty _) Hg).
  - destruct (stored_read item0 key above h b (kv_val item0) noval) as (item & E & Hi); auto.
    rewrite E. cbn. eauto.
  - destruct (stored_read item0 key above a b (kv_val item0) noval) as (item & E & Hi); auto.
    rewrite E. cbn [rbind isErr].
    destruct (IH (Some a) item) as (item' & E' & Hi'); auto.
    + by intros h' [= <-].
    + destruct noval; [by left|]. right. cbn [patchBase]. rewrite Hl1. cbn [andb].
      destruct (Z.eqb_spec (blen (h_val a)) 0) as [Ez|Ez]; [by left|]. right. cbn [negb].
      pose proof (is_val _ _ _ Hi) as Hv. destruct (kv_val item) as [x|]; cbn in *; [by subst|].
      by rewrite <- Hv in Ez.
    + exists item'. split; [done|]. destruct noval; [|done]. destruct Hi as [_ Hi], Hi' as [? Hi'].
      split; [done|congruence].
Qed.

(** ** Walking down to a revision *)

(** [skipNewer] on a history: the records passed since the last tombstone, and what
    is left. *)
Fixpoint walk (revision : Z) (keep : bool) (acc : list hrec) (hs : list hrec) : list hrec * list hrec :=
  match hs with
  | [] => (acc, [])
  | h :: hs' =>
      if newer revision h
      then walk revision keep (if isLive h then if keep then acc ++ [h] else acc else []) hs'
      else (acc, hs)
  end.

Lemma walk_rest revision keep acc hs : (walk revision keep acc hs).2 = dropNewer revision hs.
Proof. revert acc. induction hs as [|h hs IH]; intros acc; [done|]. cbn. by destruct (newer revision h). Qed.

Lemma walk_nokeep revision acc hs : acc = [] -> (walk revision false acc hs).1 = [].
Proof.
  revert acc. induction hs as [|h hs IH]; intros acc ->; [done|]. cbn.
  destruct (newer revision h); [|done]. apply IH. by destruct (isLive h).
Qed.

(** The records collected are a live segment just above what is left, which starts
    the history or follows a tombstone. *)
Definition segment (all acc rest : list hrec) : Prop :=
  exists pre, all = pre ++ acc ++ rest /\ Forall (fun h => isLive h = true) acc
    /\ patchBase (last pre) = None.

Lemma walk_segment revision all acc hs :
  segment all acc hs -> segment all (walk revision true acc hs).1 (walk revision true acc hs).2.
Proof.
  revert acc. induction hs as [|h hs IH]; intros acc Hs; [done|]. cbn.
  destruct (newer revision h); [|done]. apply IH.
  destruct Hs as (pre & -> & Hl & Hp). destruct (isLive h) eqn:E.
  - exists pre. rewrite <- !app_assoc. split; [done|]. split; [|done].
    apply Forall_app. split; [done|]. by constructor.
  - exists (pre ++ acc ++ [h]). rewrite <- !app_assoc. split; [done|]. split; [constructor|].
    rewrite !app_assoc, last_snoc. cbn. by rewrite E.
Qed.

Lemma skipNewer_ok fuel t c key pre h post krec revision keep acc :
  cur_dbi c = DbiRev -> cur_pos c = Some (key, recBytes key h) ->
  dups key (view t DbiRev) = recBytes key <$> (pre ++ h :: post) ->
  Forall hrec_ok (h :: post) -> kr_key krec = key -> kr_rev krec = h_rev h ->
  (length post < fuel)%nat ->
  exists c' krec', cur_dbi c' = DbiRev /\ kr_key krec' = key
    /\ (exists v, cur_pos c' = Some (key, v)) /\
    let w := walk revision keep acc (h :: post) in
    match w.2 with
    | h' :: _ =>
        skipNewer fuel t c krec revision keep (h_rev <$> acc) = Ok (c', krec', h_rev <$> w.1, None)
        /\ cur_pos c' = Some (key, recBytes key h') /\ kr_rev krec' = h_rev h'
    | [] =>
        skipNewer fuel t c krec revision keep (h_rev <$> acc)
        = Ok (c', krec', h_rev <$> w.1, Some ErrMdbNotFound)
    end.
Proof.
  revert c pre h krec acc fuel.
  induction post as [|h2 post IH]; intros c pre h krec acc fuel Hc Hp Hd Hok Hkk Hkr Hf;
    (destruct fuel as [|fuel]; [lia|]); cbn [skipNewer walk]; rewrite Hkr; fold (newer revision h);
    (destruct (newer revision h) eqn:En; [|exists c, krec; repeat split; by eauto]).
  - destruct (cur_nextDup t c key (recBytes key h) (recBytes key <$> pre) [])
      as (c' & Hc' & Hg & Hpos); [by rewrite Hc|done|by rewrite Hc, Hd, fmap_app|].
    rewrite Hg. exists c', krec. split; [congruence|]. split; [done|]. split; [eauto|]. cbn [snd fst].
    unfold isLive. destruct (keyrev_isdel (h_rev h)); cbn; [done|].
    destruct keep; [|done]. by rewrite fmap_app.
  - destruct (cur_nextDup t c key (recBytes key h) (recBytes key <$> pre) (recBytes key <$> (h2 :: post)))
      as (c' & Hc' & Hg & Hpos); [by rewrite Hc|done|by rewrite Hc, Hd, fmap_app|].
    rewrite Hg. apply Forall_cons in Hok as [Hok1 Hok2]. pose proof Hok2 as [Hok3 _]%Forall_cons.
    rewrite recBytes_decode by done.
    set (krec2 := mkKeyrecord _ _ _).
    edestruct (IH c' (pre ++ [h]) h2 krec2 (if isLive h then if keep then acc ++ [h] else acc else []) fuel)
      as (c'' & krec' & Hc'' & Hk'' & Hp'' & Hw); try done.
    { congruence. }
    { by rewrite <- app_assoc. }
    { cbn in Hf. lia. }
    exists c'', krec'. split; [done|]. split; [done|]. split; [done|].
    assert ((if keyrev_isdel (h_rev h) then [] else if keep then (h_rev <$> acc) ++ [h_rev h] else h_rev <$> acc)
            = h_rev <$> (if isLive h then if keep then acc ++ [h] else acc else [])) as ->.
    { unfold isLive. destruct (keyrev_isdel (h_rev h)); [done|]. cbn. destruct keep; [|done]. by rewrite fmap_app. }
    exact Hw.
Qed.

(** ** get, getRev *)

Lemma prev_ok t c key pre h below item :
  cur_dbi c = DbiRev -> cur_pos c = Some (key, recBytes key h) ->
  dups key (view t DbiRev) = recBytes key <$> (pre ++ h :: below) ->
  key_ok key -> Forall hrec_ok (h :: below) -> chain cfg key (view t DbiVal) (Some h) below ->
  (forall r, is_u64 r -> keyrev_isdel r = true -> vget (keyrev_key r) (view t DbiVal) = None) ->
  kvOr key (if isLive h then Some h else None) item ->
  exists prev err, dbKv_prev t c item = Ok (prev, err)
    /\ (err = None \/ err = Some ErrMdbNotFound)
    /\ kvOr key (match below with p :: _ => if isLive p then Some p else None | [] => None end) prev.
Proof.
  intros Hc Hp Hd Hk Hok Hch Ht Hi. apply Forall_cons in Hok as [Hh Hok]. unfold dbKv_prev.
  destruct (cur_nextDup t c key (recBytes key h) (recBytes key <$> pre) (recBytes key <$> below))
    as (c' & Hc' & Hg); [by rewrite Hc|done|by rewrite Hc, Hd, fmap_app|].
  destruct below as [|p below]; cbn [fmap list_fmap] in Hg; destruct Hg as [-> _]; cbn [snd].
  { exists kv_zero, (Some ErrMdbNotFound). repeat split. by right. }
  apply Forall_cons in Hok as [Hpok _]. rewrite recBytes_decode by done. cbn [kr_rev].
  rewrite mdb_get_ok by auto with go. destruct (isLive p) eqn:El.
  - destruct Hch as [Hst _]. destruct (Hst El) as (b & -> & Hb).
    destruct (stored_read kv_zero key (Some h) p b (kv_val item) false) as (prev & E & Hprev); auto.
    { by intros ? [= <-]. }
    { right. cbn [patchBase]. destruct (isLive h); cbn [andb] in *; [|by left].
      destruct (Z.eqb_spec (blen (h_val h)) 0) as [Ez|Ez]; [by left|]. right. cbn [negb].
      pose proof (is_val _ _ _ Hi) as Hv. destruct (kv_val item); cbn in *; [by subst|].
      by rewrite <- Hv in Ez. }
    rewrite E. exists prev, None. split; [done|]. split; [by left|done].
  - unfold isLive in El. apply negb_false_iff in El. rewrite Ht by (done || by apply hrec_rev_u64).
    exists kv_zero, (Some ErrMdbNotFound). repeat split. by right.
Qed.

Lemma getRev_ok fuel t M key revision withPrev :
  Rep cfg t M -> key <> [] -> (length (M key) <= fuel)%nat ->
  exists item prev, dbKv_getRev fuel t key revision withPrev = Ok (item, prev, None)
    /\ kvOr key (visible revision (M key)) item
    /\ kvOr key (if withPrev then prevOf revision (M key) else None) prev.
Proof.
  intros HR Hne Hf. unfold dbKv_getRev, getRevBody.
  destruct (cur_open_ok t DbiRev) as (c & -> & Hc & _).
  pose proof (rep_rev _ _ _ HR key) as Hd. pose proof (rep_ok _ _ _ HR key) as Hok.
  pose proof (rep_vals _ _ _ HR key) as Hch. pose proof (rep_key _ _ _ HR key) as Hkey.
  unfold visible, prevOf. destruct (M key) as [|h post] eqn:EH; cbn [fmap list_fmap] in Hd.
  - destruct (cur_seek_missing t c key) as (c' & _ & [->|(p & Hp & ->)]); [done|by rewrite Hc| |].
    + exists kv_zero, kv_zero. by destruct withPrev.
    + destruct p as [k v]. cbn [fst] in Hp. destruct (beqb_spec k key); [done|].
      exists kv_zero, kv_zero. by destruct withPrev.
  - destruct (cur_seek t c key (recBytes key h) (recBytes key <$> post)) as (c' & -> & Hc' & Hp);
      [done|by rewrite Hc|]. rewrite beqb_refl. cbn [negb].
    pose proof Hok as [Hh _]%Forall_cons. rewrite recBytes_decode by done.
    set (krec0 := mkKeyrecord _ _ _).
    destruct (skipNewer_ok fuel t c' key [] h post krec0 revision true [])
      as (c2 & krec & Hc2 & Hkk & _ & Hw); try done; [congruence|].
    pose proof (walk_rest revision true [] (h :: post)) as Hrest.
    destruct (walk_segment revision (h :: post) [] (h :: post)) as (pre & Hpre & Hlive & Hbase).
    { exists []. by repeat split. }
    cbn zeta in Hw. change (h_rev <$> []) with (@nil Z) in Hw. destruct (walk revision true [] (h :: post)) as [w1 w2]. cbn [fst snd] in *.
    subst w2. destruct (dropNewer revision (h :: post)) as [|h' below].
    { rewrite Hw. exists kv_zero, kv_zero. by destruct withPrev. }
    destruct Hw as (-> & Hpos & Hrev). rewrite Hrev.
    rewrite Hpre in Hok, Hch. apply Forall_app in Hok as [Hokp Hok].
    apply chain_app in Hch as [_ Hch].
    assert (key_ok key) as Hk by by apply Hkey.
    pose proof Hok as [Hok1 Hok2]%Forall_app.
    assert (chain cfg key (view t DbiVal) (Some h') below) as Hchb.
    { apply chain_app in Hch as [_ Hch]. by destruct Hch. }
    fold (isLive h'). replace (keyrev_isdel (h_rev h')) with (negb (isLive h'))
      by (unfold isLive; by rewrite negb_involutive).
    assert (forall item, kvOr key (if isLive h' then Some h' else None) item -> exists prev err,
      (if withPrev then dbKv_prev t c2 item else Ok (kv_zero, None)) = Ok (prev, err)
      /\ (err = None \/ err = Some ErrMdbNotFound)
      /\ kvOr key (if withPrev then match below with p :: _ => if isLive p then Some p else None
                                                   | [] => None end else None) prev) as Hprev.
    { intros item Hi. destruct withPrev; [|exists kv_zero, None; repeat split; by left].
      eapply (prev_ok t c2 key (pre ++ w1) h' below); eauto.
      - by rewrite Hd, <- app_assoc, <- Hpre.
      - apply HR. }
    destruct (isLive h') eqn:El; cbn [negb].
    + destruct (readChain_ok t key w1 h' (last pre) kv_zero false) as (item & Hread & Hitem); auto.
      * apply Forall_app. split; [done|]. constructor; [|done]. by apply Forall_cons in Hok2 as [? _].
      * intros x Hx. apply last_Some in Hx as [l ->]. apply Forall_app in Hokp as [_ Hx].
        by apply Forall_cons in Hx as [? _].
      * apply Forall_app. split; [done|]. by constructor.
      * apply chain_app in Hch as [Ha Hb]. apply chain_app. destruct (last pre); cbn [chain] in Hb |- *;
          tauto.
      * rewrite fmap_app in Hread. cbn [fmap list_fmap] in Hread. rewrite Hread. cbn [rbind isErr].
        destruct (Hprev item Hitem) as (prev & err & Ep & Herr & Hpv). exists item, prev.
        destruct withPrev; [rewrite Ep|apply Ok_inj in Ep; simplify_eq]; cbn [rbind];
          (split; [done || by destruct Herr as [-> | ->]|done]).
    + destruct (Hprev kv_zero eq_refl) as (prev & err & Ep & Herr & Hpv). exists kv_zero, prev.
      destruct withPrev; [rewrite Ep|apply Ok_inj in Ep; simplify_eq]; cbn [rbind];
        (split; [done || by destruct Herr as [-> | ->]|done]).
Qed.

End Reads.
