(* ===== verification/DbKvWrite.v ===== *)
(** * Writes of the store implement the history (src/db_kv.go: put) *)

From S2P Require Import Prelude Types GoBinary Patch Kv Mdb MdbFacts Db DbKv History DbKvRead.

(** The stored event of a write: epoch and key under the write's revision. *)
Definition evtBytes (rev epoch : Z) (key : bytes) : bytes :=
  addChecksum (keyrev_key rev) (AppendUvarint [] epoch ++ key).

Lemma keyrev_key_inj a b : is_u64 a -> is_u64 b -> keyrev_key a = keyrev_key b -> a = b.
Proof. intros Ha Hb. apply be8_inj; done. Qed.

Lemma keyrev_key_blen kr : blen (keyrev_key kr) = 8.
Proof.
  unfold keyrev_key, keyrev_appendbytes, AppendUint64. by rewrite blen_app, blen_be_put, blen_nil.
Qed.

(** ** What the key-length limit buys: every entry fits LMDB's limits. *)

Lemma key_fits key : key_ok key -> keyFits key.
Proof. unfold key_ok, keyFits, maxKeySize, PCB_LIMIT_KEY_LENGTH. lia. Qed.

Lemma revKey_fits kr : keyFits (keyrev_key kr).
Proof. unfold keyFits, maxKeySize. rewrite keyrev_key_blen. lia. Qed.

Lemma rec_entryFits key kr : key_ok key -> entryFits DbiRev key (keyrecord_Bytes kr []).
Proof.
  intros Hk. split; [by apply key_fits|]. intros _. unfold maxKeySize.
  pose proof (keyrecord_Bytes_blen kr). lia.
Qed.

Lemma val_entryFits kr b : entryFits DbiVal (keyrev_key kr) b.
Proof. split; [apply revKey_fits|done]. Qed.

Lemma evt_entryFits rev epoch key : key_ok key -> entryFits DbiEvt (keyrev_key rev) (evtBytes rev epoch key).
Proof.
  intros Hk. split; [apply revKey_fits|]. intros _.
  unfold evtBytes, addChecksum, AppendUint32, AppendUvarint, maxKeySize. rewrite !blen_app, blen_be_put, blen_nil.
  pose proof (uvarint_length epoch). unfold key_ok, PCB_LIMIT_KEY_LENGTH in Hk. lia.
Qed.

#[export] Hint Resolve key_fits revKey_fits rec_entryFits val_entryFits evt_entryFits : go.

Section Writes.
Context (cfg : config) `{DifferOk} `{SnappyOk} `{MdbOk}.

(** Encoding looks only at what a read returns. *)
Lemma kv_Bytes_kvIs key h item n :
  kvIs key h item -> kv_Bytes cfg item n [] = kv_Bytes cfg (kvOf key h) n [].
Proof.
  intros [Hr Hv Hc Hl Hk Hval]. unfold kv_Bytes, kv_pack. cbn [kvOf kv_rev kv_version kv_created kv_lease kv_key kv_val].
  by rewrite Hr, Hv, Hc, Hl, Hk, Hval.
Qed.

Lemma chain_ext key vals vals' above hs :
  (forall h, h ∈ hs -> isLive h = true -> vget (keyrev_key (h_rev h)) vals' = vget (keyrev_key (h_rev h)) vals) ->
  chain cfg key vals above hs -> chain cfg key vals' above hs.
Proof.
  revert above. induction hs as [|h hs IH]; intros above Heq; [done|]. intros [Hh Hc]. split.
  - intros Hl. rewrite Heq by (done || constructor). auto.
  - apply IH; [|done]. intros h' Hin. apply Heq. by constructor.
Qed.

(** ** Adding a record on top of a key *)

Lemma hset_same M key hs : hset M key hs key = hs.
Proof. unfold hset. by rewrite decide_True. Qed.

Lemma hset_other M key hs k : k <> key -> hset M key hs k = M k.
Proof. intros. unfold hset. by rewrite decide_False. Qed.

Lemma Rep_push t t' M key new :
  Rep cfg t M -> key_ok key -> hrec_ok new ->
  (forall h, h ∈ M key -> h_rev h < h_rev new) ->
  (isLive new = true -> forall k h, h ∈ M k -> h_rev h <> h_rev new) ->
  view t' DbiRev = vput true key (recBytes key new) (view t DbiRev) ->
  chain cfg key (view t' DbiVal) None (new :: M key) ->
  (forall k h, k <> key -> h ∈ M k -> isLive h = true ->
     vget (keyrev_key (h_rev h)) (view t' DbiVal) = vget (keyrev_key (h_rev h)) (view t DbiVal)) ->
  (forall r, is_u64 r -> keyrev_isdel r = true -> vget (keyrev_key r) (view t' DbiVal) = None) ->
  Rep cfg t' (hset M key (new :: M key)).
Proof.
  intros HR Hk Hnew Hlt Huniq HvR Hch Hoth Htomb.
  split; [intros k|intros k|intros k|intros k|intros k|done|];
    [destruct (decide (k = key)) as [->|Hne];
       rewrite ?hset_same, ?(hset_other M key (new :: M key) k Hne); try done; try apply HR..|].
  - rewrite HvR, dups_vput_first, (rep_rev _ _ _ HR); [done|apply (view_sorted t DbiRev)|].
    rewrite (rep_rev _ _ _ HR). apply Forall_forall. intros b (h & -> & Hh)%list_elem_of_fmap.
    assert (hrec_ok h) as Hok. { pose proof (rep_ok _ _ _ HR key) as Hf. by eapply Forall_forall in Hf. }
    apply keyrecord_Bytes_lt; cbn; [by apply hrec_rev_u64..|auto].
  - rewrite HvR, dups_vput_ne by done. apply HR.
  - constructor; [done|apply HR].
  - constructor; [apply HR|]. apply Forall_forall. intros h Hh. apply Hlt, Hh.
  - apply chain_ext with (vals := view t DbiVal); [|apply HR]. eauto.
  - intros k k2 h1 h2 Hi1 Hi2 Hl He.
    destruct (decide (k = key)) as [->|Hn1]; [rewrite hset_same in Hi1|rewrite hset_other in Hi1 by done];
      (destruct (decide (k2 = key)) as [->|Hn2]; [rewrite hset_same in Hi2|rewrite hset_other in Hi2 by done]);
      try done.
    + apply elem_of_cons in Hi1 as [->|Hi1]; [|by eapply (rep_unique _ _ _ HR)].
      by destruct (Huniq Hl k2 h2 Hi2).
    + apply elem_of_cons in Hi2 as [->|Hi2]; [|by eapply (rep_unique _ _ _ HR)].
      destruct (Huniq) with (k := k) (h := h1); [|done|done].
      unfold isLive in *. by rewrite <- He.
    + by eapply (rep_unique _ _ _ HR).
Qed.

(** ** put *)

Lemma kvWrite_ok t krec next epoch key b :
  key_ok key -> kv_Bytes cfg next None [] = Ok b ->
  exists t', kvWrite cfg t krec next epoch key = Ok t' /\
    forall d, view t' d =
      match d with
      | DbiRev => vput true key (keyrecord_Bytes krec []) (view t DbiRev)
      | DbiVal => vput false (keyrev_key (kr_rev krec)) b (view t DbiVal)
      | DbiEvt => vput true (keyrev_key (kr_rev krec)) (evtBytes (kr_rev krec) epoch key) (view t DbiEvt)
      | _ => view t d
      end.
Proof.
  intros Hk Hb. unfold kvWrite.
  destruct (mdb_put_ok t DbiRev key (keyrecord_Bytes krec [])) as (t1 & -> & V1); [auto with go|].
  cbn [rbind]. rewrite Hb. cbn [rbind].
  destruct (mdb_put_ok t1 DbiVal (keyrev_key (kr_rev krec)) b) as (t2 & -> & V2); [auto with go|].
  cbn [rbind].
  change (addChecksum _ (AppendUvarint [] epoch ++ key)) with (evtBytes (kr_rev krec) epoch key).
  destruct (mdb_put_ok t2 DbiEvt (keyrev_key (kr_rev krec)) (evtBytes (kr_rev krec) epoch key))
    as (t3 & -> & V3); [auto with go|].
  exists t3. split; [done|]. intros d. rewrite V3, !V2, !V1. by destruct d.
Qed.

(** What [put] reads of the key: its newest record. *)
Lemma put_lookup t M key c :
  Rep cfg t M -> key <> [] -> cur_dbi c = DbiRev ->
  exists c' r, cur_get t c key SetRange = (c', r) /\
    match r with
    | Ok (k, b) => if beqb k key then keyrecord_FromBytes keyrecord_zero k b else Ok keyrecord_zero
    | Err ErrMdbNotFound => Ok keyrecord_zero
    | Err e => Err e
    | Panic => Panic
    | NoFuel => NoFuel
    end =
    Ok (match M key with
        | [] => keyrecord_zero
        | h :: _ => mkKeyrecord key (h_rev h) (if isLive h then h_klease h else 0)
        end).
Proof.
  intros HR Hne Hc. pose proof (rep_rev _ _ _ HR key) as Hd. pose proof (rep_ok _ _ _ HR key) as Hok.
  destruct (M key) as [|h hs]; cbn [fmap list_fmap] in Hd.
  - destruct (cur_seek_missing t c key) as (c' & _ & [->|(p & Hp & ->)]); [done|by rewrite Hc| |].
    + by exists c', (Err ErrMdbNotFound).
    + exists c', (Ok p). split; [done|]. destruct p as [k v]. cbn [fst] in Hp.
      by destruct (beqb_spec k key).
  - destruct (cur_seek t c key (recBytes key h) (recBytes key <$> hs)) as (c' & -> & _ & _);
      [done|by rewrite Hc|].
    exists c', (Ok (key, recBytes key h)). split; [done|]. rewrite beqb_refl.
    apply Forall_cons in Hok as [Hh _]. by rewrite recBytes_decode.
Qed.

(** The arguments of [put] as the commands pass them. A request that keeps the
    stored value carries none, and an absent value is nil. *)
Record put_args (rev subrev lease : Z) (key : bytes) (val : nslice) (ignoreValue : bool) : Prop := {
  pa_key : key_ok key;
  pa_rev : keyrev_ok rev subrev;
  pa_pos : 0 < rev;
  pa_lease : is_u64 lease;
  pa_val : small (sbytes val);
  pa_nil : val <> Some [];
  pa_ignore : ignoreValue = true -> val = None
}.

Lemma putRec_ok rev subrev lease key val iv il hs :
  put_args rev subrev lease key val iv -> Forall hrec_ok hs ->
  hrec_ok (putRec rev subrev lease val iv il hs)
  /\ h_rev (putRec rev subrev lease val iv il hs) = newkeyrev rev subrev false
  /\ isLive (putRec rev subrev lease val iv il hs) = true.
Proof.
  intros [Hk Hr Hp Hl Hv _ _] Hok.
  assert (exists u l d, keyrev_ok u l /\ 0 < u /\ newkeyrev rev subrev false = newkeyrev u l d) as He by eauto 10.
  assert (is_u64 rev) as Hr64 by (unfold keyrev_ok, is_u64 in *; lia).
  assert (is_u64 1) by (unfold is_u64; lia).
  unfold isLive, putRec. destruct hs as [|h hs]; [|destruct (isLive h)]; cbn [h_rev];
    rewrite keyrev_isdel_new by done; (split; [|done]); split; cbn; auto with go.
  - apply Forall_cons in Hok as [Hh _]. apply Hh.
  - apply Forall_cons in Hok as [Hh _]. destruct il; [apply Hh|done].
  - apply Forall_cons in Hok as [Hh _]. destruct iv; [apply Hh|done].
Qed.

(** The tables a write of [key] at [rev] touches besides records and values. *)
Definition others (t t' : txn) (rev epoch : Z) (key : bytes) : Prop :=
  view t' DbiEvt = vput true (keyrev_key rev) (evtBytes rev epoch key) (view t DbiEvt)
  /\ forall d, d <> DbiRev -> d <> DbiVal -> d <> DbiEvt -> view t' d = view t d.

Lemma visible_now hs :
  visible 0 hs = match hs with h :: _ => if isLive h then Some h else None | [] => None end.
Proof. by destruct hs. Qed.

(** A record on top that is newer than [r] does not change what [r] sees. *)
Lemma visible_push r u l d h hs :
  keyrev_ok u l -> 0 < r < u -> h_rev h = newkeyrev u l d -> visible r (h :: hs) = visible r hs.
Proof.
  intros Hok Hr Hh. unfold visible. cbn [dropNewer]. unfold newer. rewrite Hh, keyrev_upper_new by done.
  zcases; try lia. done.
Qed.

(** The writes that end a [put] add its record, whether or not the value below was
    rewritten as a patch before. *)
Lemma put_finish t t0 M key new next krec epoch :
  Rep cfg t M -> key_ok key -> hrec_ok new -> isLive new = true ->
  (forall k h, h ∈ M k -> h_rev h < h_rev new) ->
  kvIs key new next -> krec = recOf key new ->
  (forall d, d <> DbiVal -> view t0 d = view t d) ->
  (forall r, is_u64 r -> (forall h, head (M key) = Some h -> isLive h = true -> r <> h_rev h) ->
     vget (keyrev_key r) (view t0 DbiVal) = vget (keyrev_key r) (view t DbiVal)) ->
  (forall h, head (M key) = Some h -> isLive h = true ->
     exists b, vget (keyrev_key (h_rev h)) (view t0 DbiVal) = Some b /\ stored cfg key (Some new) h b) ->
  exists t', kvWrite cfg t0 krec next epoch key = Ok t'
    /\ Rep cfg t' (hset M key (new :: M key)) /\ others t t' (h_rev new) epoch key.
Proof.
  intros HR Hk Hnew Hl Hlt Hnext -> Hv0 Hget Hhead.
  destruct (kv_Bytes_total cfg (kvOf key new) None) as (b & Hb & _); [auto with go|done| |].
  { unfold isLive in Hl. by apply negb_true_iff in Hl. }
  destruct (kvWrite_ok t0 (recOf key new) next epoch key b Hk) as (t' & E & V).
  { by rewrite (kv_Bytes_kvIs key new). }
  exists t'. split; [done|].
  assert (forall k h, h ∈ M k -> is_u64 (h_rev h)) as Hu64.
  { intros k h Hh. pose proof (rep_ok _ _ _ HR k) as Hf. eapply Forall_forall in Hf; [|exact Hh].
    by apply hrec_rev_u64. }
  assert (forall r, is_u64 r -> r <> h_rev new -> (forall h, head (M key) = Some h -> isLive h = true -> r <> h_rev h) ->
    vget (keyrev_key r) (view t' DbiVal) = vget (keyrev_key r) (view t DbiVal)) as Hvals.
  { intros r Hr Hne Hh. rewrite (V DbiVal), vget_vput_ne; [by apply Hget|].
    intros E'%keyrev_key_inj; [done|done|by apply hrec_rev_u64]. }
  split.
  - apply (Rep_push t t' M key new); auto.
    + intros h Hh. by apply (Hlt key).
    + intros _ k h Hh. specialize (Hlt k h Hh). lia.
    + by rewrite (V DbiRev), Hv0.
    + split.
      * intros _. exists b. split; [|exists None; auto].
        rewrite (V DbiVal). apply vget_vput_eq. apply (view_sorted t0 DbiVal).
      * pose proof (rep_vals _ _ _ HR key) as Hc. pose proof (rep_sorted _ _ _ HR key) as Hs.
        pose proof (Hlt key) as Hltk. pose proof (Hu64 key) as Hu64k.
        destruct (M key) as [|h hs]; [done|]. destruct Hc as [_ Hc]. split.
        -- intros Hlh. destruct (Hhead h eq_refl Hlh) as (b' & Hg & Hst). exists b'. split; [|done].
           rewrite (V DbiVal), vget_vput_ne; [done|].
           assert (h_rev h < h_rev new) by (apply Hltk; constructor).
           intros E'%keyrev_key_inj; [cbn in E'; lia|apply Hu64k; constructor|by apply hrec_rev_u64].
        -- eapply chain_ext; [|exact Hc]. intros h' Hh' _.
           apply StronglySorted_inv in Hs as [_ Hs]. eapply Forall_forall in Hs; [|exact Hh'].
           unfold newestFirst in Hs. assert (h' ∈ h :: hs) by by constructor.
           assert (h_rev h' < h_rev new) by auto. apply Hvals; [by apply Hu64k|lia|].
           cbn. intros ? [= <-] _. lia.
    + intros k h Hne Hh Hlh. apply Hvals; [by eapply Hu64|specialize (Hlt k h Hh); lia|].
      intros h' Hh' Hl' E'. apply head_Some in Hh' as [l Hl0].
      apply Hne. symmetry. eapply (rep_unique _ _ _ HR key k h' h); auto. rewrite Hl0. constructor.
    + intros r Hr Hd. rewrite Hvals; [by apply HR|done| |].
      * intros ->. unfold isLive in Hl. by rewrite Hd in Hl.
      * intros h _ Hlh ->. unfold isLive in Hlh. by rewrite Hd in Hlh.
  - split; [by rewrite (V DbiEvt), Hv0|]. intros d ? ? ?. rewrite V. destruct d; try done; by apply Hv0.
Qed.

(** The value below a [put] is rewritten as a patch when that is shorter. *)
Lemma put_repatch t key h prev new v val :
  key_ok key -> hrec_ok h -> isLive h = true -> kvIs key h prev -> small (sbytes val) ->
  (val = None \/ val = patchBase (Some new)) ->
  vget (keyrev_key (h_rev h)) (view t DbiVal) = Some v -> stored cfg key None h v ->
  exists t0 patched,
    (if PCB_PATCH_ENABLED cfg && negb (keyrev_isdel (h_rev h)) then
       let! buf := kv_Bytes cfg prev val [] in
       if blen buf <? blen v
       then let! t := mdb_put t DbiVal (keyrev_key (kv_rev prev)) buf in Ok (t, true)
       else Ok (t, false)
     else Ok (t, false)) = Ok (t0, patched)
    /\ (forall d, d <> DbiVal -> view t0 d = view t d)
    /\ (forall r, is_u64 r -> r <> h_rev h ->
          vget (keyrev_key r) (view t0 DbiVal) = vget (keyrev_key r) (view t DbiVal))
    /\ exists b, vget (keyrev_key (h_rev h)) (view t0 DbiVal) = Some b /\ stored cfg key (Some new) h b.
Proof.
  intros Hk Hh Hl Hp Hv Hval Hg Hst.
  assert (stored cfg key (Some new) h v) as Hst'.
  { destruct Hst as (n & Hn & Hb). exists n. split; [|done]. left. by destruct Hn. }
  assert (exists t0 patched, Ok (t, false) = Ok (t0, patched)
    /\ (forall d, d <> DbiVal -> view t0 d = view t d)
    /\ (forall r, is_u64 r -> r <> h_rev h ->
          vget (keyrev_key r) (view t0 DbiVal) = vget (keyrev_key r) (view t DbiVal))
    /\ exists b, vget (keyrev_key (h_rev h)) (view t0 DbiVal) = Some b /\ stored cfg key (Some new) h b)
    as Hkeep by (exists t, false; eauto 10).
  destruct (PCB_PATCH_ENABLED cfg && negb (keyrev_isdel (h_rev h))); [|exact Hkeep].
  destruct (kv_Bytes_total cfg (kvOf key h) val) as (buf & Hb & _); [auto with go|done| |].
  { unfold isLive in Hl. by apply negb_true_iff in Hl. }
  rewrite (kv_Bytes_kvIs key h), Hb by done. cbn [rbind].
  destruct (blen buf <? blen v); [|exact Hkeep]. rewrite (is_rev _ _ _ Hp).
  destruct (mdb_put_ok t DbiVal (keyrev_key (h_rev h)) buf) as (t0 & -> & V); [auto with go|].
  exists t0, true. split; [done|]. split; [|split].
  - intros d Hd. rewrite V. by rewrite decide_False.
  - intros r Hr Hne. rewrite V, decide_True, vget_vput_ne by
      (done || (intros E%keyrev_key_inj; [done|done|by apply hrec_rev_u64])). done.
  - exists buf. rewrite V, decide_True by done.
    split; [by apply vget_vput_eq, (view_sorted t DbiVal)|]. exists val. by split.
Qed.

(** A key with no live record gets a first version. *)
Lemma put_fresh t M rev subrev lease epoch key val iv il :
  Rep cfg t M -> fresh M rev subrev -> put_args rev subrev lease key val iv ->
  visible 0 (M key) = None ->
  let new := putRec rev subrev lease val iv il (M key) in
  let next := mkKv (newkeyrev rev subrev false) 1 rev lease 0 key val in
  exists t', kvWrite cfg t (mkKeyrecord key (kv_rev next) lease) next epoch key = Ok t'
    /\ Rep cfg t' (hset M key (new :: M key))
    /\ kvIs key new next /\ others t t' (newkeyrev rev subrev false) epoch key.
Proof.
  intros HR Hfr Ha Hvis new next.
  destruct (putRec_ok rev subrev lease key val iv il (M key) Ha (rep_ok _ _ _ HR key)) as (Hnew & Hnr & Hnl).
  fold new in Hnew, Hnr, Hnl. rewrite visible_now in Hvis.
  assert (new = mkHrec (newkeyrev rev subrev false) lease 1 rev lease (sbytes val)) as En.
  { unfold new, putRec. destruct (M key) as [|h hs]; [done|]. by destruct (isLive h). }
  destruct (put_finish t t M key new next (mkKeyrecord key (kv_rev next) lease) epoch)
    as (t' & E & HR' & Ho); auto; try (rewrite En; by split).
  - apply Ha.
  - rewrite Hnr. exact Hfr.
  - intros h Eh Hl. destruct (M key); [done|]. injection Eh as ->. by rewrite Hl in Hvis.
  - exists t'. rewrite <- Hnr. repeat (split; [done|]). split; [rewrite En; by split|done].
Qed.

Lemma put_ok t M rev subrev lease epoch key val iv il :
  Rep cfg t M -> fresh M rev subrev -> put_args rev subrev lease key val iv ->
  (forall h, head (M key) = Some h -> isLive h = true ->
     keyrev_upper (h_rev h) <> rev \/ PCB_TXN_MULTI_WRITE_ENABLED cfg = true) ->
  let new := putRec rev subrev lease val iv il (M key) in
  exists t' prev next patched,
    dbKv_put cfg t rev subrev lease epoch key val iv il = Ok (t', (prev, next, patched))
    /\ Rep cfg t' (hset M key (new :: M key))
    /\ kvOr key (visible 0 (M key)) prev /\ kvIs key new next
    /\ others t t' (newkeyrev rev subrev false) epoch key.
Proof.
  intros HR Hfr Ha Hdup new. pose proof (pa_key _ _ _ _ _ _ Ha) as Hk.
  pose proof (rep_ok _ _ _ HR key) as Hok. pose proof (rep_vals _ _ _ HR key) as Hch.
  pose proof (put_fresh t M rev subrev lease epoch key val iv il HR Hfr Ha) as Hfresh.
  destruct (putRec_ok rev subrev lease key val iv il (M key) Ha Hok) as (Hnew & Hnr & Hnl).
  fold new in Hnew, Hnr, Hnl, Hfresh.
  unfold dbKv_put. pose proof Hk as [Hk1 Hk2]. unfold PCB_LIMIT_KEY_LENGTH in *.
  destruct (Z.eqb_spec (blen key) 0); [lia|]. destruct (Z.ltb_spec 480 (blen key)); [lia|].
  destruct (cur_open_ok t DbiRev) as (c & -> & Hc & _). cbn [rbind].
  destruct (put_lookup t M key c HR) as (c' & r & -> & ->); [auto with go|done|]. cbn [rbind].
  rewrite visible_now in *. destruct (M key) as [|h hs] eqn:EM; cbn [kr_rev keyrecord_zero].
  { destruct (Hfresh eq_refl) as (t' & E & HR' & Hn & Ho). cbn [Z.eqb orb]. rewrite E. cbn [rbind].
    do 4 eexists. repeat (split; [done|]). done. }
  pose proof Hok as [Hh _]%Forall_cons. pose proof (hrec_rev_u64 h Hh) as [Hu Hpos].
  destruct (Z.eqb_spec (h_rev h) 0) as [|_]; [lia|]. cbn [orb].
  destruct (keyrev_isdel (h_rev h)) eqn:Ed.
  { assert (isLive h = false) as Hl by (unfold isLive; by rewrite Ed). rewrite Hl in *.
    destruct (Hfresh eq_refl) as (t' & E & HR' & Hn & Ho). rewrite E. cbn [rbind].
    do 4 eexists. repeat (split; [done|]). done. }
  assert (isLive h = true) as Hl by (unfold isLive; by rewrite Ed). rewrite Hl in *.
  destruct ((keyrev_upper (h_rev h) =? rev) && negb (PCB_TXN_MULTI_WRITE_ENABLED cfg)) eqn:Eg.
  { apply andb_true_iff in Eg as [E1%Z.eqb_eq E2%negb_true_iff]. destruct (Hdup h eq_refl Hl); congruence. }
  destruct Hch as [Hst _]. destruct (Hst Hl) as (v & Hg & Hstv).
  rewrite (mdb_get_vget _ _ _ _ (keyrev_key_nonempty _) Hg). cbn [rbind].
  destruct (stored_read cfg kv_zero key None h v None false) as (prev & -> & Hprev); auto; [done|].
  cbn [rbind].
  destruct (put_repatch t key h prev new v val) as (t0 & patched & Ep & V0 & Hget & Hhd); auto.
  { apply Ha. }
  { destruct val as [x|]; [|by left]. right. unfold new, putRec, patchBase. rewrite Hl.
    pose proof (pa_nil _ _ _ _ _ _ Ha) as Hx. pose proof (pa_ignore _ _ _ _ _ _ Ha) as Hi.
    destruct iv; [by specialize (Hi eq_refl)|]. cbn [h_rev h_val]. change (sbytes (Some x)) with x.
    unfold isLive. cbn [h_rev]. rewrite keyrev_isdel_new by apply Ha.
    cbn [negb andb].
    by destruct (Z.eqb_spec (blen x) 0) as [->%blen_zero_inv|]. }
  rewrite Ed in Ep. rewrite Ep. cbn [rbind].
  assert (new = mkHrec (newkeyrev rev subrev false) lease (u64 (h_version h + 1)) (h_created h)
            (if il then h_lease h else lease) (if iv then h_val h else sbytes val)) as En
    by (unfold new, putRec; by rewrite Hl).
  set (next := mkKv _ _ _ _ _ _ _).
  assert (kvIs key new next) as Hnext.
  { rewrite En. destruct Hprev as [_ Pv Pc Pl _ Pval]. split; cbn; try done.
    - by rewrite Pv.
    - by destruct il.
    - by destruct iv. }
  destruct (put_finish t t0 M key new next (mkKeyrecord key (kv_rev next) lease) epoch)
    as (t' & -> & HR' & Ho); auto; rewrite ?EM; cbn [head].
  - rewrite Hnr. exact Hfr.
  - by rewrite En.
  - intros r' Hr' Hne. apply Hget; [done|]. by apply (Hne h).
  - by intros h' [= <-].
  - cbn [rbind]. exists t', prev, next, patched. rewrite EM in HR'. by rewrite <- Hnr.
Qed.

End Writes.
