(* ===== verification/DbKvRange.v ===== *)
(** * Range reads implement the history (src/db_kv.go: getRange) *)

From stdpp Require Import sorting.
From S2P Require Import Prelude Types GoBinary Patch Kv Mdb MdbFacts MdbKeys Db DbKv History DbKvRead.

(** ** Specification on histories *)

Definition fullScan (rq : rangeReq) : bool :=
  beqb (rq_key rq) [Zb 0] && beqb (rq_end rq) [Zb 0].

(** Keys at or after [key] the range covers. *)
Definition covers (rq : rangeReq) (k : bytes) : bool :=
  fullScan rq || (if blen (rq_end rq) =? 0 then beqb k (rq_key rq) else bltb k (rq_end rq)).

Definition modOk (rq : rangeReq) (h : hrec) : bool :=
  negb ((0 <? rq_minMod rq) && (keyrev_upper (h_rev h) <? rq_minMod rq))
  && negb ((0 <? rq_maxMod rq) && (rq_maxMod rq <? keyrev_upper (h_rev h))).

Definition createdOk (rq : rangeReq) (h : hrec) : bool :=
  negb (((0 <? rq_minCreated rq) && (h_created h <? rq_minCreated rq))
        || ((0 <? rq_maxCreated rq) && (rq_maxCreated rq <? h_created h))).

(** The record of a key a range request selects before the filter on creation. *)
Definition selected (rq : rangeReq) (hs : list hrec) : option hrec :=
  match visible (rq_revision rq) hs with
  | Some h => if modOk rq h then Some h else None
  | None => None
  end.

Record rangeAcc : Type := mkRangeAcc {
  ra_items : list (bytes * hrec); ra_count : Z; ra_more : bool; ra_countOnly : bool
}.

(** One key: the new accumulator, and whether the scan stops there. *)
Definition rangeKey (cfg : config) (rq : rangeReq) (k : bytes) (hs : list hrec) (a : rangeAcc)
  : rangeAcc * bool :=
  let full := negb (ra_countOnly a) && (0 <? rq_limit rq)
              && (blen (ra_items a) =? i64 (rq_limit rq)) in
  if full && negb (PCB_RANGE_COUNT_FULL cfg) && negb (PCB_RANGE_COUNT_FAKE cfg)
  then (mkRangeAcc (ra_items a) (ra_count a) true (ra_countOnly a), true)
  else
  let more := ra_more a || full in
  let countOnly := ra_countOnly a || full in
  match selected rq hs with
  | None => (mkRangeAcc (ra_items a) (ra_count a) more countOnly, false)
  | Some h =>
      if countOnly
      then (mkRangeAcc (ra_items a) (ra_count a + 1) more countOnly, PCB_RANGE_COUNT_FAKE cfg)
      else if createdOk rq h
      then (mkRangeAcc (ra_items a ++ [(k, h)]) (ra_count a + 1) more countOnly, false)
      else (mkRangeAcc (ra_items a) (ra_count a) more countOnly, false)
  end.

Fixpoint rangeSpec (cfg : config) (rq : rangeReq) (M : history) (ks : list bytes) (a : rangeAcc)
  : rangeAcc :=
  match ks with
  | [] => a
  | k :: ks =>
      if covers rq k then
        let '(a, stop) := rangeKey cfg rq k (M k) a in
        if stop || (blen (rq_end rq) =? 0) then a else rangeSpec cfg rq M ks a
      else a
  end.

(** The answer to a request on the sorted keys [ks]: the selected record of every key
    the range covers. *)
Definition answerKey (rq : rangeReq) (M : history) (k : bytes) : option (bytes * hrec) :=
  match selected rq (M k) with
  | Some h => if createdOk rq h then Some (k, h) else None
  | None => None
  end.

Definition rangeKeys (rq : rangeReq) (ks : list bytes) : list bytes :=
  filter (fun k => covers rq k = true) (filter (fun k => ~ blt k (rq_key rq)) ks).

Definition answer (rq : rangeReq) (M : history) (ks : list bytes) : list (bytes * hrec) :=
  omap (answerKey rq M) (rangeKeys rq ks).

(** What a range read returns for a record. *)
Definition rangeItem (keysOnly : bool) (p : bytes * hrec) (item : kv) : Prop :=
  if keysOnly then kvIsKey p.1 p.2 item /\ kv_val item = None else kvIs p.1 p.2 item.

Definition accRel (rq : rangeReq) (a : rangeAcc) (s : rangeState) : Prop :=
  Forall2 (rangeItem (rq_keysOnly rq)) (ra_items a) (rs_items s)
  /\ rs_count s = ra_count a /\ rs_more s = ra_more a /\ rs_countOnly s = ra_countOnly a.

Section Range.
Context (cfg : config) `{DifferOk} `{SnappyOk} `{MdbOk}.

Lemma rangeBody_ok fuel t M c rq k h post a s :
  Rep cfg t M -> M k = h :: post ->
  cur_dbi c = DbiRev -> cur_pos c = Some (k, recBytes k h) -> accRel rq a s ->
  (length (M k) <= fuel)%nat ->
  let '(a', stop) := rangeKey cfg rq k (M k) a in
  exists st s', rangeBody cfg fuel t c rq k (recBytes k h) s = Ok st /\ accRel rq a' s'
    /\ if stop then st = RangeBreak s'
       else exists c', st = RangeNext c' s' /\ cur_dbi c' = DbiRev /\ exists v, cur_pos c' = Some (k, v).
Proof.
  intros HR HM Hc Hp (Ri & Rc & Rm & Ro) Hf.
  pose proof (rep_rev _ _ _ HR k) as Hd. pose proof (rep_ok _ _ _ HR k) as Hok.
  pose proof (rep_vals _ _ _ HR k) as Hch.
  assert (key_ok k) as Hk by (apply (rep_key _ _ _ HR); by rewrite HM).
  rewrite HM in *. unfold rangeBody, rangeKey, selected, visible.
  pose proof Hok as [Hh _]%Forall_cons. rewrite recBytes_decode by done. cbn [rbind].
  assert (blen (rs_items s) = blen (ra_items a)) as -> by (unfold blen; by rewrite (Forall2_length _ _ _ Ri)).
  rewrite Ro. set (full := negb (ra_countOnly a) && _ && _).
  destruct (full && _ && _).
  { eexists _, _. split; [done|]. split; [|done]. by split. }
  set (krec0 := mkKeyrecord _ _ _). set (countOnly := ra_countOnly a || full).
  destruct (skipNewer_ok fuel t c k [] h post krec0 (rq_revision rq) (negb countOnly) [])
    as (c2 & krec & Hc2 & Hkk & Hpos2 & Hw); try done.
  pose proof (walk_rest (rq_revision rq) (negb countOnly) [] (h :: post)) as Hrest.
  pose proof (walk_segment (rq_revision rq) (h :: post) [] (h :: post)) as Hseg.
  cbn zeta in Hw. change (h_rev <$> []) with (@nil Z) in Hw. rewrite Hrest in Hw.
  destruct (dropNewer (rq_revision rq) (h :: post)) as [|h' below].
  { rewrite Hw. cbn [rbind]. eexists _, _. split; [done|]. split; [|by eauto].
    split; [done|]. by rewrite Rm. }
  destruct Hw as (-> & Hpos & Hrev). cbn [rbind]. rewrite Hrev.
  set (low := (0 <? rq_minMod rq) && _). set (high := (0 <? rq_maxMod rq) && _).
  assert (modOk rq h' = negb low && negb high) as Em by done.
  set (skipSt := RangeNext c2 _).
  assert (exists s', skipSt = RangeNext c2 s'
            /\ accRel rq (mkRangeAcc (ra_items a) (ra_count a) (ra_more a || full) countOnly) s') as (s1 & Es & Rs).
  { eexists. split; [done|]. split; [done|]. by rewrite Rm. }
  rewrite Es. clear Es skipSt.
  assert (exists c', RangeNext c2 s1 = RangeNext c' s1 /\ cur_dbi c' = DbiRev
            /\ exists v, cur_pos c' = Some (k, v)) as Hskip by eauto.
  unfold isLive. destruct low; [|destruct high; [|destruct (keyrev_isdel (h_rev h')) eqn:Ed]]; cbn [negb andb] in *;
    try (rewrite ?Em; destruct (keyrev_isdel _); cbn [negb]; rewrite ?Em; by exists (RangeNext c2 s1), s1).
  cbn [negb]. rewrite Em. destruct countOnly eqn:Eco.
  { destruct (PCB_RANGE_COUNT_FAKE cfg); eexists _, _; (split; [done|]); (split; [|by eauto]);
      (split; [done|]); rewrite Rm, Rc; done. }
  destruct Hseg as (pre & Hpre & Hlive & Hbase). { exists []. by repeat split. }
  change (negb false) with true in *. rewrite Hrest in Hpre. set (w1 := (walk _ true [] (h :: post)).1) in *.
  rewrite Hpre in Hok, Hch. apply Forall_app in Hok as [Hokp Hok]. apply chain_app in Hch as [_ Hch].
  pose proof Hok as [Hok1 Hok2]%Forall_app. assert (isLive h' = true) as Hl by (unfold isLive; by rewrite Ed).
  set (item0 := mkKv _ _ _ _ _ _ None).
  destruct (readChain_ok cfg t k w1 h' (last pre) item0 (rq_keysOnly rq)) as (item & Hread & Hitem); auto.
  { apply Forall_app. split; [done|]. constructor; [|done]. by apply Forall_cons in Hok2 as [? _]. }
  { intros x [l ->]%last_Some. apply Forall_app in Hokp as [_ Hx]. by apply Forall_cons in Hx as [? _]. }
  { apply Forall_app. split; [done|]. by constructor. }
  { apply chain_app in Hch as [Ha Hb]. apply chain_app. destruct (last pre); cbn [chain] in Hb |- *; tauto. }
  rewrite fmap_app in Hread. cbn [fmap list_fmap] in Hread. rewrite Hread. cbn [rbind].
  assert (kv_created item = h_created h') as Ec.
  { destruct (rq_keysOnly rq); [destruct Hitem as [[v Hv] _]; apply (is_created _ _ _ Hv)|].
    apply (is_created _ _ _ Hitem). }
  unfold createdOk. rewrite Ec.
  destruct (((0 <? rq_minCreated rq) && _) || _); cbn [negb]; eexists _, _; (split; [done|]).
  - split; [|by eauto]. split; [done|]. by rewrite Rm.
  - split; [|by eauto]. split; cbn; [|by rewrite Rm, Rc].
    apply Forall2_app; [done|]. constructor; [|done]. unfold rangeItem. cbn [fst snd].
    by destruct (rq_keysOnly rq).
Qed.

(** ** The scan *)

Lemma rep_vget t M k v :
  Rep cfg t M -> vget k (view t DbiRev) = Some v ->
  exists h post, M k = h :: post /\ v = recBytes k h.
Proof.
  intros HR. unfold vget. rewrite (rep_rev _ _ _ HR). destruct (M k) as [|h post]; [done|].
  cbn. intros [= <-]. eauto.
Qed.

Lemma rep_keys t M k : Rep cfg t M -> k ∈ tkeys (view t DbiRev) <-> M k <> [].
Proof. intros HR. rewrite elem_tkeys, (rep_rev _ _ _ HR). by destruct (M k). Qed.

(** The keys of the records table in order, from the histories. *)
Lemma rep_tkeys t M ks :
  Rep cfg t M -> StronglySorted blt ks -> (forall k, k ∈ ks <-> M k <> []) -> tkeys (view t DbiRev) = ks.
Proof.
  intros HR Hs Hks. apply sorted_ext; [by eapply tkeys_sorted, view_sorted|done|].
  intros k. by rewrite (rep_keys t M), Hks.
Qed.

(** Where the scan stands: at the first record of the first remaining key. *)
Definition atKey (M : history) (ks : list bytes) (c : cursor) (r : res entry) : Prop :=
  match ks with
  | [] => r = Err ErrMdbNotFound
  | k :: _ => exists h post, M k = h :: post /\ r = Ok (k, recBytes k h)
                /\ cur_pos c = Some (k, recBytes k h)
  end.

Lemma atKey_next t M c k v arg pre ks :
  Rep cfg t M -> cur_dbi c = DbiRev -> cur_pos c = Some (k, v) ->
  tkeys (view t DbiRev) = pre ++ k :: ks ->
  exists c' r, cur_get t c arg NextNoDup = (c', r) /\ cur_dbi c' = DbiRev /\ atKey M ks c' r.
Proof.
  intros HR Hc Hp Hk.
  destruct (cur_nextKey t c k v arg pre ks) as (c' & Hc' & Hg); [done|by rewrite Hc|].
  exists c'. destruct ks as [|k' ks]; [by eexists; rewrite Hc'|].
  destruct Hg as (v' & Hv' & Hg & Hp'). rewrite Hc in Hv'.
  destruct (rep_vget _ _ _ _ HR Hv') as (h & post & HM & ->).
  eexists. split; [exact Hg|]. split; [congruence|]. exists h, post. auto.
Qed.

Lemma atKey_seek t M c key :
  Rep cfg t M -> cur_dbi c = DbiRev -> key <> [] ->
  exists c' r, cur_get t c key SetRange = (c', r) /\ cur_dbi c' = DbiRev
    /\ atKey M (filter (fun k => ~ blt k key) (tkeys (view t DbiRev))) c' r.
Proof.
  intros HR Hc Hk. destruct (cur_seek_keys t c key Hk) as (c' & Hc' & Hg). rewrite Hc in *. exists c'.
  destruct (filter _ _) as [|k' ks]; [by eexists|].
  destruct Hg as (v' & Hv' & Hg & Hp'). destruct (rep_vget _ _ _ _ HR Hv') as (h & post & HM & ->).
  eexists. split; [exact Hg|]. split; [congruence|]. exists h, post. auto.
Qed.

Lemma rangeLoop_ok fuel L t M c r rq pre ks a s :
  Rep cfg t M -> cur_dbi c = DbiRev -> atKey M ks c r ->
  tkeys (view t DbiRev) = pre ++ ks -> accRel rq a s ->
  (forall k, (length (M k) <= L)%nat) -> (length ks + L < fuel)%nat ->
  exists s', rangeLoop cfg fuel t c r rq s = Ok s' /\ accRel rq (rangeSpec cfg rq M ks a) s'.
Proof.
  intros HR. revert fuel c r pre a s.
  induction ks as [|k ks IH]; intros fuel c r pre a s Hc Hat Hk Ha HL Hf;
    (destruct fuel as [|fuel]; [lia|]); cbn [rangeLoop atKey] in *; [subst r; eauto|].
  destruct Hat as (h & post & HM & -> & Hp). cbn [rangeSpec]. unfold covers.
  fold (fullScan rq). pose proof (blen_nonneg (rq_end rq)).
  assert ((0 <? blen (rq_end rq)) = negb (blen (rq_end rq) =? 0)) as -> by (zcases; lia || done).
  pose proof (rangeBody_ok fuel t M c rq k h post a s HR HM Hc Hp Ha) as Hb.
  specialize (HL k) as HLk. cbn [length] in Hf. specialize (Hb ltac:(lia)).
  destruct (fullScan rq) eqn:Efs; cbn [negb andb orb].
  - assert ((blen (rq_end rq) =? 0) = false) as Ee.
    { unfold fullScan in Efs. apply andb_true_iff in Efs as [_ E].
      destruct (beqb_spec (rq_end rq) [Zb 0]) as [->|]; [done|done]. }
    rewrite Ee. destruct (rangeKey cfg rq k (M k) a) as [a' stop].
    destruct Hb as (st & s' & -> & Ha' & Hst). cbn [rbind]. destruct stop; subst; [by eauto|].
    destruct Hst as (c' & -> & Hc' & v & Hp'). cbn [orb].
    destruct (atKey_next t M c' k v [] pre ks) as (c2 & r2 & -> & Hc2 & Hat2); auto.
    eapply (IH fuel c2 r2 (pre ++ [k])); auto; [by rewrite <- app_assoc|lia].
  - destruct (blen (rq_end rq) =? 0) eqn:Ee; cbn [negb andb].
    + destruct (beqb k (rq_key rq)); cbn [negb]; [|by eauto].
      destruct (rangeKey cfg rq k (M k) a) as [a' stop]. rewrite orb_true_r.
      destruct Hb as (st & s' & -> & Ha' & Hst). cbn [rbind]. destruct stop; subst; [by eauto|].
      destruct Hst as (c' & -> & _). eauto.
    + destruct (bltb k (rq_end rq)); cbn [negb]; [|by eauto].
      destruct (rangeKey cfg rq k (M k) a) as [a' stop].
      destruct Hb as (st & s' & -> & Ha' & Hst). cbn [rbind]. destruct stop; subst; [by eauto|].
      destruct Hst as (c' & -> & Hc' & v & Hp'). cbn [orb].
      destruct (atKey_next t M c' k v [] pre ks) as (c2 & r2 & -> & Hc2 & Hat2); auto.
      eapply (IH fuel c2 r2 (pre ++ [k])); auto; [by rewrite <- app_assoc|lia].
Qed.

(** Keys at or after a key are a suffix of the sorted keys. *)
Lemma filter_from key ks :
  StronglySorted blt ks -> exists pre, ks = pre ++ filter (fun k => ~ blt k key) ks.
Proof.
  induction 1 as [|k ks Hs IH Hf]; [by exists []|]. rewrite filter_cons.
  destruct (decide (~ blt k key)) as [Hn|Hn%dec_stable].
  - exists []. cbn. f_equal. clear Hs IH. induction Hf as [|k' ks Hk' _ IH]; [done|].
    rewrite filter_cons_True; [by f_equal|]. intros Hlt. apply Hn. by etrans.
  - destruct IH as [pre E]. exists (k :: pre). cbn. by f_equal.
Qed.

Lemma getRange_ok fuel L t M ks rq countOnly :
  Rep cfg t M -> rq_key rq <> [] ->
  StronglySorted blt ks -> (forall k, k ∈ ks <-> M k <> []) ->
  (forall k, (length (M k) <= L)%nat) -> (length ks + L < fuel)%nat ->
  let a := rangeSpec cfg rq M (filter (fun k => ~ blt k (rq_key rq)) ks)
             (mkRangeAcc [] 0 false countOnly) in
  exists items, dbKv_getRange cfg fuel t rq countOnly = Ok (items, ra_count a, ra_more a)
    /\ Forall2 (rangeItem (rq_keysOnly rq)) (ra_items a) items.
Proof.
  intros HR Hk Hs Hks HL Hf a. unfold dbKv_getRange.
  destruct (cur_open_ok t DbiRev) as (c & -> & Hc & _). cbn [rbind].
  destruct (atKey_seek t M c (rq_key rq)) as (c' & r & -> & Hc' & Hat); auto.
  rewrite (rep_tkeys t M ks) in Hat by done.
  destruct (filter_from (rq_key rq) ks Hs) as [pre Hpre].
  destruct (rangeLoop_ok fuel L t M c' r rq pre (filter (fun k => ~ blt k (rq_key rq)) ks)
              (mkRangeAcc [] 0 false countOnly) (mkRangeState [] 0 false countOnly keyrecord_zero kv_zero))
    as (s' & -> & Ri & Rc & Rm & Ro); auto.
  - by rewrite (rep_tkeys t M ks), <- Hpre by done.
  - by repeat split.
  - pose proof (length_filter (fun k => ~ blt k (rq_key rq)) ks). lia.
  - cbn [rbind]. exists (rs_items s'). unfold a. by rewrite Rc, Rm.
Qed.

End Range.

(** ** The answer of a scan *)

(** The scan over the covered keys only. *)
Fixpoint rangeFold (cfg : config) (rq : rangeReq) (M : history) (ks : list bytes) (a : rangeAcc)
  : rangeAcc :=
  match ks with
  | [] => a
  | k :: ks =>
      let '(a, stop) := rangeKey cfg rq k (M k) a in
      if stop then a else rangeFold cfg rq M ks a
  end.

Lemma rangeSpec_fold cfg rq M ks a :
  StronglySorted blt ks -> Forall (fun k => ~ blt k (rq_key rq)) ks ->
  rangeSpec cfg rq M ks a = rangeFold cfg rq M (filter (fun k => covers rq k = true) ks) a.
Proof.
  intros Hs. revert a. induction Hs as [|k ks Hs IH Hf]; intros a Hge; [done|].
  apply Forall_cons in Hge as [Hk Hge]. cbn [rangeSpec]. rewrite filter_cons.
  rewrite Forall_forall in Hf, Hge.
  assert (covers rq k = false \/ (blen (rq_end rq) =? 0) = true ->
          filter (fun k => covers rq k = true) ks = []) as Hnone.
  { intros Hc. apply filter_none. intros k' Hin Hc'. specialize (Hf k' Hin). unfold covers in *.
    destruct (fullScan rq) eqn:Efs; cbn [orb] in *.
    { destruct Hc as [?|Ee]; [done|]. unfold fullScan in Efs. apply andb_true_iff in Efs as [_ E].
      destruct (beqb_spec (rq_end rq) [Zb 0]) as [E'|]; [|done]. by rewrite E' in Ee. }
    destruct (blen (rq_end rq) =? 0).
    - destruct (beqb_spec k' (rq_key rq)) as [->|]; done.
    - destruct Hc as [Hc|?]; [|done]. destruct (bltb_spec k (rq_end rq)) as [|Hn]; [done|].
      destruct (bltb_spec k' (rq_end rq)); [|done]. destruct Hn. by etrans. }
  destruct (covers rq k) eqn:Ec; [rewrite decide_True by done|rewrite decide_False by done].
  - cbn [rangeFold]. destruct (rangeKey cfg rq k (M k) a) as [a' stop].
    destruct stop; cbn [orb]; [done|]. destruct (blen (rq_end rq) =? 0) eqn:Ee.
    + by rewrite Hnone by auto.
    + apply IH. by apply Forall_forall.
  - by rewrite Hnone by auto.
Qed.

Lemma answerKey_eq rq M k :
  answerKey rq M k = match selected rq (M k) with
                     | Some h => if createdOk rq h then Some (k, h) else None
                     | None => None
                     end.
Proof. done. Qed.

(** Without a limit the scan returns the whole answer. *)
Lemma rangeFold_unlimited cfg rq M ks a :
  rq_limit rq <= 0 -> ra_countOnly a = false ->
  rangeFold cfg rq M ks a
  = mkRangeAcc (ra_items a ++ omap (answerKey rq M) ks)
      (ra_count a + blen (omap (answerKey rq M) ks)) (ra_more a) false.
Proof.
  intros Hl. revert a. induction ks as [|k ks IH]; intros [items count more co]; cbn [ra_countOnly]; intros ->.
  { cbn [rangeFold omap list_omap]. by rewrite app_nil_r, blen_nil, Z.add_0_r. }
  cbn [rangeFold omap list_omap]. unfold rangeKey. rewrite (answerKey_eq rq M k).
  destruct (Z.ltb_spec 0 (rq_limit rq)); [lia|]. cbn [ra_items ra_count ra_more ra_countOnly negb andb orb].
  rewrite orb_false_r. destruct (selected rq (M k)) as [h|]; [destruct (createdOk rq h)|];
    rewrite IH by done; cbn [ra_items ra_count ra_more]; [|done..].
  rewrite <- app_assoc, blen_cons. f_equal. lia.
Qed.

(** Once the limit is reached the scan only counts. *)
Lemma rangeFold_counting cfg rq M ks a :
  PCB_RANGE_COUNT_FULL cfg = true -> PCB_RANGE_COUNT_FAKE cfg = false ->
  rq_minCreated rq = 0 -> rq_maxCreated rq = 0 -> ra_countOnly a = true ->
  rangeFold cfg rq M ks a
  = mkRangeAcc (ra_items a) (ra_count a + blen (omap (answerKey rq M) ks)) (ra_more a) true.
Proof.
  intros Hfull Hfake Hmin Hmax. revert a. induction ks as [|k ks IH]; intros [items count more co];
    cbn [ra_countOnly]; intros ->.
  { cbn [rangeFold omap list_omap]. by rewrite blen_nil, Z.add_0_r. }
  cbn [rangeFold omap list_omap]. unfold rangeKey. rewrite (answerKey_eq rq M k). unfold createdOk.
  rewrite Hfull, Hfake, Hmin, Hmax. cbn [ra_items ra_count ra_more ra_countOnly negb andb orb Z.ltb Z.compare].
  rewrite orb_false_r. destruct (selected rq (M k)) as [h|]; rewrite IH by done;
    cbn [ra_items ra_count ra_more]; [|done].
  rewrite blen_cons. f_equal. lia.
Qed.

(** With a limit it returns that many of the answer, counts all of it and says so when
    something is left. *)
Lemma rangeFold_limited cfg rq M ks a :
  PCB_RANGE_COUNT_FULL cfg = true -> PCB_RANGE_COUNT_FAKE cfg = false ->
  rq_minCreated rq = 0 -> rq_maxCreated rq = 0 -> 0 < rq_limit rq < 2 ^ 63 ->
  ra_countOnly a = false -> blen (ra_items a) <= rq_limit rq ->
  let all := ra_items a ++ omap (answerKey rq M) ks in
  exists more co, rangeFold cfg rq M ks a
    = mkRangeAcc (take (Z.to_nat (rq_limit rq)) all)
        (ra_count a + blen (omap (answerKey rq M) ks)) more co
    /\ (rq_limit rq < blen all -> more = true).
Proof.
  intros Hfull Hfake Hmin Hmax Hlim. revert a. induction ks as [|k ks IH]; intros [items count more co];
    cbn [ra_countOnly ra_items]; intros -> Hlen.
  { exists more, false. cbn [rangeFold omap list_omap] in *.
    rewrite app_nil_r, blen_nil, Z.add_0_r, take_ge by (unfold blen in *; lia). split; [done|lia]. }
  destruct (Z.eqb_spec (blen items) (rq_limit rq)) as [Efull|Efull].
  - assert (rangeFold cfg rq M (k :: ks) (mkRangeAcc items count more false)
            = rangeFold cfg rq M (k :: ks) (mkRangeAcc items count true true)) as ->.
    { cbn [rangeFold]. unfold rangeKey. rewrite Hfull, Hfake, i64_id by (unfold is_i64; lia).
      cbn [ra_items ra_count ra_more ra_countOnly negb]. rewrite Efull, Z.eqb_refl.
      destruct (Z.ltb_spec 0 (rq_limit rq)); [|lia]. cbn [negb andb orb].
      by rewrite orb_true_r. }
    rewrite rangeFold_counting by done. cbn [ra_items ra_count ra_more]. exists true, true.
    split; [|done]. rewrite take_app_length' by (unfold blen in *; lia). done.
  - cbn [rangeFold omap list_omap]. unfold rangeKey. rewrite (answerKey_eq rq M k). unfold createdOk.
    rewrite Hfull, Hfake, Hmin, Hmax, i64_id by (unfold is_i64; lia).
    cbn [ra_items ra_count ra_more ra_countOnly negb andb orb Z.ltb Z.compare].
    destruct (Z.eqb_spec (blen items) (rq_limit rq)); [lia|].
    destruct (Z.ltb_spec 0 (rq_limit rq)); [|lia]. cbn [andb orb].
    rewrite orb_false_r. destruct (selected rq (M k)) as [h|].
    + destruct (IH (mkRangeAcc (items ++ [(k, h)]) (count + 1) more false)) as (more' & co' & -> & Hm).
      { done. } { cbn [ra_items]. rewrite blen_app, blen_cons, blen_nil. lia. }
      cbn [ra_items ra_count] in *. rewrite <- app_assoc in *. exists more', co'. split; [|exact Hm].
      cbn [app]. f_equal. rewrite blen_cons. lia.
    + destruct (IH (mkRangeAcc items count more false)) as (more' & co' & -> & Hm); [done|done|].
      by exists more', co'.
Qed.

Section Answers.
Context (cfg : config) `{DifferOk} `{SnappyOk} `{MdbOk}.

Lemma rangeSpec_answer rq M ks countOnly :
  StronglySorted blt ks ->
  rangeSpec cfg rq M (filter (fun k => ~ blt k (rq_key rq)) ks) (mkRangeAcc [] 0 false countOnly)
  = rangeFold cfg rq M (rangeKeys rq ks) (mkRangeAcc [] 0 false countOnly).
Proof.
  intros Hs. apply rangeSpec_fold; [by apply sorted_filter|].
  apply Forall_forall. by intros k [? _]%list_elem_of_filter.
Qed.

End Answers.
