(* ===== verification/DbKvDelete.v ===== *)
(** * Deletes implement the history (src/db_kv.go: deleteRange, deleteBatch) *)

From stdpp Require Import sorting.
From S2P Require Import Prelude Types GoBinary Patch Kv Mdb MdbFacts MdbKeys Db DbKv History DbKvRead DbKvWrite DbKvRange.

(** ** Specification on histories *)

(** Keys at or after [key] that [deleteRange] covers: with a range end, it is included. *)
Definition delCovers (key end_ k : bytes) : bool :=
  if blen end_ =? 0 then beqb k key else negb (bltb end_ k).

(** The record of a live key, as [deleteRange] returns it. *)
Definition liveRec (M : history) (k : bytes) : option keyrecord :=
  match M k with
  | h :: _ => if isLive h then Some (recOf k h) else None
  | [] => None
  end.

(** Tombstones on top of the live keys among [ks]. *)
Definition deleteKeys (rev subrev : Z) (ks : list bytes) (M : history) : history :=
  fun k => if decide (k ∈ ks) then delRecs rev subrev (M k) else M k.

(** A tombstone does not change what earlier revisions see. *)
Lemma visible_delRecs r rev subrev hs :
  keyrev_ok rev subrev -> 0 < r < rev -> visible r (delRecs rev subrev hs) = visible r hs.
Proof.
  intros Hok Hr. destruct hs as [|h hs]; [done|]. cbn [delRecs]. destruct (isLive h); [|done].
  by apply (visible_push r rev subrev true).
Qed.

(** No live key among [ks] was written by the same revision. *)
Definition noDuplicate (cfg : config) (rev : Z) (ks : list bytes) (M : history) : Prop :=
  forall k h, k ∈ ks -> head (M k) = Some h -> isLive h = true ->
    keyrev_upper (h_rev h) <> rev \/ PCB_TXN_MULTI_WRITE_ENABLED cfg = true.

Section Deletes.
Context (cfg : config) `{DifferOk} `{SnappyOk} `{MdbOk}.

Lemma Rep_ext t M M' : (forall k, M k = M' k) -> Rep cfg t M -> Rep cfg t M'.
Proof.
  intros He HR. split; intros *; rewrite <- ?He; apply HR.
Qed.

(** ** One tombstone *)

Lemma tombstone_ok rev subrev :
  keyrev_ok rev subrev -> 0 < rev ->
  hrec_ok (tombstoneRec (newkeyrev rev subrev true))
  /\ isLive (tombstoneRec (newkeyrev rev subrev true)) = false.
Proof.
  intros Hr Hp. split.
  - split; cbn; [by exists rev, subrev, true|unfold is_u64; lia..|done].
  - unfold isLive. cbn [tombstoneRec h_rev]. by rewrite keyrev_isdel_new.
Qed.

Lemma newkeyrev_del_lt rev subrev r :
  keyrev_ok rev subrev -> r < newkeyrev rev subrev false -> r < newkeyrev rev subrev true.
Proof. intros Hr. rewrite !newkeyrev_eq by done. lia. Qed.

(** Where deletes leave a transaction: values and the other tables are untouched. *)
Definition delFrame (t t' : txn) : Prop :=
  forall d, d <> DbiRev -> d <> DbiEvt -> view t' d = view t d.

Lemma writeTombstone_ok t M k h hs rev subrev epoch :
  Rep cfg t M -> keyrev_ok rev subrev -> 0 < rev ->
  M k = h :: hs -> (forall h', h' ∈ M k -> h_rev h' < newkeyrev rev subrev true) ->
  exists t', writeTombstone t k (newkeyrev rev subrev true) epoch = Ok t'
    /\ Rep cfg t' (hset M k (tombstoneRec (newkeyrev rev subrev true) :: M k))
    /\ delFrame t t' /\ tkeys (view t' DbiRev) = tkeys (view t DbiRev)
    /\ view t' DbiEvt = vput true (keyrev_key (newkeyrev rev subrev true))
                          (evtBytes (newkeyrev rev subrev true) epoch k) (view t DbiEvt).
Proof.
  intros HR Hr Hpos HM Hlt. destruct (tombstone_ok rev subrev Hr Hpos) as [Hok Hnl].
  assert (key_ok k) as Hk by (apply (rep_key _ _ _ HR); by rewrite HM).
  set (tr := newkeyrev rev subrev true) in *. unfold writeTombstone.
  destruct (mdb_put_ok t DbiRev k (keyrecord_Bytes (mkKeyrecord k tr 0) [])) as (t1 & -> & V1);
    [auto with go|]. cbn [rbind].
  change (addChecksum _ (AppendUvarint [] epoch ++ k)) with (evtBytes tr epoch k).
  destruct (mdb_put_ok t1 DbiEvt (keyrev_key tr) (evtBytes tr epoch k)) as (t2 & -> & V2); [auto with go|].
  assert (forall d, view t2 d = match d with
    | DbiRev => vput true k (recBytes k (tombstoneRec tr)) (view t DbiRev)
    | DbiEvt => vput true (keyrev_key tr) (evtBytes tr epoch k) (view t DbiEvt)
    | _ => view t d end) as V by (intros d; rewrite V2, !V1; by destruct d).
  exists t2. split; [done|]. split; [|split; [|split]].
  - apply (Rep_push cfg t t2 M k (tombstoneRec tr)); auto.
    + by rewrite Hnl.
    + rewrite (V DbiVal). split; [by rewrite Hnl|].
      pose proof (rep_vals _ _ _ HR k) as Hc. destruct (M k) as [|h0 hs0]; [done|]. destruct Hc as [Hc1 Hc2].
      split; [|done]. intros Hl. destruct (Hc1 Hl) as (b & Hg & n & Hn & Hb). exists b. split; [done|].
      exists n. split; [|done]. left. by destruct Hn.
    + intros. by rewrite (V DbiVal).
    + intros r Hr64 Hd. rewrite (V DbiVal). by apply HR.
  - intros d Hd1 Hd2. rewrite V. by destruct d.
  - rewrite (V DbiRev). apply tkeys_vput_in; [apply (view_sorted t DbiRev)|].
    rewrite (rep_rev _ _ _ HR), HM. done.
  - apply V.
Qed.

(** ** deleteRange *)

(** The keys the loop reaches and covers. *)
Fixpoint delTargets (key end_ : bytes) (ks : list bytes) : list bytes :=
  match ks with
  | [] => []
  | k :: ks =>
      if delCovers key end_ k
      then k :: (if blen end_ =? 0 then [] else delTargets key end_ ks)
      else []
  end.

Lemma delTargets_sub key end_ ks k : k ∈ delTargets key end_ ks -> k ∈ ks.
Proof.
  induction ks as [|a ks IH]; cbn; [done|]. destruct (delCovers key end_ a); [|intros X; inversion X].
  rewrite !elem_of_cons. destruct (blen end_ =? 0).
  - intros [->|X]; [by left|inversion X].
  - intros [->|X]; [by left|auto].
Qed.

Lemma deleteKeys_nil rev subrev M k : deleteKeys rev subrev [] M k = M k.
Proof. unfold deleteKeys. case_decide as E; [inversion E|done]. Qed.

(** Deleting a key and then others is deleting them all. *)
Lemma deleteKeys_cons rev subrev a ks M k :
  a ∉ ks ->
  deleteKeys rev subrev ks (hset M a (delRecs rev subrev (M a))) k = deleteKeys rev subrev (a :: ks) M k.
Proof.
  intros Ha. unfold deleteKeys. destruct (decide (k = a)) as [->|Hne].
  - rewrite hset_same, decide_False by done. rewrite decide_True by constructor. done.
  - rewrite hset_other by done. destruct (decide (k ∈ ks)) as [Hk|Hk].
    + rewrite decide_True by by constructor. done.
    + rewrite decide_False; [done|]. rewrite elem_of_cons. tauto.
Qed.

Lemma liveRec_hset M a hs (ks : list bytes) :
  a ∉ ks -> omap (liveRec (hset M a hs)) ks = omap (liveRec M) ks.
Proof.
  induction ks as [|k ks IH]; intros Ha; [done|]. rewrite not_elem_of_cons in Ha. destruct Ha as [Hne Ha].
  assert (liveRec (hset M a hs) k = liveRec M k) as E by (unfold liveRec; by rewrite hset_other).
  specialize (IH Ha). cbn [omap list_omap] in *. by rewrite E, IH.
Qed.

(** Rewriting the record of one key that the loop visits. *)
Lemma deleteStep_ok t M k h hs rev subrev epoch prev items count :
  Rep cfg t M -> keyrev_ok rev subrev -> 0 < rev -> M k = h :: hs ->
  (forall h', h' ∈ M k -> h_rev h' < newkeyrev rev subrev false) ->
  exists prev', rereadRecord prev k (recBytes k h) = Ok (prev', None)
    /\ kr_rev prev' = h_rev h
    /\ exists t', (if keyrev_isdel (kr_rev prev') then Ok (t, items, count, None)
          else let! t := writeTombstone t k (newkeyrev rev subrev true) epoch in
               Ok (t, items ++ [prev'], count + 1, None))
       = Ok (t', items ++ omap (liveRec M) [k], count + blen (omap (liveRec M) [k]), @None error)
    /\ Rep cfg t' (hset M k (delRecs rev subrev (M k))) /\ delFrame t t'
    /\ tkeys (view t' DbiRev) = tkeys (view t DbiRev).
Proof.
  intros HR Hr Hpos HM Hlt. pose proof (rep_ok _ _ _ HR k) as Hok. rewrite HM in Hok.
  apply Forall_cons in Hok as [Hh _]. unfold rereadRecord. rewrite recBytes_decode by done.
  eexists. split; [done|]. split; [done|]. cbn [kr_rev].
  unfold liveRec, delRecs. cbn [omap list_omap]. rewrite HM.
  destruct (isLive h) eqn:El; unfold isLive in El.
  - apply negb_true_iff in El. rewrite El.
    destruct (writeTombstone_ok t M k h hs rev subrev epoch) as (t' & -> & HR' & Hfr & Hk & _); auto.
    { intros h' Hh'. apply newkeyrev_del_lt; auto. }
    exists t'. rewrite HM in HR'. cbn [rbind]. by rewrite blen_cons, blen_nil.
  - apply negb_false_iff in El. rewrite El. exists t. rewrite app_nil_r, blen_nil, Z.add_0_r.
    split; [done|]. split; [|by split]. apply (Rep_ext t M); [|done]. intros k'. unfold hset. case_decide; by subst.
Qed.

Lemma deleteRangeLoop_ok fuel t M c r rev subrev epoch key end_ pre ks prev items count :
  Rep cfg t M -> cur_dbi c = DbiRev -> atKey M ks c r ->
  tkeys (view t DbiRev) = pre ++ ks -> NoDup ks ->
  keyrev_ok rev subrev -> 0 < rev ->
  (forall k h, k ∈ ks -> h ∈ M k -> h_rev h < newkeyrev rev subrev false) ->
  noDuplicate cfg rev (delTargets key end_ ks) M -> (length ks < fuel)%nat ->
  exists t', deleteRangeLoop cfg fuel t c r rev subrev epoch key end_ prev items count
      = Ok (t', (items ++ omap (liveRec M) (delTargets key end_ ks),
                 count + blen (omap (liveRec M) (delTargets key end_ ks))))
    /\ Rep cfg t' (deleteKeys rev subrev (delTargets key end_ ks) M) /\ delFrame t t'.
Proof.
  intros HR. revert fuel t M HR c r pre prev items count.
  induction ks as [|k ks IH];
    intros fuel t M HR c r pre prev items count Hc Hat Hk Hnd Hr Hpos Hfresh Hdup Hf;
    (destruct fuel as [|fuel]; [lia|]); cbn [deleteRangeLoop atKey delTargets] in *.
  { subst r. exists t. cbn [omap list_omap]. rewrite app_nil_r, blen_nil, Z.add_0_r. split; [done|]. split; [|done].
    apply (Rep_ext t M); [|done]. intros. by rewrite deleteKeys_nil. }
  destruct Hat as (h & post & HM & -> & Hp). apply NoDup_cons in Hnd as [Hni Hnd].
  assert ((blen (recBytes k h) <? 12) = false) as ->.
  { pose proof (keyrecord_Bytes_blen (recOf k h)). unfold recBytes. zcases; [lia|done]. }
  pose proof (blen_nonneg end_). unfold delCovers in *.
  assert (forall X Y : res (txn * (list keyrecord * Z)),
    (if (blen end_ =? 0) && negb (beqb k key) then X
     else if (0 <? blen end_) && bltb end_ k then X else Y)
    = if (if blen end_ =? 0 then beqb k key else negb (bltb end_ k)) then Y else X) as ->.
  { intros X Y. zcases; try lia; cbn [andb]; [by destruct (beqb k key)|by destruct (bltb end_ k)]. }
  destruct (if blen end_ =? 0 then beqb k key else negb (bltb end_ k)) eqn:Ecov.
  2:{ exists t. cbn [omap list_omap]. rewrite app_nil_r, blen_nil, Z.add_0_r. split; [done|]. split; [|done].
      apply (Rep_ext t M); [|done]. intros. by rewrite deleteKeys_nil. }
  destruct (deleteStep_ok t M k h post rev subrev epoch prev items count)
    as (prev' & -> & Hrev & t' & Hstep & HR' & Hfr & Hk'); auto.
  { intros h' Hh'. apply (Hfresh k); [constructor|done]. }
  cbn [rbind]. rewrite Hrev in *.
  assert (negb (keyrev_isdel (h_rev h)) && (keyrev_upper (h_rev h) =? rev)
          && negb (PCB_TXN_MULTI_WRITE_ENABLED cfg) = false) as ->.
  { apply not_true_iff_false. intros [[E1 E2%Z.eqb_eq]%andb_true_iff E3%negb_true_iff]%andb_true_iff.
    destruct (Hdup k h) as [?|?]; [constructor|by rewrite HM|done|congruence..]. }
  rewrite Hstep. cbn [rbind].
  set (targets := if blen end_ =? 0 then [] else delTargets key end_ ks) in *.
  assert (k ∉ targets) as Hnt.
  { unfold targets. destruct (blen end_ =? 0); [intros X; inversion X|]. by intros X%delTargets_sub. }
  set (M1 := hset M k (delRecs rev subrev (M k))) in *.
  assert (omap (liveRec M) (k :: targets) = omap (liveRec M) [k] ++ omap (liveRec M1) targets) as Eomap.
  { unfold M1. rewrite liveRec_hset by done. cbn. by destruct (liveRec M k). }
  assert (blen (omap (liveRec M) (k :: targets))
          = blen (omap (liveRec M) [k]) + blen (omap (liveRec M1) targets)) as -> by by rewrite Eomap, blen_app.
  rewrite Eomap. clear Eomap.
  assert (forall t2, delFrame t' t2 -> delFrame t t2) as Hframe.
  { intros t2 H2' d Hd1 Hd2. by rewrite H2', Hfr. }
  destruct (blen end_ =? 0) eqn:Ee.
  { exists t'. unfold targets. cbn [omap list_omap]. rewrite app_nil_r, blen_nil, Z.add_0_r. split; [done|]. split; [|done].
    eapply Rep_ext; [|exact HR']. intros k'. unfold M1. by rewrite <- (deleteKeys_cons rev subrev k [] M k'), deleteKeys_nil. }
  destruct (atKey_next cfg t' M1 c k (recBytes k h) k pre ks) as (c2 & r2 & -> & Hc2 & Hat2); auto;
    [by rewrite Hk'|].
  assert (forall k', k' ∈ ks -> M1 k' = M k') as HM1.
  { intros k' Hin. apply hset_other. by intros ->. }
  destruct (IH fuel t' M1 HR' c2 r2 (pre ++ [k]) prev' (items ++ omap (liveRec M) [k])
              (count + blen (omap (liveRec M) [k]))) as (t2 & -> & HR2 & Hfr2); auto.
  - by rewrite Hk', <- app_assoc.
  - intros k' h' Hin. rewrite HM1 by done. intros Hh'. apply (Hfresh k'); [by constructor|done].
  - intros k' h' Hin. rewrite HM1 by by apply delTargets_sub in Hin. intros Hh' Hl'.
    apply (Hdup k'); [by constructor|done..].
  - cbn in Hf. lia.
  - exists t2. split; [|split; [|auto]].
    + by rewrite <- app_assoc, Z.add_assoc.
    + eapply Rep_ext; [|exact HR2]. intros k'. by apply deleteKeys_cons.
Qed.

(** Once a key is past the range, the later ones are. *)
Lemma delTargets_filter key end_ ks :
  StronglySorted blt ks -> Forall (fun k => ~ blt k key) ks ->
  delTargets key end_ ks = filter (fun k => delCovers key end_ k = true) ks.
Proof.
  induction 1 as [|k ks Hs IH Hf]; intros Hge; [done|]. apply Forall_cons in Hge as [Hk Hge].
  cbn [delTargets]. rewrite filter_cons. specialize (IH Hge). rewrite Forall_forall in Hf, Hge.
  assert (forall k', k' ∈ ks -> delCovers key end_ k' = true ->
            (blen end_ =? 0) = false /\ delCovers key end_ k = true) as Hmono.
  { intros k' Hin. specialize (Hf k' Hin). unfold delCovers. destruct (blen end_ =? 0).
    - destruct (beqb_spec k' key) as [->|]; [done|done].
    - intros E%negb_true_iff. split; [done|]. apply negb_true_iff.
      destruct (bltb_spec end_ k); [|done]. destruct (bltb_spec end_ k') as [|Hn]; [done|].
      destruct Hn. by etrans. }
  destruct (delCovers key end_ k) eqn:E; [rewrite decide_True by done|rewrite decide_False by done].
  - f_equal. destruct (blen end_ =? 0) eqn:Ee; [|done]. symmetry.
    apply filter_none. intros k' Hin Hc. by destruct (Hmono k' Hin Hc).
  - symmetry. apply filter_none. intros k' Hin Hc. by destruct (Hmono k' Hin Hc).
Qed.

(** The keys a delete covers. *)
Definition delKeys (key end_ : bytes) (ks : list bytes) : list bytes :=
  filter (fun k => delCovers key end_ k = true) (filter (fun k => ~ blt k key) ks).

Lemma deleteRange_ok fuel t M ks rev subrev epoch key end_ :
  Rep cfg t M -> key <> [] -> StronglySorted blt ks -> (forall k, k ∈ ks <-> M k <> []) ->
  keyrev_ok rev subrev -> 0 < rev -> fresh M rev subrev ->
  noDuplicate cfg rev (delKeys key end_ ks) M -> (length ks < fuel)%nat ->
  let items := omap (liveRec M) (delKeys key end_ ks) in
  exists t', dbKv_deleteRange cfg fuel t rev subrev epoch key end_ = Ok (t', (items, blen items))
    /\ Rep cfg t' (deleteKeys rev subrev (delKeys key end_ ks) M) /\ delFrame t t'.
Proof.
  intros HR Hk Hs Hks Hr Hpos Hfr Hdup Hf items. unfold dbKv_deleteRange.
  destruct (cur_open_ok t DbiRev) as (c & -> & Hc & _). cbn [rbind].
  destruct (atKey_seek cfg t M c key) as (c' & r & -> & Hc' & Hat); auto.
  rewrite (rep_tkeys cfg t M ks) in Hat by done.
  destruct (filter_from key ks Hs) as [pre Hpre]. unfold items, delKeys in *.
  set (ks' := filter (fun k => ~ blt k key) ks) in *.
  assert (delTargets key end_ ks' = filter (fun k => delCovers key end_ k = true) ks') as Et.
  { apply delTargets_filter; [by apply sorted_filter|].
    apply Forall_forall. by intros k [? _]%list_elem_of_filter. }
  rewrite <- Et in *. clear Et.
  destruct (deleteRangeLoop_ok fuel t M c' r rev subrev epoch key end_ pre ks' keyrecord_zero [] 0)
    as (t' & -> & HR' & Hfr'); auto.
  - by rewrite (rep_tkeys cfg t M ks), <- Hpre by done.
  - by apply sorted_nodup, sorted_filter.
  - intros k h _ Hh. by eapply Hfr.
  - pose proof (length_filter (fun k => ~ blt k key) ks) as Hlen. fold ks' in Hlen. lia.
  - by exists t'.
Qed.

(** ** deleteBatch *)

Lemma deleteBatchLoop_ok t M c rev subrev epoch keys prev :
  Rep cfg t M -> cur_dbi c = DbiRev -> keyrev_ok rev subrev -> 0 < rev -> NoDup keys ->
  (forall k, k ∈ keys -> M k <> []) ->
  (forall k h, k ∈ keys -> h ∈ M k -> h_rev h < newkeyrev rev subrev false) ->
  exists t', deleteBatchLoop t c rev subrev epoch keys prev None = Ok t'
    /\ Rep cfg t' (deleteKeys rev subrev keys M) /\ delFrame t t'.
Proof.
  intros HR. revert t M HR c prev. induction keys as [|k keys IH]; intros t M HR c prev Hc Hr Hpos Hnd Hne Hfr.
  { exists t. split; [done|]. split; [|done]. apply (Rep_ext t M); [|done]. intros. by rewrite deleteKeys_nil. }
  apply NoDup_cons in Hnd as [Hni Hnd]. cbn [deleteBatchLoop].
  assert (M k <> []) as Hnek by (apply Hne; constructor).
  destruct (M k) as [|h hs] eqn:HM; [done|]. pose proof (rep_rev _ _ _ HR k) as Hd. rewrite HM in Hd.
  assert (key_ok k) as Hk by (apply (rep_key _ _ _ HR); by rewrite HM).
  destruct (cur_seek t c k (recBytes k h) (recBytes k <$> hs)) as (c' & -> & Hc' & _);
    [auto with go|by rewrite Hc|].
  assert ((blen (recBytes k h) <? 12) = false) as ->.
  { pose proof (keyrecord_Bytes_blen (recOf k h)). unfold recBytes. zcases; [lia|done]. }
  rewrite beqb_refl. cbn [negb].
  destruct (deleteStep_ok t M k h hs rev subrev epoch prev [] 0)
    as (prev' & -> & Hrev & t' & Hstep & HR' & Hfr' & Hk'); auto.
  { intros h' Hh'. apply (Hfr k); [constructor|done]. }
  cbn [rbind]. set (M1 := hset M k (delRecs rev subrev (M k))) in *.
  assert (forall k', k' ∈ keys -> M1 k' = M k') as HM1 by (intros k' Hin; apply hset_other; by intros ->).
  destruct (IH t' M1 HR' c' prev') as (t2 & E2 & HR2 & Hfr2); auto.
  { congruence. }
  { intros k' Hin. rewrite HM1 by done. apply Hne. by constructor. }
  { intros k' h' Hin. rewrite HM1 by done. apply Hfr. by constructor. }
  exists t2. split; [|split].
  - destruct (keyrev_isdel (kr_rev prev')); [by simplify_eq|].
    destruct (writeTombstone t k (newkeyrev rev subrev true) epoch); cbn [rbind] in *; by simplify_eq.
  - eapply Rep_ext; [|exact HR2]. intros k'. by apply deleteKeys_cons.
  - intros d Hd1 Hd2. by rewrite Hfr2, Hfr'.
Qed.

Lemma deleteBatch_ok t M rev subrev epoch keys :
  Rep cfg t M -> keyrev_ok rev subrev -> 0 < rev -> NoDup keys ->
  (forall k, k ∈ keys -> M k <> []) ->
  (forall k h, k ∈ keys -> h ∈ M k -> h_rev h < newkeyrev rev subrev false) ->
  exists t', dbKv_deleteBatch t rev subrev epoch keys = Ok t'
    /\ Rep cfg t' (deleteKeys rev subrev keys M) /\ delFrame t t'.
Proof.
  intros HR Hr Hpos Hnd Hne Hfr. unfold dbKv_deleteBatch.
  destruct (cur_open_ok t DbiRev) as (c & -> & Hc & _). cbn [rbind].
  by apply deleteBatchLoop_ok.
Qed.

End Deletes.
