(* ===== verification/Pb.v ===== *)
(** * Messages and error texts (src/internal: the generated protobuf types the
    program reads and writes, src/internal/error.go)

    The message types are records with the fields the program uses. Their wire
    format is generated code over the protobuf runtime: [Proto] is its interface,
    a pair of functions per message type. *)

From Stdlib Require Import Strings.String.
From S2P Require Import Prelude Types GoBinary Patch Kv Mdb Db.

(** ** Requests *)

Record PutRequest : Type := mkPutRequest {
  pr_Key : bytes; pr_Value : nslice; pr_Lease : Z;
  pr_PrevKv : bool; pr_IgnoreValue : bool; pr_IgnoreLease : bool
}.

Record DeleteRangeRequest : Type := mkDeleteRangeRequest {
  dr_Key : bytes; dr_RangeEnd : bytes; dr_PrevKv : bool
}.

Record RangeRequest : Type := mkRangeRequest {
  rr_Key : bytes; rr_RangeEnd : bytes; rr_Limit : Z; rr_Revision : Z;
  rr_MinModRevision : Z; rr_MaxModRevision : Z;
  rr_MinCreateRevision : Z; rr_MaxCreateRevision : Z;
  rr_KeysOnly : bool; rr_CountOnly : bool; rr_Serializable : bool
}.

Record CompactionRequest : Type := mkCompactionRequest { cr_Revision : Z; cr_Physical : bool }.

Inductive TargetUnion : Type :=
| Compare_None
| Compare_Version (v : Z)
| Compare_CreateRevision (v : Z)
| Compare_ModRevision (v : Z)
| Compare_Value (v : bytes)
| Compare_Lease (v : Z).

(** Enumerations are open in proto3: any number may arrive. *)
Definition Compare_EQUAL : Z := 0.
Definition Compare_GREATER : Z := 1.
Definition Compare_LESS : Z := 2.
Definition Compare_NOT_EQUAL : Z := 3.

Definition Compare_VERSION : Z := 0.
Definition Compare_CREATE : Z := 1.
Definition Compare_MOD : Z := 2.
Definition Compare_VALUE : Z := 3.
Definition Compare_LEASE : Z := 4.

Record Compare : Type := mkCompare {
  cmp_Result : Z; cmp_Target : Z; cmp_Key : bytes; cmp_TargetUnion : TargetUnion
}.

(** [RequestOther]: a nested transaction or no request, which the program skips. *)
Inductive RequestOp : Type :=
| RequestPut (r : PutRequest)
| RequestDeleteRange (r : DeleteRangeRequest)
| RequestRange (r : RangeRequest)
| RequestOther.

Record TxnRequest : Type := mkTxnRequest {
  tr_Compare : list Compare; tr_Success : list RequestOp; tr_Failure : list RequestOp
}.

Record LeaseGrantRequest : Type := mkLeaseGrantRequest { lg_TTL : Z; lg_ID : Z }.
Record LeaseRevokeRequest : Type := mkLeaseRevokeRequest { lr_ID : Z }.
Record LeaseKeepAliveRequest : Type := mkLeaseKeepAliveRequest { lk_ID : Z }.
Record LeaseKeepAliveBatchRequest : Type := mkLeaseKeepAliveBatchRequest { lkb_IDs : list Z }.
Record LeaseTimeToLiveRequest : Type := mkLeaseTimeToLiveRequest { ltl_ID : Z; ltl_Keys : bool }.
Record TickRequest : Type := mkTickRequest { tick_Term : Z }.
Record TermRequest : Type := mkTermRequest { term_Term : Z }.

Record WatchCreateRequest : Type := mkWatchCreateRequest {
  wc_Key : bytes; wc_RangeEnd : bytes; wc_StartRevision : Z; wc_ProgressNotify : bool;
  wc_Filters : list Z; wc_PrevKv : bool; wc_WatchId : Z
}.

Inductive WatchRequest : Type :=
| WatchCreate (r : WatchCreateRequest)
| WatchCancel (id : Z)
| WatchProgress
| WatchOther.

(** ** Responses *)

Record ResponseHeader : Type := mkResponseHeader {
  h_Revision : Z; h_ClusterId : Z; h_MemberId : Z; h_RaftTerm : Z
}.

Record PutResponse : Type := mkPutResponse {
  pres_Header : option ResponseHeader; pres_PrevKv : option KeyValue
}.

Record DeleteRangeResponse : Type := mkDeleteRangeResponse {
  dres_Header : option ResponseHeader; dres_Deleted : Z; dres_PrevKvs : list KeyValue
}.

Record RangeResponse : Type := mkRangeResponse {
  rres_Header : option ResponseHeader; rres_Kvs : list KeyValue; rres_More : bool; rres_Count : Z
}.

Inductive ResponseOp : Type :=
| ResponsePut (r : PutResponse)
| ResponseDeleteRange (r : DeleteRangeResponse)
| ResponseRange (r : RangeResponse).

Record TxnResponse : Type := mkTxnResponse {
  tres_Header : option ResponseHeader; tres_Succeeded : bool; tres_Responses : list ResponseOp
}.

Record HeaderResponse : Type := mkHeaderResponse { hres_Header : option ResponseHeader }.

Record LeaseGrantResponse : Type := mkLeaseGrantResponse {
  lgres_Header : option ResponseHeader; lgres_ID : Z; lgres_TTL : Z; lgres_Error : bytes
}.

Record LeaseKeepAliveResponse : Type := mkLeaseKeepAliveResponse {
  lkres_Header : option ResponseHeader; lkres_ID : Z; lkres_TTL : Z
}.

Record LeaseKeepAliveBatchResponse : Type := mkLeaseKeepAliveBatchResponse {
  lkbres_Header : option ResponseHeader; lkbres_TTLs : list Z
}.

Record LeaseLeasesResponse : Type := mkLeaseLeasesResponse {
  llres_Header : option ResponseHeader; llres_Leases : list Z
}.

Record LeaseTimeToLiveResponse : Type := mkLeaseTimeToLiveResponse {
  ltres_Header : option ResponseHeader; ltres_TTL : Z
}.

Record TickResponse : Type := mkTickResponse { tickres_Epoch : Z }.
Record TermResponse : Type := mkTermResponse {}.

Record Event : Type := mkEvent {
  evt_Type : EventType; evt_Kv : option KeyValue; evt_PrevKv : option KeyValue
}.

(** The messages of the storage module's watch streams. *)
Record WatchEventBatch : Type := mkWatchEventBatch {
  web_Event : Event; web_Revision : Z; web_WatchIds : list Z; web_WatchIdsPrev : list Z
}.
Record WatchEventSync : Type := mkWatchEventSync { wes_IDs : list Z; wes_Revision : Z }.

(** ** Wire format *)

Inductive msg : Type -> Type :=
| MPutRequest : msg PutRequest
| MDeleteRangeRequest : msg DeleteRangeRequest
| MRangeRequest : msg RangeRequest
| MCompactionRequest : msg CompactionRequest
| MTxnRequest : msg TxnRequest
| MLeaseGrantRequest : msg LeaseGrantRequest
| MLeaseRevokeRequest : msg LeaseRevokeRequest
| MLeaseKeepAliveRequest : msg LeaseKeepAliveRequest
| MLeaseKeepAliveBatchRequest : msg LeaseKeepAliveBatchRequest
| MLeaseLeasesRequest : msg unit
| MLeaseTimeToLiveRequest : msg LeaseTimeToLiveRequest
| MTickRequest : msg TickRequest
| MTermRequest : msg TermRequest
| MWatchCreateRequest : msg WatchCreateRequest
| MWatchRequest : msg WatchRequest
| MResponseHeader : msg ResponseHeader
| MPutResponse : msg PutResponse
| MDeleteRangeResponse : msg DeleteRangeResponse
| MRangeResponse : msg RangeResponse
| MTxnResponse : msg TxnResponse
| MCompactionResponse : msg HeaderResponse
| MLeaseGrantResponse : msg LeaseGrantResponse
| MLeaseRevokeResponse : msg HeaderResponse
| MLeaseKeepAliveResponse : msg LeaseKeepAliveResponse
| MLeaseKeepAliveBatchResponse : msg LeaseKeepAliveBatchResponse
| MLeaseLeasesResponse : msg LeaseLeasesResponse
| MLeaseTimeToLiveResponse : msg LeaseTimeToLiveResponse
| MTickResponse : msg TickResponse
| MTermResponse : msg TermResponse
| MEvent : msg Event
| MWatchEventBatch : msg WatchEventBatch
| MWatchEventSync : msg WatchEventSync.

Class Proto : Type := {
  pb_Marshal : forall {A}, msg A -> A -> res bytes;
  pb_Unmarshal : forall {A}, msg A -> bytes -> option A
}.

(** ** Error texts

    [err.Error()]: the text of a gRPC status is the gRPC library's rendering of
    its code and message, the text of a library's own error is the library's. *)

Class ErrLib : Type := {
  status_Error : Z -> string -> bytes;
  lib_Error : error -> bytes
}.

Definition codes_NotFound : Z := 5.
Definition codes_InvalidArgument : Z := 3.
Definition codes_FailedPrecondition : Z := 9.
Definition codes_OutOfRange : Z := 11.

Definition errStatus (e : error) : option (Z * string) :=
  match e with
  | ErrGRPCKeyTooLong => Some (codes_InvalidArgument, "etcdserver: key too long")
  | ErrGRPCEmptyKey => Some (codes_InvalidArgument, "etcdserver: key is not provided")
  | ErrGRPCValueProvided => Some (codes_InvalidArgument, "etcdserver: value is provided")
  | ErrGRPCLeaseProvided => Some (codes_InvalidArgument, "etcdserver: lease is provided")
  | ErrGRPCDuplicateKey => Some (codes_InvalidArgument, "etcdserver: duplicate key given in txn request")
  | ErrGRPCCompacted => Some (codes_OutOfRange, "etcdserver: mvcc: required revision has been compacted")
  | ErrGRPCFutureRev => Some (codes_OutOfRange, "etcdserver: mvcc: required revision is a future revision")
  | ErrGRPCLeaseNotFound => Some (codes_NotFound, "etcdserver: requested lease not found")
  | ErrGRPCLeaseExist => Some (codes_FailedPrecondition, "etcdserver: lease already exists")
  | _ => None
  end%string.

Definition errPlain (e : error) : option string :=
  match e with
  | ErrChecksumInvalid => Some "Checksum invalid"
  | ErrChecksumMissing => Some "Checksum missing"
  | ErrValueInvalid => Some "Value invalid"
  | ErrPatchInvalid => Some "Patch invalid (missing next?)"
  | ErrKeyInvalid => Some "Key invalid"
  | ErrKeyMissing => Some "Key missing"
  | ErrLeaseKeyInvalid => Some "Lease key invalid"
  | ErrNotFound => Some "Not found"
  | ErrTermExpired => Some "Term expired"
  | _ => None
  end%string.

Definition errText `{ErrLib} (e : error) : bytes :=
  match errStatus e with
  | Some (code, desc) => status_Error code desc
  | None => match errPlain e with Some s => str s | None => lib_Error e end
  end.
