(* ===== verification/GrpcErrors.v ===== *)
(** * The table of gRPC errors (src/internal/error.go)

    Every status the package declares, the map from descriptions back to statuses,
    and [Error], which turns an error into the package's [EtcdError]. The statuses are
    named by an enumeration of their own; [errStatus] of Pb gives the code and text of
    those the state machine returns, and [errStatus_table] that they agree. *)

From Stdlib Require Import Strings.String.
From S2P Require Import Prelude Types GoBinary Patch Kv Mdb Db Pb.

Module GrpcErrors.

(** google.golang.org/grpc/codes *)

Definition Canceled : Z := 1.
Definition InvalidArgument : Z := 3.
Definition DeadlineExceeded : Z := 4.
Definition NotFound : Z := 5.
Definition PermissionDenied : Z := 7.
Definition ResourceExhausted : Z := 8.
Definition FailedPrecondition : Z := 9.
Definition OutOfRange : Z := 11.
Definition Unavailable : Z := 14.
Definition DataLoss : Z := 15.
Definition Unauthenticated : Z := 16.

Inductive grpcError : Type :=
| ErrGRPCKeyTooLong
| ErrGRPCValTooLong
| ErrGRPCEmptyKey
| ErrGRPCKeyNotFound
| ErrGRPCValueProvided
| ErrGRPCLeaseProvided
| ErrGRPCTooManyOps
| ErrGRPCDuplicateKey
| ErrGRPCCompacted
| ErrGRPCFutureRev
| ErrGRPCNoSpace
| ErrGRPCLeaseNotFound
| ErrGRPCLeaseExist
| ErrGRPCLeaseTTLTooLarge
| ErrGRPCWatchCanceled
| ErrGRPCMemberExist
| ErrGRPCPeerURLExist
| ErrGRPCMemberNotEnoughStarted
| ErrGRPCMemberBadURLs
| ErrGRPCMemberNotFound
| ErrGRPCMemberNotLearner
| ErrGRPCLearnerNotReady
| ErrGRPCTooManyLearners
| ErrGRPCClusterIdMismatch
| ErrGRPCRequestTooLarge
| ErrGRPCRequestTooManyRequests
| ErrGRPCRootUserNotExist
| ErrGRPCRootRoleNotExist
| ErrGRPCUserAlreadyExist
| ErrGRPCUserEmpty
| ErrGRPCUserNotFound
| ErrGRPCRoleAlreadyExist
| ErrGRPCRoleNotFound
| ErrGRPCRoleEmpty
| ErrGRPCAuthFailed
| ErrGRPCPermissionNotGiven
| ErrGRPCPermissionDenied
| ErrGRPCRoleNotGranted
| ErrGRPCPermissionNotGranted
| ErrGRPCAuthNotEnabled
| ErrGRPCInvalidAuthToken
| ErrGRPCInvalidAuthMgmt
| ErrGRPCAuthOldRevision
| ErrGRPCNoLeader
| ErrGRPCNotLeader
| ErrGRPCLeaderChanged
| ErrGRPCNotCapable
| ErrGRPCStopped
| ErrGRPCTimeout
| ErrGRPCTimeoutDueToLeaderFail
| ErrGRPCTimeoutDueToConnectionLost
| ErrGRPCTimeoutWaitAppliedIndex
| ErrGRPCUnhealthy
| ErrGRPCCorrupt
| ErrGPRCNotSupportedForLearner
| ErrGRPCBadLeaderTransferee
| ErrGRPCClusterVersionUnavailable
| ErrGRPCWrongDowngradeVersionFormat
| ErrGRPCInvalidDowngradeTargetVersion
| ErrGRPCDowngradeInProcess
| ErrGRPCNoInflightDowngrade
| ErrGRPCCanceled
| ErrGRPCDeadlineExceeded.

#[global] Instance grpcError_eq_dec : EqDecision grpcError.
Proof. solve_decision. Defined.

(** The code and message given to [status.New]. *)
Definition statusOf (e : grpcError) : Z * string :=
  match e with
  | ErrGRPCKeyTooLong => (InvalidArgument, "etcdserver: key too long")
  | ErrGRPCValTooLong => (InvalidArgument, "etcdserver: value too long")
  | ErrGRPCEmptyKey => (InvalidArgument, "etcdserver: key is not provided")
  | ErrGRPCKeyNotFound => (InvalidArgument, "etcdserver: key not found")
  | ErrGRPCValueProvided => (InvalidArgument, "etcdserver: value is provided")
  | ErrGRPCLeaseProvided => (InvalidArgument, "etcdserver: lease is provided")
  | ErrGRPCTooManyOps => (InvalidArgument, "etcdserver: too many operations in txn request")
  | ErrGRPCDuplicateKey => (InvalidArgument, "etcdserver: duplicate key given in txn request")
  | ErrGRPCCompacted => (OutOfRange, "etcdserver: mvcc: required revision has been compacted")
  | ErrGRPCFutureRev => (OutOfRange, "etcdserver: mvcc: required revision is a future revision")
  | ErrGRPCNoSpace => (ResourceExhausted, "etcdserver: mvcc: database space exceeded")
  | ErrGRPCLeaseNotFound => (NotFound, "etcdserver: requested lease not found")
  | ErrGRPCLeaseExist => (FailedPrecondition, "etcdserver: lease already exists")
  | ErrGRPCLeaseTTLTooLarge => (OutOfRange, "etcdserver: too large lease TTL")
  | ErrGRPCWatchCanceled => (Canceled, "etcdserver: watch canceled")
  | ErrGRPCMemberExist => (FailedPrecondition, "etcdserver: member ID already exist")
  | ErrGRPCPeerURLExist => (FailedPrecondition, "etcdserver: Peer URLs already exists")
  | ErrGRPCMemberNotEnoughStarted => (FailedPrecondition, "etcdserver: re-configuration failed due to not enough started members")
  | ErrGRPCMemberBadURLs => (InvalidArgument, "etcdserver: given member URLs are invalid")
  | ErrGRPCMemberNotFound => (NotFound, "etcdserver: member not found")
  | ErrGRPCMemberNotLearner => (FailedPrecondition, "etcdserver: can only promote a learner member")
  | ErrGRPCLearnerNotReady => (FailedPrecondition, "etcdserver: can only promote a learner member which is in sync with leader")
  | ErrGRPCTooManyLearners => (FailedPrecondition, "etcdserver: too many learner members in cluster")
  | ErrGRPCClusterIdMismatch => (FailedPrecondition, "etcdserver: cluster ID mismatch")
  | ErrGRPCRequestTooLarge => (InvalidArgument, "etcdserver: request is too large")
  | ErrGRPCRequestTooManyRequests => (ResourceExhausted, "etcdserver: too many requests")
  | ErrGRPCRootUserNotExist => (FailedPrecondition, "etcdserver: root user does not exist")
  | ErrGRPCRootRoleNotExist => (FailedPrecondition, "etcdserver: root user does not have root role")
  | ErrGRPCUserAlreadyExist => (FailedPrecondition, "etcdserver: user name already exists")
  | ErrGRPCUserEmpty => (InvalidArgument, "etcdserver: user name is empty")
  | ErrGRPCUserNotFound => (FailedPrecondition, "etcdserver: user name not found")
  | ErrGRPCRoleAlreadyExist => (FailedPrecondition, "etcdserver: role name already exists")
  | ErrGRPCRoleNotFound => (FailedPrecondition, "etcdserver: role name not found")
  | ErrGRPCRoleEmpty => (InvalidArgument, "etcdserver: role name is empty")
  | ErrGRPCAuthFailed => (InvalidArgument, "etcdserver: authentication failed, invalid user ID or password")
  | ErrGRPCPermissionNotGiven => (InvalidArgument, "etcdserver: permission not given")
  | ErrGRPCPermissionDenied => (PermissionDenied, "etcdserver: permission denied")
  | ErrGRPCRoleNotGranted => (FailedPrecondition, "etcdserver: role is not granted to the user")
  | ErrGRPCPermissionNotGranted => (FailedPrecondition, "etcdserver: permission is not granted to the role")
  | ErrGRPCAuthNotEnabled => (FailedPrecondition, "etcdserver: authentication is not enabled")
  | ErrGRPCInvalidAuthToken => (Unauthenticated, "etcdserver: invalid auth token")
  | ErrGRPCInvalidAuthMgmt => (InvalidArgument, "etcdserver: invalid auth management")
  | ErrGRPCAuthOldRevision => (InvalidArgument, "etcdserver: revision of auth store is old")
  | ErrGRPCNoLeader => (Unavailable, "etcdserver: no leader")
  | ErrGRPCNotLeader => (FailedPrecondition, "etcdserver: not leader")
  | ErrGRPCLeaderChanged => (Unavailable, "etcdserver: leader changed")
  | ErrGRPCNotCapable => (Unavailable, "etcdserver: not capable")
  | ErrGRPCStopped => (Unavailable, "etcdserver: server stopped")
  | ErrGRPCTimeout => (Unavailable, "etcdserver: request timed out")
  | ErrGRPCTimeoutDueToLeaderFail => (Unavailable, "etcdserver: request timed out, possibly due to previous leader failure")
  | ErrGRPCTimeoutDueToConnectionLost => (Unavailable, "etcdserver: request timed out, possibly due to connection lost")
  | ErrGRPCTimeoutWaitAppliedIndex => (Unavailable, "etcdserver: request timed out, waiting for the applied index took too long")
  | ErrGRPCUnhealthy => (Unavailable, "etcdserver: unhealthy cluster")
  | ErrGRPCCorrupt => (DataLoss, "etcdserver: corrupt cluster")
  | ErrGPRCNotSupportedForLearner => (Unavailable, "etcdserver: rpc not supported for learner")
  | ErrGRPCBadLeaderTransferee => (FailedPrecondition, "etcdserver: bad leader transferee")
  | ErrGRPCClusterVersionUnavailable => (Unavailable, "etcdserver: cluster version not found during downgrade")
  | ErrGRPCWrongDowngradeVersionFormat => (InvalidArgument, "etcdserver: wrong downgrade target version format")
  | ErrGRPCInvalidDowngradeTargetVersion => (InvalidArgument, "etcdserver: invalid downgrade target version")
  | ErrGRPCDowngradeInProcess => (FailedPrecondition, "etcdserver: cluster has a downgrade job in progress")
  | ErrGRPCNoInflightDowngrade => (FailedPrecondition, "etcdserver: no inflight downgrade job")
  | ErrGRPCCanceled => (Canceled, "etcdserver: request canceled")
  | ErrGRPCDeadlineExceeded => (DeadlineExceeded, "etcdserver: context deadline exceeded")
  end%string.

(** The values of [errStringToError]; each is entered under its own description. *)
Definition errTable : list grpcError :=
  [ErrGRPCKeyTooLong; ErrGRPCEmptyKey; ErrGRPCKeyNotFound; ErrGRPCValueProvided;
   ErrGRPCLeaseProvided; ErrGRPCTooManyOps; ErrGRPCDuplicateKey; ErrGRPCCompacted;
   ErrGRPCFutureRev; ErrGRPCNoSpace; ErrGRPCLeaseNotFound; ErrGRPCLeaseExist;
   ErrGRPCLeaseTTLTooLarge; ErrGRPCMemberExist; ErrGRPCPeerURLExist;
   ErrGRPCMemberNotEnoughStarted; ErrGRPCMemberBadURLs; ErrGRPCMemberNotFound;
   ErrGRPCMemberNotLearner; ErrGRPCLearnerNotReady; ErrGRPCTooManyLearners;
   ErrGRPCClusterIdMismatch; ErrGRPCRequestTooLarge; ErrGRPCRequestTooManyRequests;
   ErrGRPCRootUserNotExist; ErrGRPCRootRoleNotExist; ErrGRPCUserAlreadyExist; ErrGRPCUserEmpty;
   ErrGRPCUserNotFound; ErrGRPCRoleAlreadyExist; ErrGRPCRoleNotFound; ErrGRPCRoleEmpty;
   ErrGRPCAuthFailed; ErrGRPCPermissionDenied; ErrGRPCRoleNotGranted;
   ErrGRPCPermissionNotGranted; ErrGRPCAuthNotEnabled; ErrGRPCInvalidAuthToken;
   ErrGRPCInvalidAuthMgmt; ErrGRPCAuthOldRevision; ErrGRPCNoLeader; ErrGRPCNotLeader;
   ErrGRPCLeaderChanged; ErrGRPCNotCapable; ErrGRPCStopped; ErrGRPCTimeout;
   ErrGRPCTimeoutDueToLeaderFail; ErrGRPCTimeoutDueToConnectionLost; ErrGRPCUnhealthy;
   ErrGRPCCorrupt; ErrGPRCNotSupportedForLearner; ErrGRPCBadLeaderTransferee;
   ErrGRPCClusterVersionUnavailable; ErrGRPCWrongDowngradeVersionFormat;
   ErrGRPCInvalidDowngradeTargetVersion; ErrGRPCDowngradeInProcess; ErrGRPCNoInflightDowngrade].

(** A Go error as these functions see it: a gRPC status, the package's own error type,
    or any other error with its text. *)
Inductive goError : Type :=
| Status (code : Z) (message : string)
| EtcdError (code : Z) (desc : string)
| OtherError (text : string).

Definition grpcErr (e : grpcError) : goError := Status (fst (statusOf e)) (snd (statusOf e)).

Definition EtcdError_Code (e : goError) : option Z :=
  match e with EtcdError code _ => Some code | _ => None end.

Definition ErrorDesc (e : goError) : string :=
  match e with Status _ m => m | EtcdError _ d => d | OtherError t => t end.

Definition errStringToError (s : string) : option grpcError :=
  List.find (fun e => String.eqb (ErrorDesc (grpcErr e)) s) errTable.

(** [None] is the nil error. *)
Definition Error (err : option goError) : option goError :=
  match err with
  | None => None
  | Some err =>
      match errStringToError (ErrorDesc err) with
      | None => Some err
      | Some verr => Some (EtcdError (fst (statusOf verr)) (snd (statusOf verr)))
      end
  end.

(** ** Facts *)

Definition statuses : list grpcError :=
  errTable ++ [ErrGRPCValTooLong; ErrGRPCWatchCanceled; ErrGRPCPermissionNotGiven;
               ErrGRPCTimeoutWaitAppliedIndex; ErrGRPCCanceled; ErrGRPCDeadlineExceeded].

Lemma statuses_all e : e ∈ statuses.
Proof. apply (bool_decide_unpack (e ∈ statuses)). destruct e; vm_compute; exact I. Qed.

(** No two statuses share a description, so the map loses none of them. *)
Lemma statusOf_inj a b : snd (statusOf a) = snd (statusOf b) -> a = b.
Proof.
  assert (C : forallb (fun a => forallb (fun b =>
     implb (String.eqb (snd (statusOf a)) (snd (statusOf b))) (bool_decide (a = b))) statuses) statuses = true)
    by (vm_compute; reflexivity).
  intros E. rewrite forallb_forall in C.
  specialize (C a (proj1 (list_elem_of_In _ _) (statuses_all a))). rewrite forallb_forall in C.
  specialize (C b (proj1 (list_elem_of_In _ _) (statuses_all b))).
  rewrite E, String.eqb_refl in C. by apply bool_decide_eq_true in C.
Qed.

Lemma errStringToError_in e : e ∈ errTable -> errStringToError (snd (statusOf e)) = Some e.
Proof.
  intros He. unfold errStringToError.
  destruct (List.find _ errTable) as [x|] eqn:F.
  - apply List.find_some in F as [_ F]. apply String.eqb_eq in F. f_equal. by apply statusOf_inj.
  - eapply List.find_none in F; [|by apply list_elem_of_In].
    simpl in F. by rewrite String.eqb_refl in F.
Qed.

Lemma errStringToError_inv s e : errStringToError s = Some e -> e ∈ errTable /\ snd (statusOf e) = s.
Proof.
  intros F. apply List.find_some in F as [Hin F]. apply String.eqb_eq in F.
  split; [by apply list_elem_of_In|done].
Qed.

Lemma errStatus_table e code desc :
  errStatus e = Some (code, desc) -> exists g, g ∈ errTable /\ statusOf g = (code, desc).
Proof.
  assert (D : forall g, bool_decide (g ∈ errTable) = true -> g ∈ errTable)
    by (intros g Hg; by apply bool_decide_eq_true in Hg).
  destruct e; simpl; intros Hs; inversion Hs; subst; clear Hs;
    [exists ErrGRPCKeyTooLong|exists ErrGRPCEmptyKey|exists ErrGRPCValueProvided|exists ErrGRPCLeaseProvided
    |exists ErrGRPCDuplicateKey|exists ErrGRPCCompacted|exists ErrGRPCFutureRev|exists ErrGRPCLeaseNotFound
    |exists ErrGRPCLeaseExist]; (split; [by apply D|reflexivity]).
Qed.

End GrpcErrors.
