(* ===== verification/ModCopies.v ===== *)
(** * The storage module: its encodings and tables (src/module/storage-kv: patch, kv.go, crc.go, lease.go, db*.go, types.go, error.go)

    The module has second copies of the native program's encodings and tables. Their text
    is the native one up to package names and the host's LMDB interface, so each is named
    here as the definition it equals. What differs is written out: the response a record is
    written into may be reused, the tables are opened under fixed numbers, one error text, and the flags
    are constants of the module. *)

From Stdlib Require Import Strings.String.
From S2P Require Import Prelude Types GoBinary Patch Lcs Kv Mdb Db DbLease DbKv Pb GrpcErrors.
Import GrpcErrors.

(** ** patch/lcs *)

Definition mod_lcs_sort := Lcs.sort.
Definition mod_lcs_fix := Lcs.fix_.
Definition mod_lcs_overlap := Lcs.overlap.
Definition mod_lcs_prepend := Lcs.prepend.
Definition mod_lcs_append := Lcs.append.
Definition mod_lcs_ok := Lcs.ok.
Definition mod_lcs_set := Lcs.lset.
Definition mod_lcs_get := Lcs.lget.
Definition mod_commonPrefixLenBytes := Lcs.commonPrefixLenBytes.
Definition mod_commonSuffixLenBytes := Lcs.commonSuffixLenBytes.
Definition mod_commonPrefixLen := Lcs.commonPrefixLen.
Definition mod_commonSuffixLen := Lcs.commonSuffixLen.
Definition mod_toDiffs := Lcs.toDiffs.
Definition mod_fdone := Lcs.fdone.
Definition mod_forward := Lcs.forward.
Definition mod_forwardlcs := Lcs.forwardlcs.
Definition mod_lookForward := Lcs.lookForward.
Definition mod_setForward := Lcs.setForward.
Definition mod_getForward := Lcs.getForward.
Definition mod_backwardlcs := Lcs.backwardlcs.
Definition mod_lookBackward := Lcs.lookBackward.
Definition mod_setBackward := Lcs.setBackward.
Definition mod_getBackward := Lcs.getBackward.
Definition mod_twosided := Lcs.twosided.
Definition mod_twoDone := Lcs.twoDone.
Definition mod_twolcs := Lcs.twolcs.
Definition mod_compute := Lcs.compute.
Definition mod_DiffBytes := Lcs.DiffBytes.

(** ** patch *)

Definition mod_Generate `{Differ} := Generate.
Definition mod_Apply := Apply.
Definition mod_readUvarint := readUvarint.

(** ** types.go: the flags *)

(** [RANGE_COUNT_FULL], [RANGE_COUNT_FAKE] and [TXN_MULTI_WRITE_ENABLED] are variables of
    the host; the others are constants. The module renews no leases in batches itself. *)
Definition moduleConfig (countFull countFake multiWrite : bool) : config :=
  {| PCB_RANGE_COUNT_FULL := countFull;
     PCB_RANGE_COUNT_FAKE := countFake;
     PCB_PATCH_ENABLED := true;
     PCB_COMPRESSION_ENABLED := true;
     PCB_TXN_MULTI_WRITE_ENABLED := multiWrite;
     PCB_WATCH_ID_ZERO_INDEX := false;
     PCB_READ_LOCAL := true;
     PCB_BATCH_LEASE_RENEWAL := false;
     PCB_RESPONSE_SIZE_MAX := Z.shiftl 10 20 |}.

Definition mod_TXN_OPS_LIMIT : Z := 1024.
Definition mod_LIMIT_KEY_LENGTH : Z := 480.

(** ** crc.go, kv.go *)

Definition mod_crc := crc.
Definition mod_newkeyrev := newkeyrev.
Definition mod_keyrev_invert := keyrev_invert.
Definition mod_keyrev_upper := keyrev_upper.
Definition mod_keyrev_lower := keyrev_lower.
Definition mod_keyrev_isdel := keyrev_isdel.
Definition mod_keyrev_key := keyrev_key.
Definition mod_keyrev_appendbytes := keyrev_appendbytes.
Definition mod_keyrev_FromBytes := keyrev_FromBytes.
Definition mod_keyrev_FromKey := keyrev_FromKey.
Definition mod_keyrev_Bytes := keyrev_Bytes.
Definition mod_keyrecord_FromBytes := keyrecord_FromBytes.
Definition mod_keyrecord_Bytes := keyrecord_Bytes.
Definition mod_kvEvent_etype := kvEvent_etype.

(** [PATCH_ENABLED] and [COMPRESSION_ENABLED] are constants of the module. *)
Definition mod_kv_Bytes `{Differ} `{Snappy} := kv_Bytes (moduleConfig true false false).
Definition mod_kv_FromBytes `{Differ} `{Snappy} := kv_FromBytes.

Definition KeyValue_zero : KeyValue := mkKeyValue 0 0 0 0 [] None.

(** [ToProto] may be given a message to write into: [Reset] clears it, then each field
    is assigned. *)
Definition mod_kv_ToProto (target : option KeyValue) (k : kv) : KeyValue :=
  let res := match target with Some r => let r := KeyValue_zero in r | None => KeyValue_zero end in
  let res := mkKeyValue (i64 (kv_created k)) (ModRevision res) (Version res) (Lease res) (Key res) (Value res) in
  let res := mkKeyValue (CreateRevision res) (i64 (keyrev_upper (kv_rev k))) (Version res) (Lease res) (Key res) (Value res) in
  let res := mkKeyValue (CreateRevision res) (ModRevision res) (i64 (kv_version k)) (Lease res) (Key res) (Value res) in
  let res := mkKeyValue (CreateRevision res) (ModRevision res) (Version res) (i64 (kv_lease k)) (Key res) (Value res) in
  let res := mkKeyValue (CreateRevision res) (ModRevision res) (Version res) (Lease res) (kv_key k) (Value res) in
  mkKeyValue (CreateRevision res) (ModRevision res) (Version res) (Lease res) (Key res) (kv_val k).

(** No field of the reused message shows through. *)
Lemma mod_kv_ToProto_eq target k : mod_kv_ToProto target k = kv_ToProto k.
Proof. by destruct target. Qed.

(** ** lease.go, db.go, db_meta.go, db_lease*.go *)

Definition mod_lease_FromBytes := lease_FromBytes.
Definition mod_lease_Bytes := lease_Bytes.
Definition mod_trimChecksum := trimChecksum.
Definition mod_addChecksum := addChecksum.

(** As in the native files, a cursor move that fails is taken to leave an empty key, which
    ends the loops of [all] and [sweep]. *)
Section Tables.
Context `{Mdb}.

Definition mod_getUint64 := getUint64.
Definition mod_putUint64 := putUint64.
Definition mod_getEpoch := getEpoch.
Definition mod_setEpoch := setEpoch.
Definition mod_getIndex := getIndex.
Definition mod_setIndex := setIndex.
Definition mod_getLeaseID := getLeaseID.
Definition mod_setLeaseID := setLeaseID.
Definition mod_getRevision := getRevision.
Definition mod_setRevision := setRevision.
Definition mod_getRevisionCompacted := getRevisionCompacted.
Definition mod_setRevisionCompacted := setRevisionCompacted.
Definition mod_getRevisionMin := getRevisionMin.
Definition mod_setRevisionMin := setRevisionMin.
Definition mod_getTerm := getTerm.
Definition mod_setTerm := setTerm.
Definition mod_dbLease_get := dbLease_get.
Definition mod_dbLease_put := dbLease_put.
Definition mod_dbLease_all := dbLease_all.
Definition mod_dbLease_del := dbLease_del.
Definition mod_dbLeaseExp_put := dbLeaseExp_put.
Definition mod_dbLeaseExp_del := dbLeaseExp_del.
Definition mod_dbLeaseExp_scan {S} := @dbLeaseExp_scan _ S.
Definition mod_dbLeaseKey_put := dbLeaseKey_put.
Definition mod_dbLeaseKey_sweep := dbLeaseKey_sweep.
Definition mod_dbLeaseKey_del := dbLeaseKey_del.

End Tables.

(** ** Opening the tables *)

(** A table is declared with the number the host must give it. *)
Record tableDecl : Type := mkTableDecl { td_name : string; td_i : Z; td_dupsort : bool }.

Definition mod_table (d : dbi) : tableDecl :=
  match d with
  | DbiMeta => mkTableDecl "meta"%string 2 false
  | DbiStats => mkTableDecl "stats"%string 3 false
  | DbiRev => mkTableDecl "revision"%string 4 true
  | DbiEvt => mkTableDecl "event"%string 5 true
  | DbiVal => mkTableDecl "value"%string 6 false
  | DbiLease => mkTableDecl "lease"%string 7 false
  | DbiLeaseExp => mkTableDecl "lease_exp"%string 8 false
  | DbiLeaseKey => mkTableDecl "lease_key"%string 9 false
  end.

Section Open.

(** [OpenDBI] belongs to the host: given a name and whether the table is [DupSort], it
    answers with a number or an error. *)
Context {T : Type} (OpenDBI : T -> string -> bool -> res (T * Z)).

Definition db_open (t : T) (d : tableDecl) : res T :=
  match OpenDBI t (td_name d) (td_dupsort d) with
  | Ok (t, i) => if negb (i =? td_i d) then Panic else Ok t
  | Err _ => Panic
  | Panic => Panic
  | NoFuel => NoFuel
  end.

Fixpoint db_opens (t : T) (ds : list dbi) : res T :=
  match ds with [] => Ok t | d :: ds => let! t := db_open t (mod_table d) in db_opens t ds end.

(** [kvStoreImpl.init] *)
Definition kvStore_open (t : T) : res T := db_opens t [DbiRev; DbiEvt; DbiVal].

(** The order in which [open] opens the tables; the seeding of the metadata is
    [ModMain.mod_metaInit]. *)
Definition mod_openTables (t : T) : res T :=
  let! t := db_opens t [DbiMeta; DbiStats] in
  let! t := kvStore_open t in
  db_opens t [DbiLease; DbiLeaseExp; DbiLeaseKey].

End Open.

Definition dbiOrder : list dbi :=
  [DbiMeta; DbiStats; DbiRev; DbiEvt; DbiVal; DbiLease; DbiLeaseExp; DbiLeaseKey].

(** The flags are those the model of LMDB sorts the tables by. *)
Lemma mod_table_dupsort d : td_dupsort (mod_table d) = dupsort d.
Proof. by destruct d. Qed.

Lemma mod_table_inj d d' : td_i (mod_table d) = td_i (mod_table d') -> d = d'.
Proof. by destruct d, d'. Qed.

Lemma mod_openTables_order {T} (OpenDBI : T -> string -> bool -> res (T * Z)) t :
  mod_openTables OpenDBI t = db_opens OpenDBI t dbiOrder.
Proof.
  unfold mod_openTables, kvStore_open, dbiOrder; cbn [db_opens].
  repeat (destruct (db_open _ _ _); cbn [rbind]; [|done..]). done.
Qed.

(** A host that numbers the tables from [n] in the order in which they are opened. *)
Definition hostOpen (t : Z) (name : string) (dup : bool) : res (Z * Z) := Ok (t + 1, t).

(** The module starts exactly on an environment that has two tables already: LMDB's own
    free list and main table. *)
Lemma mod_openTables_host n : mod_openTables hostOpen n = if n =? 2 then Ok 10 else Panic.
Proof.
  rewrite mod_openTables_order. unfold dbiOrder; cbn [db_opens]. unfold db_open at 1; simpl.
  zcases; subst; done.
Qed.

(** Any table that comes up under another number stops the module. *)
Lemma db_open_number {T} (OpenDBI : T -> string -> bool -> res (T * Z)) t d t' :
  db_open OpenDBI t d = Ok t' <-> OpenDBI t (td_name d) (td_dupsort d) = Ok (t', td_i d).
Proof.
  unfold db_open. destruct (OpenDBI _ _ _) as [[t0 i]| | |]; [|done..].
  zcases; simpl; split; intros E; simplify_eq; try done; lia.
Qed.

(** ** error.go *)

(** One status is renamed, [ErrGRPCValTooLarge], with a text of its own. *)
Definition mod_statusOf (e : grpcError) : Z * string :=
  match e with
  | ErrGRPCValTooLong => (InvalidArgument, "etcdserver: value too large"%string)
  | e => statusOf e
  end.

Definition mod_errTable := errTable.
Definition mod_grpcErr (e : grpcError) : goError := Status (fst (mod_statusOf e)) (snd (mod_statusOf e)).
Definition mod_EtcdError_Code := EtcdError_Code.
Definition mod_ErrorDesc := ErrorDesc.

Definition mod_errStringToError (s : string) : option grpcError :=
  List.find (fun e => String.eqb (mod_ErrorDesc (mod_grpcErr e)) s) mod_errTable.

Definition mod_Error (err : option goError) : option goError :=
  match err with
  | None => None
  | Some err =>
      match mod_errStringToError (mod_ErrorDesc err) with
      | None => Some err
      | Some verr => Some (EtcdError (fst (mod_statusOf verr)) (snd (mod_statusOf verr)))
      end
  end.

(** The renamed status is not in the table, so both programs translate errors alike. *)
Lemma mod_errTable_status e : e ∈ errTable -> mod_statusOf e = statusOf e.
Proof.
  intros He. destruct e; try done.
  exfalso; revert He; apply (bool_decide_unpack (~ ErrGRPCValTooLong ∈ errTable)); vm_compute; exact I.
Qed.

Lemma find_ext_in {A} (f g : A -> bool) (l : list A) :
  (forall x, x ∈ l -> f x = g x) -> List.find f l = List.find g l.
Proof.
  induction l as [|x l IH]; intros Hfg; simpl; [done|].
  rewrite (Hfg x) by set_solver. destruct (g x); [done|]. apply IH. set_solver.
Qed.

Lemma mod_errStringToError_eq s : mod_errStringToError s = errStringToError s.
Proof.
  apply find_ext_in; intros e He. unfold mod_ErrorDesc, ErrorDesc, mod_grpcErr, grpcErr.
  by rewrite mod_errTable_status.
Qed.

Lemma mod_Error_eq err : mod_Error err = Error err.
Proof.
  destruct err as [err|]; [|done]; simpl. rewrite mod_errStringToError_eq.
  destruct (errStringToError _) as [e|] eqn:E; [|done].
  apply errStringToError_inv in E as [He _]. by rewrite mod_errTable_status.
Qed.

Lemma mod_statusOf_renamed : mod_statusOf ErrGRPCValTooLong <> statusOf ErrGRPCValTooLong.
Proof. done. Qed.
