(* ===== verification/Config.v ===== *)
(** * The binaries' configuration (src/cmd/*/config.go) and the paths made from it

    [env.Parse] fills the defaults from the environment and is a parameter. The rest of
    [main] wires libraries together; what it computes itself is the host's tags, the
    addresses it listens on and the directory of a replica, which must not be shared. *)

From Stdlib Require Import Strings.String.
From S2P Require Import Prelude Types GoBinary Patch Kv Mdb Db.

(** ** config.go *)

Record hostConfig : Type := mkConfig {
  ClusterName : bytes; Dir : bytes; HostName : bytes; HostPeers : bytes; HostTags : bytes;
  PortApi : Z; PortGossip : Z; PortRaft : Z; PortZongzi : Z; TlsCrt : bytes; TlsKey : bytes
}.

Definition defaults (dir : bytes) : hostConfig :=
  mkConfig (str "pcb"%string) dir (str "pcb-0"%string) (str "pcb-0:17003,pcb-1:17003,pcb-2:17003"%string) []
           19000 17001 17002 17003 [] [].

(** [None] is the error of [env.Parse]; the cluster binaries keep their data elsewhere. *)
Definition getConfig (Parse : hostConfig -> option hostConfig) : res hostConfig :=
  match Parse (defaults (str "/var/lib/pcb"%string)) with Some cfg => Ok cfg | None => Panic end.
Definition getConfig_cluster (Parse : hostConfig -> option hostConfig) : res hostConfig :=
  match Parse (defaults (str "/var/lib/pantopic/turbokube"%string)) with Some cfg => Ok cfg | None => Panic end.

(** [strings.Split] and [strings.SplitSeq] at a separator of one byte *)
Fixpoint splitByte (sep : byte) (s : bytes) : list bytes :=
  match s with
  | [] => [[]]
  | c :: s =>
      match splitByte sep s with
      | [] => [[c]]
      | t :: ts => if decide (c = sep) then [] :: t :: ts else (c :: t) :: ts
      end
  end.

(** The UTF-8 encodings of the code points for which [unicode.IsSpace] holds *)
Definition spaces : list bytes :=
  ((fun c => [Zb c]) <$> [9; 10; 11; 12; 13; 32])
  ++ ([[Zb 194; Zb 133]; [Zb 194; Zb 160]; [Zb 225; Zb 154; Zb 128]])
  ++ ((fun c => [Zb 226; Zb 128; Zb c]) <$> [128; 129; 130; 131; 132; 133; 134; 135; 136; 137; 138; 168; 169; 175])
  ++ [[Zb 226; Zb 129; Zb 159]; [Zb 227; Zb 128; Zb 128]].

(** The text after the first of [ps] it begins with *)
Definition stripOne (ps : list bytes) (s : bytes) : option bytes :=
  match List.find (fun p => bool_decide (p `prefix_of` s)) ps with
  | Some p => Some (drop (length p) s)
  | None => None
  end.

Fixpoint strip (fuel : nat) (ps : list bytes) (s : bytes) : bytes :=
  match fuel with
  | O => s
  | S f => match stripOne ps s with Some s => strip f ps s | None => s end
  end.

Definition TrimLeft (s : bytes) : bytes := strip (length s) spaces s.
Definition TrimRight (s : bytes) : bytes := rev (strip (length s) (map (@rev byte) spaces) (rev s)).
Definition TrimSpace (s : bytes) : bytes := TrimRight (TrimLeft s).

Definition comma : byte := Zb 44.

Fixpoint tagsLoop (parts tags : list bytes) : list bytes :=
  match parts with
  | [] => tags
  | t :: parts =>
      let t := TrimSpace t in
      if blen t =? 0 then tagsLoop parts tags else tagsLoop parts (tags ++ [t])
  end.

Definition GetHostTags (c : hostConfig) : list bytes := tagsLoop (splitByte comma (HostTags c)) [].

(** ** [fmt.Sprintf] of unsigned numbers: "%d" and "%08x" *)

Definition digit (d : Z) : byte := Zb (if d <? 10 then 48 + d else 87 + d).

(** The least significant digit first *)
Fixpoint digits (fuel : nat) (base n : Z) : bytes :=
  match fuel with
  | O => []
  | S f => digit (n mod base) :: (if n / base =? 0 then [] else digits f base (n / base))
  end.

Definition formatUint (base : Z) (width : nat) (n : Z) : bytes :=
  let ds := digits 64 base n in
  replicate (width - length ds) (digit 0) ++ rev ds.

(** ** main.go: addresses and directories *)

Definition slash : byte := Zb 47.

Definition hostAddr (c : hostConfig) (port : Z) : bytes := HostName c ++ str ":"%string ++ formatUint 10 0 port.
Definition gossipAddr (c : hostConfig) : bytes := hostAddr c (PortGossip c).
Definition raftAddr (c : hostConfig) : bytes := hostAddr c (PortRaft c).
Definition zongziAddr (c : hostConfig) : bytes := hostAddr c (PortZongzi c).
Definition apiAddr (c : hostConfig) : bytes := hostAddr c (PortApi c).
Definition raftDir (c : hostConfig) : bytes := Dir c ++ str "/raft"%string.
Definition walDir (c : hostConfig) : bytes := Dir c ++ str "/wal"%string.
Definition hostPeers (c : hostConfig) : list bytes := splitByte comma (HostPeers c).

(** [ctxInit] of the cluster binaries: "%s/data/%d/%d" *)
Definition lmdbDir (c : hostConfig) (shardID replicaID : Z) : bytes :=
  Dir c ++ str "/data"%string ++ slash :: formatUint 10 0 shardID ++ slash :: formatUint 10 0 replicaID.

(** [NewStateMachineFactory]: "%s/%08x/%08x" *)
Definition envPath (dataDir : bytes) (shardID replicaID : Z) : bytes :=
  dataDir ++ slash :: formatUint 16 8 shardID ++ slash :: formatUint 16 8 replicaID.

(** TLS is used when both files are named. *)
Definition tlsOn (c : hostConfig) : bool := negb (bool_decide (TlsCrt c = [])) && negb (bool_decide (TlsKey c = [])).

(** ** Facts about trimming *)

Section Strip.
Context (ps : list bytes) (Hps : Forall (fun p => p <> []) ps).

(** What no text of [ps] begins *)
Definition clean (s : bytes) : Prop := Forall (fun p => ~ p `prefix_of` s) ps.

Lemma stripOne_None s : stripOne ps s = None <-> clean s.
Proof.
  unfold stripOne, clean. rewrite Forall_forall. split.
  - destruct (List.find _ _) eqn:F; [done|]. intros _ p Hp.
    eapply List.find_none in F; [|by apply list_elem_of_In]. by apply bool_decide_eq_false in F.
  - intros Hc. destruct (List.find _ _) as [p|] eqn:F; [|done].
    apply List.find_some in F as [Hin F]. apply bool_decide_eq_true in F.
    exfalso. by apply (Hc p); [apply list_elem_of_In|].
Qed.

Lemma stripOne_Some s s' : stripOne ps s = Some s' -> exists p, p ∈ ps /\ s = p ++ s'.
Proof.
  unfold stripOne. destruct (List.find _ _) as [p|] eqn:F; [|done]. intros E; simplify_eq.
  apply List.find_some in F as [Hin F]. apply bool_decide_eq_true in F as [r ->].
  exists p. split; [by apply list_elem_of_In|]. by rewrite drop_app_length.
Qed.

Lemma strip_clean fuel s : (length s <= fuel)%nat -> clean (strip fuel ps s).
Proof using Hps.
  revert s; induction fuel as [|f IH]; intros s Hl; simpl.
  - assert (s = []) as -> by (by apply length_zero_iff_nil; lia).
    eapply Forall_impl; [exact Hps|]. intros p Hp Hx. by apply prefix_nil_inv in Hx.
  - destruct (stripOne ps s) as [s'|] eqn:E; [|by apply stripOne_None].
    apply IH. apply stripOne_Some in E as (p & Hp & ->).
    rewrite length_app in Hl. assert (p <> []) by (by eapply Forall_forall in Hp; [|exact Hps]).
    destruct p; [done|]. simpl in Hl. lia.
Qed.

Lemma strip_suffix fuel s : exists t, s = t ++ strip fuel ps s.
Proof.
  revert s; induction fuel as [|f IH]; intros s; simpl; [by exists []|].
  destruct (stripOne ps s) as [s'|] eqn:E; [|by exists []].
  apply stripOne_Some in E as (p & _ & ->). destruct (IH s') as [t Ht].
  exists (p ++ t). by rewrite <- app_assoc, <- Ht.
Qed.

Lemma strip_id fuel s : clean s -> strip fuel ps s = s.
Proof. intros Hc. destruct fuel; simpl; [done|]. apply stripOne_None in Hc. by rewrite Hc. Qed.

Lemma clean_prefix s s' : s' `prefix_of` s -> clean s -> clean s'.
Proof. intros Hs Hc. eapply Forall_impl; [exact Hc|]. intros p Hn Hp. apply Hn. by transitivity s'. Qed.

End Strip.

(** ** Host tags *)

Definition trimmed (t : bytes) : Prop := clean spaces t /\ clean (map (@rev byte) spaces) (rev t).

Lemma spaces_nonempty : Forall (fun p => p <> []) spaces.
Proof. by repeat constructor. Qed.

Lemma rev_spaces_nonempty : Forall (fun p => p <> []) (map (@rev byte) spaces).
Proof. by repeat constructor. Qed.

Lemma TrimSpace_trimmed s : trimmed (TrimSpace s).
Proof.
  pose proof (strip_clean spaces spaces_nonempty _ s (le_n _)) as HL. fold (TrimLeft s) in HL.
  unfold trimmed, TrimSpace, TrimRight. set (l := TrimLeft s) in *. split.
  - eapply clean_prefix; [|exact HL]. destruct (strip_suffix (map (@rev byte) spaces) (length l) (rev l)) as [t Ht].
    exists (rev t). by rewrite <- rev_app_distr, <- Ht, rev_involutive.
  - rewrite rev_involutive. apply strip_clean; [apply rev_spaces_nonempty|]. by rewrite length_rev.
Qed.

Lemma TrimSpace_id s : trimmed s -> TrimSpace s = s.
Proof.
  intros [HL HR]. unfold TrimSpace, TrimRight, TrimLeft.
  by rewrite (strip_id spaces) by done; rewrite strip_id, rev_involutive by done.
Qed.

Lemma TrimSpace_sub s : exists l r, s = l ++ TrimSpace s ++ r.
Proof.
  destruct (strip_suffix spaces (length s) s) as [l Hl]. fold (TrimLeft s) in Hl.
  destruct (strip_suffix (map (@rev byte) spaces) (length (TrimLeft s)) (rev (TrimLeft s))) as [r Hr].
  exists l, (rev r). rewrite Hl at 1. f_equal. unfold TrimSpace, TrimRight.
  by rewrite <- rev_app_distr, <- Hr, rev_involutive.
Qed.

Lemma splitByte_ne sep s : splitByte sep s <> [].
Proof. destruct s; simpl; [done|]. destruct (splitByte sep s); [done|]. by case_decide. Qed.

Lemma splitByte_no_sep sep s : Forall (fun t => sep ∉ t) (splitByte sep s).
Proof.
  induction s as [|c s IH]; simpl; [constructor; [set_solver|constructor]|].
  destruct (splitByte sep s) as [|t ts] eqn:E; [by apply splitByte_ne in E|].
  apply Forall_cons in IH as [Ht Hts]. case_decide.
  - constructor; [apply not_elem_of_nil|by constructor].
  - constructor; [|done]. apply not_elem_of_cons; split; [congruence|done].
Qed.

(** The parts joined by the separator. *)
Fixpoint joinByte (sep : byte) (ts : list bytes) : bytes :=
  match ts with
  | [] => []
  | [t] => t
  | t :: ts => t ++ sep :: joinByte sep ts
  end.

Lemma splitByte_app sep t s : sep ∉ t -> splitByte sep (t ++ sep :: s) = t :: splitByte sep s.
Proof.
  induction t as [|c t IH]; simpl; intros Hn.
  - destruct (splitByte sep s) eqn:E; [by apply splitByte_ne in E|]. by rewrite decide_True.
  - rewrite IH by set_solver. by rewrite decide_False by set_solver.
Qed.

Lemma splitByte_single sep t : sep ∉ t -> splitByte sep t = [t].
Proof.
  induction t as [|c t IH]; simpl; intros Hn; [done|].
  rewrite IH by set_solver. by rewrite decide_False by set_solver.
Qed.

Lemma splitByte_join sep ts :
  ts <> [] -> Forall (fun t => sep ∉ t) ts -> splitByte sep (joinByte sep ts) = ts.
Proof.
  intros Hne Hn; induction Hn as [|t ts Ht Hn IH]; [done|].
  destruct ts as [|t' ts]; [by apply splitByte_single|].
  change (joinByte sep (t :: t' :: ts)) with (t ++ sep :: joinByte sep (t' :: ts)).
  rewrite splitByte_app by done. f_equal. by apply IH.
Qed.

Lemma joinByte_split sep s : joinByte sep (splitByte sep s) = s.
Proof.
  induction s as [|c s IH]; [done|]; simpl.
  destruct (splitByte sep s) as [|t ts] eqn:E; [by apply splitByte_ne in E|].
  case_decide; subst; destruct ts; simpl in *; congruence.
Qed.

Lemma tagsLoop_filter parts tags :
  tagsLoop parts tags = tags ++ filter (fun t => t <> []) (TrimSpace <$> parts).
Proof.
  revert tags; induction parts as [|t parts IH]; intros tags; simpl; [by rewrite app_nil_r|].
  rewrite !IH. unfold blen. destruct (TrimSpace t) as [|b t'] eqn:E.
  - by rewrite filter_cons_False by tauto.
  - rewrite filter_cons_True by done. zcases; simpl in *; [lia|]. by rewrite <- app_assoc.
Qed.

(** Every tag is non-empty, has no space at either end and no comma. *)
Lemma GetHostTags_tags c : Forall (fun t => t <> [] /\ trimmed t /\ comma ∉ t) (GetHostTags c).
Proof.
  unfold GetHostTags. rewrite tagsLoop_filter, Forall_forall. simpl. intros t Ht.
  apply list_elem_of_filter in Ht as [Hne Ht]. apply list_elem_of_fmap in Ht as (p & -> & Hp).
  repeat split; [done|apply TrimSpace_trimmed..|].
  pose proof (splitByte_no_sep comma (HostTags c)) as Hs. rewrite Forall_forall in Hs. specialize (Hs p Hp).
  destruct (TrimSpace_sub p) as (l & r & E). rewrite E in Hs. set_solver.
Qed.

(** Tags that are joined by commas are read back. *)
Lemma GetHostTags_join c ts :
  HostTags c = joinByte comma ts -> Forall (fun t => t <> [] /\ trimmed t /\ comma ∉ t) ts ->
  GetHostTags c = ts.
Proof.
  intros E Hts. unfold GetHostTags. rewrite tagsLoop_filter, E; simpl.
  destruct ts as [|t ts]; [by vm_compute|].
  rewrite splitByte_join; [|done|eapply Forall_impl; [exact Hts|by intros t' (_ & _ & Hc)]].
  clear E. induction Hts as [|t' ts' (Hne & Ht & _) _ IH]; [done|].
  simpl. rewrite TrimSpace_id, filter_cons_True by done. by f_equal.
Qed.

Example tags_spaces : forall c, HostTags c = str " a=1, ,b=2 "%string -> GetHostTags c = [str "a=1"%string; str "b=2"%string].
Proof. intros c E. unfold GetHostTags. rewrite E. by vm_compute. Qed.

(** ** A replica's directory is its own *)

Definition undigit (b : byte) : Z := if bZ b <? 58 then bZ b - 48 else bZ b - 87.
Definition numberOf (base : Z) (s : bytes) : Z := foldr (fun b n => undigit b + base * n) 0 s.

Lemma undigit_digit d : 0 <= d < 16 -> undigit (digit d) = d.
Proof.
  intros Hd. assert (C : forallb (fun d => undigit (digit d) =? d) (Z.of_nat <$> seq 0 16) = true) by (vm_compute; reflexivity).
  rewrite forallb_forall in C. apply Z.eqb_eq, C, list_elem_of_In, list_elem_of_fmap.
  exists (Z.to_nat d). rewrite elem_of_seq. lia.
Qed.

Lemma digit_slash d : 0 <= d < 16 -> digit d <> slash.
Proof.
  intros Hd E. assert (C : forallb (fun d => negb (bool_decide (digit d = slash))) (Z.of_nat <$> seq 0 16) = true) by (vm_compute; reflexivity).
  rewrite forallb_forall in C. rewrite <- (Z2Nat.id d) in E by lia.
  specialize (C (Z.of_nat (Z.to_nat d))). rewrite bool_decide_true in C by done. discriminate C.
  apply list_elem_of_In, list_elem_of_fmap. exists (Z.to_nat d). rewrite elem_of_seq. lia.
Qed.

Section Format.
Context (base : Z) (Hb : 2 <= base <= 16).

Lemma digits_number fuel n : 0 <= n < 2 ^ Z.of_nat fuel -> numberOf base (digits fuel base n) = n.
Proof using Hb.
  revert n; induction fuel as [|f IH]; intros n Hn; simpl; [simpl in Hn; lia|].
  pose proof (Z.mod_pos_bound n base ltac:(lia)). pose proof (Z.div_mod n base ltac:(lia)).
  rewrite undigit_digit by lia. zcases; simpl; [lia|].
  fold (numberOf base (digits f base (n / base))). rewrite IH; [lia|].
  rewrite Nat2Z.inj_succ, Z.pow_succ_r in Hn by lia. split; [apply Z.div_pos; lia|].
  apply Z.div_lt_upper_bound; nia.
Qed.

Lemma numberOf_zeros s k : numberOf base (s ++ replicate k (digit 0)) = numberOf base s.
Proof using.
  unfold numberOf. rewrite foldr_app. f_equal.
  induction k as [|k IH]; simpl; [done|]. rewrite IH, undigit_digit; lia.
Qed.

Lemma formatUint_number w n : is_u64 n -> numberOf base (rev (formatUint base w n)) = n.
Proof using Hb.
  intros Hn. unfold formatUint. rewrite rev_app_distr, rev_involutive. rewrite (rev_alt (replicate _ _)).
  pose proof (reverse_replicate (w - length (digits 64 base n)) (digit 0)) as E. unfold reverse in E.
  rewrite E, numberOf_zeros.
  apply digits_number. exact Hn.
Qed.

Lemma formatUint_inj w n m : is_u64 n -> is_u64 m -> formatUint base w n = formatUint base w m -> n = m.
Proof using Hb.
  intros Hn Hm E. by rewrite <- (formatUint_number w n Hn), E, formatUint_number.
Qed.

Lemma formatUint_slash w n : is_u64 n -> slash ∉ formatUint base w n.
Proof using Hb.
  intros Hn. assert (D : forall f n, 0 <= n -> slash ∉ digits f base n).
  { clear n Hn. induction f as [|f IH]; intros n Hn; simpl; [set_solver|].
    pose proof (Z.mod_pos_bound n base ltac:(lia)). pose proof (Z.div_pos n base Hn ltac:(lia)).
    pose proof (digit_slash (n mod base) ltac:(lia)). specialize (IH (n / base) ltac:(done)).
    apply not_elem_of_cons; split; [congruence|]. zcases; [apply not_elem_of_nil|done]. }
  unfold formatUint. rewrite elem_of_app, elem_of_replicate, list_elem_of_In, <- in_rev, <- list_elem_of_In.
  intros [ [E _]|Hx]; [by apply (digit_slash 0 ltac:(lia))|].
  eapply D; [|exact Hx]. unfold is_u64 in Hn; lia.
Qed.

End Format.

Lemma app_sep_inj {A} (c : A) a a' b b' :
  c ∉ a -> c ∉ a' -> a ++ c :: b = a' ++ c :: b' -> a = a' /\ b = b'.
Proof.
  revert a'; induction a as [|x a IH]; intros [|x' a'] Ha Ha' E; simpl in E.
  - by injection E as ->.
  - injection E as E1 E2. subst x'. destruct Ha'. by left.
  - injection E as E1 E2. subst x. destruct Ha. by left.
  - injection E as -> E2. apply not_elem_of_cons in Ha as [_ Ha], Ha' as [_ Ha'].
    by destruct (IH a' Ha Ha' E2) as [-> ->].
Qed.

(** Whichever way the numbers are printed, no two replicas of a host share a directory. *)
Lemma replicaDir_inj base w prefix s r s' r' :
  2 <= base <= 16 -> is_u64 s -> is_u64 r -> is_u64 s' -> is_u64 r' ->
  prefix ++ slash :: formatUint base w s ++ slash :: formatUint base w r
  = prefix ++ slash :: formatUint base w s' ++ slash :: formatUint base w r' ->
  s = s' /\ r = r'.
Proof.
  intros Hb Hs Hr Hs' Hr' E. apply app_inv_head in E. injection E as E.
  apply app_sep_inj in E as [E1 E2]; [|by apply formatUint_slash..].
  split; by eapply formatUint_inj; [exact Hb| | |eassumption].
Qed.

Lemma envPath_inj d s r s' r' :
  is_u64 s -> is_u64 r -> is_u64 s' -> is_u64 r' -> envPath d s r = envPath d s' r' -> s = s' /\ r = r'.
Proof. intros. by eapply (replicaDir_inj 16 8 d). Qed.

Lemma lmdbDir_inj c s r s' r' :
  is_u64 s -> is_u64 r -> is_u64 s' -> is_u64 r' -> lmdbDir c s r = lmdbDir c s' r' -> s = s' /\ r = r'.
Proof.
  intros ? ? ? ? E. unfold lmdbDir in E. rewrite !(app_assoc (Dir c)) in E. by eapply (replicaDir_inj 10 0) in E.
Qed.

Example envPath_example : envPath (str "/data"%string) 1 26 = str "/data/00000001/0000001a"%string.
Proof. by vm_compute. Qed.
