(* ===== verification/StateMachine.v ===== *)
(** * The replicated state machine: commands (src/state_machine.go, src/types.go)

    [Update] applies a batch of log entries in one write transaction. Each command
    has its [cmd*] function and its case of the switch in [Update], modelled here
    as one handler per case. The log lines and the counters that only feed them
    (statUpdates, statEntries, statTime, statPatched) are left out. *)

From S2P Require Import Prelude Types GoBinary Patch Kv Mdb Db DbLease DbKv Pb.

(** ** Command and query numbers *)

Definition CMD_INTERNAL_TERM : Z := 0.
Definition CMD_INTERNAL_TICK : Z := 1.
Definition CMD_KV_PUT : Z := 2.
Definition CMD_KV_DELETE_RANGE : Z := 3.
Definition CMD_KV_COMPACT : Z := 4.
Definition CMD_KV_TXN : Z := 5.
Definition CMD_LEASE_GRANT : Z := 6.
Definition CMD_LEASE_REVOKE : Z := 7.
Definition CMD_LEASE_KEEP_ALIVE : Z := 8.
Definition CMD_LEASE_KEEP_ALIVE_BATCH : Z := 9.

Definition QUERY_KV_RANGE : Z := 0.
Definition QUERY_LEASE_LEASES : Z := 1.
Definition QUERY_LEASE_TIME_TO_LIVE : Z := 2.
Definition QUERY_WATCH_PROGRESS : Z := 3.
Definition QUERY_HEADER : Z := 4.

(** ** Log entries (zongzi.Entry, zongzi.Result) *)

Record Result : Type := mkResult { res_Value : Z; res_Data : bytes }.
Definition Result_zero : Result := mkResult 0 [].

Record Entry : Type := mkEntry { ent_Index : Z; ent_Cmd : bytes; ent_Result : Result }.

(** ** Comparisons *)

Definition txnIntCompare (cond a b : Z) : bool :=
  if cond =? Compare_EQUAL then a =? b
  else if cond =? Compare_GREATER then b <? a
  else if cond =? Compare_LESS then a <? b
  else if cond =? Compare_NOT_EQUAL then negb (a =? b)
  else false.

(** The switch on the result for a value comparison; an unknown result leaves
    [success] as it was. *)
Definition txnValueCompare (cond : Z) (a b : bytes) (success : bool) : bool :=
  if cond =? Compare_EQUAL then beqb a b
  else if cond =? Compare_GREATER then match bcompare a b with Gt => true | _ => false end
  else if cond =? Compare_LESS then match bcompare a b with Lt => true | _ => false end
  else if cond =? Compare_NOT_EQUAL then negb (beqb a b)
  else success.

(** The switch on the target; the type assertion on the union panics when it does
    not match. *)
Definition txnCompareTarget (cond : Compare) (item : kv) (success : bool) : res bool :=
  let result := cmp_Result cond in
  if cmp_Target cond =? Compare_VERSION then
    match cmp_TargetUnion cond with
    | Compare_Version v => Ok (txnIntCompare result (i64 (kv_version item)) v) | _ => Panic end
  else if cmp_Target cond =? Compare_CREATE then
    match cmp_TargetUnion cond with
    | Compare_CreateRevision v => Ok (txnIntCompare result (i64 (kv_created item)) v) | _ => Panic end
  else if cmp_Target cond =? Compare_MOD then
    match cmp_TargetUnion cond with
    | Compare_ModRevision v => Ok (txnIntCompare result (i64 (keyrev_upper (kv_rev item))) v)
    | _ => Panic end
  else if cmp_Target cond =? Compare_LEASE then
    match cmp_TargetUnion cond with
    | Compare_Lease v => Ok (txnIntCompare result (i64 (kv_lease item)) v) | _ => Panic end
  else if cmp_Target cond =? Compare_VALUE then
    match cmp_TargetUnion cond with
    | Compare_Value v => Ok (txnValueCompare result (sbytes (kv_val item)) v success) | _ => Panic end
  else Ok success.

Section StateMachine.
Context (cfg : config) `{Differ} `{Snappy} `{Mdb} `{Proto} `{ErrLib}.
(** Iteration bound of the loops over tables. *)
Context (fuel : nat).
(** Order in which Go ranges over a map. *)
Context (mapRange : list (bytes * Z) -> list (bytes * Z)).
(** [sm.shardID], [sm.replicaID]. *)
Context (shardID replicaID : Z).

Definition responseHeader (rev : Z) : ResponseHeader :=
  mkResponseHeader (i64 rev) shardID replicaID 0.

(** ** cmdPut *)

(** The attachment index follows a put that changes the lease of a key. *)
Definition putLeaseKey (t : txn) (req : PutRequest) (prev : kv) : res txn :=
  if negb (pr_IgnoreLease req) && negb (i64 (kv_lease prev) =? pr_Lease req) then
    let! t := if 0 <? pr_Lease req then dbLeaseKey_put t (u64 (pr_Lease req)) (pr_Key req) else Ok t in
    if 0 <? kv_lease prev then dbLeaseKey_del t (kv_lease prev) (pr_Key req) else Ok t
  else Ok t.

Definition cmdPut (t : txn) (rev subrev epoch : Z) (req : PutRequest)
  : res (txn * (PutResponse * Z * list bytes)) :=
  let! '(t, (prev, next, patched)) :=
    dbKv_put cfg t rev subrev (u64 (pr_Lease req)) epoch (pr_Key req) (pr_Value req)
      (pr_IgnoreValue req) (pr_IgnoreLease req) in
  let! t := putLeaseKey t req prev in
  Ok (t, (mkPutResponse None (if pr_PrevKv req then Some (kv_ToProto prev) else None),
          1, [pr_Key req])).

(** ** cmdDeleteRange *)

Fixpoint deleteLeaseKeys (t : txn) (prev : list keyrecord) (keys : list bytes)
  : res (txn * list bytes) :=
  match prev with
  | [] => Ok (t, keys)
  | krec :: prev =>
      let keys := keys ++ [kr_key krec] in
      let! t := if negb (kr_lease krec =? 0) then dbLeaseKey_del t (kr_lease krec) (kr_key krec)
                else Ok t in
      deleteLeaseKeys t prev keys
  end.

(** The error of the last [getRev] is what the function returns. *)
Fixpoint deletePrevKvs (t : txn) (prev : list keyrecord) (kvs : list KeyValue) (err : option error)
  : res (list KeyValue * option error) :=
  match prev with
  | [] => Ok (kvs, err)
  | prec :: prev =>
      let! '(item, pr, err) := dbKv_getRev fuel t (kr_key prec) (keyrev_upper (kr_rev prec)) false in
      deletePrevKvs t prev (kvs ++ [kv_ToProto item]) err
  end.

(** [make([][]byte, len(prev))] followed by [append]: the keys come after as many
    nil slices. *)
Definition cmdDeleteRange (t : txn) (rev subrev epoch : Z) (req : DeleteRangeRequest)
  : res (txn * (DeleteRangeResponse * list bytes)) :=
  let! '(t, (prev, n)) := dbKv_deleteRange cfg fuel t rev subrev epoch (dr_Key req) (dr_RangeEnd req) in
  let! '(t, keys) := deleteLeaseKeys t prev (replicate (length prev) []) in
  let! '(kvs, err) := if dr_PrevKv req then deletePrevKvs t prev [] None else Ok ([], None) in
  match err with
  | Some e => Err e
  | None => Ok (t, (mkDeleteRangeResponse (Some (responseHeader rev)) n kvs, keys))
  end.

(** ** Lease commands *)

(** [for { item.id++; ... }]: the next id with no lease. *)
Fixpoint nextLeaseID (n : nat) (t : txn) (id : Z) : res Z :=
  match n with
  | O => NoFuel
  | S n =>
      let id := u64 (id + 1) in
      let! found := dbLease_get t id in
      if l_id found =? 0 then Ok id else nextLeaseID n t id
  end.

Definition cmdLeaseGrant (t : txn) (epoch : Z) (req : LeaseGrantRequest)
  : res (txn * (LeaseGrantResponse * Z)) :=
  let! '(t, item) :=
    if u64 (lg_ID req) =? 0 then
      let! id := getLeaseID t in
      let! id := nextLeaseID fuel t id in
      let! t := setLeaseID t id in
      Ok (t, mkLease id 0 0)
    else
      let! item := dbLease_get t (u64 (lg_ID req)) in
      Ok (t, mkLease (u64 (lg_ID req)) (l_expires item) (l_renewed item)) in
  if 0 <? l_expires item then
    Ok (t, (mkLeaseGrantResponse None 0 0 (errText ErrGRPCLeaseExist), 0))
  else
    let item := mkLease (l_id item) (u64 (epoch + u64 (lg_TTL req))) epoch in
    let! t := dbLease_put t item in
    let! t := dbLeaseExp_put t item in
    Ok (t, (mkLeaseGrantResponse None (i64 (l_id item)) (lg_TTL req) [], 1)).

(** Sweep the attachments in batches of 100 and delete their keys. *)
Fixpoint revokeLoop (n : nat) (t : txn) (rev epoch id : Z) (keys : list bytes)
  : res (txn * list bytes) :=
  match n with
  | O => NoFuel
  | S n =>
      let! '(t, batch) := dbLeaseKey_sweep t id 100 in
      if blen batch =? 0 then Ok (t, keys) else
      let! t := dbKv_deleteBatch t rev 0 epoch batch in
      revokeLoop n t rev epoch id (keys ++ batch)
  end.

Definition cmdLeaseRevoke (t : txn) (rev epoch id : Z) : res (txn * (list bytes * Z)) :=
  let! item := dbLease_get t id in
  if l_id item =? 0 then Ok (t, ([], codes_NotFound)) else
  let! '(t, keys) := revokeLoop fuel t rev epoch (l_id item) [] in
  let! t := dbLeaseExp_del t item in
  let! t := dbLease_del t (l_id item) in
  Ok (t, (keys, 1)).

(** The renewal both keep-alive commands do for a lease that exists. *)
Definition renewLease (t : txn) (epoch : Z) (item : lease) : res (txn * Z) :=
  let ttl := i64 (l_expires item - l_renewed item) in
  let item := mkLease (l_id item) (u64 (epoch + u64 ttl)) epoch in
  let! t := dbLease_put t item in
  let! t := dbLeaseExp_put t item in
  Ok (t, ttl).

Definition cmdLeaseKeepAlive (t : txn) (epoch : Z) (req : LeaseKeepAliveRequest)
  : res (txn * (LeaseKeepAliveResponse * Z)) :=
  let! item := dbLease_get t (u64 (lk_ID req)) in
  if l_id item =? 0 then Ok (t, (mkLeaseKeepAliveResponse None (lk_ID req) 0, 1)) else
  let! '(t, ttl) := renewLease t epoch item in
  Ok (t, (mkLeaseKeepAliveResponse None (lk_ID req) ttl, 1)).

Fixpoint keepAliveBatchLoop (t : txn) (epoch : Z) (ids : list Z) (ttls : list Z)
  : res (txn * list Z) :=
  match ids with
  | [] => Ok (t, ttls)
  | id :: ids =>
      let! item := dbLease_get t (u64 id) in
      if l_id item =? 0 then keepAliveBatchLoop t epoch ids (ttls ++ [0]) else
      let! '(t, ttl) := renewLease t epoch item in
      keepAliveBatchLoop t epoch ids (ttls ++ [ttl])
  end.

Definition cmdLeaseKeepAliveBatch (t : txn) (epoch : Z) (req : LeaseKeepAliveBatchRequest)
  : res (txn * (LeaseKeepAliveBatchResponse * Z)) :=
  let! '(t, ttls) := keepAliveBatchLoop t epoch (lkb_IDs req) [] in
  Ok (t, (mkLeaseKeepAliveBatchResponse None ttls, 1)).

(** ** Queries *)

Definition queryRange (t : txn) (rev : Z) (req : RangeRequest) : res RangeResponse :=
  let! guard :=
    if 0 <? rr_Revision req then
      let! min := getRevisionMin t in
      if rr_Revision req <? i64 min then Err ErrGRPCCompacted
      else if i64 rev <? rr_Revision req then Err ErrGRPCFutureRev
      else Ok tt
    else Ok tt in
  let! '(items, count, more) :=
    dbKv_getRange cfg fuel t
      (mkRangeReq (rr_Key req) (rr_RangeEnd req) (u64 (rr_Revision req))
         (u64 (rr_MinModRevision req)) (u64 (rr_MaxModRevision req))
         (u64 (rr_MinCreateRevision req)) (u64 (rr_MaxCreateRevision req))
         (u64 (rr_Limit req)) (rr_KeysOnly req))
      (rr_CountOnly req) in
  Ok (mkRangeResponse (Some (responseHeader rev))
        (if rr_CountOnly req then [] else kv_ToProto <$> items)
        (if rr_CountOnly req then false else more)
        (if rr_CountOnly req || PCB_RANGE_COUNT_FULL cfg || PCB_RANGE_COUNT_FAKE cfg
         then count else 0)).

Definition queryLeaseLeases (t : txn) : res LeaseLeasesResponse :=
  let! items := dbLease_all fuel t in
  Ok (mkLeaseLeasesResponse None ((fun item => i64 (l_id item)) <$> items)).

Definition queryLeaseTimeToLive (t : txn) (req : LeaseTimeToLiveRequest)
  : res LeaseTimeToLiveResponse :=
  let! epoch := getEpoch t in
  let! item := dbLease_get t (u64 (ltl_ID req)) in
  Ok (mkLeaseTimeToLiveResponse None
        (if 0 <? l_expires item then i64 (l_expires item - epoch) else -1)).

(** ** Transactions *)

Fixpoint txnCompareLoop (t : txn) (conds : list Compare) (success : bool) : res bool :=
  match conds with
  | [] => Ok success
  | cond :: conds =>
      let! '(item, err) := dbKv_get fuel t (cmp_Key cond) in
      match err with Some e => Err e | None =>
      if (0 <? blen (kv_key item)) && negb (beqb (cmp_Key cond) (kv_key item)) then Ok false else
      let! success := txnCompareTarget cond item success in
      if success then txnCompareLoop t conds success else Ok false
      end
  end.

Definition txnCompare (t : txn) (conds : list Compare) : res bool := txnCompareLoop t conds true.

(** The closure run in the nested transaction: its contents and error. The responses and
    keys collected so far are variables of the caller and survive an error. What the
    operation that fails has written before it fails is not in the contents returned. *)
Fixpoint txnOpsLoop (t : txn) (rev epoch : Z) (i : Z) (ops : list RequestOp)
    (rs : list ResponseOp) (keys : list bytes)
  : res (txn * list ResponseOp * list bytes * option error) :=
  let stop e := Ok (t, rs, keys, Some e) in
  match ops with
  | [] => Ok (t, rs, keys, None)
  | op :: ops =>
      match op with
      | RequestPut putReq =>
          match cmdPut t rev i epoch putReq with
          | Ok (t, (putRes, val, affected)) =>
              txnOpsLoop t rev epoch (i + 1) ops (rs ++ [ResponsePut putRes]) (keys ++ affected)
          | Err e => stop e
          | Panic => Panic
          | NoFuel => NoFuel
          end
      | RequestDeleteRange delReq =>
          match cmdDeleteRange t rev i epoch delReq with
          | Ok (t, (delRes, affected)) =>
              txnOpsLoop t rev epoch (i + 1) ops (rs ++ [ResponseDeleteRange delRes]) (keys ++ affected)
          | Err e => stop e
          | Panic => Panic
          | NoFuel => NoFuel
          end
      | RequestRange rangeReq =>
          match queryRange t rev rangeReq with
          | Ok rangeRes =>
              txnOpsLoop t rev epoch (i + 1) ops (rs ++ [ResponseRange rangeRes]) keys
          | Err e => stop e
          | Panic => Panic
          | NoFuel => NoFuel
          end
      | RequestOther => txnOpsLoop t rev epoch (i + 1) ops rs keys
      end
  end.

(** [txn.Sub(fn)]: [fn] runs in a nested transaction, which is aborted when [fn] returns an
    error and committed otherwise. *)
Definition txnSub {A} (t : txn) (start : A) (fn : txn -> res (txn * A * option error))
  : res (txn * A * option error) :=
  match sub_begin t with
  | Err e => Ok (t, start, Some e)
  | Panic => Panic
  | NoFuel => NoFuel
  | Ok s =>
      let! '(s, a, err) := fn s in
      match err with
      | Some e => Ok (sub_abort t s, a, Some e)
      | None =>
          match sub_commit t s with
          | Ok t => Ok (t, a, None)
          | Err e => Ok (sub_abort t s, a, Some e)
          | Panic => Panic
          | NoFuel => NoFuel
          end
      end
  end.

Definition txnOps (t : txn) (rev epoch : Z) (ops : list RequestOp)
  : res (txn * list ResponseOp * list bytes * option error) :=
  let! '(t, (rs, keys), err) :=
    txnSub t ([], []) (fun s =>
      let! '(s, rs, keys, err) := txnOpsLoop s rev epoch 0 ops [] [] in Ok (s, (rs, keys), err)) in
  Ok (t, rs, keys, err).

End StateMachine.
