(* ===== verification/RangeQuery.v ===== *)
(** * A range request answered from the history (src/state_machine.go: queryRange)

    [queryRange] answers with what the history holds, or refuses the revision. *)

From S2P Require Import Prelude Types GoBinary Patch Kv Mdb MdbFacts Db DbFacts DbLease DbKv History DbKvRead DbKvRange Pb StateMachine.

(** The store's request for a client's. *)
Definition reqRange (req : RangeRequest) : rangeReq :=
  mkRangeReq (rr_Key req) (rr_RangeEnd req) (u64 (rr_Revision req))
    (u64 (rr_MinModRevision req)) (u64 (rr_MaxModRevision req))
    (u64 (rr_MinCreateRevision req)) (u64 (rr_MaxCreateRevision req))
    (u64 (rr_Limit req)) (rr_KeysOnly req).

(** A request is refused when its revision was compacted (below [min]) or is to come
    (after [rev]). *)
Definition refusedAt (min rev : Z) (req : RangeRequest) : option error :=
  if 0 <? rr_Revision req then
    if rr_Revision req <? i64 min then Some ErrGRPCCompacted
    else if i64 rev <? rr_Revision req then Some ErrGRPCFutureRev else None
  else None.

Definition refused (m : metadata) : RangeRequest -> option error := refusedAt (m_revMin m) (m_rev m).

(** What the scan of the keys [ks] finds. *)
Definition found (cfg : config) (M : history) (ks : list bytes) (req : RangeRequest) : rangeAcc :=
  rangeSpec cfg (reqRange req) M (filter (fun k => ~ blt k (rr_Key req)) ks) (mkRangeAcc [] 0 false (rr_CountOnly req)).

Definition countShown (cfg : config) (req : RangeRequest) (count : Z) : Z :=
  if rr_CountOnly req || PCB_RANGE_COUNT_FULL cfg || PCB_RANGE_COUNT_FAKE cfg then count else 0.

Definition foundResponse (cfg : config) (h : ResponseHeader) (req : RangeRequest) (a : rangeAcc) (items : list kv) : RangeResponse :=
  mkRangeResponse (Some h) (if rr_CountOnly req then [] else kv_ToProto <$> items)
    (if rr_CountOnly req then false else ra_more a) (countShown cfg req (ra_count a)).

(** The response with the records [items] of an answer of [count] records. *)
Definition fullResponse (cfg : config) (h : ResponseHeader) (items : list kv) (count : Z) : RangeResponse :=
  mkRangeResponse (Some h) (kv_ToProto <$> items) false
    (if PCB_RANGE_COUNT_FULL cfg || PCB_RANGE_COUNT_FAKE cfg then count else 0).

Section RangeQuery.
Context (cfg : config) `{DifferOk} `{SnappyOk} `{MdbOk}.
Context (fuel : nat) (shardID replicaID : Z).

Lemma queryRange_found n t min rev M ks req :
  getRevisionMin t = Ok min -> Rep cfg t M -> rr_Key req <> [] ->
  StronglySorted blt ks -> (forall k, k ∈ ks <-> M k <> []) -> (forall k, (length (M k) <= n)%nat) -> (length ks + n < fuel)%nat ->
  match refusedAt min rev req with
  | Some e => queryRange cfg fuel shardID replicaID t rev req = Err e
  | None => exists items, Forall2 (rangeItem (rr_KeysOnly req)) (ra_items (found cfg M ks req)) items
      /\ queryRange cfg fuel shardID replicaID t rev req
         = Ok (foundResponse cfg (responseHeader shardID replicaID rev) req (found cfg M ks req) items)
  end.
Proof.
  intros HM HR Hk Hs Hks Hn Hf. unfold refusedAt, queryRange. rewrite HM. cbn [rbind]. fold (reqRange req).
  destruct (getRange_ok cfg fuel n t M ks (reqRange req) (rr_CountOnly req)) as (items & E & Hi); try done.
  change (rangeSpec _ _ _ _ _) with (found cfg M ks req) in E, Hi.
  destruct (0 <? rr_Revision req); [destruct (rr_Revision req <? i64 min); [done|]; destruct (i64 rev <? rr_Revision req); [done|]|];
    cbn [rbind]; (exists items; split; [exact Hi|]; rewrite E; reflexivity).
Qed.

(** An unlimited request for the records gets all of them. *)
Lemma queryRange_ok n t m M ks req :
  MetaRep t m -> Rep cfg t M -> rr_Key req <> [] -> rr_Limit req = 0 -> rr_CountOnly req = false ->
  StronglySorted blt ks -> (forall k, k ∈ ks <-> M k <> []) -> (forall k, (length (M k) <= n)%nat) -> (length ks + n < fuel)%nat ->
  match refused m req with
  | Some e => queryRange cfg fuel shardID replicaID t (m_rev m) req = Err e
  | None => exists items, Forall2 (rangeItem (rr_KeysOnly req)) (answer (reqRange req) M ks) items
      /\ queryRange cfg fuel shardID replicaID t (m_rev m) req
         = Ok (fullResponse cfg (responseHeader shardID replicaID (m_rev m)) items (blen (answer (reqRange req) M ks)))
  end.
Proof.
  intros HM HR Hk Hlim Hco Hs Hks Hn Hf.
  pose proof (queryRange_found n t (m_revMin m) (m_rev m) M ks req (getRevisionMin_rep t m HM) HR Hk Hs Hks Hn Hf) as HQ.
  unfold refused. destruct (refusedAt (m_revMin m) (m_rev m) req); [done|]. destruct HQ as (items & Hi & ->).
  assert (Hl : rq_limit (reqRange req) <= 0) by (unfold reqRange; cbn [rq_limit]; rewrite Hlim; vm_compute; discriminate).
  unfold found, foundResponse, countShown, fullResponse in *. rewrite Hco in *.
  change (rr_Key req) with (rq_key (reqRange req)) in *. rewrite rangeSpec_answer, rangeFold_unlimited in Hi |- * by done.
  cbn in Hi |- *. eauto.
Qed.

End RangeQuery.
