(* ===== verification/Update.v ===== *)
(** * The replicated state machine: Open, Update, Query (src/state_machine.go)

    One handler per case of the switch in [Update], the loop over the entries of a
    batch, the commit that ends it, and [Query] with its read-only transactions. *)

From S2P Require Import Prelude Types GoBinary Patch Kv Mdb Db DbLease DbKv Pb StateMachine.

Section Update.
Context (cfg : config) `{Differ} `{Snappy} `{Mdb} `{Proto} `{ErrLib}.
Context (fuel : nat) (mapRange : list (bytes * Z) -> list (bytes * Z)) (shardID replicaID : Z).

(** The variables of [Update] that its loop changes: the transaction, the epoch,
    [newRev] and the keys to notify. *)
Record updState : Type := mkUpd { u_txn : txn; u_epoch : Z; u_newRev : Z; u_keys : list bytes }.

(** What a case leaves: the variables and the entry's result. *)
Abbreviation handled := (res (updState * Result)).

(** [[]byte(err.Error())] as result data, with the result's value untouched. *)
Definition withError (r : Result) (e : error) : Result := mkResult (res_Value r) (errText e).

Definition bump (newRev : Z) (affected : list bytes) : Z :=
  if 0 <? blen affected then u64 (newRev + 1) else newRev.

Definition handlePut (s : updState) (cmd : bytes) (r : Result) : handled :=
  match pb_Unmarshal MPutRequest cmd with
  | None => Ok (s, r)
  | Some req =>
      if pr_IgnoreLease req && negb (pr_Lease req =? 0) then Ok (s, withError r ErrGRPCLeaseProvided) else
      if pr_IgnoreValue req && negb (blen (sbytes (pr_Value req)) =? 0)
      then Ok (s, withError r ErrGRPCValueProvided) else
      let! found :=
        if negb (pr_Lease req =? 0) then
          let! item := dbLease_get (u_txn s) (u64 (pr_Lease req)) in Ok (negb (l_id item =? 0))
        else Ok true in
      if negb found then Ok (s, withError r ErrGRPCLeaseNotFound) else
      match cmdPut cfg (u_txn s) (u64 (u_newRev s + 1)) 0 (u_epoch s) req with
      | Ok (t, (res, val, affected)) =>
          let newRev := bump (u_newRev s) affected in
          let res := mkPutResponse (Some (responseHeader shardID replicaID newRev)) (pres_PrevKv res) in
          let! data := pb_Marshal MPutResponse res in
          Ok (mkUpd t (u_epoch s) newRev (u_keys s ++ affected), mkResult val data)
      | Err ErrGRPCKeyTooLong => Ok (s, withError r ErrGRPCKeyTooLong)
      | Err ErrGRPCEmptyKey => Ok (s, withError r ErrGRPCEmptyKey)
      | Err e => Err e
      | Panic => Panic
      | NoFuel => NoFuel
      end
  end.

Definition handleDeleteRange (s : updState) (cmd : bytes) (r : Result) : handled :=
  match pb_Unmarshal MDeleteRangeRequest cmd with
  | None => Ok (s, r)
  | Some req =>
      let! '(t, (res, affected)) :=
        cmdDeleteRange cfg fuel shardID replicaID (u_txn s) (u64 (u_newRev s + 1)) 0 (u_epoch s) req in
      let newRev := bump (u_newRev s) affected in
      let res := mkDeleteRangeResponse (Some (responseHeader shardID replicaID newRev))
                   (dres_Deleted res) (dres_PrevKvs res) in
      let! data := pb_Marshal MDeleteRangeResponse res in
      Ok (mkUpd t (u_epoch s) newRev (u_keys s ++ affected), mkResult 1 data)
  end.

Definition handleCompact (s : updState) (cmd : bytes) (r : Result) : handled :=
  match pb_Unmarshal MCompactionRequest cmd with
  | None => Ok (s, r)
  | Some req =>
      let! '(t, rev) := dbKv_compact fuel fuel mapRange (u_txn s) (u64 (cr_Revision req)) in
      let! data := pb_Marshal MCompactionResponse
                     (mkHeaderResponse (Some (responseHeader shardID replicaID (u_newRev s)))) in
      let! t := setRevisionMin t (u64 (cr_Revision req)) in
      let! t := setRevisionCompacted t rev in
      Ok (mkUpd t (u_epoch s) (u_newRev s) (u_keys s), mkResult 1 data)
  end.

(** The error of marshalling the response is not looked at. *)
Definition handleTxn (s : updState) (cmd : bytes) (r : Result) : handled :=
  match pb_Unmarshal MTxnRequest cmd with
  | None => Ok (s, r)
  | Some req =>
      let! success := txnCompare fuel (u_txn s) (tr_Compare req) in
      let! '(t, rs, affected, err) :=
        txnOps cfg fuel shardID replicaID (u_txn s) (u64 (u_newRev s + 1)) (u_epoch s)
          (if success then tr_Success req else tr_Failure req) in
      let newRev := bump (u_newRev s) affected in
      match err with
      | Some ErrGRPCDuplicateKey | Some ErrGRPCKeyTooLong | Some ErrGRPCEmptyKey =>
          Ok (mkUpd t (u_epoch s) newRev (u_keys s), mkResult (res_Value r) (from_option errText [] err))
      | Some e => Err e
      | None =>
          let res := mkTxnResponse (Some (responseHeader shardID replicaID newRev)) success rs in
          let! data := match pb_Marshal MTxnResponse res with
                       | Ok b => Ok b | Err _ => Ok [] | Panic => Panic | NoFuel => NoFuel end in
          Ok (mkUpd t (u_epoch s) newRev (u_keys s ++ affected), mkResult 1 data)
      end
  end.

Definition handleLeaseGrant (s : updState) (cmd : bytes) (r : Result) : handled :=
  match pb_Unmarshal MLeaseGrantRequest cmd with
  | None => Ok (s, r)
  | Some req =>
      let! '(t, (res, val)) := cmdLeaseGrant fuel (u_txn s) (u_epoch s) req in
      let res := mkLeaseGrantResponse (Some (responseHeader shardID replicaID (u_newRev s)))
                   (lgres_ID res) (lgres_TTL res) (lgres_Error res) in
      let! data := pb_Marshal MLeaseGrantResponse res in
      Ok (mkUpd t (u_epoch s) (u_newRev s) (u_keys s), mkResult val data)
  end.

Definition handleLeaseRevoke (s : updState) (cmd : bytes) (r : Result) : handled :=
  match pb_Unmarshal MLeaseRevokeRequest cmd with
  | None => Ok (s, r)
  | Some req =>
      let! '(t, (affected, val)) :=
        cmdLeaseRevoke fuel (u_txn s) (u64 (u_newRev s + 1)) (u_epoch s) (u64 (lr_ID req)) in
      let newRev := bump (u_newRev s) affected in
      let! data := pb_Marshal MLeaseRevokeResponse
                     (mkHeaderResponse (Some (responseHeader shardID replicaID newRev))) in
      Ok (mkUpd t (u_epoch s) newRev (u_keys s ++ affected), mkResult val data)
  end.

Definition handleLeaseKeepAlive (s : updState) (cmd : bytes) (r : Result) : handled :=
  match pb_Unmarshal MLeaseKeepAliveRequest cmd with
  | None => Ok (s, r)
  | Some req =>
      let! '(t, (res, val)) := cmdLeaseKeepAlive (u_txn s) (u_epoch s) req in
      let res := mkLeaseKeepAliveResponse (Some (responseHeader shardID replicaID (u_newRev s)))
                   (lkres_ID res) (lkres_TTL res) in
      let! data := pb_Marshal MLeaseKeepAliveResponse res in
      Ok (mkUpd t (u_epoch s) (u_newRev s) (u_keys s), mkResult val data)
  end.

Definition handleLeaseKeepAliveBatch (s : updState) (cmd : bytes) (r : Result) : handled :=
  match pb_Unmarshal MLeaseKeepAliveBatchRequest cmd with
  | None => Ok (s, r)
  | Some req =>
      let! '(t, (res, val)) := cmdLeaseKeepAliveBatch (u_txn s) (u_epoch s) req in
      let res := mkLeaseKeepAliveBatchResponse (Some (responseHeader shardID replicaID (u_newRev s)))
                   (lkbres_TTLs res) in
      let! data := pb_Marshal MLeaseKeepAliveBatchResponse res in
      Ok (mkUpd t (u_epoch s) (u_newRev s) (u_keys s), mkResult val data)
  end.

(** The body of the range over expired leases. *)
Definition tickRevoke (epoch : Z) (t : txn) (s : Z * list bytes) (id : Z)
  : res (txn * (Z * list bytes)) :=
  let! '(t, (affected, val)) := cmdLeaseRevoke fuel t (u64 (fst s + 1)) epoch id in
  Ok (t, (bump (fst s) affected, snd s ++ affected)).

Definition handleTick (s : updState) (index : Z) (cmd : bytes) (r : Result) : handled :=
  match pb_Unmarshal MTickRequest cmd with
  | None => Ok (s, r)
  | Some req =>
      let! term := getTerm (u_txn s) in
      if tick_Term req <? term then Ok (s, withError r ErrTermExpired) else
      let epoch := u64 (u_epoch s + 1) in
      let! t := setEpoch (u_txn s) epoch in
      let! '(t, (newRev, keys)) :=
        dbLeaseExp_scan fuel t epoch (tickRevoke epoch) (u_newRev s, u_keys s) in
      let! data := pb_Marshal MTickResponse (mkTickResponse epoch) in
      Ok (mkUpd t epoch newRev keys, mkResult index data)
  end.

Definition handleTerm (s : updState) (index : Z) (cmd : bytes) (r : Result) : handled :=
  match pb_Unmarshal MTermRequest cmd with
  | None => Ok (s, r)
  | Some req =>
      let! term := getTerm (u_txn s) in
      if term_Term req <? term then Ok (s, withError r ErrTermExpired) else
      let! t := setTerm (u_txn s) (term_Term req) in
      let! data := pb_Marshal MTermResponse mkTermResponse in
      Ok (mkUpd t (u_epoch s) (u_newRev s) (u_keys s), mkResult index data)
  end.

(** ** The switch: [ent.Cmd[len(ent.Cmd)-1]] selects the case, the rest is the message. *)

Definition updateEntry (s : updState) (ent : Entry) : handled :=
  match last (ent_Cmd ent) with
  | None => Panic
  | Some op =>
      let cmd := take (length (ent_Cmd ent) - 1) (ent_Cmd ent) in
      let r := ent_Result ent in
      if bZ op =? CMD_KV_PUT then handlePut s cmd r
      else if bZ op =? CMD_KV_DELETE_RANGE then handleDeleteRange s cmd r
      else if bZ op =? CMD_KV_COMPACT then handleCompact s cmd r
      else if bZ op =? CMD_KV_TXN then handleTxn s cmd r
      else if bZ op =? CMD_LEASE_GRANT then handleLeaseGrant s cmd r
      else if bZ op =? CMD_LEASE_REVOKE then handleLeaseRevoke s cmd r
      else if bZ op =? CMD_LEASE_KEEP_ALIVE then handleLeaseKeepAlive s cmd r
      else if bZ op =? CMD_LEASE_KEEP_ALIVE_BATCH then handleLeaseKeepAliveBatch s cmd r
      else if bZ op =? CMD_INTERNAL_TICK then handleTick s (ent_Index ent) cmd r
      else if bZ op =? CMD_INTERNAL_TERM then handleTerm s (ent_Index ent) cmd r
      else Ok (s, r)
  end.

Fixpoint updateLoop (s : updState) (entries : list Entry) : res (updState * list Entry) :=
  match entries with
  | [] => Ok (s, [])
  | ent :: entries =>
      let! '(s, r) := updateEntry s ent in
      let! '(s, done) := updateLoop s entries in
      Ok (s, mkEntry (ent_Index ent) (ent_Cmd ent) r :: done)
  end.

(** The function passed to [env.Update]: the new contents, [rev], [newRev], the
    keys to notify and the entries with their results. *)
Definition updateTxn (t : txn) (entries : list Entry) : res (txn * (Z * Z * list bytes * list Entry)) :=
  let! epoch := getEpoch t in
  let! rev := getRevision t in
  let! '(s, done) := updateLoop (mkUpd t epoch rev []) entries in
  match last entries with
  | None => Panic
  | Some ent =>
      let! t := setIndex (u_txn s) (ent_Index ent) in
      let! t := if rev <? u_newRev s then setRevision t (u_newRev s) else Ok t in
      Ok (t, (rev, u_newRev s, u_keys s, done))
  end.

(** ** The state machine between calls

    [sm_env] is the committed contents of the environment, [sm_localRevision] the
    package variable [localRevision] the range service reads. *)

Record stateMachine : Type := mkSm {
  sm_env : txn; sm_localRevision : Z
}.

(** Watchers are found by [byteinterval.Tree.FindAny]; the result lists the
    watchers that receive [newRev]. An error of the transaction aborts it and the
    call panics. *)
Definition Update {W} (findAny : list bytes -> list W) (sm : stateMachine) (entries : list Entry)
  : res (stateMachine * list Entry * list (W * Z)) :=
  match updateTxn (sm_env sm) entries with
  | Ok (t, (rev, newRev, keys, done)) =>
      Ok (mkSm t (if negb (rev =? newRev) then newRev else sm_localRevision sm),
          done, (fun w => (w, newRev)) <$> findAny keys)
  | Err _ => Panic
  | Panic => Panic
  | NoFuel => NoFuel
  end.

(** [Open] on an environment that is there: create the tables, seed the metadata and
    report the last applied index. *)
Definition Open (env : txn) : res (txn * Z) := newDbMeta env.

(** ** Query *)

(** A query that fails answers with the error's text and value 0. *)
Definition queryResult (data : res bytes) : res Result :=
  match data with
  | Ok b => Ok (mkResult 1 b)
  | Err e => Ok (mkResult 0 (errText e))
  | Panic => Panic
  | NoFuel => NoFuel
  end.

(** [None]: the nil result of a range response that cannot be marshalled. *)
Definition queryKvRange (t : txn) (q : bytes) : res (option Result) :=
  match pb_Unmarshal MRangeRequest q with
  | None => Ok (Some Result_zero)
  | Some req =>
      match (let! rev := getRevision t in queryRange cfg fuel shardID replicaID t rev req) with
      | Ok resp =>
          match pb_Marshal MRangeResponse resp with
          | Ok b => Ok (Some (mkResult 1 b))
          | Err _ => Ok None
          | Panic => Panic
          | NoFuel => NoFuel
          end
      | Err e => Ok (Some (mkResult 0 (errText e)))
      | Panic => Panic
      | NoFuel => NoFuel
      end
  end.

Definition queryLeases (t : txn) (q : bytes) : res Result :=
  match pb_Unmarshal MLeaseLeasesRequest q with
  | None => Ok Result_zero
  | Some _ =>
      queryResult
        (let! rev := getRevision t in
         let! resp := queryLeaseLeases fuel t in
         pb_Marshal MLeaseLeasesResponse
           (mkLeaseLeasesResponse (Some (responseHeader shardID replicaID rev)) (llres_Leases resp)))
  end.

Definition queryTimeToLive (t : txn) (q : bytes) : res Result :=
  match pb_Unmarshal MLeaseTimeToLiveRequest q with
  | None => Ok Result_zero
  | Some req =>
      queryResult
        (let! rev := getRevision t in
         let! resp := queryLeaseTimeToLive t req in
         pb_Marshal MLeaseTimeToLiveResponse
           (mkLeaseTimeToLiveResponse (Some (responseHeader shardID replicaID rev)) (ltres_TTL resp)))
  end.

(** The error of reading the revision is overwritten; the revision is then 0. *)
Definition queryHeader (t : txn) : res Result :=
  let! rev := match getRevision t with
              | Ok rev => Ok rev | Err _ => Ok 0 | Panic => Panic | NoFuel => NoFuel end in
  queryResult (pb_Marshal MResponseHeader (responseHeader shardID replicaID rev)).

Definition Query (sm : stateMachine) (query : bytes) : res (option Result) :=
  match last query with
  | None => Panic
  | Some op =>
      let t := sm_env sm in
      let q := take (length query - 1) query in
      if bZ op =? QUERY_KV_RANGE then queryKvRange t q
      else if bZ op =? QUERY_LEASE_LEASES then let! r := queryLeases t q in Ok (Some r)
      else if bZ op =? QUERY_LEASE_TIME_TO_LIVE then let! r := queryTimeToLive t q in Ok (Some r)
      else if bZ op =? QUERY_WATCH_PROGRESS then let! r := queryHeader t in Ok (Some r)
      else if bZ op =? QUERY_HEADER then let! r := queryHeader t in Ok (Some r)
      else Ok (Some Result_zero)
  end.

End Update.
