(* ===== verification/ModMain.v ===== *)
(** * The storage module: its state machine (src/module/storage-kv/main.go)

    The host calls [open] once, then for each batch of the log [update] per entry and
    [finish] at its end, and [read] for queries. The package variables of the module are
    the record [modState]; [md_env] is what the host has committed. The commands and
    queries are the native ones but for the deletes, which report the keys and read the
    values [ModStore] gives them; the cases of [update] differ from those of the native
    [Update] in what they do with errors, in queueing notices per revision, and in that a
    tick compacts. *)

From Stdlib Require Import Strings.String.
From S2P Require Import Prelude Types GoBinary Patch Kv Mdb Db DbLease DbKv Pb StateMachine Update ModStore.

(** ** types.go of the module: the last byte of a command or query *)

Definition MCMD_INTERNAL_TERM : Z := 0.
Definition MCMD_INTERNAL_TICK : Z := 1.
Definition MCMD_KV_COMPACT : Z := 2.
Definition MCMD_KV_DELETE_RANGE : Z := 3.
Definition MCMD_KV_PUT : Z := 4.
Definition MCMD_KV_TXN : Z := 5.
Definition MCMD_LEASE_GRANT : Z := 6.
Definition MCMD_LEASE_KEEP_ALIVE : Z := 7.
Definition MCMD_LEASE_KEEP_ALIVE_BATCH : Z := 8.
Definition MCMD_LEASE_REVOKE : Z := 9.

Definition MQUERY_HEADER : Z := 0.
Definition MQUERY_KV_RANGE : Z := 1.
Definition MQUERY_LEASE_LEASES : Z := 2.
Definition MQUERY_LEASE_TIME_TO_LIVE : Z := 3.
Definition MQUERY_WATCH_PROGRESS : Z := 4.

Section ModMain.
Context (cfg : config) `{Differ} `{Snappy} `{Mdb} `{HostSlices} `{Proto} `{ErrLib}.
Context (fuel : nat) (mapRange : list (bytes * Z) -> list (bytes * Z)) (shardID replicaID : Z).

(** ** Commands and queries shared with src/state_machine.go

    [txnCompare] reads with [mod_get], which is the native [get] ([ModSlices.mod_get_eq]). *)

Definition mod_cmdPut := cmdPut cfg.
Definition mod_txnCompare := txnCompare fuel.
Definition mod_cmdLeaseGrant := cmdLeaseGrant fuel.
Definition mod_cmdLeaseRevoke := cmdLeaseRevoke fuel.
Definition mod_cmdLeaseKeepAlive := cmdLeaseKeepAlive.
Definition mod_cmdLeaseKeepAliveBatch := cmdLeaseKeepAliveBatch.
Definition mod_queryRange := queryRange cfg fuel shardID replicaID.
Definition mod_queryLeaseLeases := queryLeaseLeases fuel.
Definition mod_queryLeaseTimeToLive := queryLeaseTimeToLive.
Definition mod_responseHeader := responseHeader shardID replicaID.

(** ** Deletes, and transactions with them *)

Fixpoint mod_deletePrevKvs (t : txn) (prev : list keyrecord) (kvs : list KeyValue) (err : option error)
  : res (list KeyValue * option error) :=
  match prev with
  | [] => Ok (kvs, err)
  | prec :: prev =>
      let! '(item, pr, err) := mod_getRev fuel t (kr_key prec) (keyrev_upper (kr_rev prec)) false in
      mod_deletePrevKvs t prev (kvs ++ [kv_ToProto item]) err
  end.

Definition mod_cmdDeleteRange (t : txn) (rev subrev epoch : Z) (req : DeleteRangeRequest)
  : res (txn * (DeleteRangeResponse * list bytes)) :=
  let! '(t, (prev, n)) := mod_deleteRange cfg fuel t rev subrev epoch (dr_Key req) (dr_RangeEnd req) in
  let! '(t, keys) := deleteLeaseKeys t prev (replicate (length prev) []) in
  let! '(kvs, err) := if dr_PrevKv req then mod_deletePrevKvs t prev [] None else Ok ([], None) in
  match err with
  | Some e => Err e
  | None => Ok (t, (mkDeleteRangeResponse (Some (mod_responseHeader rev)) n kvs, keys))
  end.

Fixpoint mod_txnOpsLoop (t : txn) (rev epoch : Z) (i : Z) (ops : list RequestOp)
    (rs : list ResponseOp) (keys : list bytes)
  : res (txn * list ResponseOp * list bytes * option error) :=
  let stop e := Ok (t, rs, keys, Some e) in
  match ops with
  | [] => Ok (t, rs, keys, None)
  | op :: ops =>
      match op with
      | RequestPut putReq =>
          match mod_cmdPut t rev i epoch putReq with
          | Ok (t, (putRes, val, affected)) =>
              mod_txnOpsLoop t rev epoch (i + 1) ops (rs ++ [ResponsePut putRes]) (keys ++ affected)
          | Err e => stop e
          | Panic => Panic
          | NoFuel => NoFuel
          end
      | RequestDeleteRange delReq =>
          match mod_cmdDeleteRange t rev i epoch delReq with
          | Ok (t, (delRes, affected)) =>
              mod_txnOpsLoop t rev epoch (i + 1) ops (rs ++ [ResponseDeleteRange delRes]) (keys ++ affected)
          | Err e => stop e
          | Panic => Panic
          | NoFuel => NoFuel
          end
      | RequestRange rangeReq =>
          match mod_queryRange t rev rangeReq with
          | Ok rangeRes =>
              mod_txnOpsLoop t rev epoch (i + 1) ops (rs ++ [ResponseRange rangeRes]) keys
          | Err e => stop e
          | Panic => Panic
          | NoFuel => NoFuel
          end
      | RequestOther => mod_txnOpsLoop t rev epoch (i + 1) ops rs keys
      end
  end.

Definition mod_txnOps (t : txn) (rev epoch : Z) (ops : list RequestOp)
  : res (txn * list ResponseOp * list bytes * option error) :=
  let! '(t, (rs, keys), err) :=
    txnSub t ([], []) (fun s =>
      let! '(s, rs, keys, err) := mod_txnOpsLoop s rev epoch 0 ops [] [] in Ok (s, (rs, keys), err)) in
  Ok (t, rs, keys, err).

(** [panic(... + err.Error())] *)
Definition must {A} (r : res A) : res A := match r with Err _ => Panic | r => r end.

(** ** open *)

(** The two loops of [dbMeta.init]: an error of the first panics, of the second ends
    [init] with the contents so far. *)
Fixpoint mod_seed (t : txn) (keys : list bytes) (def : Z) : res (txn * bool) :=
  match keys with
  | [] => Ok (t, true)
  | k :: ks =>
      match (match getUint64 DbiMeta t k with
             | Err ErrMdbNotFound => putUint64 DbiMeta t k def
             | Ok _ => Ok t
             | Err e => Err e
             | Panic => Panic
             | NoFuel => NoFuel
             end) with
      | Ok t => mod_seed t ks def
      | Err _ => Ok (t, false)
      | Panic => Panic
      | NoFuel => NoFuel
      end
  end.

Definition mod_metaInit (t : txn) : res (txn * Z) :=
  let! '(t, good) := mod_seed t [metaKeyEpoch; metaKeyIndex; metaKeyLeaseID; metaKeyRevisionCompacted; metaKeyTerm] 0 in
  if negb good then Panic else
  let! '(t, good) := mod_seed t [metaKeyRevision; metaKeyRevisionMin] 1 in
  if negb good then Ok (t, 0) else
  let! index := must (getIndex t) in Ok (t, index).

(** ** The package variables *)

Record modState : Type := mkMod {
  md_env : txn; md_txn : option txn; md_epoch : Z; md_newIndex : Z; md_newRev : Z; md_oldRev : Z;
  md_queue : list (Z * list bytes)
}.

(** The tables of the other components hold nothing to seed. *)
Definition mod_open (env : txn) : res (modState * Z) :=
  let! '(t, index) := mod_metaInit env in Ok (mkMod t None 0 0 0 0 [], index).

(** The variables a case of [update] changes. *)
Record modUpd : Type := mkModUpd { mu_txn : txn; mu_epoch : Z; mu_newRev : Z; mu_queue : list (Z * list bytes) }.

Abbreviation modHandled := (res (modUpd * (Z * bytes))).

Definition invalid (cmd : bytes) : bytes := str "Invalid command: " ++ cmd.

(** [if len(affected) > 0 { newRev++; range_watch.Queue(newRev, affected) }] *)
Definition advance (s : modUpd) (t : txn) (affected : list bytes) : modUpd :=
  if 0 <? blen affected
  then mkModUpd t (mu_epoch s) (u64 (mu_newRev s + 1)) (mu_queue s ++ [(u64 (mu_newRev s + 1), affected)])
  else mkModUpd t (mu_epoch s) (mu_newRev s) (mu_queue s).

Definition withTxn (s : modUpd) (t : txn) : modUpd := mkModUpd t (mu_epoch s) (mu_newRev s) (mu_queue s).

(** ** The cases: [full] is the whole command, [cmd] the message without the last byte *)

Definition mod_put_ (s : modUpd) (full cmd : bytes) : modHandled :=
  match pb_Unmarshal MPutRequest cmd with
  | None => Ok (s, (0, invalid full))
  | Some req =>
      if pr_IgnoreLease req && negb (pr_Lease req =? 0) then Ok (s, (0, errText ErrGRPCLeaseProvided)) else
      if pr_IgnoreValue req && negb (blen (sbytes (pr_Value req)) =? 0)
      then Ok (s, (0, errText ErrGRPCValueProvided)) else
      let run :=
        match mod_cmdPut (mu_txn s) (u64 (mu_newRev s + 1)) 0 (mu_epoch s) req with
        | Ok (t, (res, val, affected)) =>
            let s := advance s t affected in
            let! data := must (pb_Marshal MPutResponse
                                 (mkPutResponse (Some (mod_responseHeader (mu_newRev s))) (pres_PrevKv res))) in
            Ok (s, (val, data))
        | Err ErrGRPCKeyTooLong => Ok (s, (0, errText ErrGRPCKeyTooLong))
        | Err ErrGRPCEmptyKey => Ok (s, (0, errText ErrGRPCEmptyKey))
        | Err _ => Panic
        | Panic => Panic
        | NoFuel => NoFuel
        end in
      if negb (pr_Lease req =? 0) then
        match dbLease_get (mu_txn s) (u64 (pr_Lease req)) with
        | Ok item => if l_id item =? 0 then Ok (s, (0, errText ErrGRPCLeaseNotFound)) else run
        | Err _ => Ok (s, (0, []))
        | Panic => Panic
        | NoFuel => NoFuel
        end
      else run
  end.

Definition mod_delete (s : modUpd) (full cmd : bytes) : modHandled :=
  match pb_Unmarshal MDeleteRangeRequest cmd with
  | None => Ok (s, (0, invalid full))
  | Some req =>
      let! '(t, (res, affected)) :=
        must (mod_cmdDeleteRange (mu_txn s) (u64 (mu_newRev s + 1)) 0 (mu_epoch s) req) in
      let s := advance s t affected in
      let! data := must (pb_Marshal MDeleteRangeResponse
                           (mkDeleteRangeResponse (Some (mod_responseHeader (mu_newRev s)))
                              (dres_Deleted res) (dres_PrevKvs res))) in
      Ok (s, (1, data))
  end.

(** Only the target is stored; the ticks compact. *)
Definition mod_compact_ (s : modUpd) (full cmd : bytes) : modHandled :=
  match pb_Unmarshal MCompactionRequest cmd with
  | None => Ok (s, (0, invalid full))
  | Some req =>
      match pb_Marshal MCompactionResponse (mkHeaderResponse (Some (mod_responseHeader (mu_newRev s)))) with
      | Err e => Ok (s, (0, errText e))
      | Panic => Panic
      | NoFuel => NoFuel
      | Ok data =>
          match setRevisionMin (mu_txn s) (u64 (cr_Revision req)) with
          | Ok t => Ok (withTxn s t, (1, data))
          | Err e => Ok (s, (0, errText e))
          | Panic => Panic
          | NoFuel => NoFuel
          end
      end
  end.

(** The revision advances and the keys are queued also when the operations failed. *)
Definition mod_txn (s : modUpd) (full cmd : bytes) : modHandled :=
  match pb_Unmarshal MTxnRequest cmd with
  | None => Ok (s, (0, invalid full))
  | Some req =>
      match mod_txnCompare (mu_txn s) (tr_Compare req) with
      | Err _ => Ok (s, (0, []))
      | Panic => Panic
      | NoFuel => NoFuel
      | Ok success =>
          let! '(t, rs, affected, err) :=
            mod_txnOps (mu_txn s) (u64 (mu_newRev s + 1)) (mu_epoch s)
              (if success then tr_Success req else tr_Failure req) in
          let s := advance s t affected in
          match err with
          | Some ErrGRPCDuplicateKey | Some ErrGRPCKeyTooLong | Some ErrGRPCEmptyKey =>
              Ok (s, (0, from_option errText [] err))
          | Some _ => Ok (s, (0, []))
          | None =>
              let! data := must (pb_Marshal MTxnResponse
                                   (mkTxnResponse (Some (mod_responseHeader (mu_newRev s))) success rs)) in
              Ok (s, (1, data))
          end
      end
  end.

Definition mod_grant (s : modUpd) (full cmd : bytes) : modHandled :=
  match pb_Unmarshal MLeaseGrantRequest cmd with
  | None => Ok (s, (0, invalid full))
  | Some req =>
      let! '(t, (res, val)) := must (mod_cmdLeaseGrant (mu_txn s) (mu_epoch s) req) in
      let! data := must (pb_Marshal MLeaseGrantResponse
                           (mkLeaseGrantResponse (Some (mod_responseHeader (mu_newRev s)))
                              (lgres_ID res) (lgres_TTL res) (lgres_Error res))) in
      Ok (withTxn s t, (val, data))
  end.

Definition mod_revoke (s : modUpd) (full cmd : bytes) : modHandled :=
  match pb_Unmarshal MLeaseRevokeRequest cmd with
  | None => Ok (s, (0, invalid full))
  | Some req =>
      let! '(t, (affected, val)) :=
        must (mod_cmdLeaseRevoke (mu_txn s) (u64 (mu_newRev s + 1)) (mu_epoch s) (u64 (lr_ID req))) in
      let s := advance s t affected in
      let! data := must (pb_Marshal MLeaseRevokeResponse (mkHeaderResponse (Some (mod_responseHeader (mu_newRev s))))) in
      Ok (s, (val, data))
  end.

Definition mod_keepAlive (s : modUpd) (full cmd : bytes) : modHandled :=
  match pb_Unmarshal MLeaseKeepAliveRequest cmd with
  | None => Ok (s, (0, invalid full))
  | Some req =>
      let! '(t, (res, val)) := must (mod_cmdLeaseKeepAlive (mu_txn s) (mu_epoch s) req) in
      let! data := must (pb_Marshal MLeaseKeepAliveResponse
                           (mkLeaseKeepAliveResponse (Some (mod_responseHeader (mu_newRev s))) (lkres_ID res) (lkres_TTL res))) in
      Ok (withTxn s t, (val, data))
  end.

Definition mod_keepAliveBatch (s : modUpd) (full cmd : bytes) : modHandled :=
  match pb_Unmarshal MLeaseKeepAliveBatchRequest cmd with
  | None => Ok (s, (0, invalid full))
  | Some req =>
      let! '(t, (res, val)) := must (mod_cmdLeaseKeepAliveBatch (mu_txn s) (mu_epoch s) req) in
      let! data := must (pb_Marshal MLeaseKeepAliveBatchResponse
                           (mkLeaseKeepAliveBatchResponse (Some (mod_responseHeader (mu_newRev s))) (lkbres_TTLs res))) in
      Ok (withTxn s t, (val, data))
  end.

(** The body of the range over expired leases. *)
Definition mod_expire (epoch : Z) (t : txn) (s : modUpd) (id : Z) : res (txn * modUpd) :=
  let! '(t, (affected, _)) := must (mod_cmdLeaseRevoke t (u64 (mu_newRev s + 1)) epoch id) in
  Ok (t, advance s t affected).

(** After the leases: compact to the stored target. An error is the answer; what was
    done stays. *)
Definition mod_tickCompact (s : modUpd) : res (modUpd * option error) :=
  match getRevisionMin (mu_txn s) with
  | Err e => Ok (s, Some e)
  | Panic => Panic
  | NoFuel => NoFuel
  | Ok min =>
      let! '(t, rev, err) := mod_compact fuel fuel mapRange (mu_txn s) min in
      match err with
      | Some e => Ok (withTxn s t, Some e)
      | None =>
          match setRevisionCompacted t rev with
          | Ok t => Ok (withTxn s t, None)
          | Err e => Ok (withTxn s t, Some e)
          | Panic => Panic
          | NoFuel => NoFuel
          end
      end
  end.

Definition mod_tick (s : modUpd) (index : Z) (full cmd : bytes) : modHandled :=
  match pb_Unmarshal MTickRequest cmd with
  | None => Ok (s, (0, invalid full))
  | Some req =>
      let! term := must (getTerm (mu_txn s)) in
      if tick_Term req <? term then Ok (s, (0, errText ErrTermExpired)) else
      let epoch := u64 (mu_epoch s + 1) in
      let! t := must (setEpoch (mu_txn s) epoch) in
      let s := mkModUpd t epoch (mu_newRev s) (mu_queue s) in
      let! '(t, s) := dbLeaseExp_scan fuel t epoch (mod_expire epoch) s in
      let! '(s, err) := mod_tickCompact (withTxn s t) in
      match err with
      | Some e => Ok (s, (0, errText e))
      | None =>
          let! data := must (pb_Marshal MTickResponse (mkTickResponse epoch)) in
          Ok (s, (index, data))
      end
  end.

Definition mod_term (s : modUpd) (index : Z) (full cmd : bytes) : modHandled :=
  match pb_Unmarshal MTermRequest cmd with
  | None => Ok (s, (0, invalid full))
  | Some req =>
      let! term := must (getTerm (mu_txn s)) in
      if term_Term req <? term then Ok (s, (0, errText ErrTermExpired)) else
      let! t := must (setTerm (mu_txn s) (term_Term req)) in
      let! data := must (pb_Marshal MTermResponse mkTermResponse) in
      Ok (withTxn s t, (index, data))
  end.

Definition mod_switch (s : modUpd) (index : Z) (full : bytes) : modHandled :=
  match last full with
  | None => Panic
  | Some op =>
      let cmd := take (length full - 1) full in
      if bZ op =? MCMD_KV_PUT then mod_put_ s full cmd
      else if bZ op =? MCMD_KV_DELETE_RANGE then mod_delete s full cmd
      else if bZ op =? MCMD_KV_COMPACT then mod_compact_ s full cmd
      else if bZ op =? MCMD_KV_TXN then mod_txn s full cmd
      else if bZ op =? MCMD_LEASE_GRANT then mod_grant s full cmd
      else if bZ op =? MCMD_LEASE_REVOKE then mod_revoke s full cmd
      else if bZ op =? MCMD_LEASE_KEEP_ALIVE then mod_keepAlive s full cmd
      else if bZ op =? MCMD_LEASE_KEEP_ALIVE_BATCH then mod_keepAliveBatch s full cmd
      else if bZ op =? MCMD_INTERNAL_TICK then mod_tick s index full cmd
      else if bZ op =? MCMD_INTERNAL_TERM then mod_term s index full cmd
      else Ok (s, (0, []))
  end.

(** ** update, finish *)

(** The first entry of a batch opens the transaction and reads epoch and revision. *)
Definition mod_begin (s : modState) : res modState :=
  match md_txn s with
  | Some _ => Ok s
  | None =>
      let! epoch := must (getEpoch (md_env s)) in
      let! rev := must (getRevision (md_env s)) in
      Ok (mkMod (md_env s) (Some (md_env s)) epoch (md_newIndex s) rev rev (md_queue s))
  end.

Definition mod_update (s : modState) (index : Z) (cmd : bytes) : res (modState * (Z * bytes)) :=
  let! s := mod_begin s in
  match md_txn s with
  | None => Panic
  | Some t =>
      let! '(u, r) := mod_switch (mkModUpd t (md_epoch s) (md_newRev s) (md_queue s)) index cmd in
      Ok (mkMod (md_env s) (Some (mu_txn u)) (mu_epoch u) index (mu_newRev u) (md_oldRev s) (mu_queue u), r)
  end.

(** Commit; the queued notices are what [range_watch.Flush] hands on. Without an open
    transaction the host has none to write to. *)
Definition mod_finish (s : modState) : res (modState * list (Z * list bytes)) :=
  match md_txn s with
  | None => Panic
  | Some t =>
      let! t := must (setIndex t (md_newIndex s)) in
      let! t := if md_oldRev s <? md_newRev s then must (setRevision t (md_newRev s)) else Ok t in
      Ok (mkMod t None (md_epoch s) (md_newIndex s) (md_newRev s) (md_oldRev s) [], md_queue s)
  end.

(** A batch of the log. *)
Fixpoint mod_updates (s : modState) (entries : list (Z * bytes)) : res (modState * list (Z * bytes)) :=
  match entries with
  | [] => Ok (s, [])
  | (index, cmd) :: entries =>
      let! '(s, r) := mod_update s index cmd in
      let! '(s, rs) := mod_updates s entries in Ok (s, r :: rs)
  end.

Definition mod_batch (s : modState) (entries : list (Z * bytes))
  : res (modState * list (Z * bytes) * list (Z * list bytes)) :=
  let! '(s, rs) := mod_updates s entries in
  let! '(s, notices) := mod_finish s in Ok (s, rs, notices).

(** ** read *)

Definition invalidQuery (q : bytes) : bytes := str "Invalid query: " ++ q.

(** A query answers with value 1, or with value 0 and the error's text. *)
Definition answer (data : res bytes) : res (Z * bytes) :=
  match data with
  | Ok b => Ok (1, b)
  | Err e => Ok (0, errText e)
  | Panic => Panic
  | NoFuel => NoFuel
  end.

Definition mod_readRange (t : txn) (full q : bytes) : res (Z * bytes) :=
  match pb_Unmarshal MRangeRequest q with
  | None => Ok (0, invalidQuery full)
  | Some req =>
      answer (let! rev := getRevision t in
              let! resp := mod_queryRange t rev req in pb_Marshal MRangeResponse resp)
  end.

Definition mod_readLeases (t : txn) (full q : bytes) : res (Z * bytes) :=
  match pb_Unmarshal MLeaseLeasesRequest q with
  | None => Ok (0, invalidQuery full)
  | Some _ =>
      answer (let! rev := getRevision t in
              let! resp := mod_queryLeaseLeases t in
              pb_Marshal MLeaseLeasesResponse
                (mkLeaseLeasesResponse (Some (mod_responseHeader rev)) (llres_Leases resp)))
  end.

Definition mod_readTimeToLive (t : txn) (full q : bytes) : res (Z * bytes) :=
  match pb_Unmarshal MLeaseTimeToLiveRequest q with
  | None => Ok (0, invalidQuery full)
  | Some req =>
      answer (let! rev := getRevision t in
              let! resp := mod_queryLeaseTimeToLive t req in
              pb_Marshal MLeaseTimeToLiveResponse
                (mkLeaseTimeToLiveResponse (Some (mod_responseHeader rev)) (ltres_TTL resp)))
  end.

(** [watchProgress] is the revision of the last notices; an error of reading the revision
    for a header is overwritten and the revision is then 0. *)
Definition mod_read (t : txn) (watchProgress : Z) (query : bytes) : res (Z * bytes) :=
  match last query with
  | None => Panic
  | Some op =>
      let q := take (length query - 1) query in
      if bZ op =? MQUERY_KV_RANGE then mod_readRange t query q
      else if bZ op =? MQUERY_LEASE_LEASES then mod_readLeases t query q
      else if bZ op =? MQUERY_LEASE_TIME_TO_LIVE then mod_readTimeToLive t query q
      else if bZ op =? MQUERY_WATCH_PROGRESS then
        answer (pb_Marshal MResponseHeader (mod_responseHeader watchProgress))
      else if bZ op =? MQUERY_HEADER then
        let! rev := match getRevision t with
                    | Ok rev => Ok rev | Err _ => Ok 0 | Panic => Panic | NoFuel => NoFuel end in
        answer (pb_Marshal MResponseHeader (mod_responseHeader rev))
      else Ok (0, [])
  end.

End ModMain.
