(* ===== verification/SmFrame.v ===== *)
(** * What each command may change (src/state_machine.go)

    Frames of the [cmd*] functions, and how each case of [Update] moves the metadata:
    the applied index and the stored revision only at the end of the batch, the epoch
    only by a tick, the term only upwards. *)

From S2P Require Import Prelude Types GoBinary Patch Kv Mdb MdbFacts Db DbFacts DbLease DbKv Frame Pb StateMachine Update.

(** Decoded messages hold values of their fields' types. *)
Definition msg_wf {A} (m : msg A) : A -> Prop :=
  match m in msg A return A -> Prop with
  | MPutRequest => fun r => is_i64 (pr_Lease r)
  | MLeaseGrantRequest => fun r => is_i64 (lg_ID r) /\ is_i64 (lg_TTL r)
  | MLeaseRevokeRequest => fun r => is_i64 (lr_ID r)
  | MLeaseKeepAliveRequest => fun r => is_i64 (lk_ID r)
  | MCompactionRequest => fun r => is_i64 (cr_Revision r)
  | MTickRequest => fun r => is_u64 (tick_Term r)
  | MTermRequest => fun r => is_u64 (term_Term r)
  | _ => fun _ => True
  end.

Class ProtoTyped `{Proto} : Prop := {
  pb_typed {A} (m : msg A) b a : pb_Unmarshal m b = Some a -> msg_wf m a
}.

(** The tables of the key commands and of the lease commands. *)
Definition putTables : list dbi := [DbiRev; DbiVal; DbiEvt; DbiLeaseKey].
Definition leaseTables : list dbi := [DbiRev; DbiVal; DbiEvt; DbiLeaseKey; DbiLease; DbiLeaseExp].

Ltac dbi_sub :=
  unfold kvTables, delTables, putTables, leaseTables; intros d; rewrite ?elem_of_cons, ?elem_of_nil; tauto.

Lemma kv_put_sub : kvTables ⊆ putTables.
Proof. dbi_sub. Qed.
Lemma del_put_sub : delTables ⊆ putTables.
Proof. dbi_sub. Qed.
Lemma leaseKey_put_sub : [DbiLeaseKey] ⊆ putTables.
Proof. dbi_sub. Qed.
Lemma put_lease_sub : putTables ⊆ leaseTables.
Proof. dbi_sub. Qed.
Lemma lease_sub1 : [DbiLease] ⊆ leaseTables.
Proof. dbi_sub. Qed.
Lemma lease_sub2 : [DbiLeaseExp] ⊆ leaseTables.
Proof. dbi_sub. Qed.

Section Commands.
Context (cfg : config) `{Differ} `{Snappy} `{MdbOk} `{ErrLib} (fuel : nat) (shardID replicaID : Z).

Lemma putLeaseKey_only t req prev t' : putLeaseKey t req prev = Ok t' -> only [DbiLeaseKey] t t'.
Proof.
  unfold putLeaseKey. intros E. go_inv; try apply only_refl;
    eauto using leaseKey_put_only, leaseKey_del_only, only_trans.
Qed.

Lemma cmdPut_only t rev subrev epoch req t' out :
  cmdPut cfg t rev subrev epoch req = Ok (t', out) -> only putTables t t'.
Proof.
  unfold cmdPut. intros E. go_inv. eapply only_trans.
  - eapply only_weaken; [apply kv_put_sub|]. eapply put_only. eassumption.
  - eapply only_weaken; [apply leaseKey_put_sub|]. eapply putLeaseKey_only. eassumption.
Qed.

Lemma deleteLeaseKeys_only t prev keys t' keys' :
  deleteLeaseKeys t prev keys = Ok (t', keys') -> only [DbiLeaseKey] t t'.
Proof.
  revert t keys. induction prev as [|krec prev IH]; intros t keys E; cbn [deleteLeaseKeys] in E; go_inv;
    eauto using only_refl, leaseKey_del_only, only_trans.
Qed.

Lemma cmdDeleteRange_only t rev subrev epoch req t' out :
  cmdDeleteRange cfg fuel shardID replicaID t rev subrev epoch req = Ok (t', out) -> only putTables t t'.
Proof.
  unfold cmdDeleteRange. intros E. go_inv; (eapply only_trans;
    [eapply only_weaken; [apply del_put_sub|]; eapply deleteRange_only; eassumption
    |eapply only_weaken; [apply leaseKey_put_sub|]; eapply deleteLeaseKeys_only; eassumption]).
Qed.

Lemma txnOpsLoop_only t rev epoch i ops rs keys t' rs' keys' err :
  txnOpsLoop cfg fuel shardID replicaID t rev epoch i ops rs keys = Ok (t', rs', keys', err) ->
  only putTables t t'.
Proof.
  revert t i rs keys. induction ops as [|op ops IH]; intros t i rs keys E; cbn [txnOpsLoop] in E.
  { go_inv. apply only_refl. }
  go_inv; eauto using cmdPut_only, cmdDeleteRange_only, only_trans, only_refl.
Qed.

(** A nested transaction, by what its function did: an error leaves the contents as they
    were, and without one they are those the function left. *)
Lemma txnSub_ok {A} t (start : A) fn t' a err :
  txnSub t start fn = Ok (t', a, err) ->
  exists s s' , (forall d, view s d = view t d) /\ fn s = Ok (s', a, err)
    /\ forall d, view t' d = match err with None => view s' d | Some _ => view t d end.
Proof.
  unfold txnSub. destruct (sub_begin_ok t) as [s Es]. rewrite Es. intros E.
  apply rbind_ok in E as ([[s' a'] e] & Ef & E). destruct (sub_commit_ok t s') as [t1 Et]. rewrite Et in E.
  exists s, s'. split; [intros d; by apply sub_begin_view|].
  destruct e; apply Ok_inj in E; injection E as <- <- <-; (split; [exact Ef|]); intros d;
    [apply sub_abort_view|by eapply sub_commit_view].
Qed.

Lemma txnOps_only t rev epoch ops t' rs keys err :
  txnOps cfg fuel shardID replicaID t rev epoch ops = Ok (t', rs, keys, err) -> only putTables t t'.
Proof.
  unfold txnOps. intros E. apply rbind_ok in E as ([[t1 [rs1 ks1]] e] & E & X). apply Ok_inj in X. injection X as <- <- <- <-.
  apply txnSub_ok in E as (s & s' & Hs & E & Hv). apply rbind_ok in E as ([[[s1 rs2] ks2] e2] & E & X).
  apply Ok_inj in X. injection X as <- <- <- <-. apply txnOpsLoop_only in E.
  intros d Hd. rewrite Hv. destruct e2; [done|]. by rewrite (E d Hd).
Qed.

Lemma revokeLoop_only n t rev epoch id keys t' keys' :
  revokeLoop n t rev epoch id keys = Ok (t', keys') -> only putTables t t'.
Proof.
  revert t keys. induction n as [|n IH]; intros t keys E; [done|]. cbn [revokeLoop] in E.
  go_inv; (eapply only_trans; [eapply only_weaken; [apply leaseKey_put_sub|]; eapply sweep_only; eassumption|]);
    [apply only_refl|].
  eapply only_trans; [eapply only_weaken; [apply del_put_sub|]; eapply deleteBatch_only; eassumption|eauto].
Qed.

Lemma cmdLeaseRevoke_only t rev epoch id t' out :
  cmdLeaseRevoke fuel t rev epoch id = Ok (t', out) -> only leaseTables t t'.
Proof.
  unfold cmdLeaseRevoke. intros E. go_inv; [apply only_refl|].
  eapply only_trans; [eapply only_weaken; [apply put_lease_sub|]; eapply revokeLoop_only; eassumption|].
  eapply only_trans; [eapply only_weaken; [apply lease_sub2|]; eapply leaseExp_del_only; eassumption|].
  eapply only_weaken; [apply lease_sub1|]. eapply lease_del_only. eassumption.
Qed.

Lemma renewLease_only t epoch item t' ttl :
  renewLease t epoch item = Ok (t', ttl) -> only leaseTables t t'.
Proof.
  unfold renewLease. intros E. go_inv.
  eapply only_trans; [eapply only_weaken; [apply lease_sub1|]; eapply lease_put_only; eassumption|].
  eapply only_weaken; [apply lease_sub2|]. eapply leaseExp_put_only. eassumption.
Qed.

Lemma cmdLeaseKeepAlive_only t epoch req t' out :
  cmdLeaseKeepAlive t epoch req = Ok (t', out) -> only leaseTables t t'.
Proof. unfold cmdLeaseKeepAlive. intros E. go_inv; eauto using only_refl, renewLease_only. Qed.

Lemma keepAliveBatchLoop_only t epoch ids ttls t' ttls' :
  keepAliveBatchLoop t epoch ids ttls = Ok (t', ttls') -> only leaseTables t t'.
Proof.
  revert t ttls. induction ids as [|id ids IH]; intros t ttls E; cbn [keepAliveBatchLoop] in E;
    go_inv; eauto using only_refl, renewLease_only, only_trans.
Qed.

Lemma cmdLeaseKeepAliveBatch_only t epoch req t' out :
  cmdLeaseKeepAliveBatch t epoch req = Ok (t', out) -> only leaseTables t t'.
Proof.
  unfold cmdLeaseKeepAliveBatch. intros E. go_inv. eauto using keepAliveBatchLoop_only.
Qed.

Lemma only_meta ds t t' : DbiMeta ∉ ds -> only ds t t' -> view t' DbiMeta = view t DbiMeta.
Proof. intros Hd Ho. by apply Ho. Qed.

Lemma meta_put : DbiMeta ∉ putTables.
Proof. by apply (bool_decide_unpack _). Qed.
Lemma meta_lease : DbiMeta ∉ leaseTables.
Proof. by apply (bool_decide_unpack _). Qed.
Lemma meta_kv : DbiMeta ∉ kvTables.
Proof. by apply (bool_decide_unpack _). Qed.

End Commands.

(** ** Revisions stay in range *)

Lemma be_get_u64 b : length b = 8%nat -> is_u64 (be_get b).
Proof.
  intros Hl. pose proof (be_get_bound b) as Hb. unfold blen in Hb. rewrite Hl in Hb.
  by apply u64_pow256.
Qed.

Lemma Uint64_u64 b v : Uint64 b = Ok v -> is_u64 v.
Proof.
  unfold Uint64. destruct (Z.ltb_spec (blen b) 8); [done|]. intros [= <-].
  apply be_get_u64. rewrite length_take. unfold blen in *. lia.
Qed.

Lemma keyrev_FromKey_u64 k v rev : keyrev_FromKey k v = Ok rev -> is_u64 rev.
Proof. unfold keyrev_FromKey. intros E. go_inv. by eapply Uint64_u64. Qed.

Lemma keyrev_upper_u64 r : is_u64 r -> is_u64 (keyrev_upper r).
Proof.
  unfold is_u64, keyrev_upper. rewrite Z.shiftr_div_pow2 by lia. intros Hr. change (2 ^ 12) with 4096.
  split; [apply Z.div_pos; lia|]. apply Z.div_lt_upper_bound; lia.
Qed.

(** A revision [a] advanced by at most [N]. *)
Definition advanced (N a b : Z) : Prop := exists n, 0 <= n <= N /\ b = u64 (a + n).

Lemma advanced_refl N a : 0 <= N -> is_u64 a -> advanced N a a.
Proof. intros HN Ha. exists 0. split; [lia|]. by rewrite Z.add_0_r, u64_id. Qed.

Lemma u64_add_u64 a n : u64 (u64 a + n) = u64 (a + n).
Proof. unfold u64. apply Zplus_mod_idemp_l. Qed.

Lemma advanced_trans N1 N2 a b c : advanced N1 a b -> advanced N2 b c -> advanced (N1 + N2) a c.
Proof.
  intros (n & Hn & ->) (n' & Hn' & ->). exists (n + n'). split; [lia|].
  rewrite u64_add_u64. f_equal. lia.
Qed.

Lemma advanced_weaken N N' a b : N <= N' -> advanced N a b -> advanced N' a b.
Proof. intros HN (n & Hn & ->). exists n. split; [lia|done]. Qed.

Lemma advanced_u64 N a b : advanced N a b -> is_u64 b.
Proof. intros (n & _ & ->). apply u64_range. Qed.

(** Without overflow an advance is a number between. *)
Lemma advanced_le N a b : 0 <= a -> a + N < 2 ^ 64 -> advanced N a b -> a <= b <= a + N.
Proof. intros Ha HN (n & Hn & ->). rewrite u64_id by (unfold is_u64; lia). lia. Qed.

Lemma bump_advanced newRev keys : is_u64 newRev -> advanced 1 newRev (bump newRev keys).
Proof.
  intros Hn. unfold bump. destruct (0 <? blen keys); [by exists 1|]. by apply advanced_refl.
Qed.

Section CompactLast.
Context `{Mdb}.

Lemma nextEvent_u64 t c rev c' k v rev' err :
  is_u64 rev -> nextEvent t c rev = Ok (c', k, v, rev', err) -> is_u64 rev'.
Proof.
  unfold nextEvent. intros Hr E. destruct (cur_get t c [] NextDup) as [c1 r1].
  destruct (if isNotFound r1 then cur_get t c1 [] Next else (c1, r1)) as [c2 r2].
  go_inv; eauto using keyrev_FromKey_u64.
Qed.

Lemma compactEvents_u64 fuel max s s' :
  is_u64 (cs_rev s) -> is_u64 (cs_last s) -> compactEvents fuel max s = Ok s' ->
  is_u64 (cs_rev s') /\ is_u64 (cs_last s').
Proof.
  revert s. induction fuel as [|fuel IH]; intros s Hr Hl E; [done|]. cbn [compactEvents] in E.
  go_inv; try done. eapply IH in E; [exact E| |]; cbn; eauto using nextEvent_u64, keyrev_upper_u64.
Qed.

Lemma compactLoop_last_u64 n fuel mapRange max c s t' last :
  is_u64 (cs_rev s) -> is_u64 (cs_last s) ->
  compactLoop n fuel mapRange max c s = Ok (t', last) -> is_u64 last.
Proof.
  revert c s. induction n as [|n IH]; intros c s Hr Hl E; [done|]. cbn [compactLoop] in E.
  destruct (compactEvents fuel max s) as [s1| | |] eqn:E1; try done. cbn [rbind] in E.
  apply compactEvents_u64 in E1 as [Hr1 Hl1]; [|done|done].
  destruct (compactKeys fuel (cs_t s1) c _ _ _) as [[[t1 c1] err]| | |]; try done. cbn [rbind] in E.
  destruct (cs_done s1); [by go_inv|]. by eapply IH in E.
Qed.

Lemma compact_last_u64 n fuel mapRange t max t' last :
  dbKv_compact n fuel mapRange t max = Ok (t', last) -> is_u64 last.
Proof.
  unfold dbKv_compact. intros E. go_inv;
    (match goal with E1 : keyrev_FromKey _ _ = Ok _ |- _ => apply keyrev_FromKey_u64 in E1 end);
    eapply compactLoop_last_u64 in E; try done; unfold is_u64; cbn; lia.
Qed.

End CompactLast.
