(* ===== verification/ModSlices.v ===== *)
(** * The slices the storage module passes again (src/module/storage-kv/kv_store.go: getRev, deleteRange)

    When reading into a slice that is still in use does no harm, whatever slices the host
    fills: a read of the newest revision of a key, a read of an older one if no patch on
    the way lies right below a plain value, and a delete of a single key. What a delete of several keys
    leaves in the store is right in any case; the records it returns have their revisions
    and leases, but not always their keys. *)

From S2P Require Import Prelude Types GoBinary Patch Kv Mdb MdbFacts Db DbKv DbLease Frame History DbKvRead Pb StateMachine SmFrame ModStore ModMain.

(** ** Decoding a value that is no patch *)

Section Decode.
Context `{Snappy}.

(** Such a value decodes the same whatever it is decoded into and against. *)
Lemma FromBytes_settled item rk b next r :
  kv_FromBytes item rk b next false = Ok (r, None) -> keyrev_isdel (kv_rev r) = false -> isPatch (kv_flags r) = false ->
  forall item' next', kv_FromBytes item' rk b next' false = Ok (r, None).
Proof.
  intros E Hd Hp item' next'. unfold kv_FromBytes in *. destruct (blen b <? 11); [done|].
  destruct (sumOk rk b) as [good|e| |]; cbn [rbind] in *; try done. destruct good; cbn [negb] in *; [|done].
  destruct (Uint64 rk) as [rev|e| |]; cbn [rbind] in *; try done.
  destruct (keyrev_isdel rev) eqn:Ed; [apply Ok_inj in E; injection E as <-; cbn [kv_rev] in Hd; congruence|].
  destruct (Uvarint b) as [keylen n]. destruct (slice b n (n + i64 keylen)) as [key|e| |]; cbn [rbind] in *; try done.
  destruct (slice b (n + i64 keylen) (blen b - 4)) as [rd|e| |]; cbn [rbind] in *; try done.
  destruct (ReadUvarint rd) as [[created rd1] e1]. destruct e1; cbn [isErr] in *; [done|].
  destruct (ReadUvarint rd1) as [[version rd2] e2]. destruct e2; cbn [isErr] in *; [done|].
  destruct (ReadUvarint rd2) as [[lease rd3] e3]. destruct e3; cbn [isErr] in *; [done|].
  destruct rd3 as [|fl rd3]; [done|]. apply rbind_ok in E as ([v err] & Eu & E). apply Ok_inj in E. injection E as <- ->.
  cbn [kv_flags] in Hp. unfold isPatch in Hp. unfold kv_unpack in *.
  apply rbind_ok in Eu as ([v1 e] & -> & Eu). cbn [rbind]. rewrite Hp in *. destruct e; cbn [isErr] in *; [done|]. by injection Eu as ->.
Qed.

(** Reading keys only finds the same flags. *)
Lemma FromBytes_flags item rk b next r :
  kv_FromBytes item rk b next false = Ok (r, None) -> keyrev_isdel (kv_rev r) = false ->
  exists k, kv_FromBytes kv_zero rk b None true = Ok (k, None) /\ kv_flags k = kv_flags r.
Proof.
  intros E Hd. unfold kv_FromBytes in *. destruct (blen b <? 11); [done|].
  destruct (sumOk rk b) as [good|e| |]; cbn [rbind] in *; try done. destruct good; cbn [negb] in *; [|done].
  destruct (Uint64 rk) as [rev|e| |]; cbn [rbind] in *; try done.
  destruct (keyrev_isdel rev) eqn:Ed; [apply Ok_inj in E; injection E as <-; cbn [kv_rev] in Hd; congruence|].
  destruct (Uvarint b) as [keylen n]. destruct (slice b n (n + i64 keylen)) as [key|e| |]; cbn [rbind] in *; try done.
  destruct (slice b (n + i64 keylen) (blen b - 4)) as [rd|e| |]; cbn [rbind] in *; try done.
  destruct (ReadUvarint rd) as [[created rd1] e1]. destruct e1; cbn [isErr] in *; [done|].
  destruct (ReadUvarint rd1) as [[version rd2] e2]. destruct e2; cbn [isErr] in *; [done|].
  destruct (ReadUvarint rd2) as [[lease rd3] e3]. destruct e3; cbn [isErr] in *; [done|].
  destruct rd3 as [|fl rd3]; [done|]. apply rbind_ok in E as ([v err] & _ & E). apply Ok_inj in E. injection E as <- _. by eexists.
Qed.

Lemma FromBytes_rev item rk b next noval r rev :
  kv_FromBytes item rk b next noval = Ok (r, None) -> Uint64 rk = Ok rev -> kv_rev r = rev.
Proof.
  intros E Hr. unfold kv_FromBytes in E. rewrite Hr in E. go_inv; repeat case_match; go_inv; done.
Qed.

End Decode.

(** ** getRev *)

Section Read.
Context (cfg : config) `{DifferOk} `{SnappyOk} `{MdbOk} `{HostSlices}.

(** The flags of the value stored for a key revision. *)
Definition storedFlags (t : txn) (rev : Z) : Z :=
  match vget (keyrev_key rev) (view t DbiVal) with
  | Some b => match kv_FromBytes kv_zero (keyrev_key rev) b None true with Ok (k, None) => kv_flags k | _ => 0 end
  | None => 0
  end.

(** On the way down to a revision no patch is stored right below a plain value. *)
Definition readsRight (t : txn) (M : history) (key : bytes) (revision : Z) : Prop :=
  forall pre h1 h2 post, M key = pre ++ h1 :: h2 :: post -> isLive h1 = true -> isLive h2 = true ->
    revision < keyrev_upper (h_rev h1) ->
    isPlain (storedFlags t (h_rev h1)) = true -> isPatch (storedFlags t (h_rev h2)) = false.

(** It is so of a key's newest revision. *)
Lemma readsRight_newest t M key revision :
  (forall h, h ∈ M key -> keyrev_upper (h_rev h) <= revision) -> readsRight t M key revision.
Proof.
  intros Hn pre h1 h2 post E _ _ Hlt. specialize (Hn h1). rewrite E in Hn.
  assert (h1 ∈ pre ++ h1 :: h2 :: post) as Hin by (apply elem_of_app; right; left). specialize (Hn Hin). lia.
Qed.

Lemma storedFlags_read t rev v item next r :
  mdb_get t DbiVal (keyrev_key rev) = Ok v -> kv_FromBytes item (keyrev_key rev) v next false = Ok (r, None) ->
  keyrev_isdel (kv_rev r) = false -> storedFlags t rev = kv_flags r.
Proof.
  intros Hg E Hd. rewrite mdb_get_ok in Hg by auto with go. unfold storedFlags.
  destruct (vget (keyrev_key rev) (view t DbiVal)) as [b|]; [|done]. apply Ok_inj in Hg as ->.
  destruct (FromBytes_flags _ _ _ _ _ E Hd) as (k & -> & Hk). exact Hk.
Qed.

(** A chain read into one slice gives what it gives with fresh slices, if each patch is
    applied to a value that lies elsewhere. *)
Lemma mod_readChain_ok t revs b item item' :
  readChain t revs item false = Ok (item', None) ->
  Forall (fun r => is_u64 r /\ keyrev_isdel r = false) revs ->
  vb_at b = None \/ (forall r rs, revs = r :: rs -> isPatch (storedFlags t r) = false) ->
  (forall pre r1 r2 post, revs = pre ++ r1 :: r2 :: post ->
     isPlain (storedFlags t r1) = true -> isPatch (storedFlags t r2) = false) ->
  mod_readChain t revs b item = Ok (item', None).
Proof.
  intros E Hr. revert b item E. induction Hr as [|r revs [Hu Hd] Hr IH]; intros b item E Hb Hadj; [done|].
  cbn [readChain mod_readChain] in *. destruct (mdb_get t DbiVal (keyrev_key r)) as [v|e| |] eqn:Eg; try done.
  apply rbind_ok in E as ([item1 err] & E1 & E). destruct err as [e|]; cbn [isErr] in E; [done|].
  assert (kv_rev item1 = r) as Hrev by (eapply FromBytes_rev; [exact E1|by apply Uint64_be]).
  rewrite <- Hrev in Hd. pose proof (storedFlags_read _ _ _ _ _ _ Eg E1 Hd) as Hfl.
  destruct (mod_refillVal b item v) as [b1 item0] eqn:Ef.
  assert (kv_FromBytes item0 (keyrev_key r) v (kv_val item0) false = Ok (item1, None)) as ->.
  { destruct Hb as [Hb|Hb].
    - unfold mod_refillVal in Ef. rewrite Hb in Ef. destruct (refill _ _); by injection Ef as _ <-.
    - eapply FromBytes_settled; [exact E1|done|]. rewrite <- Hfl. by eapply Hb. }
  cbn [rbind isErr]. apply IH; [done| |].
  - cbn [vb_at]. unfold mod_valAt. destruct (isPlain (kv_flags item1)) eqn:Epl; [right|by left].
    intros r2 rs ->. apply (Hadj [] r r2 rs); [done|congruence].
  - intros pre r1 r2 post ->. by apply (Hadj (r :: pre) r1 r2 post).
Qed.

(** A single value is read as it is stored. *)
Lemma mod_readChain_one t r item : mod_readChain t [r] (mkValBuf 0 [] None) item = readChain t [r] item false.
Proof.
  cbn [mod_readChain readChain]. destruct (mdb_get _ _ _) as [v|e| |]; try done.
  assert (exists b, mod_refillVal (mkValBuf 0 [] None) item v = (b, item)) as [b ->]
    by (unfold mod_refillVal; cbn [vb_cap vb_at vb_buf]; destruct (refill _ _); by eexists).
  done.
Qed.

(** The read agrees when no newer record is passed on the way to the one read. *)
Lemma mod_getRev_short fuel t key revision withPrev :
  (forall c c1 v krec c2 krec2 next, cur_open t DbiRev = Ok c -> cur_get t c key SetRange = (c1, Ok (key, v)) ->
     keyrecord_FromBytes keyrecord_zero key v = Ok krec ->
     skipNewer fuel t c1 krec revision true [] = Ok (c2, krec2, next, None) ->
     keyrev_isdel (kr_rev krec2) = false -> next = []) ->
  mod_getRev fuel t key revision withPrev = dbKv_getRev fuel t key revision withPrev.
Proof.
  intros Hs. unfold mod_getRev, dbKv_getRev. f_equal. unfold mod_getRevBody, getRevBody.
  destruct (cur_open t DbiRev) as [c|e| |]; try done.
  destruct (cur_get t c key SetRange) as [c1 [[k v]|e| |]] eqn:Eg; try done.
  destruct (beqb_spec k key) as [->|]; cbn [negb]; [|done].
  destruct (keyrecord_FromBytes keyrecord_zero key v) as [krec|e| |] eqn:Er; try done.
  destruct (skipNewer fuel t c1 krec revision true []) as [[[[c2 krec2] next] err]|e| |] eqn:Ew; try done.
  destruct err as [e|]; [done|]. destruct (keyrev_isdel (kr_rev krec2)) eqn:Ed; [done|].
  rewrite (Hs c c1 v krec c2 krec2 next) by done. cbn [app]. by rewrite mod_readChain_one.
Qed.

(** The present record has nothing above it. *)
Lemma mod_getRev_now fuel t key withPrev : mod_getRev fuel t key 0 withPrev = dbKv_getRev fuel t key 0 withPrev.
Proof.
  apply mod_getRev_short. intros c c1 v krec c2 krec2 next _ _ _ E _.
  destruct fuel; cbn [skipNewer] in E; rewrite Z.ltb_irrefl in E; cbn [andb] in E; by apply Ok_inj in E; injection E as _ _ <-.
Qed.

Lemma mod_get_eq fuel t key : mod_get fuel t key = dbKv_get fuel t key.
Proof. unfold mod_get, dbKv_get. by rewrite mod_getRev_now. Qed.

Lemma walk_newer revision keep acc hs :
  Forall (fun h => newer revision h = true) acc -> Forall (fun h => newer revision h = true) (walk revision keep acc hs).1.
Proof.
  revert acc. induction hs as [|h hs IH]; intros acc Ha; [done|]. cbn [walk]. destruct (newer revision h) eqn:En; [|done].
  apply IH. destruct (isLive h), keep; try done. apply Forall_app. by split; [|constructor].
Qed.

(** Where a read of a store that holds a history comes to decode values, they are those of
    a segment of live records, and decode. *)
Lemma chain_read fuel t M key revision c c1 v krec c2 krec2 next :
  Rep cfg t M -> key <> [] -> (length (M key) <= fuel)%nat ->
  cur_open t DbiRev = Ok c -> cur_get t c key SetRange = (c1, Ok (key, v)) -> keyrecord_FromBytes keyrecord_zero key v = Ok krec ->
  skipNewer fuel t c1 krec revision true [] = Ok (c2, krec2, next, None) -> keyrev_isdel (kr_rev krec2) = false ->
  exists pre seg h below item, M key = pre ++ (seg ++ [h]) ++ below /\ Forall (fun h => isLive h = true /\ hrec_ok h) (seg ++ [h])
    /\ Forall (fun h => newer revision h = true) seg /\ next ++ [kr_rev krec2] = h_rev <$> (seg ++ [h]) /\ readChain t (h_rev <$> (seg ++ [h])) kv_zero false = Ok (item, None).
Proof.
  intros HR Hne Hf Ec Eg Er Ew Hd. pose proof (cur_open_dbi t DbiRev c Ec) as Hc.
  pose proof (rep_rev _ _ _ HR key) as Hdup. pose proof (rep_ok _ _ _ HR key) as Hok.
  pose proof (rep_vals _ _ _ HR key) as Hch. pose proof (rep_key _ _ _ HR key) as Hkey.
  destruct (M key) as [|h0 post] eqn:EH; cbn [fmap list_fmap] in Hdup.
  { destruct (cur_seek_missing t c key) as (c' & _ & [E|(p & Hp & E)]); [done|by rewrite Hc|..]; rewrite E in Eg; [done|].
    by injection Eg as _ ->. }
  destruct (cur_seek t c key (recBytes key h0) (recBytes key <$> post)) as (c' & E & Hc' & Hp); [done|by rewrite Hc|].
  rewrite E in Eg. injection Eg as <- <-. pose proof Hok as [Hh _]%Forall_cons. rewrite recBytes_decode in Er by done. apply Ok_inj in Er as <-.
  destruct (skipNewer_ok fuel t c' key [] h0 post (mkKeyrecord key (h_rev h0) (if isLive h0 then h_klease h0 else kr_lease keyrecord_zero)) revision true [])
    as (c3 & krec & _ & _ & _ & Hw); try done; [congruence|].
  pose proof (walk_segment revision (h0 :: post) [] (h0 :: post)) as (pre & Hpre & Hlive & Hbase); [by exists []|].
  pose proof (walk_newer revision true [] (h0 :: post) ltac:(constructor)) as Hnew.
  cbn zeta in Hw. change (h_rev <$> []) with (@nil Z) in Hw. destruct (walk revision true [] (h0 :: post)) as [seg [|h below]]; cbn [fst snd] in *;
    [by rewrite Hw in Ew|]. destruct Hw as (Hw & _ & Hrev). rewrite Hw in Ew. apply Ok_inj in Ew. injection Ew as _ -> <-.
  rewrite Hrev in *. rewrite Hpre in Hok, Hch |- *.
  assert (isLive h = true) as Hlh by (unfold isLive; by rewrite Hd). assert (key_ok key) as Hk by by apply Hkey.
  apply Forall_app in Hok as [Hokp [Hok1 [Hokh _]%Forall_cons]%Forall_app].
  assert (Forall hrec_ok (seg ++ [h])) as Hoks by (apply Forall_app; by split; [|constructor]).
  assert (Forall (fun h => isLive h = true) (seg ++ [h])) as Hls by (apply Forall_app; by split; [|constructor]).
  apply chain_app in Hch as [_ Hch].
  destruct (readChain_ok cfg t key seg h (last pre) kv_zero false) as (item & Hread & _); auto.
  { intros x Hx. apply last_Some in Hx as [l ->]. apply Forall_app in Hokp as [_ Hx]. by apply Forall_cons in Hx as [? _]. }
  { change (h :: below) with ([h] ++ below) in Hch. rewrite app_assoc in Hch. apply chain_app in Hch as [Hch _]. by destruct (last pre). }
  exists pre, seg, h, below, item. rewrite <- app_assoc. split; [done|]. split; [by apply Forall_and|]. split; [done|]. split; [by rewrite fmap_app|done].
Qed.

(** A read of such a revision agrees. *)
Lemma mod_getRev_eq fuel t M key revision withPrev :
  Rep cfg t M -> readsRight t M key revision -> key <> [] -> (length (M key) <= fuel)%nat ->
  mod_getRev fuel t key revision withPrev = dbKv_getRev fuel t key revision withPrev.
Proof.
  intros HR Hnp Hne Hf. unfold mod_getRev, dbKv_getRev. f_equal. unfold mod_getRevBody, getRevBody.
  destruct (cur_open t DbiRev) as [c|e| |] eqn:Ec; try done.
  destruct (cur_get t c key SetRange) as [c1 [[k v]|e| |]] eqn:Eg; try done.
  destruct (beqb_spec k key) as [->|]; cbn [negb]; [|done].
  destruct (keyrecord_FromBytes keyrecord_zero key v) as [krec|e| |] eqn:Er; try done.
  destruct (skipNewer fuel t c1 krec revision true []) as [[[[c2 krec2] next] err]|e| |] eqn:Ew; try done.
  destruct err as [e|]; [done|]. destruct (keyrev_isdel (kr_rev krec2)) eqn:Ed; [done|].
  destruct (chain_read fuel t M key revision c c1 v krec c2 krec2 next) as (pre & seg & h & below & item & HM & Hl & Hnew & -> & Hread); try done.
  rewrite Hread, (mod_readChain_ok t _ _ _ item Hread); [done|..|by left|].
  - apply Forall_fmap. eapply Forall_impl; [exact Hl|]. cbn. intros x [Hx Hok]. split; [by apply hrec_rev_u64|].
    unfold isLive in Hx. by apply negb_true_iff.
  - intros p r1 r2 q Heq. apply fmap_app_inv in Heq as (p1 & s1 & -> & Heq & Hs). symmetry in Heq.
    apply fmap_cons_inv in Heq as (h1 & s2 & -> & Heq & ->). symmetry in Heq. apply fmap_cons_inv in Heq as (h2 & s3 & -> & _ & ->).
    assert (newer revision h1 = true) as Hn1.
    { destruct s3 as [|x s3] using rev_ind; [change (p1 ++ [h1; h2]) with (p1 ++ [h1] ++ [h2]) in Hs|change (p1 ++ h1 :: h2 :: s3 ++ [x]) with (p1 ++ (h1 :: h2 :: s3) ++ [x]) in Hs];
        rewrite app_assoc in Hs; apply app_inj_tail in Hs as [-> _]; apply Forall_app in Hnew as [_ Hnew]; by apply Forall_cons in Hnew as [? _]. }
    apply andb_true_iff in Hn1 as [_ Hlt%Z.ltb_lt].
    rewrite Hs in HM, Hl. apply Forall_app in Hl as [_ [[Hl1 _] [[Hl2 _] _]%Forall_cons]%Forall_cons].
    apply (Hnp (pre ++ p1) h1 h2 (s3 ++ below)); [by rewrite HM, <- !app_assoc|done..].
Qed.

End Read.

(** ** deleteRange *)

(** A record up to its key. *)
Definition sameRec (x : heldrec) (krec : keyrecord) : Prop := kr_rev x.1 = kr_rev krec /\ kr_lease x.1 = kr_lease krec.

(** The same outcome, with such records in it. *)
Definition sameDelete `{Mdb} (r : res (txn * (list heldrec * Z))) (r' : res (txn * (list keyrecord * Z))) : Prop :=
  match r, r' with
  | Ok (t, (items, n)), Ok (t', (items', n')) => t = t' /\ n = n' /\ Forall2 sameRec items items'
  | Err e, Err e' => e = e'
  | Panic, Panic | NoFuel, NoFuel => True
  | _, _ => False
  end.

Lemma overKey_same k x krec : sameRec x krec -> sameRec (mod_overKey k x) krec.
Proof. destruct x as [y [|]]; done. Qed.

Lemma refillKeys_same `{HostSlices} cap k prev items prev' items' :
  sameRec prev prev' -> Forall2 sameRec items items' ->
  exists cap1 prev1 items1, mod_refillKeys cap k prev items = (cap1, prev1, items1) /\ sameRec prev1 prev' /\ Forall2 sameRec items1 items'.
Proof.
  intros Hp Hi. unfold mod_refillKeys. destruct (refill cap (blen k)).
  - eexists _, _, _. split; [done|]. split; [done|]. apply Forall2_fmap_l. eapply Forall2_impl; [exact Hi|]. done.
  - eexists _, _, _. split; [done|]. split; [by apply overKey_same|]. apply Forall2_fmap_l. eapply Forall2_impl; [exact Hi|].
    intros x y. apply overKey_same.
Qed.

(** Decoding takes nothing but the lease from the record it is decoded into. *)
Lemma rereadRecord_same x krec k v : sameRec x krec ->
  match rereadRecord x.1 k v, rereadRecord krec k v with
  | Ok (p, e), Ok (p', e') => e = e' /\ sameRec (p, true) p' /\ (e = None -> p = p')
  | Err e, Err e' => e = e'
  | Panic, Panic | NoFuel, NoFuel => True
  | _, _ => False
  end.
Proof.
  intros [Hr Hl]. unfold rereadRecord, keyrecord_FromBytes. destruct (blen v <? 11); [done|].
  destruct (sumOk k v) as [[|]|e| |]; cbn [rbind negb]; try done. destruct (slice v 0 8) as [hd|e| |]; cbn [rbind]; try done.
  destruct (Uint64 hd) as [u|e| |]; cbn [rbind]; try done. destruct (slice v 8 (blen v)) as [tl|e| |]; cbn [rbind]; try done.
  by rewrite Hl.
Qed.

(** Whatever the slices, a delete leaves the same contents, counts the same and returns
    the same revisions and leases; fails alike. *)
Lemma mod_deleteRangeLoop_same (cfg : config) `{Mdb} `{HostSlices} fuel t c r cap rev subrev epoch key end_ prev prev' items items' count :
  sameRec prev prev' -> Forall2 sameRec items items' ->
  sameDelete (mod_deleteRangeLoop cfg fuel t c r cap rev subrev epoch key end_ prev items count)
    (deleteRangeLoop cfg fuel t c r rev subrev epoch key end_ prev' items' count).
Proof.
  revert t c r cap prev prev' items items' count.
  induction fuel as [|fuel IH]; intros t c r cap prev prev' items items' count Hp Hi; [done|].
  cbn [mod_deleteRangeLoop deleteRangeLoop]. destruct r as [[k v]|e| |]; [|by destruct e|done..].
  destruct (refillKeys_same cap k prev items prev' items' Hp Hi) as (cap1 & prev1 & items1 & -> & Hp1 & Hi1).
  destruct (blen v <? 12); [done|]. destruct ((blen end_ =? 0) && _); [done|]. destruct ((0 <? blen end_) && _); [done|].
  pose proof (rereadRecord_same prev1 prev' k v Hp1) as Hrr.
  destruct (rereadRecord prev1.1 k v) as [[p e]|e| |], (rereadRecord prev' k v) as [[p' e']|e'| |]; try done; cbn [rbind].
  destruct Hrr as (<- & Hs & _). pose proof Hs as [Hrev _]. cbn [fst] in Hrev. rewrite Hrev.
  destruct (negb (keyrev_isdel (kr_rev p')) && _ && _); [done|]. destruct (keyrev_isdel (kr_rev p')); cbn [rbind].
  - destruct (blen end_ =? 0); [by destruct e|]. destruct (cur_get t c k NextNoDup). by apply IH.
  - destruct (writeTombstone t k _ epoch) as [t1|e1| |]; cbn [rbind]; try done.
    assert (Forall2 sameRec (items1 ++ [(p, if isErr e then prev1.2 else true)]) (items' ++ [p'])) as Hi2 by (apply Forall2_app; [done|by constructor]).
    destruct (blen end_ =? 0); [done|]. destruct (cur_get t1 c k NextNoDup). by apply IH.
Qed.

Lemma mod_deleteRange_same (cfg : config) `{Mdb} `{HostSlices} fuel t rev subrev epoch key end_ :
  match mod_deleteRange cfg fuel t rev subrev epoch key end_, dbKv_deleteRange cfg fuel t rev subrev epoch key end_ with
  | Ok (t, (items, n)), Ok (t', (items', n')) =>
      t = t' /\ n = n' /\ Forall2 (fun x y => kr_rev x = kr_rev y /\ kr_lease x = kr_lease y) items items'
  | Err e, Err e' => e = e'
  | Panic, Panic | NoFuel, NoFuel => True
  | _, _ => False
  end.
Proof.
  unfold mod_deleteRange, dbKv_deleteRange. destruct (cur_open t DbiRev) as [c|e| |]; cbn [rbind]; try done.
  destruct (cur_get t c key SetRange) as [c1 r].
  pose proof (mod_deleteRangeLoop_same cfg fuel t c1 r (append_cap (blen key)) rev subrev epoch key end_
    (keyrecord_zero, false) keyrecord_zero [] [] 0 ltac:(done) ltac:(constructor)) as Hs. unfold sameDelete in Hs.
  destruct (mod_deleteRangeLoop _ _ _ _ _ _ _ _ _ _ _ _ _ _) as [[t1 [xs n]]|e| |],
    (deleteRangeLoop _ _ _ _ _ _ _ _ _ _ _ _ _) as [[t2 [ys n']]|e'| |]; cbn [rbind] in *; try done.
  destruct Hs as (<- & <- & Hs). split; [done|]. split; [done|]. by apply Forall2_fmap_l.
Qed.

(** A single key is returned as it was found. *)
Lemma mod_deleteRange_one (cfg : config) `{Mdb} `{HostSlices} fuel t rev subrev epoch key :
  mod_deleteRange cfg fuel t rev subrev epoch key [] = dbKv_deleteRange cfg fuel t rev subrev epoch key [].
Proof.
  unfold mod_deleteRange, dbKv_deleteRange. destruct (cur_open t DbiRev) as [c|e| |]; cbn [rbind]; try done.
  destruct (cur_get t c key SetRange) as [c1 r]. destruct fuel as [|fuel]; [done|]. cbn [mod_deleteRangeLoop deleteRangeLoop].
  destruct r as [[k v]|e| |]; [|by destruct e|done..].
  assert (exists cap, mod_refillKeys (append_cap (blen key)) k (keyrecord_zero, false) [] = (cap, (keyrecord_zero, false), [])) as [cap ->]
    by (unfold mod_refillKeys; destruct (refill _ _); by eexists).
  change (blen [] =? 0) with true. change (0 <? blen []) with false. cbn [andb fst snd].
  destruct (blen v <? 12); [done|]. destruct (negb (beqb k key)); [done|].
  destruct (rereadRecord keyrecord_zero k v) as [[p e]|e| |]; cbn [rbind]; try done.
  destruct (_ && _ && _); [done|]. destruct (keyrev_isdel (kr_rev p)); cbn [rbind]; [by destruct e|].
  destruct (writeTombstone t k _ epoch) as [t1|e1| |]; done.
Qed.

(** ** A delete of one key that returns its value *)

Lemma tombstone_rev upper lower : is_u64 (newkeyrev upper lower true) /\ keyrev_isdel (newkeyrev upper lower true) = true.
Proof.
  unfold newkeyrev. set (a := u64 _). assert (is_u64 a) as Ha by apply u64_range. unfold revMaskDelete. change (Z.shiftl 1 1) with 2. split.
  - assert (0 <= Z.lor a 2) by (apply Z.lor_nonneg; unfold is_u64 in Ha; lia). split; [done|].
    destruct (Z.eq_dec (Z.lor a 2) 0) as [->|Hne]; [lia|]. apply Z.log2_lt_pow2; [lia|]. rewrite Z.log2_lor by (unfold is_u64 in Ha; lia).
    destruct (Z.eq_dec a 0) as [->|Ha0]; [by vm_compute|]. apply Z.max_lub_lt; [|by vm_compute]. apply Z.log2_lt_pow2; unfold is_u64 in Ha; lia.
  - rewrite keyrev_isdel_testbit, Z.lor_spec. by rewrite orb_true_r.
Qed.

(** A record put in a dup-sorted table comes first or leaves the first one there. *)
Lemma dups_vput_head k x v vs l : dups k l = v :: vs ->
  dups k (vput true k x l) = x :: v :: vs \/ exists ws, dups k (vput true k x l) = v :: ws.
Proof.
  induction l as [|[k' v'] l IH]; [done|]. rewrite dups_cons. cbn [vput]. destruct (bcompare k k') eqn:Ec.
  - apply bcompare_eq in Ec as <-. rewrite decide_True by done. intros [= -> E]. destruct (bcompare x v).
    + right. rewrite dups_cons, decide_True by done. by eexists.
    + left. by rewrite !dups_cons, !decide_True, E by done.
    + right. rewrite dups_cons, decide_True by done. by eexists.
  - intros E. left. rewrite !dups_cons, decide_True by done. by rewrite E.
  - assert (k' <> k) as Hne by (intros ->; by rewrite bcompare_refl in Ec). rewrite decide_False by done.
    intros E. rewrite dups_cons, decide_False by done. by apply IH.
Qed.

Section Delete.
Context (cfg : config) `{DifferOk} `{SnappyOk} `{MdbOk} `{HostSlices}.

(** A read at the revision of a record that was the first of its key, and is so still or
    has one tombstone before it. *)
Lemma mod_getRev_first fuel t key v krec vs rev :
  key <> [] -> keyrecord_FromBytes keyrecord_zero key v = Ok krec -> is_u64 rev -> keyrev_isdel rev = true ->
  dups key (view t DbiRev) = keyrecord_Bytes (mkKeyrecord key rev 0) [] :: v :: vs \/ dups key (view t DbiRev) = v :: vs ->
  mod_getRev fuel t key (keyrev_upper (kr_rev krec)) false = dbKv_getRev fuel t key (keyrev_upper (kr_rev krec)) false.
Proof.
  intros Hne Ek Hu Hd Hdup. apply mod_getRev_short. intros c c1 w krec1 c2 krec2 next Ec Eg Er Ew Hl.
  pose proof (cur_open_dbi _ _ _ Ec) as Hc.
  assert (forall n c krec', kr_rev krec' = kr_rev krec -> skipNewer n t c krec' (keyrev_upper (kr_rev krec)) true []
            = Ok (c, krec', [], None)) as Hstop.
  { intros n c' krec' Hk. destruct n; cbn [skipNewer]; by rewrite Hk, Z.ltb_irrefl, andb_false_r. }
  destruct Hdup as [Hdup|Hdup]; (edestruct (cur_seek t c key) as (c' & E & Hc' & Hp); [done|rewrite Hc; exact Hdup|]);
    rewrite E in Eg; injection Eg as <- <-.
  - pose proof (keyrecord_roundtrip keyrecord_zero (mkKeyrecord key rev 0) Hu ltac:(unfold is_u64; cbn; lia)) as Ert.
    cbn [kr_key kr_rev kr_lease] in Ert. rewrite Ert in Er. apply Ok_inj in Er as <-.
    destruct fuel as [|fuel]; cbn [skipNewer kr_rev] in Ew; rewrite Hd in Ew.
    { destruct (_ && _); [done|]. by apply Ok_inj in Ew; injection Ew as _ _ <-. }
    destruct (_ && _); [|by apply Ok_inj in Ew; injection Ew as _ _ <-].
    destruct (cur_nextDup t c' key (keyrecord_Bytes (mkKeyrecord key rev 0) []) [] (v :: vs)) as (c3 & Hc3 & Eg & _);
      [by rewrite Hc', Hc|done|by rewrite Hc', Hc|]. rewrite Eg in Ew.
    destruct (keyrecord_FromBytes _ key v) as [krec3|e| |] eqn:E3; try done.
    rewrite Hstop in Ew; [by apply Ok_inj in Ew; injection Ew as _ _ <-|].
    unfold keyrecord_FromBytes in E3, Ek. go_inv. done.
  - rewrite Ek in Er. apply Ok_inj in Er as <-. rewrite Hstop in Ew by done. by apply Ok_inj in Ew; injection Ew as _ _ <-.
Qed.

(** The records a delete of one key returns, each with its key readable where it was. *)
Lemma mod_getRev_deleted fuel t t1 t2 rev subrev epoch key items n :
  keyFits key -> dbKv_deleteRange cfg fuel t rev subrev epoch key [] = Ok (t1, (items, n)) ->
  view t2 DbiRev = view t1 DbiRev ->
  Forall (fun prec => mod_getRev fuel t2 (kr_key prec) (keyrev_upper (kr_rev prec)) false
                      = dbKv_getRev fuel t2 (kr_key prec) (keyrev_upper (kr_rev prec)) false) items.
Proof.
  intros Hk E Hv. assert (key <> []) as Hne by (intros ->; by destruct Hk as [X _]).
  unfold dbKv_deleteRange in E. apply rbind_ok in E as (c & Ec & E). pose proof (cur_open_dbi _ _ _ Ec) as Hc.
  destruct (cur_get t c key SetRange) as [c1 r] eqn:Eg. destruct fuel as [|fuel]; [done|]. cbn [deleteRangeLoop] in E.
  destruct r as [[k v]|e| |]; [|destruct e; try done; apply Ok_inj in E; injection E as _ <- _; constructor|done..].
  change (blen [] =? 0) with true in E. change (0 <? blen []) with false in E. cbn [andb] in E.
  destruct (blen v <? 12); [done|]. destruct (beqb_spec k key) as [->|]; cbn [negb] in E; [|apply Ok_inj in E; injection E as _ <- _; constructor].
  apply rbind_ok in E as ([p err] & Ep & E). destruct (_ && _ && _) in E; [done|].
  apply rbind_ok in E as ([[[t3 items3] n3] err3] & Ew & E).
  assert (t3 = t1 /\ items3 = items) as [-> ->] by (destruct err3; [done|]; by apply Ok_inj in E; injection E as -> -> _).
  destruct (keyrev_isdel (kr_rev p)); [apply Ok_inj in Ew; injection Ew as _ <- _ _; constructor|].
  apply rbind_ok in Ew as (t4 & Ew & X). apply Ok_inj in X. injection X as -> <- _ _. constructor; [|constructor].
  unfold rereadRecord in Ep. destruct (keyrecord_FromBytes keyrecord_zero key v) as [krec|e| |] eqn:Er; try done; apply Ok_inj in Ep; injection Ep as <- _;
    [|apply mod_getRev_now].
  assert (kr_key krec = key) as -> by (unfold keyrecord_FromBytes in Er; go_inv; done).
  assert (exists vs, dups key (view t DbiRev) = v :: vs) as [vs Hd].
  { destruct (dups key (view t DbiRev)) as [|w ws] eqn:Ed.
    - destruct (cur_seek_missing t c key) as (c' & _ & [X|(q & Hq & X)]); [done|by rewrite Hc|..]; rewrite X in Eg; [done|]. by injection Eg as _ ->.
    - destruct (cur_seek t c key w ws) as (c' & X & _); [done|by rewrite Hc|]. rewrite X in Eg. injection Eg as _ <-. by exists ws. }
  destruct (tombstone_rev rev subrev) as [Hu Hdel]. unfold writeTombstone in Ew. apply rbind_ok in Ew as (t4 & E4 & Ew).
  destruct (mdb_put_ok t DbiRev key (keyrecord_Bytes (mkKeyrecord key (newkeyrev rev subrev true) 0) [])) as (t5 & E5 & V5).
  { split; [done|]. intros _. apply (Z.le_trans _ 22); [apply keyrecord_Bytes_blen|done]. }
  rewrite E5 in E4. apply Ok_inj in E4 as <-. apply (mdb_put_frame _ _ _ _ _ DbiRev) in Ew; [|done].
  rewrite V5, decide_True in Ew by done. cbn [dupsort] in Ew. apply (dups_vput_head key (keyrecord_Bytes (mkKeyrecord key (newkeyrev rev subrev true) 0) [])) in Hd.
  rewrite <- Ew, <- Hv in Hd.
  destruct Hd as [Hd|[ws Hd]]; eapply mod_getRev_first; try done; [left|right]; exact Hd.
Qed.

Lemma mod_deletePrevKvs_eq fuel t prev kvs err :
  Forall (fun prec => mod_getRev fuel t (kr_key prec) (keyrev_upper (kr_rev prec)) false
                      = dbKv_getRev fuel t (kr_key prec) (keyrev_upper (kr_rev prec)) false) prev ->
  mod_deletePrevKvs fuel t prev kvs err = deletePrevKvs fuel t prev kvs err.
Proof.
  intros Hf. revert kvs err. induction Hf as [|prec prev Hp Hf IH]; intros kvs err; [done|].
  cbn [mod_deletePrevKvs deletePrevKvs]. rewrite Hp. by destruct (dbKv_getRev _ _ _ _ _) as [[[item pr] e]|e| |]; cbn [rbind].
Qed.

(** A delete that names one key. *)
Definition singleDelete (req : DeleteRangeRequest) : Prop := dr_RangeEnd req = [] /\ (dr_PrevKv req = true -> keyFits (dr_Key req)).

Context `{ErrLib} (fuel : nat) (shardID replicaID : Z).

Lemma mod_cmdDeleteRange_one t rev subrev epoch req :
  singleDelete req ->
  mod_cmdDeleteRange cfg fuel shardID replicaID t rev subrev epoch req = cmdDeleteRange cfg fuel shardID replicaID t rev subrev epoch req.
Proof.
  intros [He Hk]. unfold mod_cmdDeleteRange, cmdDeleteRange. rewrite He, mod_deleteRange_one.
  destruct (dbKv_deleteRange cfg fuel t rev subrev epoch (dr_Key req) []) as [[t1 [items n]]|e| |] eqn:E; cbn [rbind]; try done.
  destruct (deleteLeaseKeys t1 items _) as [[t2 keys]|e| |] eqn:El; cbn [rbind]; try done.
  destruct (dr_PrevKv req); [|done]. rewrite mod_deletePrevKvs_eq; [done|].
  eapply mod_getRev_deleted; [by apply Hk|exact E|]. apply deleteLeaseKeys_only in El. apply El. by intros [X|X]%elem_of_cons; [|inversion X].
Qed.

(** Operations of a transaction whose deletes name one key each. *)
Definition singleDeletes (op : RequestOp) : Prop := match op with RequestDeleteRange req => singleDelete req | _ => True end.

Lemma mod_txnOps_single t rev epoch ops :
  Forall singleDeletes ops ->
  mod_txnOps cfg fuel shardID replicaID t rev epoch ops = txnOps cfg fuel shardID replicaID t rev epoch ops.
Proof.
  intros Hf. assert (forall s i rs keys, mod_txnOpsLoop cfg fuel shardID replicaID s rev epoch i ops rs keys
                       = txnOpsLoop cfg fuel shardID replicaID s rev epoch i ops rs keys) as E.
  { induction Hf as [|op ops Hop Hf IH]; intros s i rs keys; [done|]. cbn [mod_txnOpsLoop txnOpsLoop]. destruct op as [req|req|req|].
    - unfold mod_cmdPut. destruct (cmdPut _ _ _ _ _ _) as [[t1 [[res val] ks]]|e| |]; auto.
    - rewrite mod_cmdDeleteRange_one by done. destruct (cmdDeleteRange _ _ _ _ _ _ _ _ _) as [[t1 [res ks]]|e| |]; auto.
    - unfold mod_queryRange. destruct (queryRange _ _ _ _ _ _ _) as [res|e| |]; auto.
    - auto. }
  unfold mod_txnOps, txnOps, txnSub. destruct (sub_begin t) as [s|e| |]; try done. by rewrite E.
Qed.

End Delete.
