(* ===== verification/ModAgree.v ===== *)
(** * The storage module agrees with the native state machine (src/module/storage-kv/main.go, src/state_machine.go)

    Where the native [Update] commits a batch without ticks and compactions, the module
    leaves the same contents and answers the same, if each delete names a single key: the
    keys of a delete of several come back overwritten ([ModSlices]). *)

From stdpp Require Import gmap.
From S2P Require Import Prelude Types GoBinary Patch Kv Mdb Db DbLease DbKv Frame Pb StateMachine Update SmFrame ModStore ModMain ModSlices.

(** The commands both implement, with their numbers: native and module. *)
Definition plainCmds : list (Z * Z) :=
  [(CMD_KV_PUT, MCMD_KV_PUT); (CMD_KV_DELETE_RANGE, MCMD_KV_DELETE_RANGE); (CMD_KV_TXN, MCMD_KV_TXN);
   (CMD_LEASE_GRANT, MCMD_LEASE_GRANT); (CMD_LEASE_REVOKE, MCMD_LEASE_REVOKE);
   (CMD_LEASE_KEEP_ALIVE, MCMD_LEASE_KEEP_ALIVE); (CMD_LEASE_KEEP_ALIVE_BATCH, MCMD_LEASE_KEEP_ALIVE_BATCH);
   (CMD_INTERNAL_TERM, MCMD_INTERNAL_TERM)].

(** The deletes of a command, also those of a transaction, name one key each. *)
Definition keyByKey `{Proto} (op : Z) (msg : bytes) : Prop :=
  (op = CMD_KV_DELETE_RANGE -> forall req, pb_Unmarshal MDeleteRangeRequest msg = Some req -> singleDelete req)
  /\ (op = CMD_KV_TXN -> forall req, pb_Unmarshal MTxnRequest msg = Some req ->
        Forall singleDeletes (tr_Success req) /\ Forall singleDeletes (tr_Failure req)).

(** One entry of the log as either receives it. *)
Inductive sameEntry `{Proto} : Entry -> Z * bytes -> Prop :=
| same_entry index msg op op' :
    (op, op') ∈ plainCmds -> keyByKey op msg ->
    sameEntry (mkEntry index (msg ++ [Zb op]) Result_zero) (index, msg ++ [Zb op']).

(** The same answer, or both refuse a message that does not decode. *)
Definition sameResult (r : Result) (x : Z * bytes) : Prop :=
  x = (res_Value r, res_Data r) \/ (r = Result_zero /\ exists cmd, x = (0, invalid cmd)).

(** Each of the keys is in one of the notices. *)
Definition noticed (K : list bytes) (N : list (Z * list bytes)) : Prop :=
  forall k, k ∈ K -> exists rev ks, (rev, ks) ∈ N /\ k ∈ ks.

Lemma noticed_app K1 K2 N1 N2 : noticed K1 N1 -> noticed K2 N2 -> noticed (K1 ++ K2) (N1 ++ N2).
Proof.
  intros H1' H2' k [Hk|Hk]%elem_of_app; [destruct (H1' k Hk) as (rev & ks & ? & ?)|destruct (H2' k Hk) as (rev & ks & ? & ?)];
    exists rev, ks; (split; [apply elem_of_app; tauto|done]).
Qed.

Section Agree.
Context (cfg : config) `{DifferOk} `{SnappyOk} `{MdbOk} `{HostSlices} `{Proto} `{ErrLib}.
Context (fuel : nat) (mapRange : list (bytes * Z) -> list (bytes * Z)) (shardID replicaID : Z).
Hypothesis marshal_txn : forall a, exists b, pb_Marshal MTxnResponse a = Ok b.

(** The native variables as the module has them, with the notices queued. *)
Definition asMod (s : updState) (q : list (Z * list bytes)) : modUpd := mkModUpd (u_txn s) (u_epoch s) (u_newRev s) q.

(** What a case of the module does when the native case took [s] to [s'] with result [r]. *)
Definition follows (h : modUpd -> res (modUpd * (Z * bytes))) (s s' : updState) (r : Result) : Prop :=
  forall q, exists K N x, h (asMod s q) = Ok (asMod s' (q ++ N), x) /\ sameResult r x
    /\ u_keys s' = u_keys s ++ K /\ noticed K N.

Lemma follows_refused (h : modUpd -> res (modUpd * (Z * bytes))) s r x :
  (forall q, h (asMod s q) = Ok (asMod s q, x)) -> sameResult r x -> follows h s s r.
Proof.
  intros E Hr q. exists [], [], x. rewrite !app_nil_r. split; [apply E|]. split; [done|]. split; [done|]. intros k X. inversion X.
Qed.

Lemma follows_still (h : modUpd -> res (modUpd * (Z * bytes))) s t r x :
  (forall q, h (asMod s q) = Ok (mkModUpd t (u_epoch s) (u_newRev s) q, x)) -> sameResult r x ->
  follows h s (mkUpd t (u_epoch s) (u_newRev s) (u_keys s)) r.
Proof.
  intros E Hr q. exists [], [], x. rewrite !app_nil_r. split; [apply E|]. split; [done|]. split; [done|]. intros k X. inversion X.
Qed.

(** A case that changes keys advances the same way on both sides; [K] is what the native
    one notifies of. *)
Lemma follows_advance (h : modUpd -> res (modUpd * (Z * bytes))) s t affected K r x :
  (forall q, h (asMod s q) = Ok (advance (asMod s q) t affected, x)) -> sameResult r x -> (forall k, k ∈ K -> k ∈ affected) ->
  follows h s (mkUpd t (u_epoch s) (bump (u_newRev s) affected) (u_keys s ++ K)) r.
Proof.
  intros E Hr HK q. unfold advance, bump in *. destruct (Z.ltb_spec 0 (blen affected)) as [Hb|Hb].
  - exists K, [(u64 (u_newRev s + 1), affected)], x. split; [apply E|]. split; [done|]. split; [done|].
    intros k Hk. exists (u64 (u_newRev s + 1)), affected. split; [left|by apply HK].
  - assert (affected = []) as -> by (destruct affected; [done|rewrite blen_cons in Hb; pose proof (blen_nonneg affected); lia]).
    exists K, [], x. rewrite app_nil_r. split; [apply E|]. split; [done|]. split; [done|].
    intros k Hk. by apply HK in Hk; inversion Hk.
Qed.

Lemma advance_newRev s q t affected : mu_newRev (advance (asMod s q) t affected) = bump (u_newRev s) affected.
Proof. unfold advance, bump. by destruct (0 <? blen affected). Qed.

Lemma put_follows s cmd full s' r :
  handlePut cfg shardID replicaID s cmd Result_zero = Ok (s', r) ->
  follows (fun u => mod_put_ cfg shardID replicaID u full cmd) s s' r.
Proof.
  unfold handlePut, mod_put_. intros E. destruct (pb_Unmarshal MPutRequest cmd) as [req|].
  2:{ go_inv. eapply follows_refused; [done|]. right. by eauto. }
  destruct (pr_IgnoreLease req && negb (pr_Lease req =? 0)). { go_inv. eapply follows_refused; [done|by left]. }
  destruct (pr_IgnoreValue req && _). { go_inv. eapply follows_refused; [done|by left]. }
  apply rbind_ok in E as (found & Ef & E). destruct found; cbn [negb] in E.
  2:{ apply Ok_inj in E. injection E as <- <-. destruct (negb (pr_Lease req =? 0)); [|done]. apply rbind_ok in Ef as (item & Eg & Ef). apply Ok_inj in Ef.
      cbn [mu_txn asMod]. eapply follows_refused; [|by left]. intros q. cbn [mu_txn asMod]. rewrite Eg.
      destruct (l_id item =? 0); [done|done]. }
  set (run := fun u : modUpd => match mod_cmdPut cfg (mu_txn u) (u64 (mu_newRev u + 1)) 0 (mu_epoch u) req with
        | Ok (t, (res, val, affected)) =>
            let! data := must (pb_Marshal MPutResponse
                                 (mkPutResponse (Some (mod_responseHeader shardID replicaID (mu_newRev (advance u t affected)))) (pres_PrevKv res))) in
            Ok (advance u t affected, (val, data))
        | Err ErrGRPCKeyTooLong => Ok (u, (0, errText ErrGRPCKeyTooLong))
        | Err ErrGRPCEmptyKey => Ok (u, (0, errText ErrGRPCEmptyKey))
        | Err _ => Panic
        | Panic => Panic
        | NoFuel => NoFuel
        end).
  assert (Hrun : follows run s s' r).
  { unfold run, mod_cmdPut. destruct (cmdPut cfg (u_txn s) (u64 (u_newRev s + 1)) 0 (u_epoch s) req) as [[t [[res val] affected]]|e| |] eqn:Ec;
      [|destruct e; try done|done|done].
    - apply rbind_ok in E as (data & Ed & E). apply Ok_inj in E; injection E as <- <-. eapply follows_advance; [|by left|done].
      intros q. cbn [mu_txn mu_newRev mu_epoch asMod]. rewrite Ec, advance_newRev. unfold mod_responseHeader. rewrite Ed. done.
    - apply Ok_inj in E; injection E as <- <-. eapply follows_refused; [|by left]. intros q. cbn [mu_txn mu_newRev mu_epoch asMod]. by rewrite Ec.
    - apply Ok_inj in E; injection E as <- <-. eapply follows_refused; [|by left]. intros q. cbn [mu_txn mu_newRev mu_epoch asMod]. by rewrite Ec. }
  intros q. destruct (Hrun q) as (K & N & x & Er & Hx). exists K, N, x. split; [|done]. rewrite <- Er.
  destruct (negb (pr_Lease req =? 0)); [|done]. apply rbind_ok in Ef as (item & Eg & Ef). apply Ok_inj in Ef.
  cbn [mu_txn asMod]. rewrite Eg. by destruct (l_id item =? 0).
Qed.

Lemma delete_follows s cmd full s' r :
  (forall req, pb_Unmarshal MDeleteRangeRequest cmd = Some req -> singleDelete req) ->
  handleDeleteRange cfg fuel shardID replicaID s cmd Result_zero = Ok (s', r) ->
  follows (fun u => mod_delete cfg fuel shardID replicaID u full cmd) s s' r.
Proof.
  unfold handleDeleteRange, mod_delete. intros Hone E. destruct (pb_Unmarshal MDeleteRangeRequest cmd) as [req|].
  2:{ go_inv. eapply follows_refused; [done|]. right. by eauto. }
  apply rbind_ok in E as ([t [res affected]] & Ec & E). apply rbind_ok in E as (data & Ed & E). go_inv.
  eapply follows_advance; [|by left|done]. intros q. rewrite (mod_cmdDeleteRange_one cfg fuel shardID replicaID _ _ _ _ req (Hone req eq_refl)). cbn [mu_txn mu_newRev mu_epoch asMod].
  rewrite Ec. cbn [must rbind]. rewrite advance_newRev. unfold mod_responseHeader. by rewrite Ed.
Qed.

Lemma txn_follows s cmd full s' r :
  (forall req, pb_Unmarshal MTxnRequest cmd = Some req -> Forall singleDeletes (tr_Success req) /\ Forall singleDeletes (tr_Failure req)) ->
  handleTxn cfg fuel shardID replicaID s cmd Result_zero = Ok (s', r) ->
  follows (fun u => mod_txn cfg fuel shardID replicaID u full cmd) s s' r.
Proof.
  unfold handleTxn, mod_txn. intros Hone E. destruct (pb_Unmarshal MTxnRequest cmd) as [req|].
  2:{ go_inv. eapply follows_refused; [done|]. right. by eauto. }
  apply rbind_ok in E as (success & Es & E). apply rbind_ok in E as ([[[t rs] affected] err] & Eo & E).
  assert (Hstart : forall q, mod_txnCompare fuel (mu_txn (asMod s q)) (tr_Compare req) = Ok success
    /\ mod_txnOps cfg fuel shardID replicaID (mu_txn (asMod s q)) (u64 (mu_newRev (asMod s q) + 1)) (mu_epoch (asMod s q))
         (if success then tr_Success req else tr_Failure req) = Ok (t, rs, affected, err)).
  { intros q. destruct (Hone req eq_refl) as [Ho1 Ho2]. rewrite (mod_txnOps_single cfg fuel shardID replicaID _ _ _ (if success then tr_Success req else tr_Failure req)) by by destruct success.
    done. }
  destruct err as [e|].
  - assert (s' = mkUpd t (u_epoch s) (bump (u_newRev s) affected) (u_keys s ++ [])
            /\ r = mkResult 0 (errText e) /\ (e = ErrGRPCDuplicateKey \/ e = ErrGRPCKeyTooLong \/ e = ErrGRPCEmptyKey)) as (-> & -> & He).
    { rewrite app_nil_r. destruct e; try done; apply Ok_inj in E; injection E as <- <-; auto. }
    eapply (follows_advance _ _ _ affected); [|by left|intros k X; inversion X].
    intros q. destruct (Hstart q) as [-> ->]. cbn [rbind]. by destruct He as [->|[->| ->]].
  - destruct (marshal_txn (mkTxnResponse (Some (responseHeader shardID replicaID (bump (u_newRev s) affected))) success rs)) as [b Eb].
    rewrite Eb in E. cbn [rbind] in E. apply Ok_inj in E. injection E as <- <-.
    eapply follows_advance; [|by left|done]. intros q. destruct (Hstart q) as [-> ->]. cbn [rbind].
    rewrite advance_newRev. unfold mod_responseHeader. by rewrite Eb.
Qed.

Lemma revoke_follows s cmd full s' r :
  handleLeaseRevoke fuel shardID replicaID s cmd Result_zero = Ok (s', r) ->
  follows (fun u => mod_revoke fuel shardID replicaID u full cmd) s s' r.
Proof.
  unfold handleLeaseRevoke, mod_revoke. intros E. destruct (pb_Unmarshal MLeaseRevokeRequest cmd) as [req|].
  2:{ go_inv. eapply follows_refused; [done|]. right. by eauto. }
  apply rbind_ok in E as ([t [affected val]] & Ec & E). apply rbind_ok in E as (data & Ed & E). go_inv.
  eapply follows_advance; [|by left|done]. intros q. unfold mod_cmdLeaseRevoke. cbn [mu_txn mu_newRev mu_epoch asMod].
  rewrite Ec. cbn [must rbind]. rewrite advance_newRev. unfold mod_responseHeader. by rewrite Ed.
Qed.

(** The cases that change no key. *)

Lemma grant_follows s cmd full s' r :
  handleLeaseGrant fuel shardID replicaID s cmd Result_zero = Ok (s', r) ->
  follows (fun u => mod_grant fuel shardID replicaID u full cmd) s s' r.
Proof.
  unfold handleLeaseGrant, mod_grant. intros E. destruct (pb_Unmarshal MLeaseGrantRequest cmd) as [req|].
  2:{ go_inv. eapply follows_refused; [done|]. right. by eauto. }
  apply rbind_ok in E as ([t [res val]] & Ec & E). apply rbind_ok in E as (data & Ed & E). apply Ok_inj in E. injection E as <- <-.
  eapply follows_still; [|by left]. intros q. unfold mod_cmdLeaseGrant, mod_responseHeader, withTxn.
  cbn [mu_txn mu_newRev mu_epoch mu_queue asMod]. rewrite Ec. cbn [must rbind]. by rewrite Ed.
Qed.

Lemma keepAlive_follows s cmd full s' r :
  handleLeaseKeepAlive shardID replicaID s cmd Result_zero = Ok (s', r) ->
  follows (fun u => mod_keepAlive shardID replicaID u full cmd) s s' r.
Proof.
  unfold handleLeaseKeepAlive, mod_keepAlive. intros E. destruct (pb_Unmarshal MLeaseKeepAliveRequest cmd) as [req|].
  2:{ go_inv. eapply follows_refused; [done|]. right. by eauto. }
  apply rbind_ok in E as ([t [res val]] & Ec & E). apply rbind_ok in E as (data & Ed & E). apply Ok_inj in E. injection E as <- <-.
  eapply follows_still; [|by left]. intros q. unfold mod_cmdLeaseKeepAlive, mod_responseHeader, withTxn.
  cbn [mu_txn mu_newRev mu_epoch mu_queue asMod]. rewrite Ec. cbn [must rbind]. by rewrite Ed.
Qed.

Lemma keepAliveBatch_follows s cmd full s' r :
  handleLeaseKeepAliveBatch shardID replicaID s cmd Result_zero = Ok (s', r) ->
  follows (fun u => mod_keepAliveBatch shardID replicaID u full cmd) s s' r.
Proof.
  unfold handleLeaseKeepAliveBatch, mod_keepAliveBatch. intros E. destruct (pb_Unmarshal MLeaseKeepAliveBatchRequest cmd) as [req|].
  2:{ go_inv. eapply follows_refused; [done|]. right. by eauto. }
  apply rbind_ok in E as ([t [res val]] & Ec & E). apply rbind_ok in E as (data & Ed & E). apply Ok_inj in E. injection E as <- <-.
  eapply follows_still; [|by left]. intros q. unfold mod_cmdLeaseKeepAliveBatch, mod_responseHeader, withTxn.
  cbn [mu_txn mu_newRev mu_epoch mu_queue asMod]. rewrite Ec. cbn [must rbind]. by rewrite Ed.
Qed.

Lemma term_follows s index cmd full s' r :
  handleTerm s index cmd Result_zero = Ok (s', r) ->
  follows (fun u => mod_term u index full cmd) s s' r.
Proof.
  unfold handleTerm, mod_term. intros E. destruct (pb_Unmarshal MTermRequest cmd) as [req|].
  2:{ go_inv. eapply follows_refused; [done|]. right. by eauto. }
  apply rbind_ok in E as (term & Et & E). destruct (term_Term req <? term) eqn:Elt.
  { apply Ok_inj in E. injection E as <- <-. eapply follows_refused; [|by left]. intros q. cbn [mu_txn asMod]. rewrite Et.
    cbn [must rbind]. by rewrite Elt. }
  apply rbind_ok in E as (t & Es & E). apply rbind_ok in E as (data & Ed & E). apply Ok_inj in E. injection E as <- <-.
  eapply follows_still; [|by left]. intros q. cbn [mu_txn asMod]. rewrite Et. cbn [must rbind]. rewrite Elt, Es. cbn [must rbind].
  by rewrite Ed.
Qed.

(** ** A batch *)

Lemma entry_follows e x s s' r :
  sameEntry e x -> updateEntry cfg fuel mapRange shardID replicaID s e = Ok (s', r) ->
  follows (fun u => mod_switch cfg fuel mapRange shardID replicaID u x.1 x.2) s s' r.
Proof.
  intros He. destruct He as [index msg op op' Hop [Hdel Htxn] ]. unfold updateEntry, mod_switch. cbn [ent_Cmd ent_Result ent_Index fst snd].
  rewrite !last_snoc, !length_app, !Nat.add_sub, !take_app_length.
  repeat (apply elem_of_cons in Hop as [[= -> ->]|Hop]); [..|inversion Hop]; cbn;
    [apply put_follows|by apply delete_follows, Hdel|by apply txn_follows, Htxn|apply grant_follows|apply revoke_follows
    |apply keepAlive_follows|apply keepAliveBatch_follows|apply term_follows].
Qed.

Lemma updates_follow entries xs s s' done_ env index old q :
  Forall2 sameEntry entries xs -> updateLoop cfg fuel mapRange shardID replicaID s entries = Ok (s', done_) ->
  exists K N rs, mod_updates cfg fuel mapRange shardID replicaID (mkMod env (Some (u_txn s)) (u_epoch s) index (u_newRev s) old q) xs
      = Ok (mkMod env (Some (u_txn s')) (u_epoch s') (from_option ent_Index index (last entries)) (u_newRev s') old (q ++ N), rs)
    /\ Forall2 sameResult (ent_Result <$> done_) rs /\ u_keys s' = u_keys s ++ K /\ noticed K N.
Proof.
  intros Hf. revert s done_ index q. induction Hf as [|e x entries xs He Hf IH]; intros s done_ index q E; cbn [updateLoop mod_updates] in *.
  { apply Ok_inj in E. injection E as <- <-. exists [], [], []. rewrite !app_nil_r. split; [done|]. split; [constructor|].
    split; [done|]. intros k X. inversion X. }
  apply rbind_ok in E as ([s1 r] & E1 & E). apply rbind_ok in E as ([s2 d2] & E2 & E). apply Ok_inj in E. injection E as -> <-.
  destruct (entry_follows e x s s1 r He E1 q) as (K1 & N1 & y & Ey & Hy & Hk1 & Hn1). destruct x as [ix cx]. cbn [fst snd] in Ey.
  unfold mod_update, mod_begin. cbn [md_txn rbind md_epoch md_newRev md_queue md_env md_oldRev].
  change (mkModUpd (u_txn s) (u_epoch s) (u_newRev s) q) with (asMod s q). rewrite Ey. cbn [rbind asMod mu_txn mu_epoch mu_newRev mu_queue].
  destruct (IH s1 d2 ix (q ++ N1) E2) as (K2 & N2 & rs & Ers & Hrs & Hk2 & Hn2). rewrite Ers. cbn [rbind].
  exists (K1 ++ K2), (N1 ++ N2), (y :: rs). split.
  - rewrite app_assoc. do 3 f_equal. inversion He; subst. destruct entries as [|e' entries]; [done|].
    rewrite last_cons_cons. destruct (last (e' :: entries)) eqn:El; [done|by apply last_None in El].
  - rewrite fmap_cons. split; [by constructor|]. split; [by rewrite Hk2, Hk1, app_assoc|]. by apply noticed_app.
Qed.

Lemma batch_follows t entries xs t' rev newRev keys done_ epoch0 index0 newRev0 oldRev0 :
  Forall2 sameEntry entries xs ->
  updateTxn cfg fuel mapRange shardID replicaID t entries = Ok (t', (rev, newRev, keys, done_)) ->
  exists s' rs N, mod_batch cfg fuel mapRange shardID replicaID (mkMod t None epoch0 index0 newRev0 oldRev0 []) xs = Ok (s', rs, N)
    /\ md_env s' = t' /\ md_txn s' = None /\ Forall2 sameResult (ent_Result <$> done_) rs /\ noticed keys N.
Proof.
  intros Hf E. unfold updateTxn in E. apply rbind_ok in E as (epoch & Ee & E). apply rbind_ok in E as (rv & Er & E).
  apply rbind_ok in E as ([s d] & El & E). destruct (last entries) as [ent|] eqn:Hl; [|done].
  apply rbind_ok in E as (t1 & Ei & E). apply rbind_ok in E as (t2 & Ev & E). apply Ok_inj in E. injection E as <- <- <- <- <-.
  destruct (updates_follow entries xs _ s d t index0 rv [] Hf El) as (K & N & rs & Eu & Hrs & Hk & Hn).
  rewrite Hl in Eu. cbn [from_option u_txn u_epoch u_newRev app u_keys] in *. unfold mod_batch.
  assert (Eu' : mod_updates cfg fuel mapRange shardID replicaID (mkMod t None epoch0 index0 newRev0 oldRev0 []) xs
                = mod_updates cfg fuel mapRange shardID replicaID (mkMod t (Some t) epoch index0 rv rv []) xs).
  { destruct Hf as [|e [ix cx] entries xs He Hf]; [done|]. cbn [mod_updates]. unfold mod_update, mod_begin.
    cbn [md_txn md_env]. rewrite Ee, Er. done. }
  rewrite Eu', Eu. cbn [rbind]. unfold mod_finish. cbn [md_txn md_newIndex md_oldRev md_newRev]. rewrite Ei. cbn [must rbind].
  assert (Ev' : (if rv <? u_newRev s then must (setRevision t1 (u_newRev s)) else Ok t1) = Ok t2)
    by (destruct (rv <? u_newRev s); [by rewrite Ev|done]).
  rewrite Ev'. cbn [rbind]. eexists _, rs, N. split; [done|]. split; [done|]. split; [done|]. split; [done|]. by rewrite Hk.
Qed.

End Agree.
