(* ===== verification/ModRead.v ===== *)
(** * A range request read by both programs (src/state_machine.go, src/module/storage-kv/main.go)

    The query handlers of the two programs marshal the same answer. *)

From S2P Require Import Prelude Types GoBinary Patch Kv Mdb MdbFacts Db DbFacts DbLease DbKv ModStore Pb StateMachine Update ModMain.

Section ModRead.
Context (cfg : config) `{DifferOk} `{SnappyOk} `{MdbOk} `{Proto} `{ErrLib}.
Context (fuel : nat) (shardID replicaID : Z).

(** Each program strips the last byte of a query, its own code for the query. *)
Lemma mod_read_range t wp b : mod_read cfg fuel shardID replicaID t wp (b ++ [Zb MQUERY_KV_RANGE])
  = mod_readRange cfg fuel shardID replicaID t (b ++ [Zb MQUERY_KV_RANGE]) b.
Proof. unfold mod_read. rewrite last_snoc, length_app, Nat.add_sub, take_app_length. reflexivity. Qed.

Lemma Query_range sm b : Query cfg fuel shardID replicaID sm (b ++ [Zb QUERY_KV_RANGE]) = queryKvRange cfg fuel shardID replicaID (sm_env sm) b.
Proof. unfold Query. rewrite last_snoc, length_app, Nat.add_sub, take_app_length. reflexivity. Qed.

(** A request that is understood gets the same bytes from both programs. *)
Lemma readRange_agree t full b req val data : pb_Unmarshal MRangeRequest b = Some req ->
  mod_readRange cfg fuel shardID replicaID t full b = Ok (val, data) -> val = 1 \/ (forall r, exists d, pb_Marshal MRangeResponse r = Ok d) ->
  queryKvRange cfg fuel shardID replicaID t b = Ok (Some (mkResult val data)).
Proof.
  intros Hd. unfold mod_readRange, queryKvRange, ModMain.mod_queryRange. rewrite Hd.
  destruct (getRevision t) as [rev|e| |]; cbn [rbind ModMain.answer]; try done; [|by intros [= <- <-] _].
  destruct (queryRange _ _ _ _ _ _ _) as [resp|e| |]; cbn [rbind ModMain.answer]; try done; [|by intros [= <- <-] _].
  destruct (pb_Marshal _ resp) as [d|e| |] eqn:Em; cbn [ModMain.answer]; try done; [by intros [= <- <-] _|].
  intros [= <- <-] [Hv|Hm]; [done|]. destruct (Hm resp) as [d E]. by rewrite E in Em.
Qed.

End ModRead.
