(* ===== verification/SmMeta.v ===== *)
(** * How a batch moves the metadata (src/state_machine.go, Update) *)

From S2P Require Import Prelude Types GoBinary Patch Kv Mdb MdbFacts Db DbFacts DbLease DbKv Frame Pb StateMachine Update SmFrame.

Section SmMeta.
Context (cfg : config) `{Differ} `{Snappy} `{MdbOk} `{ProtoTyped} `{ErrLib}.
Context (fuel : nat) (mapRange : list (bytes * Z) -> list (bytes * Z)) (shardID replicaID : Z).

(** Metadata that agrees with the variables of [Update]. *)
Definition metaAgrees (s : updState) (m : metadata) : Prop :=
  MetaRep (u_txn s) m /\ m_epoch m = u_epoch s /\ is_u64 (u_newRev s).

(** What one entry may do: advance the epoch by at most one, the term never back, the
    revision by at most [N], and leave the applied index and the stored revision. *)
Definition moved (N : Z) (s : updState) (m : metadata) (s' : updState) : Prop :=
  exists m', metaAgrees s' m'
    /\ m_index m' = m_index m /\ m_rev m' = m_rev m
    /\ m_term m <= m_term m' /\ advanced 1 (m_epoch m) (m_epoch m')
    /\ advanced N (u_newRev s) (u_newRev s').

Lemma moved_same N s m t newRev keys :
  0 <= N -> metaAgrees s m -> view t DbiMeta = view (u_txn s) DbiMeta -> advanced N (u_newRev s) newRev ->
  moved N s m (mkUpd t (u_epoch s) newRev keys).
Proof.
  intros HN (HM & He & Hr) Hv Hadv. exists m. split.
  - split; [by eapply MetaRep_view|]. split; [done|]. by eapply advanced_u64.
  - repeat (split; [done|lia || done|]). split; [done|]. split; [done|]. split; [lia|].
    split; [|done]. apply advanced_refl; [lia|]. by eapply epoch_u64.
Qed.

Lemma moved_stay N s m : 0 <= N -> metaAgrees s m -> moved N s m s.
Proof.
  intros HN Hm. destruct s as [t e n k]. apply (moved_same N (mkUpd t e n k) m t n k HN Hm eq_refl).
  apply advanced_refl; [done|]. apply Hm.
Qed.

Ltac stay := apply moved_stay; [lia|done].

(** Writing one metadata value. *)
Lemma setMeta t key v t' :
  keyFits key -> is_u64 v -> putUint64 DbiMeta t key v = Ok t' ->
  metaHas t' key v /\ (forall k w, k <> key -> metaHas t k w -> metaHas t' k w).
Proof.
  intros Hk Hv E. destruct (putUint64_has t key v Hk Hv) as (t1 & E1 & Hh & Ho & _).
  rewrite E in E1. apply Ok_inj in E1 as <-. by split.
Qed.

Lemma handlePut_moved s m cmd r s' r' :
  metaAgrees s m -> handlePut cfg shardID replicaID s cmd r = Ok (s', r') -> moved 1 s m s'.
Proof.
  intros Hm E. unfold handlePut in E. go_inv; try stay;
  (match goal with E : cmdPut _ _ _ _ _ _ = Ok _ |- _ => eapply cmdPut_only, (only_meta putTables _ _ meta_put) in E end;
   apply moved_same; [lia|done|done|]; apply bump_advanced, Hm).
Qed.

Lemma handleDeleteRange_moved s m cmd r s' r' :
  metaAgrees s m -> handleDeleteRange cfg fuel shardID replicaID s cmd r = Ok (s', r') -> moved 1 s m s'.
Proof.
  intros Hm E. unfold handleDeleteRange in E. go_inv; try stay;
  (match goal with E : cmdDeleteRange _ _ _ _ _ _ _ _ _ = Ok _ |- _ =>
    eapply cmdDeleteRange_only, (only_meta putTables _ _ meta_put) in E end;
   apply moved_same; [lia|done|done|]; apply bump_advanced, Hm).
Qed.

Lemma handleTxn_moved s m cmd r s' r' :
  metaAgrees s m -> handleTxn cfg fuel shardID replicaID s cmd r = Ok (s', r') -> moved 1 s m s'.
Proof.
  intros Hm E. unfold handleTxn in E. go_inv; try stay;
  (match goal with E : txnOps _ _ _ _ _ _ _ _ = Ok _ |- _ =>
    eapply txnOps_only, (only_meta putTables _ _ meta_put) in E end;
  apply moved_same; [lia|done|done|]; apply bump_advanced, Hm).
Qed.

Lemma handleLeaseRevoke_moved s m cmd r s' r' :
  metaAgrees s m -> handleLeaseRevoke fuel shardID replicaID s cmd r = Ok (s', r') -> moved 1 s m s'.
Proof.
  intros Hm E. unfold handleLeaseRevoke in E. go_inv; try stay;
  (match goal with E : cmdLeaseRevoke _ _ _ _ _ = Ok _ |- _ =>
    eapply cmdLeaseRevoke_only, (only_meta leaseTables _ _ meta_lease) in E end;
   apply moved_same; [lia|done|done|]; apply bump_advanced, Hm).
Qed.

Lemma handleLeaseKeepAlive_moved s m cmd r s' r' :
  metaAgrees s m -> handleLeaseKeepAlive shardID replicaID s cmd r = Ok (s', r') -> moved 1 s m s'.
Proof.
  intros Hm E. unfold handleLeaseKeepAlive in E. go_inv; try stay;
  (match goal with E : cmdLeaseKeepAlive _ _ _ = Ok _ |- _ =>
    eapply cmdLeaseKeepAlive_only, (only_meta leaseTables _ _ meta_lease) in E end;
   apply moved_same; [lia|done|done|]; apply advanced_refl; [lia|apply Hm]).
Qed.

Lemma handleLeaseKeepAliveBatch_moved s m cmd r s' r' :
  metaAgrees s m -> handleLeaseKeepAliveBatch shardID replicaID s cmd r = Ok (s', r') -> moved 1 s m s'.
Proof.
  intros Hm E. unfold handleLeaseKeepAliveBatch in E. go_inv; try stay;
  (match goal with E : cmdLeaseKeepAliveBatch _ _ _ = Ok _ |- _ =>
    eapply cmdLeaseKeepAliveBatch_only, (only_meta leaseTables _ _ meta_lease) in E end;
   apply moved_same; [lia|done|done|]; apply advanced_refl; [lia|apply Hm]).
Qed.

Ltac setRep Ho :=
  split; cbn [m_epoch m_index m_leaseID m_rev m_revCompacted m_revMin m_term];
  match goal with
  | Hh : metaHas ?t ?k ?v |- metaHas ?t ?k ?v => exact Hh
  | Hh : metaHas _ ?k ?v |- metaHas _ ?k ?v => apply Ho; [metaKey|exact Hh]
  end.

(** Writing the lease cursor, the compaction marks, the epoch or the term. *)
Lemma setLeaseID_rep t m v t' :
  MetaRep t m -> is_u64 v -> setLeaseID t v = Ok t' ->
  MetaRep t' (mkMeta (m_epoch m) (m_index m) v (m_rev m) (m_revCompacted m) (m_revMin m) (m_term m)).
Proof.
  intros [] Hv E. apply setMeta in E as [Hh Ho]; [|metaKey|done].
  setRep Ho.
Qed.

Lemma setRevisionMin_rep t m v t' :
  MetaRep t m -> is_u64 v -> setRevisionMin t v = Ok t' ->
  MetaRep t' (mkMeta (m_epoch m) (m_index m) (m_leaseID m) (m_rev m) (m_revCompacted m) v (m_term m)).
Proof.
  intros [] Hv E. apply setMeta in E as [Hh Ho]; [|metaKey|done].
  setRep Ho.
Qed.

Lemma setRevisionCompacted_rep t m v t' :
  MetaRep t m -> is_u64 v -> setRevisionCompacted t v = Ok t' ->
  MetaRep t' (mkMeta (m_epoch m) (m_index m) (m_leaseID m) (m_rev m) v (m_revMin m) (m_term m)).
Proof.
  intros [] Hv E. apply setMeta in E as [Hh Ho]; [|metaKey|done].
  setRep Ho.
Qed.

Lemma setEpoch_rep t m v t' :
  MetaRep t m -> is_u64 v -> setEpoch t v = Ok t' ->
  MetaRep t' (mkMeta v (m_index m) (m_leaseID m) (m_rev m) (m_revCompacted m) (m_revMin m) (m_term m)).
Proof.
  intros [] Hv E. apply setMeta in E as [Hh Ho]; [|metaKey|done].
  setRep Ho.
Qed.

Lemma setTerm_rep t m v t' :
  MetaRep t m -> is_u64 v -> setTerm t v = Ok t' ->
  MetaRep t' (mkMeta (m_epoch m) (m_index m) (m_leaseID m) (m_rev m) (m_revCompacted m) (m_revMin m) v).
Proof.
  intros [] Hv E. apply setMeta in E as [Hh Ho]; [|metaKey|done].
  setRep Ho.
Qed.

Lemma setIndex_rep t m v t' :
  MetaRep t m -> is_u64 v -> setIndex t v = Ok t' ->
  MetaRep t' (mkMeta (m_epoch m) v (m_leaseID m) (m_rev m) (m_revCompacted m) (m_revMin m) (m_term m)).
Proof.
  intros [] Hv E. apply setMeta in E as [Hh Ho]; [|metaKey|done].
  setRep Ho.
Qed.

Lemma setRevision_rep t m v t' :
  MetaRep t m -> is_u64 v -> setRevision t v = Ok t' ->
  MetaRep t' (mkMeta (m_epoch m) (m_index m) (m_leaseID m) v (m_revCompacted m) (m_revMin m) (m_term m)).
Proof.
  intros [] Hv E. apply setMeta in E as [Hh Ho]; [|metaKey|done].
  setRep Ho.
Qed.

Lemma nextLeaseID_u64 n t id id' : nextLeaseID n t id = Ok id' -> is_u64 id'.
Proof.
  revert id. induction n as [|n IH]; intros id E; [done|]. cbn [nextLeaseID] in E. go_inv; [apply u64_range|eauto].
Qed.

Lemma cmdLeaseGrant_rep t m epoch req t' out :
  MetaRep t m -> cmdLeaseGrant fuel t epoch req = Ok (t', out) ->
  exists id, MetaRep t' (mkMeta (m_epoch m) (m_index m) id (m_rev m) (m_revCompacted m) (m_revMin m) (m_term m)).
Proof.
  intros HM E. unfold cmdLeaseGrant in E. apply rbind_ok in E as ([t1 item] & E1 & E).
  assert (exists id, MetaRep t1 (mkMeta (m_epoch m) (m_index m) id (m_rev m) (m_revCompacted m) (m_revMin m) (m_term m)))
    as [id HM1].
  { destruct (u64 (lg_ID req) =? 0).
    - apply rbind_ok in E1 as (id0 & _ & E1). apply rbind_ok in E1 as (id & Hid & E1).
      apply rbind_ok in E1 as (t2 & Hset & E1). apply Ok_inj in E1. simplify_eq. exists id.
      eapply setLeaseID_rep; [done|by eapply nextLeaseID_u64|done].
    - apply rbind_ok in E1 as (it & _ & E1). apply Ok_inj in E1. simplify_eq.
      exists (m_leaseID m). by destruct m. }
  clear E1. exists id. go_inv; [done|].
  repeat match goal with
    | E : dbLease_put _ _ = Ok _ |- _ => apply lease_put_only in E
    | E : dbLeaseExp_put _ _ = Ok _ |- _ => apply leaseExp_put_only in E
    end.
  eapply MetaRep_view; [|exact HM1].
  repeat match goal with E : only [_] _ _ |- _ => specialize (E DbiMeta); rewrite E by (by apply (bool_decide_unpack _)); clear E end.
  done.
Qed.

Lemma handleLeaseGrant_moved s m cmd r s' r' :
  metaAgrees s m -> handleLeaseGrant fuel shardID replicaID s cmd r = Ok (s', r') -> moved 1 s m s'.
Proof.
  intros Hm E. unfold handleLeaseGrant in E. go_inv; try stay. destruct Hm as (HM & He & Hr).
  match goal with E : cmdLeaseGrant _ _ _ _ = Ok _ |- _ => eapply cmdLeaseGrant_rep in E as [id HM'] end; [|done].
  eexists. split; [split; [exact HM'|done]|]. cbn. split; [done|]. split; [done|]. split; [lia|].
  split; apply advanced_refl; try lia; [by eapply epoch_u64|done].
Qed.

Lemma handleCompact_moved s m cmd r s' r' :
  metaAgrees s m -> handleCompact fuel mapRange shardID replicaID s cmd r = Ok (s', r') -> moved 1 s m s'.
Proof.
  intros Hm E. unfold handleCompact in E. go_inv; try stay. destruct Hm as (HM & He & Hr).
  match goal with E : dbKv_compact _ _ _ _ _ = Ok _ |- _ =>
    pose proof (compact_last_u64 _ _ _ _ _ _ _ E) as Hlast;
    eapply compact_only, (only_meta kvTables _ _ meta_kv) in E end.
  eapply MetaRep_view in HM as HM1; [|eassumption].
  match goal with E : setRevisionMin _ _ = Ok _ |- _ => eapply setRevisionMin_rep in E as HM2; [|exact HM1|apply u64_range] end.
  match goal with E : setRevisionCompacted _ _ = Ok _ |- _ => eapply setRevisionCompacted_rep in E as HM3; [|exact HM2|done] end.
  eexists. split; [split; [exact HM3|done]|]. cbn. split; [done|]. split; [done|]. split; [lia|].
  split; apply advanced_refl; try lia; [by eapply epoch_u64|done].
Qed.

Lemma handleTerm_moved s m index cmd r s' r' :
  metaAgrees s m -> handleTerm s index cmd r = Ok (s', r') -> moved 1 s m s'.
Proof.
  intros Hm E. unfold handleTerm in E. go_inv; try stay. destruct Hm as (HM & He & Hr).
  match goal with E : pb_Unmarshal MTermRequest _ = Some _ |- _ => apply pb_typed in E; cbn in E end.
  match goal with E : getTerm _ = Ok ?v |- _ =>
    rewrite (getTerm_rep _ m HM) in E; apply Ok_inj in E; subst v end.
  match goal with E : setTerm _ _ = Ok _ |- _ => eapply setTerm_rep in E as HM2; [|exact HM|done] end.
  match goal with E : (_ <? _) = false |- _ => apply Z.ltb_ge in E end.
  eexists. split; [split; [exact HM2|done]|]. cbn. split; [done|]. split; [done|]. split; [lia|].
  split; apply advanced_refl; try lia; [by eapply epoch_u64|done].
Qed.

(** Revoking the expired leases of a tick. *)
Lemma tickRevoke_only epoch t s id t' s' :
  tickRevoke fuel epoch t s id = Ok (t', s') -> only leaseTables t t'.
Proof. unfold tickRevoke. intros E. go_inv. eauto using cmdLeaseRevoke_only. Qed.

Lemma tickScan_advanced n t expires epoch s t' s' :
  is_u64 s.1 -> dbLeaseExp_scan n t expires (tickRevoke fuel epoch) s = Ok (t', s') ->
  advanced (Z.of_nat n) s.1 s'.1.
Proof.
  unfold dbLeaseExp_scan. destruct (cur_open t DbiLeaseExp) as [c| | |]; try done.
  destruct (cur_get t c [] Next) as [c1 r]. revert t c1 r s.
  induction n as [|n IH]; intros t c1 r s Hs E; [done|]. cbn [leaseExpLoop] in E.
  go_inv; try (apply advanced_refl; [lia|done]).
  match goal with E1 : tickRevoke _ _ _ _ _ = Ok _ |- _ => unfold tickRevoke in E1; go_inv end.
  eapply IH in E; [|cbn; eapply advanced_u64, (bump_advanced (s.1)); done]. cbn in E.
  eapply advanced_weaken; [|eapply advanced_trans; [apply bump_advanced; done|exact E]]. lia.
Qed.

Lemma handleTick_moved s m index cmd r s' r' :
  metaAgrees s m -> handleTick fuel s index cmd r = Ok (s', r') -> moved (1 + Z.of_nat fuel) s m s'.
Proof.
  intros Hm E. unfold handleTick in E. go_inv; try stay. destruct Hm as (HM & He & Hr).
  match goal with E : setEpoch _ _ = Ok _ |- _ => eapply setEpoch_rep in E as HM1; [|exact HM|apply u64_range] end.
  match goal with E : dbLeaseExp_scan _ _ _ _ _ = Ok _ |- _ => rename E into Escan end.
  pose proof Escan as Hadv. apply tickScan_advanced in Hadv; [|exact Hr].
  pose proof Escan as Ho. apply (leaseExp_scan_only leaseTables) in Ho; [|intros *; apply tickRevoke_only].
  apply (only_meta leaseTables _ _ meta_lease) in Ho.
  eexists. split; [split; [eapply MetaRep_view; [exact Ho|exact HM1]|]|].
  - split; [done|]. cbn in Hadv. by eapply advanced_u64.
  - cbn in *. split; [done|]. split; [done|]. split; [lia|]. split.
    + exists 1. split; [lia|]. by rewrite He.
    + eapply advanced_weaken; [|exact Hadv]. lia.
Qed.

Lemma updateEntry_moved s m ent s' r :
  metaAgrees s m -> updateEntry cfg fuel mapRange shardID replicaID s ent = Ok (s', r) ->
  moved (1 + Z.of_nat fuel) s m s'.
Proof.
  intros Hm E. unfold updateEntry in E. destruct (last (ent_Cmd ent)) as [op|]; [|done].
  assert (forall s', moved 1 s m s' -> moved (1 + Z.of_nat fuel) s m s') as Hw.
  { intros s1 (m' & Ha & H1' & H2' & H3' & H4' & H5'). exists m'. repeat (split; [done|]).
    eapply advanced_weaken; [|exact H5']. lia. }
  repeat match type of E with (if ?b then _ else _) = _ => destruct b end;
    [apply Hw; by eapply handlePut_moved|apply Hw; by eapply handleDeleteRange_moved
    |apply Hw; by eapply handleCompact_moved|apply Hw; by eapply handleTxn_moved
    |apply Hw; by eapply handleLeaseGrant_moved|apply Hw; by eapply handleLeaseRevoke_moved
    |apply Hw; by eapply handleLeaseKeepAlive_moved|apply Hw; by eapply handleLeaseKeepAliveBatch_moved
    |by eapply handleTick_moved|apply Hw; by eapply handleTerm_moved|go_inv; stay].
Qed.

(** A batch of entries. *)
Definition batchBound (entries : list Entry) : Z := blen entries * (1 + Z.of_nat fuel).

Lemma updateLoop_moved s m entries s' done_ :
  metaAgrees s m -> updateLoop cfg fuel mapRange shardID replicaID s entries = Ok (s', done_) ->
  exists m', metaAgrees s' m'
    /\ m_index m' = m_index m /\ m_rev m' = m_rev m /\ m_term m <= m_term m'
    /\ advanced (blen entries) (m_epoch m) (m_epoch m')
    /\ advanced (batchBound entries) (u_newRev s) (u_newRev s')
    /\ ent_Index <$> done_ = ent_Index <$> entries.
Proof.
  unfold batchBound. revert s m done_. induction entries as [|ent entries IH]; intros s m done_ Hm E;
    cbn [updateLoop] in E.
  { go_inv. exists m. split; [done|]. split; [done|]. split; [done|]. split; [lia|].
    split; [apply advanced_refl; [change (blen (@nil Entry)) with 0; lia|eapply epoch_u64, Hm]|]. split; [|done].
    apply advanced_refl; [change (blen (@nil Entry)) with 0; lia|apply Hm]. }
  apply rbind_ok in E as ([s1 r1] & E1 & E). apply rbind_ok in E as ([s2 d2] & E2 & E). go_inv.
  apply (updateEntry_moved s m) in E1 as (m1 & Hm1 & I1 & R1 & T1 & P1 & V1); [|done].
  apply (IH _ m1) in E2 as (m2 & Hm2 & I2 & R2 & T2 & P2 & V2 & D2); [|done].
  exists m2. split; [done|]. split; [congruence|]. split; [congruence|]. split; [lia|].
  rewrite !blen_cons. split; [by eapply advanced_trans|]. split.
  - eapply advanced_weaken; [|eapply advanced_trans; [exact V1|exact V2]]. lia.
  - rewrite !fmap_cons, D2. done.
Qed.

Lemma updateTxn_meta t m entries t' rev newRev keys done_ :
  MetaRep t m -> Forall (fun e => is_u64 (ent_Index e)) entries ->
  m_rev m + batchBound entries < 2 ^ 64 -> m_epoch m + blen entries < 2 ^ 64 ->
  updateTxn cfg fuel mapRange shardID replicaID t entries = Ok (t', (rev, newRev, keys, done_)) ->
  rev = m_rev m /\ rev <= newRev <= rev + batchBound entries
  /\ ent_Index <$> done_ = ent_Index <$> entries
  /\ exists ent m', last entries = Some ent /\ MetaRep t' m'
       /\ m_index m' = ent_Index ent /\ m_rev m' = newRev
       /\ m_term m <= m_term m' /\ m_epoch m <= m_epoch m' <= m_epoch m + blen entries.
Proof.
  intros HM Hidx Hb1 Hb2 E. unfold updateTxn in E. rewrite (getEpoch_rep t m HM), (getRevision_rep t m HM) in E.
  cbn [rbind] in E. apply rbind_ok in E as ([s d] & E1 & E).
  assert (metaAgrees (mkUpd t (m_epoch m) (m_rev m) []) m) as Ha.
  { split; [done|]. split; [done|]. destruct (mr_rev t m HM). done. }
  apply (updateLoop_moved _ m) in E1 as (m1 & (HM1 & He1 & Hr1) & I1 & R1 & T1 & P1 & V1 & D1); [|done].
  cbn [u_newRev] in V1.
  assert (0 <= m_rev m /\ 0 <= m_epoch m) as [Hp1 Hp2].
  { destruct (mr_rev t m HM) as [[? _] _]. pose proof (epoch_u64 t m HM) as [? _]. done. }
  apply advanced_le in P1; [|done|done]. apply advanced_le in V1; [|done|done].
  destruct (last entries) as [ent|] eqn:El; [|done].
  assert (is_u64 (ent_Index ent)) as Hi.
  { apply last_Some in El as [l ->]. apply Forall_app in Hidx as [_ Hi]. by apply Forall_cons in Hi as [? _]. }
  apply rbind_ok in E as (t1 & E2 & E). apply rbind_ok in E as (t2 & E3 & E). apply Ok_inj in E. simplify_eq.
  eapply setIndex_rep in E2 as HM2; [|exact HM1|done].
  split; [done|]. split; [done|]. split; [done|].
  destruct (Z.ltb_spec (m_rev m) (u_newRev s)).
  - eapply setRevision_rep in E3 as HM3; [|exact HM2|done]. eexists ent, _. split; [done|]. split; [exact HM3|].
    cbn. repeat (split; [done || lia|]). lia.
  - apply Ok_inj in E3 as <-. eexists ent, _. split; [done|]. split; [exact HM2|]. cbn.
    split; [done|]. split; [lia|]. split; [done|]. lia.
Qed.

End SmMeta.
