(* ===== verification/LeaseOps.v ===== *)
(** * Revoking a lease (src/db_lease_key.go, src/state_machine.go: cmdLeaseRevoke)

    The attachment index of a lease is swept in batches and the attached keys are
    deleted; then the lease and its expiry entry go. *)

From S2P Require Import Prelude Types GoBinary Patch Kv Mdb MdbFacts MdbKeys Db DbFacts DbLease DbKv Frame LeaseFacts History DbKvRead DbKvWrite DbKvRange DbKvDelete Pb StateMachine.

Lemma prefix_not_blt p k : ~ blt (p ++ k) p.
Proof. unfold blt. induction p as [|a p IH]; cbn; [by destruct k|]. by rewrite Z.compare_refl. Qed.

Lemma StronglySorted_filter {A} (R : A -> A -> Prop) (P : A -> Prop) `{forall x, Decision (P x)} l :
  StronglySorted R l -> StronglySorted R (filter P l).
Proof.
  induction 1 as [|x l Hs IH Hf]; [constructor|]. rewrite filter_cons. case_decide; [|done]. constructor; [done|].
  apply Forall_forall. intros y [_ Hy]%list_elem_of_filter. rewrite Forall_forall in Hf. by apply Hf.
Qed.

Lemma seek_before p pre l e : l = pre ++ seek p l -> e ∈ pre -> ~ blt e.1 p -> False.
Proof.
  intros E He Hn. unfold seek in E. apply (f_equal (filter (fun p0 => ~ blt p0.1 p))) in E.
  rewrite filter_app, list_filter_filter_l in E by done.
  apply (f_equal length) in E. rewrite length_app in E.
  assert (e ∈ filter (fun p0 : entry => ~ blt p0.1 p) pre) as Hin by (by apply list_elem_of_filter).
  destruct (filter _ pre); [by apply not_elem_of_nil in Hin|]. cbn [length] in E. lia.
Qed.

Section LeaseOps.
Context (cfg : config) `{DifferOk} `{SnappyOk} `{MdbOk}.

(** The first [n] attachments of a lease leave the index; those of other leases stay. *)
Lemma sweep_ok t A id n :
  AttRep t A -> is_u64 id ->
  exists t' A', dbLeaseKey_sweep t id n = Ok (t', take n (attKeys id A))
    /\ AttRep t' A' /\ attKeys id A' = drop n (attKeys id A)
    /\ (forall id', id' <> id -> attKeys id' A' = attKeys id' A)
    /\ forall d, d <> DbiLeaseKey -> view t' d = view t d.
Proof.
  intros [Hv Hu] Hid. unfold dbLeaseKey_sweep. destruct (cur_open_ok t DbiLeaseKey) as (c & -> & Hc & _). cbn [rbind].
  pose proof (view_sorted t DbiLeaseKey) as Hs.
  destruct (cur_get_ok t c (AppendUvarint [] id) SetRange (uvarint_nonempty id)) as (c' & Hc' & Hg).
  cbn [curSpec] in Hg. rewrite Hc in Hc', Hg.
  destruct (seek_suffix _ (AppendUvarint [] id) _ Hs) as [pre Epre].
  set (post := seek (AppendUvarint [] id) (view t DbiLeaseKey)) in *.
  rewrite Hv in Epre. apply fmap_app_inv in Epre as (P & Q & EP & EQ & ->).
  apply Forall_app in Hu as [HuP HuQ].
  assert (Hsq : StronglySorted klt (attEntry <$> Q)).
  { rewrite <- EQ. unfold post, seek. by apply StronglySorted_filter. }
  assert (Hge : Forall (fun p => ~ blt (attEntry p).1 (AppendUvarint [] id)) Q).
  { apply Forall_forall. intros p Hp. assert (Hin : attEntry p ∈ post) by (rewrite EQ; apply list_elem_of_fmap; eauto).
    unfold post, seek in Hin. by apply list_elem_of_filter in Hin as [? _]. }
  destruct (cur_get t c (AppendUvarint [] id) SetRange) as [c2 r] eqn:Eg.
  destruct (sweepLoop_ok n t c2 r id [] P Q) as (t' & E & Hv' & Hd); [done|done| | |].
  { apply cur_get_dbi' in Eg. congruence. }
  { rewrite EQ in Hg. destruct Q as [|q Q]; cbn [fmap list_fmap head] in Hg; destruct Hg as [Hg ?]; by simplify_eq. }
  destruct (sweepTake_front n id Q HuQ Hid Hsq Hge) as (E1 & E2 & E3).
  assert (HP : attKeys id P = []).
  { unfold attKeys. rewrite filter_none; [done|]. intros [i k] Hin Ei. cbn in Ei. subst i.
    apply (seek_before (AppendUvarint [] id) (attEntry <$> P) (view t DbiLeaseKey) (attEntry (id, k))).
    - rewrite Hv at 1. rewrite fmap_app. f_equal. symmetry. exact EQ.
    - apply list_elem_of_fmap. eauto.
    - apply prefix_not_blt. }
  exists t', (P ++ drop (length (sweepTake n id Q)) Q).
  assert (Hk : forall i Q', attKeys i (P ++ Q') = attKeys i P ++ attKeys i Q')
    by (intros; unfold attKeys; by rewrite filter_app, fmap_app).
  rewrite !Hk, HP. cbn [app]. split; [by rewrite E, E1|].
  split; [split; [done|]; apply Forall_app; split; [done|by apply Forall_drop]|]. split; [done|]. split; [|done].
  intros id' Hne. by rewrite !Hk, E3.
Qed.

Lemma Rep_view t t' M :
  view t' DbiRev = view t DbiRev -> view t' DbiVal = view t DbiVal -> Rep cfg t M -> Rep cfg t' M.
Proof.
  intros Er Ev [R1 R2 R3 R4 R5 R6 R7]. split; try done.
  - intros key. by rewrite Er.
  - intros key. by rewrite Ev.
  - intros r. rewrite Ev. apply R6.
Qed.

Lemma AttRep_view t t' A : view t' DbiLeaseKey = view t DbiLeaseKey -> AttRep t A -> AttRep t' A.
Proof. intros E [Hv Hu]. split; [congruence|done]. Qed.

(** A key is attached to a lease once. *)
Lemma attKeys_NoDup t A id : AttRep t A -> NoDup (attKeys id A).
Proof.
  intros [Hv _]. pose proof (view_sorted t DbiLeaseKey) as Hs. rewrite Hv in Hs.
  change (StronglySorted klt (attEntry <$> A)) in Hs. clear Hv.
  induction A as [|[i k] A IH]; [constructor|]. rewrite fmap_cons in Hs. apply StronglySorted_inv in Hs as [Hs Hf].
  unfold attKeys in *. rewrite filter_cons. cbn [fst]. case_decide as Ei; [|by apply IH]. subst i.
  rewrite fmap_cons. apply NoDup_cons. split; [|by apply IH]. intros Hin.
  apply list_elem_of_fmap in Hin as ([i k'] & E & Hin). apply list_elem_of_filter in Hin as [Ei Hin].
  cbn in E, Ei. subst. rewrite Forall_forall in Hf. apply (irreflexivity blt (attEntry (id, k')).1).
  apply Hf, list_elem_of_fmap. eauto.
Qed.

Lemma deleteKeys_app rev subrev ks1 ks2 M k :
  NoDup (ks1 ++ ks2) ->
  deleteKeys rev subrev ks2 (deleteKeys rev subrev ks1 M) k = deleteKeys rev subrev (ks1 ++ ks2) M k.
Proof.
  intros (_ & Hd & _)%NoDup_app. unfold deleteKeys. pose proof (elem_of_app ks1 ks2 k). specialize (Hd k).
  repeat case_decide; tauto || done.
Qed.

(** Where a revocation leaves the tables of other components. *)
Definition revFrame (t t' : txn) : Prop :=
  forall d, d <> DbiRev -> d <> DbiEvt -> d <> DbiLeaseKey -> view t' d = view t d.

Lemma revokeLoop_ok n t M A rev epoch id keys :
  Rep cfg t M -> AttRep t A -> is_u64 id -> keyrev_ok rev 0 -> 0 < rev ->
  (forall k, k ∈ attKeys id A -> M k <> []) ->
  (forall k h, k ∈ attKeys id A -> h ∈ M k -> h_rev h < newkeyrev rev 0 false) ->
  (length (attKeys id A) < n)%nat ->
  exists t' A', revokeLoop n t rev epoch id keys = Ok (t', keys ++ attKeys id A)
    /\ Rep cfg t' (deleteKeys rev 0 (attKeys id A) M) /\ AttRep t' A' /\ attKeys id A' = []
    /\ (forall id', id' <> id -> attKeys id' A' = attKeys id' A) /\ revFrame t t'.
Proof.
  revert t M A keys. induction n as [|n IH]; intros t M A keys HR HA Hid Hr Hpos Hne Hfr Hn; [lia|].
  cbn [revokeLoop]. destruct (sweep_ok t A id 100 HA Hid) as (t1 & A1 & -> & HA1 & E1 & Ho1 & Hf1). cbn [rbind].
  pose proof (attKeys_NoDup t A id HA) as Hnd.
  assert (HR1 : Rep cfg t1 M) by (eapply Rep_view; [..|exact HR]; by apply Hf1).
  pose proof (take_drop 100 (attKeys id A)) as EX.
  assert (Hnil : take 100 (attKeys id A) = [] -> drop 100 (attKeys id A) = []) by (by destruct (attKeys id A)).
  set (b := take 100 (attKeys id A)) in *. set (rest := drop 100 (attKeys id A)) in *.
  clearbody b rest. rewrite <- EX in *. rewrite length_app in Hn.
  destruct (Z.eqb_spec (blen b) 0) as [Hb|Hb].
  - assert (b = []) as Eb by (destruct b; [done|rewrite blen_cons in Hb; pose proof (blen_nonneg b); lia]).
    pose proof (Hnil Eb) as Er.
    rewrite Eb, Er in *. cbn [app]. exists t1, A1. rewrite app_nil_r. split; [done|].
    split; [eapply Rep_ext; [|exact HR1]; intros; by rewrite deleteKeys_nil|]. split; [done|]. split; [done|].
    split; [done|]. intros d ? ? Hd. by apply Hf1.
  - destruct (deleteBatch_ok cfg t1 M rev 0 epoch b) as (t2 & -> & HR2 & Hf2); try done.
    { by apply NoDup_app in Hnd as (? & _ & _). }
    { intros k Hk. apply Hne, elem_of_app. by left. }
    { intros k h Hk. apply Hfr, elem_of_app. by left. }
    cbn [rbind].
    assert (HA2 : AttRep t2 A1) by (eapply AttRep_view; [|exact HA1]; by apply Hf2).
    assert (Hsame : forall k, k ∈ rest -> deleteKeys rev 0 b M k = M k).
    { intros k Hk. unfold deleteKeys. rewrite decide_False; [done|]. apply NoDup_app in Hnd as (_ & Hd & _).
      intros Hkb. by apply (Hd k). }
    destruct (IH t2 (deleteKeys rev 0 b M) A1 (keys ++ b)) as (t3 & A3 & -> & HR3 & HA3 & E3 & Ho3 & Hf3); try done.
    { intros k. rewrite E1. intros Hk. rewrite Hsame by done. apply Hne, elem_of_app. by right. }
    { intros k h. rewrite E1. intros Hk. rewrite Hsame by done. apply Hfr, elem_of_app. by right. }
    { rewrite E1. destruct b; [done|]. cbn [length] in Hn. lia. }
    exists t3, A3. rewrite E1, app_assoc. split; [done|]. split.
    { eapply Rep_ext; [|exact HR3]. intros k. rewrite E1. by apply deleteKeys_app. }
    split; [done|]. split; [done|]. split; [intros; by rewrite Ho3, Ho1|].
    intros d ? ? ?. rewrite Hf3, Hf2, Hf1 by done. done.
Qed.

End LeaseOps.
