(* ===== verification/LeaseInv.v ===== *)
(** * Leases and keys stay together (src/state_machine.go: cmdPut, cmdDeleteRange, cmdLeaseRevoke)

    The attachment index lists, for each lease, exactly the live keys whose value
    carries it. The commands that change keys or leases keep it that way. *)

From S2P Require Import Prelude Types GoBinary Patch Kv Mdb MdbFacts MdbKeys Db DbFacts DbLease DbKv Frame LeaseFacts History DbKvRead DbKvWrite DbKvRange DbKvDelete Pb StateMachine LeaseOps.

(** ** The attachment index as a set *)

(** Inserting an attachment in the sorted index. *)
Lemma attEntry_inj p q : is_u64 p.1 -> is_u64 q.1 -> (attEntry p).1 = (attEntry q).1 -> p = q.
Proof.
  destruct p as [i k], q as [j l]. cbn [fst]. intros Hi Hj E. unfold attEntry in E. cbn [fst snd] in E.
  apply leaseKeyKey_inj in E as [-> ->]; done.
Qed.

Lemma vput_att p A :
  is_u64 p.1 -> Forall (fun q => is_u64 q.1) A ->
  exists A', vput false (attEntry p).1 (attEntry p).2 (attEntry <$> A) = attEntry <$> A'
    /\ forall q, q ∈ A' <-> q = p \/ q ∈ A.
Proof.
  intros Hp. induction A as [|a A IH]; intros Hu.
  { exists [p]. split; [done|]. intros q. rewrite list_elem_of_singleton. split; [auto|]. intros [?|X]; [done|inversion X]. }
  apply Forall_cons in Hu as [Ha Hu]. rewrite fmap_cons. destruct (attEntry a) as [ka va] eqn:Ea. cbn [vput].
  destruct (bcompare (attEntry p).1 ka) eqn:Ec.
  - apply bcompare_eq in Ec. assert (p = a) as ->.
    { apply attEntry_inj; [done|done|]. by rewrite Ec, Ea. }
    exists (a :: A). split; [by rewrite fmap_cons, <- surjective_pairing|]. intros q. rewrite elem_of_cons. tauto.
  - exists (p :: a :: A). split; [by rewrite !fmap_cons, Ea, <- surjective_pairing|]. intros q. by rewrite elem_of_cons.
  - destruct (IH Hu) as (A' & E & Hin). exists (a :: A'). split; [by rewrite fmap_cons, Ea, <- E|].
    intros q. rewrite !elem_of_cons, Hin. tauto.
Qed.

Lemma vdelkey_att p A :
  is_u64 p.1 -> Forall (fun q => is_u64 q.1) A ->
  vdelkey (attEntry p).1 (attEntry <$> A) = attEntry <$> filter (fun q => q <> p) A.
Proof.
  intros Hp. induction A as [|a A IH]; intros Hu; [done|]. apply Forall_cons in Hu as [Ha Hu].
  rewrite fmap_cons. unfold vdelkey in *. rewrite !filter_cons, (IH Hu).
  destruct (decide (a <> p)) as [Hne|E%dec_stable].
  - rewrite decide_True; [done|]. intros E. by apply attEntry_inj in E.
  - subst a. rewrite decide_False; [done|]. by intros X.
Qed.

Lemma vget_att p A : p ∈ A -> vget (attEntry p).1 (attEntry <$> A) <> None.
Proof.
  intros Hin E. unfold vget in E. apply head_None in E. unfold dups in E. apply fmap_nil_inv in E.
  assert (attEntry p ∈ filter (fun q : entry => q.1 = (attEntry p).1) (attEntry <$> A)) as X.
  { apply list_elem_of_filter. split; [done|]. apply list_elem_of_fmap. eauto. }
  rewrite E in X. inversion X.
Qed.

Lemma elem_of_attKeys id k A : k ∈ attKeys id A <-> (id, k) ∈ A.
Proof.
  unfold attKeys. rewrite list_elem_of_fmap. split.
  - intros ([i k'] & -> & [Ei Hp]%list_elem_of_filter). cbn in *. by subst.
  - intros Hp. exists (id, k). split; [done|]. by apply list_elem_of_filter.
Qed.

Lemma visible_elem hs h : visible 0 hs = Some h -> h ∈ hs.
Proof.
  rewrite visible_now. destruct hs as [|h' hs]; [done|]. destruct (isLive h'); [|done]. intros [= ->]. constructor.
Qed.

Section LeaseInv.
Context (cfg : config) `{DifferOk} `{SnappyOk} `{MdbOk}.

Lemma att_put_ok t A id key :
  AttRep t A -> is_u64 id -> blen key <= 480 ->
  exists t' A', dbLeaseKey_put t id key = Ok t' /\ AttRep t' A'
    /\ (forall q, q ∈ A' <-> q = (id, key) \/ q ∈ A)
    /\ forall d, d <> DbiLeaseKey -> view t' d = view t d.
Proof.
  intros [Hv Hu] Hid Hk. unfold dbLeaseKey_put.
  destruct (mdb_put_ok t DbiLeaseKey (leaseKeyKey id key) (addChecksum (leaseKeyKey id key) [])) as (t' & -> & V).
  { split; [by apply leaseKeyKey_fits|done]. }
  destruct (vput_att (id, key) A Hid Hu) as (A' & E & Hin).
  exists t', A'. split; [done|]. split; [|split; [done|]].
  - split; [by rewrite V, decide_True, Hv by done|]. apply Forall_forall. intros q [->|Hq]%Hin; [done|].
    rewrite Forall_forall in Hu. by apply Hu.
  - intros d Hd. by rewrite V, decide_False.
Qed.

Lemma att_del_ok t A id key :
  AttRep t A -> is_u64 id -> (id, key) ∈ A ->
  exists t', dbLeaseKey_del t id key = Ok t' /\ AttRep t' (filter (fun q => q <> (id, key)) A)
    /\ forall d, d <> DbiLeaseKey -> view t' d = view t d.
Proof.
  intros [Hv Hu] Hid Hin. unfold dbLeaseKey_del.
  pose proof (mdb_del_ok t DbiLeaseKey (leaseKeyKey id key)) as Hd. rewrite Hv in Hd.
  change (leaseKeyKey id key) with (attEntry (id, key)).1 in *.
  pose proof (vget_att _ _ Hin) as Hg. destruct (vget (attEntry (id, key)).1 (attEntry <$> A)); [|done].
  destruct Hd as (t' & -> & V).
  { cbn. unfold leaseKeyKey. intros E%app_eq_nil. destruct E as [E _]. by apply (uvarint_nonempty id). }
  exists t'. split; [done|]. split; [split|].
  - rewrite V, decide_True by done. by apply vdelkey_att.
  - apply Forall_forall. intros q [_ Hq]%list_elem_of_filter. rewrite Forall_forall in Hu. by apply Hu.
  - intros d Hd. by rewrite V, decide_False.
Qed.

(** ** The invariant *)

(** [(id, key)] is attached exactly when the live value of the key carries the lease,
    and the newest index record of a live key names the lease of its value. *)
Record Attached (M : history) (A : list (Z * bytes)) : Prop := {
  at_iff id key : (id, key) ∈ A <-> id <> 0 /\ exists h, visible 0 (M key) = Some h /\ h_lease h = id;
  at_rec key h : visible 0 (M key) = Some h -> h_klease h = h_lease h
}.

(** ** cmdPut *)

(** [A'] is [A] with [key] attached to [lease] alone (0: to none). *)
Definition reattached (A A' : list (Z * bytes)) (key : bytes) (lease : Z) : Prop :=
  forall id k, (id, k) ∈ A' <-> if decide (k = key) then id <> 0 /\ id = lease else (id, k) ∈ A.

Lemma putLeaseKey_ok t A req prev :
  AttRep t A -> pr_IgnoreLease req = false -> 0 <= pr_Lease req < 2 ^ 63 -> is_u64 (kv_lease prev) ->
  blen (pr_Key req) <= 480 ->
  (forall id, (id, pr_Key req) ∈ A <-> id <> 0 /\ id = kv_lease prev) ->
  exists t' A', putLeaseKey t req prev = Ok t' /\ AttRep t' A'
    /\ reattached A A' (pr_Key req) (pr_Lease req)
    /\ forall d, d <> DbiLeaseKey -> view t' d = view t d.
Proof.
  intros HA Hig Hl Hp Hk Hin. unfold putLeaseKey. rewrite Hig. cbn [negb andb].
  assert (is_i64 (pr_Lease req) /\ is_u64 (pr_Lease req)) as [Hi Hu] by (unfold is_i64, is_u64; lia).
  destruct (Z.eqb_spec (i64 (kv_lease prev)) (pr_Lease req)) as [E|E]; cbn [negb].
  { exists t, A. split; [done|]. split; [done|]. split; [|done]. intros id k. case_decide; [subst k|done].
    rewrite Hin, <- E. assert (i64 (kv_lease prev) = kv_lease prev) as ->; [|done].
    rewrite <- (u64_i64 (kv_lease prev)) at 2 by done. rewrite E. by rewrite u64_id. }
  assert (kv_lease prev <> pr_Lease req) as Hne.
  { intros E'. apply E. rewrite E'. by apply i64_id. }
  rewrite (u64_id (pr_Lease req)) by done.
  assert (exists t1 A1, (if 0 <? pr_Lease req then dbLeaseKey_put t (pr_Lease req) (pr_Key req) else Ok t) = Ok t1
    /\ AttRep t1 A1 /\ (forall q, q ∈ A1 <-> (pr_Lease req <> 0 /\ q = (pr_Lease req, pr_Key req)) \/ q ∈ A)
    /\ forall d, d <> DbiLeaseKey -> view t1 d = view t d) as (t1 & A1 & -> & HA1 & Hin1 & Hf1).
  { destruct (Z.ltb_spec 0 (pr_Lease req)).
    - destruct (att_put_ok t A (pr_Lease req) (pr_Key req)) as (t1 & A1 & -> & HA1 & Hin1 & Hf1); try done.
      exists t1, A1. split; [done|]. split; [done|]. split; [|done]. intros q. rewrite Hin1.
      assert (pr_Lease req <> 0) by lia. tauto.
    - exists t, A. split; [done|]. split; [done|]. split; [|done]. intros q. assert (pr_Lease req = 0) by lia. tauto. }
  cbn [rbind]. destruct (Z.ltb_spec 0 (kv_lease prev)) as [Hpos|Hz].
  - destruct (att_del_ok t1 A1 (kv_lease prev) (pr_Key req)) as (t2 & -> & HA2 & Hf2); try done.
    { apply Hin1. right. apply Hin. split; [lia|done]. }
    exists t2, (filter (fun q => q <> (kv_lease prev, pr_Key req)) A1). split; [done|]. split; [done|].
    split; [|intros; by rewrite Hf2, Hf1].
    intros id k. rewrite list_elem_of_filter, Hin1. specialize (Hin id).
    case_decide as Ek; [subst k; rewrite Hin|]; split.
    + intros [Hn [[? [= ->]]|[? ->]]]; [done|]. by destruct Hn.
    + intros [? ->]. split; [congruence|]. by left.
    + intros [Hn [[? [= -> ->]]|?]]; done.
    + intros ?. split; [congruence|]. by right.
  - assert (kv_lease prev = 0) as Ez by (destruct Hp; lia). rewrite Ez in *.
    exists t1, A1. split; [done|]. split; [done|]. split; [|done].
    intros id k. rewrite Hin1. specialize (Hin id). case_decide as Ek; [subst k; rewrite Hin|]; split.
    + intros [[? [= ->]]|[? ->]]; done.
    + intros [? ->]. by left.
    + intros [[? [= -> ->]]|?]; done.
    + intros ?. by right.
Qed.

Lemma Attached_put M A A' key new hs :
  Attached M A -> isLive new = true -> h_klease new = h_lease new -> reattached A A' key (h_lease new) ->
  Attached (hset M key (new :: hs)) A'.
Proof.
  intros [Hiff Hrec] Hl Hk HA. split.
  - intros id k. rewrite (HA id k). case_decide as E.
    + subst k. rewrite hset_same, visible_now, Hl. split; [intros [? ->]; eauto|].
      intros (? & h & [= <-] & ->). done.
    + rewrite hset_other by done. apply Hiff.
  - intros k h. destruct (decide (k = key)) as [->|Hne].
    + rewrite hset_same, visible_now, Hl. by intros [= <-].
    + rewrite hset_other by done. apply Hrec.
Qed.

Lemma cmdPut_ok t M A rev subrev epoch req :
  Rep cfg t M -> AttRep t A -> Attached M A -> fresh M rev subrev ->
  put_args rev subrev (u64 (pr_Lease req)) (pr_Key req) (pr_Value req) (pr_IgnoreValue req) ->
  (forall h, head (M (pr_Key req)) = Some h -> isLive h = true ->
     keyrev_upper (h_rev h) <> rev \/ PCB_TXN_MULTI_WRITE_ENABLED cfg = true) ->
  pr_IgnoreLease req = false -> 0 <= pr_Lease req < 2 ^ 63 ->
  exists t' A' prev,
    cmdPut cfg t rev subrev epoch req
      = Ok (t', (mkPutResponse None (if pr_PrevKv req then Some (kv_ToProto prev) else None), 1, [pr_Key req]))
    /\ kvOr (pr_Key req) (visible 0 (M (pr_Key req))) prev
    /\ let M' := hset M (pr_Key req)
          (putRec rev subrev (pr_Lease req) (pr_Value req) (pr_IgnoreValue req) false (M (pr_Key req)) :: M (pr_Key req)) in
       Rep cfg t' M' /\ AttRep t' A' /\ Attached M' A'.
Proof.
  intros HR HA HI Hfr Ha Hdup Hig Hl. unfold cmdPut.
  assert (u64 (pr_Lease req) = pr_Lease req) as El by (apply u64_id; unfold is_u64; lia).
  rewrite Hig, El in *. set (key := pr_Key req) in *.
  destruct (put_ok cfg t M rev subrev (pr_Lease req) epoch key (pr_Value req) (pr_IgnoreValue req) false)
    as (t1 & prev & next & patched & -> & HR1 & Hprev & _ & _ & Hfr1); try done. cbn [rbind].
  destruct (putRec_ok rev subrev (pr_Lease req) key (pr_Value req) (pr_IgnoreValue req) false (M key) Ha (rep_ok _ _ _ HR key))
    as (Hnew & _ & Hlive).
  pose proof (pa_key _ _ _ _ _ _ Ha) as [_ Hkl].
  assert (is_u64 (kv_lease prev) /\ forall id, (id, key) ∈ A <-> id <> 0 /\ id = kv_lease prev) as [Hpl Hpin].
  { pose proof (rep_ok _ _ _ HR key) as Hok.
    assert (forall id, (id, key) ∈ A <-> id <> 0 /\ exists h, visible 0 (M key) = Some h /\ h_lease h = id) as Hi
      by (intros id; apply HI).
    destruct (visible 0 (M key)) as [h|] eqn:Ev; cbn [kvOr] in Hprev.
    - rewrite (is_lease _ _ _ Hprev). split.
      + rewrite visible_now in Ev. destruct (M key) as [|h' hs]; [done|]. destruct (isLive h'); [|done].
        injection Ev as ->. apply Forall_cons in Hok as [Hok _]. by apply ok_lease.
      + intros id. rewrite Hi. split; [intros (? & ? & [= <-] & ?); done|intros [? ->]; eauto].
    - subst prev. split; [done|]. intros id. rewrite Hi. split; [by intros (_ & ? & ? & _)|]. intros [? ->]. done. }
  destruct (putLeaseKey_ok t1 A req prev) as (t2 & A2 & -> & HA2 & Hre & Hf2); try done.
  { eapply AttRep_view; [|exact HA]. by apply Hfr1. }
  cbn [rbind]. exists t2, A2, prev. split; [done|]. split; [done|].
  split; [eapply Rep_view; [..|exact HR1]; by apply Hf2|]. split; [done|].
  eapply Attached_put; [exact HI|exact Hlive| |].
  - unfold putRec. destruct (M key); [|destruct (isLive h)]; done.
  - assert (h_lease (putRec rev subrev (pr_Lease req) (pr_Value req) (pr_IgnoreValue req) false (M key)) = pr_Lease req)
      as -> by (unfold putRec; destruct (M key); [|destruct (isLive h)]; done). exact Hre.
Qed.

(** ** cmdDeleteRange *)

(** The live keys among [ks]. *)
Definition liveKeys (M : history) (ks : list bytes) : list bytes :=
  filter (fun k => is_Some (visible 0 (M k))) ks.

Lemma liveRec_items M ks :
  omap (liveRec M) ks = (fun k => recOf k (default (tombstoneRec 0) (visible 0 (M k)))) <$> liveKeys M ks.
Proof.
  unfold liveKeys. induction ks as [|k ks IH]; [done|]. cbn [omap list_omap]. rewrite filter_cons, IH.
  assert (liveRec M k = recOf k <$> visible 0 (M k)) as ->.
  { unfold liveRec. rewrite visible_now. destruct (M k) as [|h hs]; [|destruct (isLive h)]; done. }
  destruct (visible 0 (M k)) as [h|] eqn:E; cbn [fmap option_fmap option_map].
  - rewrite decide_True by eauto. rewrite fmap_cons. f_equal. by rewrite E.
  - rewrite decide_False; [done|]. by intros [? ?].
Qed.

Lemma deleteLeaseKeys_ok t A items keys :
  AttRep t A -> NoDup (kr_key <$> items) ->
  (forall r, r ∈ items -> is_u64 (kr_lease r) /\ (kr_lease r <> 0 -> (kr_lease r, kr_key r) ∈ A)) ->
  exists t' A', deleteLeaseKeys t items keys = Ok (t', keys ++ (kr_key <$> items)) /\ AttRep t' A'
    /\ (forall q, q ∈ A' <-> q ∈ A /\ forall r, r ∈ items -> q <> (kr_lease r, kr_key r) \/ kr_lease r = 0)
    /\ forall d, d <> DbiLeaseKey -> view t' d = view t d.
Proof.
  revert t A keys. induction items as [|r items IH]; intros t A keys HA Hnd Hin; cbn [deleteLeaseKeys].
  { exists t, A. rewrite app_nil_r. split; [done|]. split; [done|]. split; [|done]. intros q. split; [|by intros [? _]].
    intros ?. split; [done|]. intros r X. inversion X. }
  rewrite fmap_cons in Hnd. apply NoDup_cons in Hnd as [Hni Hnd].
  assert (exists t1 A1, (if negb (kr_lease r =? 0) then dbLeaseKey_del t (kr_lease r) (kr_key r) else Ok t) = Ok t1
    /\ AttRep t1 A1 /\ (forall q, q ∈ A1 <-> q ∈ A /\ (q <> (kr_lease r, kr_key r) \/ kr_lease r = 0))
    /\ forall d, d <> DbiLeaseKey -> view t1 d = view t d) as (t1 & A1 & -> & HA1 & Hin1 & Hf1).
  { destruct (Hin r) as [Hu Ha]; [constructor|]. destruct (Z.eqb_spec (kr_lease r) 0) as [E|E]; cbn [negb].
    - exists t, A. split; [done|]. split; [done|]. split; [|done]. intros q. tauto.
    - destruct (att_del_ok t A (kr_lease r) (kr_key r)) as (t1 & -> & HA1 & Hf1); [done|done|by apply Ha|].
      eexists t1, _. split; [done|]. split; [exact HA1|]. split; [|done]. intros q. rewrite list_elem_of_filter. tauto. }
  cbn [rbind]. destruct (IH t1 A1 (keys ++ [kr_key r])) as (t2 & A2 & -> & HA2 & Hin2 & Hf2); [done|done| |].
  { intros r' Hr'. destruct (Hin r') as [? Ha]; [by constructor|]. split; [done|]. intros Hz. apply Hin1.
    split; [by apply Ha|]. left. intros [= _ E]. apply Hni, list_elem_of_fmap. eauto. }
  exists t2, A2. rewrite fmap_cons, <- app_assoc. split; [done|]. split; [done|]. split; [|intros; by rewrite Hf2, Hf1].
  intros q. rewrite Hin2, Hin1. split.
  - intros [[? ?] Hr]. split; [done|]. intros r' [->|?]%elem_of_cons; auto.
  - intros [? Hr]. split; [split; [done|]; apply Hr; constructor|]. intros r' ?. apply Hr. by constructor.
Qed.

Lemma visible_deleteKeys M rev subrev ks k :
  keyrev_ok rev subrev ->
  visible 0 (deleteKeys rev subrev ks M k) = if decide (k ∈ ks) then None else visible 0 (M k).
Proof.
  intros Hr. unfold deleteKeys. case_decide; [|done]. rewrite !visible_now. unfold delRecs.
  destruct (M k) as [|h hs]; [done|]. destruct (isLive h) eqn:E; [|by rewrite E].
  unfold isLive at 1. cbn [tombstoneRec h_rev]. by rewrite keyrev_isdel_new.
Qed.

(** Deleting keys and detaching the live ones keeps the invariant. *)
Lemma Attached_delete M A A' rev subrev ks :
  keyrev_ok rev subrev -> Attached M A ->
  (forall id k, (id, k) ∈ A' <-> (id, k) ∈ A /\ k ∉ ks) ->
  Attached (deleteKeys rev subrev ks M) A'.
Proof.
  intros Hr [Hiff Hrec] HA. split.
  - intros id k. rewrite HA, Hiff, visible_deleteKeys by done. case_decide as E; [|tauto].
    split; [tauto|]. by intros (_ & ? & ? & _).
  - intros k h. rewrite visible_deleteKeys by done. case_decide; [done|]. apply Hrec.
Qed.

(** The value that a delete replaced, read back at its own revision. *)
Definition oldValue (M : history) (k : bytes) (p : KeyValue) : Prop :=
  exists h item, visible 0 (M k) = Some h /\ kvIs k h item /\ p = kv_ToProto item.

Lemma deletePrevKvs_ok fuel t M M' ks kvs :
  Rep cfg t M' -> (forall k, k ∈ ks -> k <> [] /\ (length (M' k) <= fuel)%nat) ->
  (forall k, k ∈ ks -> exists h, visible 0 (M k) = Some h /\ visible (keyrev_upper (h_rev h)) (M' k) = Some h) ->
  exists kvs', deletePrevKvs fuel t ((fun k => recOf k (default (tombstoneRec 0) (visible 0 (M k)))) <$> ks) kvs None
      = Ok (kvs ++ kvs', None)
    /\ Forall2 (oldValue M) ks kvs'.
Proof.
  intros HR. revert kvs. induction ks as [|k ks IH]; intros kvs Hk Hv; cbn [deletePrevKvs fmap list_fmap].
  { exists []. rewrite app_nil_r. done. }
  destruct (Hk k) as [Hne Hf]; [constructor|]. destruct (Hv k) as (h & Hh & Hh'); [constructor|].
  rewrite Hh. cbn [default from_option recOf kr_key kr_rev id].
  destruct (getRev_ok cfg fuel t M' k (keyrev_upper (h_rev h)) false HR Hne Hf) as (item & prev & -> & Hi & _).
  cbn [rbind]. rewrite Hh' in Hi. cbn [kvOr] in Hi.
  destruct (IH (kvs ++ [kv_ToProto item])) as (kvs' & -> & HF).
  { intros k' ?. apply Hk. by constructor. } { intros k' ?. apply Hv. by constructor. }
  exists (kv_ToProto item :: kvs'). rewrite <- app_assoc. split; [done|]. constructor; [|done]. by exists h, item.
Qed.

(** A key deleted at [rev] still shows its last value at that value's revision. *)
Lemma visible_under (M : history) rev subrev k h :
  keyrev_ok rev subrev -> 0 < rev -> hrec_ok h -> visible 0 (M k) = Some h ->
  keyrev_upper (h_rev h) < rev ->
  visible (keyrev_upper (h_rev h)) (delRecs rev subrev (M k)) = Some h.
Proof.
  intros Hr Hpos [(u & l & d & Hul & Hu & Hrev) _ _ _ _ _] Hv Hlt. rewrite visible_now in Hv.
  destruct (M k) as [|h' hs]; [done|]. destruct (isLive h') eqn:El; [|done]. injection Hv as ->.
  cbn [delRecs]. rewrite El. unfold visible. cbn [dropNewer]. unfold newer. cbn [tombstoneRec h_rev].
  rewrite Hrev in *. rewrite !keyrev_upper_new in * by done. zcases; try lia. cbn [andb]. by rewrite El.
Qed.

Lemma keyrev_upper_lt rev subrev r :
  keyrev_ok rev subrev -> (exists u l d, keyrev_ok u l /\ 0 < u /\ r = newkeyrev u l d) ->
  r < newkeyrev rev subrev false -> keyrev_upper r <= rev.
Proof.
  intros Hr (u & l & d & Hul & Hu & ->). rewrite keyrev_upper_new by done. rewrite !newkeyrev_eq by done.
  unfold keyrev_ok, PCB_TXN_OPS_LIMIT in *. destruct d; lia.
Qed.

Lemma liveKeys_below t M rev subrev dead :
  Rep cfg t M -> keyrev_ok rev subrev -> fresh M rev subrev ->
  (forall k h, k ∈ dead -> visible 0 (M k) = Some h -> keyrev_upper (h_rev h) <> rev) ->
  forall k, k ∈ liveKeys M dead ->
    k ∈ dead /\ exists h, visible 0 (M k) = Some h /\ hrec_ok h /\ keyrev_upper (h_rev h) < rev.
Proof.
  intros HR Hr Hfr Hup k [[h Hh] Hin]%list_elem_of_filter. split; [done|]. exists h. split; [done|].
  pose proof (visible_elem _ _ Hh) as Hhin.
  pose proof (rep_ok _ _ _ HR k) as Hok. rewrite Forall_forall in Hok. specialize (Hok h Hhin). split; [done|].
  pose proof (keyrev_upper_lt rev subrev (h_rev h) Hr (ok_rev _ Hok) (Hfr k h Hhin)).
  specialize (Hup k h Hin Hh). lia.
Qed.

Lemma cmdDeleteRange_ok fuel shardID replicaID t M A ks rev subrev epoch req :
  Rep cfg t M -> AttRep t A -> Attached M A -> dr_Key req <> [] ->
  StronglySorted blt ks -> (forall k, k ∈ ks <-> M k <> []) ->
  keyrev_ok rev subrev -> 0 < rev -> fresh M rev subrev ->
  (forall k h, k ∈ delKeys (dr_Key req) (dr_RangeEnd req) ks -> visible 0 (M k) = Some h -> keyrev_upper (h_rev h) <> rev) ->
  (length ks < fuel)%nat -> (forall k, (length (M k) < fuel)%nat) ->
  let dead := delKeys (dr_Key req) (dr_RangeEnd req) ks in
  let live := liveKeys M dead in
  exists t' A' kvs,
    cmdDeleteRange cfg fuel shardID replicaID t rev subrev epoch req
      = Ok (t', (mkDeleteRangeResponse (Some (responseHeader shardID replicaID rev)) (blen live) kvs,
                 replicate (length live) [] ++ live))
    /\ Rep cfg t' (deleteKeys rev subrev dead M) /\ AttRep t' A' /\ Attached (deleteKeys rev subrev dead M) A'
    /\ if dr_PrevKv req then Forall2 (oldValue M) live kvs else kvs = [].
Proof.
  intros HR HA HI Hk Hs Hks Hr Hpos Hfr Hup Hf Hf2 dead live. unfold cmdDeleteRange.
  destruct (deleteRange_ok cfg fuel t M ks rev subrev epoch (dr_Key req) (dr_RangeEnd req)) as (t1 & -> & HR1 & Hfr1); try done.
  { intros k h Hin Hh Hl. left. apply (Hup k h); [done|]. rewrite visible_now. destruct (M k); [done|].
    injection Hh as ->. by rewrite Hl. }
  fold dead in HR1 |- *. rewrite liveRec_items. fold live. cbn [rbind].
  set (items := (fun k => recOf k (default (tombstoneRec 0) (visible 0 (M k)))) <$> live).
  assert (kr_key <$> items = live) as Eitems by (unfold items; rewrite <- list_fmap_compose; apply list_fmap_id).
  pose proof (liveKeys_below t M rev subrev dead HR Hr Hfr Hup) as Hlive. fold live in Hlive.
  destruct (deleteLeaseKeys_ok t1 A items (replicate (length items) [])) as (t2 & A2 & -> & HA2 & Hin2 & Hfr2).
  { eapply AttRep_view; [|exact HA]. by apply Hfr1. }
  { rewrite Eitems. apply NoDup_filter, NoDup_filter, NoDup_filter. by apply sorted_nodup. }
  { intros r Hin. apply list_elem_of_fmap in Hin as (k & -> & Hin). destruct (Hlive k Hin) as (_ & h & Hh & Hok & _).
    rewrite Hh. cbn [default from_option recOf kr_lease kr_key id]. split; [by apply ok_klease|].
    intros Hz. apply (at_iff _ _ HI). split; [done|]. exists h. split; [done|]. symmetry. by eapply at_rec. }
  cbn [rbind]. rewrite Eitems.
  assert (HR2 : Rep cfg t2 (deleteKeys rev subrev dead M)) by (eapply Rep_view; [..|exact HR1]; by apply Hfr2).
  assert (exists kvs, (if dr_PrevKv req then deletePrevKvs fuel t2 items [] None else Ok ([], None)) = Ok (kvs, None)
    /\ if dr_PrevKv req then Forall2 (oldValue M) live kvs else kvs = []) as (kvs & -> & Hkvs).
  { destruct (dr_PrevKv req); [|by exists []]. unfold items.
    destruct (deletePrevKvs_ok fuel t2 M (deleteKeys rev subrev dead M) live []) as (kvs & -> & HF); [done| | |by exists kvs].
    - intros k Hin. destruct (Hlive k Hin) as (Hd & h & Hh & _).
      assert (key_ok k) as [Hkl _] by (apply (rep_key _ _ _ HR); rewrite visible_now in Hh; by destruct (M k)).
      split; [apply blen_nonempty; lia|]. unfold deleteKeys. rewrite decide_True by done.
      specialize (Hf2 k). unfold delRecs. destruct (M k); [cbn; lia|]. destruct (isLive _); cbn in *; lia.
    - intros k Hin. destruct (Hlive k Hin) as (Hd & h & Hh & Hok & Hlt). exists h. split; [done|].
      unfold deleteKeys. rewrite decide_True by done. by apply visible_under. }
  cbn [rbind]. exists t2, A2, kvs. unfold items. rewrite length_fmap. unfold blen. rewrite length_fmap.
  split; [done|]. split; [done|]. split; [done|]. split; [|done].
  apply (Attached_delete M A); [done|done|]. intros id k. rewrite Hin2. split.
  - intros [Hin Hr2]. split; [done|]. intros Hd. apply (at_iff _ _ HI) in Hin as (Hz & h & Hh & <-).
    assert (k ∈ live) as Hkl by (apply list_elem_of_filter; eauto).
    destruct (Hr2 (recOf k h)) as [Hn|E]; cbn [recOf kr_lease kr_key] in *.
    + apply list_elem_of_fmap. exists k. by rewrite Hh.
    + destruct Hn. by rewrite (at_rec _ _ HI k h).
    + rewrite (at_rec _ _ HI k h) in E by done. done.
  - intros [Hin Hnd]. split; [done|]. intros r Hr2. apply list_elem_of_fmap in Hr2 as (k' & -> & Hk').
    destruct (Hlive k' Hk') as (Hd & _). left. cbn [recOf kr_key]. intros [= _ ->]. done.
Qed.

(** ** cmdLeaseRevoke *)

(** The lease and its current expiry entry are in their tables. *)
Definition leaseHeld (t : txn) (it : lease) : Prop :=
  leaseStored t (l_id it) (Some it) /\ vget (leaseExpKey it) (view t DbiLeaseExp) <> None.

Lemma leaseStored_view t t' id o : view t' DbiLease = view t DbiLease -> leaseStored t id o -> leaseStored t' id o.
Proof. unfold leaseStored. by intros ->. Qed.

Lemma cmdLeaseRevoke_ok fuel t M A rev epoch it :
  Rep cfg t M -> AttRep t A -> Attached M A -> leaseHeld t it -> l_id it <> 0 ->
  keyrev_ok rev 0 -> 0 < rev -> fresh M rev 0 -> (length (attKeys (l_id it) A) < fuel)%nat ->
  let keys := attKeys (l_id it) A in
  exists t' A',
    cmdLeaseRevoke fuel t rev epoch (l_id it) = Ok (t', (keys, 1))
    /\ Rep cfg t' (deleteKeys rev 0 keys M) /\ AttRep t' A' /\ Attached (deleteKeys rev 0 keys M) A'
    /\ leaseStored t' (l_id it) None
    /\ (forall id o, is_u64 id -> id <> l_id it -> leaseStored t id o -> leaseStored t' id o)
    /\ view t' DbiLeaseExp = vdelkey (leaseExpKey it) (view t DbiLeaseExp)
    /\ view t' DbiVal = view t DbiVal.
Proof.
  intros HR HA HI [Hst Hexp] Hz Hr Hpos Hfr Hf keys. unfold cmdLeaseRevoke.
  assert (is_u64 (l_id it)) as Hid by (destruct Hst as [_ X]; destruct (X it eq_refl) as [_ []]; done).
  rewrite (lease_get_ok t (l_id it) (Some it) Hst). cbn [default from_option rbind id].
  destruct (Z.eqb_spec (l_id it) 0); [done|].
  assert (Hin : forall k, k ∈ keys <-> (l_id it, k) ∈ A).
  { intros k. apply elem_of_attKeys. }
  destruct (revokeLoop_ok cfg fuel t M A rev epoch (l_id it) []) as (t1 & A1 & -> & HR1 & HA1 & E1 & Ho1 & Hf1); try done.
  { intros k. fold keys. rewrite Hin, (at_iff _ _ HI). intros (_ & h & Hh & _) E. by rewrite E in Hh. }
  { intros k h _. apply Hfr. }
  fold keys in HR1 |- *. cbn [rbind app].
  pose proof (mdb_del_ok t1 DbiLeaseExp (leaseExpKey it)) as Hd. unfold dbLeaseExp_del.
  rewrite (Hf1 DbiLeaseExp) in Hd by done. destruct (vget (leaseExpKey it) (view t DbiLeaseExp)); [|done].
  destruct Hd as (t2 & -> & V2). { apply blen_nonempty. by destruct (leaseExpKey_fits it). }
  cbn [rbind].
  destruct (lease_del_ok t2 (l_id it) it) as (t3 & -> & Hn3 & Ho3 & Hf3); [|done|].
  { eapply leaseStored_view; [|exact Hst]. rewrite V2, decide_False by done. by apply Hf1. }
  cbn [rbind]. exists t3, A1. split; [done|].
  split; [eapply Rep_view; [..|exact HR1]; rewrite Hf3, V2, decide_False by done; done|].
  split; [eapply AttRep_view; [|exact HA1]; rewrite Hf3, V2, decide_False by done; done|]. split.
  { apply (Attached_delete M A); [done|done|]. intros id k. rewrite Hin. destruct (decide (id = l_id it)) as [->|Hne].
    - split; [|tauto]. intros X. exfalso. assert (k ∈ attKeys (l_id it) A1) as Y.
      { by apply elem_of_attKeys. }
      rewrite E1 in Y. inversion Y.
    - rewrite <- (elem_of_attKeys id k A1), Ho1, elem_of_attKeys by done. split; [|tauto]. intros X. split; [done|]. intros Y.
      apply (at_iff _ _ HI) in X as (_ & h & Hh & <-). apply (at_iff _ _ HI) in Y as (_ & h' & Hh' & E').
      rewrite Hh in Hh'. injection Hh' as <-. done. }
  split; [done|]. split.
  - intros id o Hu Hne Hso. apply Ho3; [done|done|]. eapply leaseStored_view; [|exact Hso].
    rewrite V2, decide_False by done. by apply Hf1.
  - split; [by rewrite Hf3, V2, decide_True by done|]. rewrite Hf3, V2, decide_False by done. by apply Hf1.
Qed.

End LeaseInv.
