(* ===== verification/LeaseGrant.v ===== *)
(** * Granting and renewing leases (src/state_machine.go: cmdLeaseGrant, cmdLeaseKeepAlive)

    The lease table as a finite map from ids to leases. *)

From stdpp Require Import gmap.
From S2P Require Import Prelude Types GoBinary Patch Kv Mdb MdbFacts Db DbFacts DbLease DbKv LeaseFacts History Pb StateMachine LeaseInv.

Section LeaseGrant.
Context `{MdbOk} `{ErrLib}.

Definition LeaseRep (t : txn) (L : gmap Z lease) : Prop :=
  forall id, is_u64 id -> leaseStored t id (L !! id).

Lemma LeaseRep_view t t' L : view t' DbiLease = view t DbiLease -> LeaseRep t L -> LeaseRep t' L.
Proof. intros E HL id Hid. eapply leaseStored_view; [exact E|by apply HL]. Qed.

Lemma LeaseRep_id t L id it : LeaseRep t L -> is_u64 id -> L !! id = Some it -> l_id it = id /\ lease_ok it.
Proof. intros HL Hid E. destruct (HL id Hid) as [_ X]. by apply X. Qed.

Lemma LeaseRep_get t L id it : LeaseRep t L -> is_u64 id -> L !! id = Some it -> dbLease_get t id = Ok it.
Proof. intros HL Hid E. pose proof (HL id Hid) as Hs. rewrite E in Hs. exact (lease_get_ok t id (Some it) Hs). Qed.

(** ** Fresh ids *)

Lemma nextLeaseID_ok n t L id :
  LeaseRep t L -> 0 <= id ->
  (exists j, 0 < j <= Z.of_nat n /\ id + j < 2 ^ 64 /\ L !! (id + j) = None) ->
  exists j, nextLeaseID n t id = Ok (id + j) /\ 0 < j <= Z.of_nat n /\ id + j < 2 ^ 64
    /\ L !! (id + j) = None /\ forall i, 0 < i < j -> L !! (id + i) <> None.
Proof.
  intros HL. revert id. induction n as [|n IH]; intros id Hid (j & Hj & Hb & Hn); [lia|]. cbn [nextLeaseID].
  assert (is_u64 (id + 1)) as Hu by (unfold is_u64; lia). rewrite (u64_id (id + 1)) by done.
  rewrite (lease_get_ok t (id + 1) _ (HL _ Hu)). cbn [rbind].
  destruct (L !! (id + 1)) as [it|] eqn:E.
  - destruct (LeaseRep_id t L _ _ HL Hu E) as [Ei _]. change (default lease_zero (Some it)) with it. rewrite Ei.
    destruct (Z.eqb_spec (id + 1) 0); [lia|].
    assert (j <> 1) by (intros ->; congruence).
    destruct (IH (id + 1)) as (j' & -> & Hj' & Hb' & Hn' & Hbelow); [lia|exists (j - 1)|].
    { split; [lia|]. split; [lia|]. by replace (id + 1 + (j - 1)) with (id + j) by lia. }
    exists (j' + 1). replace (id + (j' + 1)) with (id + 1 + j') by lia. split; [done|]. split; [lia|]. split; [lia|].
    split; [done|]. intros i Hi. destruct (decide (i = 1)) as [->|]; [congruence|].
    replace (id + i) with (id + 1 + (i - 1)) by lia. apply Hbelow. lia.
  - exists 1. split; [done|]. split; [lia|]. split; [lia|]. split; [done|]. lia.
Qed.

(** Among more consecutive ids than there are leases, one is free. *)
Lemma free_id {A} (L : gmap Z A) id : exists j, 0 < j <= Z.of_nat (S (size L)) /\ L !! (id + j) = None.
Proof.
  destruct (decide (Exists (fun j => L !! (id + j) = None) (seqZ 1 (Z.of_nat (S (size L)))))) as [E|E].
  { apply Exists_exists in E as (j & Hj & En). apply elem_of_seqZ in Hj. exists j. split; [lia|done]. }
  exfalso. assert (list_to_set (C := gset Z) (Z.add id <$> seqZ 1 (Z.of_nat (S (size L)))) ⊆ dom L) as Hsub.
  { intros x Hx. apply elem_of_list_to_set, list_elem_of_fmap in Hx as (j & -> & Hj).
    apply elem_of_dom. destruct (L !! (id + j)) eqn:El; [eauto|]. destruct E. apply Exists_exists. eauto. }
  apply subseteq_size in Hsub. rewrite size_list_to_set, length_fmap, length_seqZ, size_dom in Hsub; [lia|].
  apply NoDup_fmap; [intros ? ? ?; lia|apply NoDup_seqZ].
Qed.

(** ** Storing a lease *)

Definition grantTables (t t' : txn) : Prop :=
  forall d, d <> DbiLease -> d <> DbiLeaseExp -> d <> DbiMeta -> view t' d = view t d.

Lemma storeLease_ok t L it :
  LeaseRep t L -> lease_ok it ->
  exists t1 t', dbLease_put t it = Ok t1 /\ dbLeaseExp_put t1 it = Ok t'
    /\ LeaseRep t' (<[l_id it := it]> L) /\ leaseHeld t' it
    /\ (forall d, d <> DbiLease -> d <> DbiLeaseExp -> view t' d = view t d)
    /\ forall k, k <> leaseExpKey it -> vget k (view t' DbiLeaseExp) = vget k (view t DbiLeaseExp).
Proof.
  intros HL Hok. destruct (lease_put_ok t it Hok) as (t1 & E1 & Hs & Ho & Hf). exists t1.
  unfold dbLeaseExp_put.
  destruct (mdb_put_ok t1 DbiLeaseExp (leaseExpKey it) (addChecksum (leaseExpKey it) [])) as (t2 & -> & V).
  { split; [apply leaseExpKey_fits|done]. }
  assert (view t2 DbiLease = view t1 DbiLease) as Hv by (by rewrite V, decide_False).
  exists t2. split; [done|]. split; [done|]. split; [|split; [split|split]].
  - intros id Hid. eapply leaseStored_view; [exact Hv|]. destruct (decide (id = l_id it)) as [->|Hne].
    + by rewrite lookup_insert_eq.
    + rewrite lookup_insert_ne by done. apply Ho; [done|done|by apply HL].
  - by eapply leaseStored_view.
  - rewrite V, decide_True by done. rewrite vget_vput_eq by apply (view_sorted t1 DbiLeaseExp). done.
  - intros d Hd1 Hd2. rewrite V, decide_False by done. by apply Hf.
  - intros k Hk. rewrite V, decide_True, vget_vput_ne by done. by rewrite Hf.
Qed.

(** ** cmdLeaseGrant *)

(** The answer to a grant, and the tables after it. *)
Definition granted (t t' : txn) (L : gmap Z lease) (epoch : Z) (req : LeaseGrantRequest) (id : Z)
    (out : LeaseGrantResponse * Z) : Prop :=
  let it := mkLease id (u64 (epoch + u64 (lg_TTL req))) epoch in
  out = (mkLeaseGrantResponse None (i64 id) (lg_TTL req) [], 1)
  /\ LeaseRep t' (<[id := it]> L) /\ leaseHeld t' it /\ grantTables t t'.

Lemma grantStore t t0 L epoch req id :
  LeaseRep t L -> is_u64 id -> is_u64 epoch ->
  (forall d, d <> DbiMeta -> view t d = view t0 d) ->
  let it := mkLease id (u64 (epoch + u64 (lg_TTL req))) epoch in
  exists t' out,
    (let! t := dbLease_put t it in
     let! t := dbLeaseExp_put t it in
     Ok (t, (mkLeaseGrantResponse None (i64 (l_id it)) (lg_TTL req) [], 1))) = Ok (t', out)
    /\ granted t0 t' L epoch req id out /\ view t' DbiMeta = view t DbiMeta.
Proof.
  intros HL Hid He Hv it.
  destruct (storeLease_ok t L it HL) as (t1 & t2 & -> & E2 & HL2 & Hh & Hf & _).
  { split; cbn; auto with go. }
  cbn [rbind]. rewrite E2. cbn [rbind]. eexists t2, _. split; [reflexivity|]. split; [|by apply Hf].
  split; [done|]. split; [done|]. split; [done|]. intros d H1' H2' H3'. rewrite Hf by done. by apply Hv.
Qed.

Lemma grant_given fuel t L epoch req :
  LeaseRep t L -> is_u64 epoch -> u64 (lg_ID req) <> 0 -> L !! u64 (lg_ID req) = None ->
  exists t' out, cmdLeaseGrant fuel t epoch req = Ok (t', out)
    /\ granted t t' L epoch req (u64 (lg_ID req)) out.
Proof.
  intros HL He Hz Hn. unfold cmdLeaseGrant. destruct (Z.eqb_spec (u64 (lg_ID req)) 0); [done|].
  rewrite (lease_get_ok t _ _ (HL _ (u64_range _))), Hn. cbn [rbind].
  change (0 <? l_expires (mkLease (u64 (lg_ID req)) (l_expires lease_zero) (l_renewed lease_zero))) with false. cbn iota.
  destruct (grantStore t t L epoch req (u64 (lg_ID req))) as (t' & out & E & Hg & _); auto using u64_range.
  exists t', out. split; [exact E|done].
Qed.

Lemma grant_taken fuel t L epoch req it :
  LeaseRep t L -> u64 (lg_ID req) <> 0 -> L !! u64 (lg_ID req) = Some it -> 0 < l_expires it ->
  cmdLeaseGrant fuel t epoch req = Ok (t, (mkLeaseGrantResponse None 0 0 (errText ErrGRPCLeaseExist), 0)).
Proof.
  intros HL Hz Hn Hp. unfold cmdLeaseGrant. destruct (Z.eqb_spec (u64 (lg_ID req)) 0); [done|].
  rewrite (lease_get_ok t _ _ (HL _ (u64_range _))), Hn. cbn [rbind].
  change (default lease_zero (Some it)) with it. cbn [l_expires l_id].
  destruct (Z.ltb_spec 0 (l_expires it)); [done|lia].
Qed.

Lemma grant_auto fuel t L m epoch req :
  LeaseRep t L -> MetaRep t m -> is_u64 epoch -> u64 (lg_ID req) = 0 ->
  (size L < fuel)%nat -> m_leaseID m + Z.of_nat (S (size L)) < 2 ^ 64 ->
  exists id t' out, cmdLeaseGrant fuel t epoch req = Ok (t', out)
    /\ granted t t' L epoch req id out
    /\ m_leaseID m < id <= m_leaseID m + Z.of_nat (S (size L)) /\ L !! id = None
    /\ getLeaseID t' = Ok id.
Proof.
  intros HL HM He Hz Hf Hb. unfold cmdLeaseGrant. rewrite Hz, Z.eqb_refl.
  rewrite (getLeaseID_rep t m HM). cbn [rbind].
  assert (is_u64 (m_leaseID m)) as [Hlo _] by (by destruct (mr_leaseID t m HM)).
  destruct (free_id L (m_leaseID m)) as (j & Hj & Hnone).
  destruct (nextLeaseID_ok fuel t L (m_leaseID m) HL Hlo) as (k & -> & Hk & Hb' & Hn & Hbelow).
  { exists j. split; [lia|]. split; [lia|done]. }
  assert (k <= j) as Hkj.
  { destruct (Z.le_gt_cases k j); [done|]. destruct (Hbelow j); [lia|done]. }
  cbn [rbind]. set (id := m_leaseID m + k) in *. assert (is_u64 id) as Hid by (unfold is_u64, id; lia).
  destruct (putUint64_has t metaKeyLeaseID id) as (t1 & E1 & Hh & _ & Hd); [by vm_compute|done|].
  unfold setLeaseID. rewrite E1. cbn [rbind].
  change (0 <? l_expires (mkLease id 0 0)) with false. cbn iota.
  assert (HL1 : LeaseRep t1 L) by (eapply LeaseRep_view; [|exact HL]; by apply Hd).
  destruct (grantStore t1 t L epoch req id HL1 Hid He Hd) as (t' & out & E & Hg & Hv).
  exists id, t', out. split; [exact E|]. split; [done|]. split; [lia|]. split; [done|].
  unfold getLeaseID. apply metaHas_get; [done|]. unfold metaHas in *. by rewrite Hv.
Qed.

(** ** Keep-alive *)

Lemma renew_ok t L epoch it :
  LeaseRep t L -> is_u64 epoch -> L !! l_id it = Some it -> lease_ok it ->
  let ttl := i64 (l_expires it - l_renewed it) in
  let it' := mkLease (l_id it) (u64 (epoch + u64 ttl)) epoch in
  exists t', renewLease t epoch it = Ok (t', ttl)
    /\ LeaseRep t' (<[l_id it := it']> L) /\ leaseHeld t' it'
    /\ (forall d, d <> DbiLease -> d <> DbiLeaseExp -> view t' d = view t d)
    /\ forall k, k <> leaseExpKey it' -> vget k (view t' DbiLeaseExp) = vget k (view t DbiLeaseExp).
Proof.
  intros HL He Hit [Hi Hx Hr] ttl it'. unfold renewLease.
  destruct (storeLease_ok t L it' HL) as (t1 & t2 & E1 & E2 & HL2 & Hh & Hf & Hk).
  { split; cbn; auto with go. }
  fold ttl. fold it'. rewrite E1. cbn [rbind]. rewrite E2. cbn [rbind]. by exists t2.
Qed.

End LeaseGrant.
