(* ===== verification/SmOps.v ===== *)
(** * The key commands of [Update] refine the history (src/state_machine.go: Update)

    The state between two entries of a batch: a store whose history, attachments and
    revision counter agree. A put and a delete entry move it one revision on. *)

From S2P Require Import Prelude Types GoBinary Patch Kv Mdb MdbFacts Db DbFacts DbLease DbKv Frame LeaseFacts History DbKvRead DbKvWrite DbKvRange DbKvDelete Pb StateMachine Update LeaseOps LeaseInv.

(** Every record was written at or before revision [rev]. *)
Definition upTo (M : history) (rev : Z) : Prop := forall k h, h ∈ M k -> keyrev_upper (h_rev h) <= rev.

(** The keys and attachments of a store, and the revision they have reached. *)
Record StoreAt (cfg : config) `{Differ} `{Snappy} `{MdbOk}
    (s : updState) (M : history) (A : list (Z * bytes)) : Prop := {
  sa_rep : Rep cfg (u_txn s) M; sa_att : AttRep (u_txn s) A; sa_agree : Attached M A;
  sa_upto : upTo M (u_newRev s); sa_rev : 0 <= u_newRev s < 2 ^ 52 - 1
}.

Section SmOps.
Context (cfg : config) `{DifferOk} `{SnappyOk} `{MdbOk} `{Proto} `{ErrLib}.
Context (fuel : nat) (shardID replicaID : Z).

Lemma next_keyrev rev : 0 <= rev < 2 ^ 52 - 1 -> u64 (rev + 1) = rev + 1 /\ keyrev_ok (rev + 1) 0 /\ 0 < rev + 1.
Proof.
  intros Hr. split; [apply u64_id; unfold is_u64; lia|]. unfold keyrev_ok, PCB_TXN_OPS_LIMIT. lia.
Qed.

(** The next revision is newer than everything recorded. *)
Lemma upTo_fresh t M rev : Rep cfg t M -> upTo M rev -> keyrev_ok (rev + 1) 0 -> fresh M (rev + 1) 0.
Proof.
  intros HR Hup Hr k h Hin. specialize (Hup k h Hin). pose proof (rep_ok _ _ _ HR k) as Hok.
  rewrite Forall_forall in Hok. destruct (ok_rev _ (Hok h Hin)) as (u & l & d & Hul & _ & E). rewrite E in *.
  rewrite keyrev_upper_new in Hup by done. rewrite !newkeyrev_eq by done.
  unfold keyrev_ok, PCB_TXN_OPS_LIMIT in *. destruct d; lia.
Qed.

Lemma upTo_push M rev key h :
  upTo M rev -> keyrev_upper (h_rev h) = rev + 1 -> upTo (hset M key (h :: M key)) (rev + 1).
Proof.
  intros Hup Hh k h'. destruct (decide (k = key)) as [->|Hne].
  - rewrite hset_same. intros [->|Hin]%elem_of_cons; [lia|]. specialize (Hup _ _ Hin). lia.
  - rewrite hset_other by done. intros Hin. specialize (Hup _ _ Hin). lia.
Qed.

Lemma upTo_delete M rev ks :
  keyrev_ok (rev + 1) 0 -> upTo M rev -> upTo (deleteKeys (rev + 1) 0 ks M) (rev + 1).
Proof.
  intros Hr Hup k h. assert (forall h', h' ∈ M k -> keyrev_upper (h_rev h') <= rev + 1) as Hold.
  { intros h' Hin. specialize (Hup _ _ Hin). lia. }
  unfold deleteKeys. case_decide; [|apply Hold]. unfold delRecs. destruct (M k) as [|h0 hs]; [intros X; inversion X|].
  destruct (isLive h0); [|apply Hold]. intros [->|Hin]%elem_of_cons; [|by apply Hold].
  cbn [tombstoneRec h_rev]. by rewrite keyrev_upper_new.
Qed.

(** ** A put entry *)

(** The conditions [Update] checks before it runs the command. *)
Definition putAllowed (s : updState) (req : PutRequest) : Prop :=
  pr_IgnoreLease req && negb (pr_Lease req =? 0) = false
  /\ pr_IgnoreValue req && negb (blen (sbytes (pr_Value req)) =? 0) = false
  /\ (pr_Lease req <> 0 -> exists it, dbLease_get (u_txn s) (u64 (pr_Lease req)) = Ok it /\ l_id it <> 0).

Lemma handlePut_ok s M A cmd r req :
  StoreAt cfg s M A -> pb_Unmarshal MPutRequest cmd = Some req -> putAllowed s req ->
  put_args (u_newRev s + 1) 0 (u64 (pr_Lease req)) (pr_Key req) (pr_Value req) (pr_IgnoreValue req) ->
  pr_IgnoreLease req = false -> 0 <= pr_Lease req < 2 ^ 63 ->
  (forall a, exists b, pb_Marshal MPutResponse a = Ok b) ->
  let M' := hset M (pr_Key req) (putRec (u_newRev s + 1) 0 (pr_Lease req) (pr_Value req) (pr_IgnoreValue req) false
                                   (M (pr_Key req)) :: M (pr_Key req)) in
  exists t' A' prev data,
    let s' := mkUpd t' (u_epoch s) (u_newRev s + 1) (u_keys s ++ [pr_Key req]) in
    handlePut cfg shardID replicaID s cmd r = Ok (s', mkResult 1 data)
    /\ pb_Marshal MPutResponse (mkPutResponse (Some (responseHeader shardID replicaID (u_newRev s + 1)))
         (if pr_PrevKv req then Some (kv_ToProto prev) else None)) = Ok data
    /\ kvOr (pr_Key req) (visible 0 (M (pr_Key req))) prev
    /\ Rep cfg t' M' /\ AttRep t' A' /\ Attached M' A' /\ upTo M' (u_newRev s + 1).
Proof.
  intros [HR HA HI Hup Hrev] Hcmd (C1 & C2 & C3) Hargs Hig Hl Hm M'. unfold handlePut. rewrite Hcmd, C1, C2.
  assert (forall X (f : bool -> res X), (let! found := (if negb (pr_Lease req =? 0)
    then let! item := dbLease_get (u_txn s) (u64 (pr_Lease req)) in Ok (negb (l_id item =? 0)) else Ok true) in f found) = f true)
    as Hfound.
  { intros X f. destruct (Z.eqb_spec (pr_Lease req) 0) as [|Hz]; [done|]. destruct (C3 Hz) as (it & -> & Hit).
    cbn [negb rbind]. by destruct (Z.eqb_spec (l_id it) 0). }
  rewrite Hfound. cbn [negb]. destruct (next_keyrev _ Hrev) as (-> & Hk & Hpos).
  destruct (cmdPut_ok cfg (u_txn s) M A (u_newRev s + 1) 0 (u_epoch s) req) as (t' & A' & prev & -> & Hp & HR' & HA' & HI'); try done.
  { by eapply upTo_fresh. }
  { intros h Hh _. left. assert (h ∈ M (pr_Key req)) as Hin by (destruct (M (pr_Key req)); [done|injection Hh as ->; constructor]).
    specialize (Hup _ _ Hin). lia. }
  change (bump (u_newRev s) [pr_Key req]) with (u64 (u_newRev s + 1)). rewrite (u64_id (u_newRev s + 1)) by (unfold is_u64; lia).
  cbn [pres_PrevKv].
  destruct (Hm (mkPutResponse (Some (responseHeader shardID replicaID (u_newRev s + 1)))
                  (if pr_PrevKv req then Some (kv_ToProto prev) else None))) as [data Ed].
  rewrite Ed. cbn [rbind]. exists t', A', prev, data. cbn zeta. split; [done|]. split; [done|]. split; [done|]. split; [done|].
  split; [done|]. split; [done|]. apply upTo_push; [done|].
  rewrite u64_id in Hargs by (unfold is_u64; lia).
  destruct (putRec_ok _ _ _ _ _ _ false _ Hargs (rep_ok _ _ _ HR (pr_Key req))) as (_ & -> & _). by rewrite keyrev_upper_new.
Qed.

(** ** A delete entry *)

Lemma handleDeleteRange_ok s M A ks cmd r req :
  StoreAt cfg s M A -> pb_Unmarshal MDeleteRangeRequest cmd = Some req -> dr_Key req <> [] ->
  StronglySorted blt ks -> (forall k, k ∈ ks <-> M k <> []) ->
  (length ks < fuel)%nat -> (forall k, (length (M k) < fuel)%nat) ->
  (forall a, exists b, pb_Marshal MDeleteRangeResponse a = Ok b) ->
  let dead := delKeys (dr_Key req) (dr_RangeEnd req) ks in
  let live := liveKeys M dead in
  let rev' := if decide (live = []) then u_newRev s else u_newRev s + 1 in
  let M' := deleteKeys (u_newRev s + 1) 0 dead M in
  exists t' A' kvs data keys,
    handleDeleteRange cfg fuel shardID replicaID s cmd r
      = Ok (mkUpd t' (u_epoch s) rev' keys, mkResult 1 data)
    /\ pb_Marshal MDeleteRangeResponse
         (mkDeleteRangeResponse (Some (responseHeader shardID replicaID rev')) (blen live) kvs) = Ok data
    /\ (if dr_PrevKv req then Forall2 (oldValue M) live kvs else kvs = [])
    /\ keys = u_keys s ++ replicate (length live) [] ++ live
    /\ Rep cfg t' M' /\ AttRep t' A' /\ Attached M' A' /\ upTo M' rev'.
Proof.
  intros [HR HA HI Hup Hrev] Hcmd Hk Hs Hks Hf Hf2 Hm dead live rev' M'. unfold handleDeleteRange. rewrite Hcmd.
  destruct (next_keyrev _ Hrev) as (Hu & Hkr & Hpos). rewrite Hu.
  destruct (cmdDeleteRange_ok cfg fuel shardID replicaID (u_txn s) M A ks (u_newRev s + 1) 0 (u_epoch s) req)
    as (t' & A' & kvs & -> & HR' & HA' & HI' & Hkvs); try done.
  { by eapply upTo_fresh. }
  { intros k h _ Hh. specialize (Hup _ _ (visible_elem _ _ Hh)). lia. }
  fold dead live in Hkvs |- *. cbn [rbind dres_Deleted dres_PrevKvs].
  assert (bump (u_newRev s) (replicate (length live) [] ++ live) = rev') as ->.
  { unfold bump, rev'. destruct live as [|k l]; [done|]. rewrite decide_False by done. cbn [length replicate app].
    rewrite blen_cons. pose proof (blen_nonneg (replicate (length l) [] ++ k :: l)). by destruct (Z.ltb_spec 0 (1 + blen (replicate (length l) [] ++ k :: l))); [|lia]. }
  destruct (Hm (mkDeleteRangeResponse (Some (responseHeader shardID replicaID rev')) (blen live) kvs)) as [data Ed].
  rewrite Ed. cbn [rbind]. exists t', A', kvs, data, (u_keys s ++ replicate (length live) [] ++ live).
  repeat (split; [done|]). unfold rev'. case_decide as El; [|by apply upTo_delete].
  intros k h Hin. apply (Hup k h). unfold M', deleteKeys in Hin. case_decide as Hd; [|done].
  unfold delRecs in Hin. destruct (M k) as [|h0 hs] eqn:EM; [done|]. destruct (isLive h0) eqn:Elive; [|done].
  assert (k ∈ live) as Hl; [|rewrite El in Hl; inversion Hl].
  apply list_elem_of_filter. split; [|done]. rewrite EM, visible_now, Elive. eauto.
Qed.

(** ** Opening *)

Ltac metaIn := by apply (bool_decide_unpack _); vm_compute.

Lemma seeded t t' :
  view t DbiMeta = [] ->
  (forall k, k ∈ metaKeys0 ++ metaKeys1 -> vget k (view t DbiMeta) = None ->
     metaHas t' k (if decide (k ∈ metaKeys0) then 0 else 1)) ->
  MetaRep t' (mkMeta 0 0 0 1 0 1 0).
Proof.
  intros Hv Hm.
  assert (forall k, k ∈ metaKeys0 -> metaHas t' k 0) as H0'.
  { intros k Hk. specialize (Hm k). rewrite decide_True in Hm by done. apply Hm; [apply elem_of_app; by left|by rewrite Hv]. }
  assert (forall k, k ∈ metaKeys1 -> k ∉ metaKeys0 -> metaHas t' k 1) as H1'.
  { intros k Hk Hn. specialize (Hm k). rewrite decide_False in Hm by done. apply Hm; [apply elem_of_app; by right|by rewrite Hv]. }
  split; cbn; (apply H0' || apply H1'); metaIn.
Qed.

Lemma kept_stored t m :
  MetaRep t m -> Forall (fun k => vget k (view t DbiMeta) = None \/ exists v, metaHas t k v) (metaKeys0 ++ metaKeys1).
Proof.
  intros HM. apply Forall_forall. intros k Hk. right.
  repeat (apply elem_of_cons in Hk as [->|Hk]);
    [eexists; apply mr_epoch, HM|eexists; apply mr_index, HM|eexists; apply mr_leaseID, HM
    |eexists; apply mr_revCompacted, HM|eexists; apply mr_term, HM|eexists; apply mr_rev, HM
    |eexists; apply mr_revMin, HM|inversion Hk].
Qed.

Lemma kept t t' m :
  MetaRep t m -> (forall k v, k ∈ metaKeys0 ++ metaKeys1 -> metaHas t k v -> metaHas t' k v) -> MetaRep t' m.
Proof.
  intros HM Hm. split; (apply Hm; [metaIn|]);
    [apply mr_epoch, HM|apply mr_index, HM|apply mr_leaseID, HM|apply mr_rev, HM|apply mr_revCompacted, HM
    |apply mr_revMin, HM|apply mr_term, HM].
Qed.

Lemma index_is t m i : MetaRep t m -> metaHas t metaKeyIndex i -> i = m_index m.
Proof.
  intros HM Hi. apply metaHas_get in Hi; [|done]. pose proof (getIndex_rep _ _ HM) as G. unfold getIndex in G. congruence.
Qed.

End SmOps.
