(* ===== verification/TxnRun.v ===== *)
(** * Transactions on the history (src/state_machine.go: txnCompare, txnOps)

    The comparisons of a transaction decided on the history, and its operations as a run:
    one after the other, each on the history the one before left, all at one revision and
    each with its own subrevision. The code follows the run. *)

From stdpp Require Import sorting.
From S2P Require Import Prelude Types GoBinary Patch Kv Mdb MdbFacts MdbKeys Db DbFacts DbLease DbKv Frame LeaseFacts History DbKvRead DbKvWrite DbKvRange DbKvDelete Pb StateMachine RangeQuery Update SmFrame LeaseOps LeaseInv SmOps.

(** ** Comparisons *)

Definition recField (f : hrec -> Z) (o : option hrec) : Z := from_option f 0 o.

(** The comparison on the record of its key; one that is absent has all fields zero. *)
Definition condOn (c : Compare) (o : option hrec) : bool :=
  let int f v := txnIntCompare (cmp_Result c) (i64 (recField f o)) v in
  match cmp_TargetUnion c with
  | Compare_Version v => int h_version v
  | Compare_CreateRevision v => int h_created v
  | Compare_ModRevision v => int (fun h => keyrev_upper (h_rev h)) v
  | Compare_Lease v => int h_lease v
  | Compare_Value v => txnValueCompare (cmp_Result c) (from_option h_val [] o) v true
  | Compare_None => true
  end.

Definition condHolds (M : history) (c : Compare) : bool := condOn c (visible 0 (M (cmp_Key c))).

(** The comparison carries the value its target names. *)
Definition condTyped (c : Compare) : Prop :=
  cmp_Key c <> []
  /\ match cmp_TargetUnion c with
     | Compare_Version _ => cmp_Target c = Compare_VERSION
     | Compare_CreateRevision _ => cmp_Target c = Compare_CREATE
     | Compare_ModRevision _ => cmp_Target c = Compare_MOD
     | Compare_Lease _ => cmp_Target c = Compare_LEASE
     | Compare_Value _ => cmp_Target c = Compare_VALUE
     | Compare_None => cmp_Target c ∉ [Compare_VERSION; Compare_CREATE; Compare_MOD; Compare_LEASE; Compare_VALUE]
     end.

Lemma compareTarget_ok c o item : condTyped c -> kvOr (cmp_Key c) o item ->
  txnCompareTarget c item true = Ok (condOn c o).
Proof.
  intros [_ Ht] Hi. unfold txnCompareTarget, condOn.
  assert (i64 (kv_version item) = i64 (recField h_version o) /\ i64 (kv_created item) = i64 (recField h_created o)
    /\ i64 (keyrev_upper (kv_rev item)) = i64 (recField (fun h => keyrev_upper (h_rev h)) o)
    /\ i64 (kv_lease item) = i64 (recField h_lease o) /\ sbytes (kv_val item) = from_option h_val [] o) as (-> & -> & -> & -> & ->).
  { destruct o as [h|]; [by destruct Hi as [-> -> -> -> _ ->]|by rewrite Hi]. }
  destruct (cmp_TargetUnion c); try by rewrite Ht.
  repeat apply not_elem_of_cons in Ht as [? Ht]. by repeat match goal with |- context [?a =? ?b] => destruct (Z.eqb_spec a b); [done|] end.
Qed.

Section Compare.
Context (cfg : config) `{DifferOk} `{SnappyOk} `{MdbOk}.

Lemma txnCompare_ok fuel t M conds :
  Rep cfg t M -> Forall condTyped conds -> (forall k, (length (M k) <= fuel)%nat) ->
  txnCompare fuel t conds = Ok (forallb (condHolds M) conds).
Proof.
  intros HR HT Hf. unfold txnCompare. induction HT as [|c conds Hc HT IH]; [done|]. cbn [txnCompareLoop forallb].
  destruct (getRev_ok cfg fuel t M (cmp_Key c) 0 false HR (proj1 Hc) (Hf _)) as (item & prev & E & Hi & _).
  unfold dbKv_get. rewrite E. cbn [rbind].
  assert (((0 <? blen (kv_key item)) && negb (beqb (cmp_Key c) (kv_key item))) = false) as ->.
  { destruct (visible 0 (M (cmp_Key c))) as [h|]; cbn [kvOr] in Hi; [|by subst item].
    by rewrite (is_key _ _ _ Hi), beqb_refl, andb_false_r. }
  rewrite (compareTarget_ok c _ item Hc Hi). cbn [rbind]. fold (condHolds M c). destruct (condHolds M c); [exact IH|done].
Qed.

End Compare.

(** ** Operations *)

(** [ks] lists the keys of a history. *)
Definition keysOf (M : history) (ks : list bytes) : Prop := StronglySorted blt ks /\ forall k, k ∈ ks <-> M k <> [].

Definition opApply (rev i : Z) (ks : list bytes) (op : RequestOp) (M : history) : history :=
  match op with
  | RequestPut req =>
      hset M (pr_Key req) (putRec rev i (pr_Lease req) (pr_Value req) (pr_IgnoreValue req) false (M (pr_Key req)) :: M (pr_Key req))
  | RequestDeleteRange req => deleteKeys rev i (delKeys (dr_Key req) (dr_RangeEnd req) ks) M
  | RequestRange _ | RequestOther => M
  end.

(** When an operation can run: the arguments are in range and no key is written twice by
    one transaction, unless the configuration allows it for puts. *)
Definition opReady (cfg : config) (min rev i : Z) (ks : list bytes) (M : history) (op : RequestOp) : Prop :=
  match op with
  | RequestPut req =>
      put_args rev i (u64 (pr_Lease req)) (pr_Key req) (pr_Value req) (pr_IgnoreValue req)
      /\ pr_IgnoreLease req = false /\ 0 <= pr_Lease req < 2 ^ 63
      /\ forall h, head (M (pr_Key req)) = Some h -> isLive h = true ->
           keyrev_upper (h_rev h) <> rev \/ PCB_TXN_MULTI_WRITE_ENABLED cfg = true
  | RequestDeleteRange req =>
      dr_Key req <> []
      /\ forall k h, k ∈ delKeys (dr_Key req) (dr_RangeEnd req) ks -> visible 0 (M k) = Some h -> keyrev_upper (h_rev h) <> rev
  | RequestRange req => rr_Key req <> [] /\ refusedAt min rev req = None
  | RequestOther => True
  end.

(** What an operation answers, and the keys it reports as written. *)
Definition opAnswer (cfg : config) (header : ResponseHeader) (ks : list bytes) (M : history) (op : RequestOp)
    (rs : list ResponseOp) (keys : list bytes) : Prop :=
  match op with
  | RequestPut req =>
      exists prev, kvOr (pr_Key req) (visible 0 (M (pr_Key req))) prev
        /\ rs = [ResponsePut (mkPutResponse None (if pr_PrevKv req then Some (kv_ToProto prev) else None))]
        /\ keys = [pr_Key req]
  | RequestDeleteRange req =>
      let live := liveKeys M (delKeys (dr_Key req) (dr_RangeEnd req) ks) in
      exists kvs, (if dr_PrevKv req then Forall2 (oldValue M) live kvs else kvs = [])
        /\ rs = [ResponseDeleteRange (mkDeleteRangeResponse (Some header) (blen live) kvs)]
        /\ keys = replicate (length live) [] ++ live
  | RequestRange req =>
      exists items, Forall2 (rangeItem (rr_KeysOnly req)) (ra_items (found cfg M ks req)) items
        /\ rs = [ResponseRange (foundResponse cfg header req (found cfg M ks req) items)] /\ keys = []
  | RequestOther => rs = [] /\ keys = []
  end.

(** The operations can run in their order from a history, and the history they leave. *)
Inductive opsReady (cfg : config) (min rev : Z) : Z -> history -> list RequestOp -> history -> Prop :=
| ready_nil i M : opsReady cfg min rev i M [] M
| ready_cons i M ks op ops M' : keysOf M ks -> opReady cfg min rev i ks M op ->
    opsReady cfg min rev (i + 1) (opApply rev i ks op M) ops M' -> opsReady cfg min rev i M (op :: ops) M'.

(** The answers of such a run. *)
Inductive opsAnswer (cfg : config) (header : ResponseHeader) (rev : Z) : Z -> history -> list RequestOp -> list ResponseOp -> list bytes -> Prop :=
| answer_nil i M : opsAnswer cfg header rev i M [] [] []
| answer_cons i M ks op ops rs keys rs' keys' : keysOf M ks -> opAnswer cfg header ks M op rs keys ->
    opsAnswer cfg header rev (i + 1) (opApply rev i ks op M) ops rs' keys' ->
    opsAnswer cfg header rev i M (op :: ops) (rs ++ rs') (keys ++ keys').

(** ** What an operation adds *)

Section Growth.
Context (cfg : config) (min rev : Z).

Lemma putRec_rev rev0 i lease val iv il hs : h_rev (putRec rev0 i lease val iv il hs) = newkeyrev rev0 i false.
Proof. unfold putRec. destruct hs as [|h hs]; [|destruct (isLive h)]; done. Qed.

(** Each record of the history after an operation was there before or has its revision. *)
Lemma opApply_new i ks op M k h :
  h ∈ opApply rev i ks op M k -> h ∈ M k \/ h_rev h = newkeyrev rev i false \/ h_rev h = newkeyrev rev i true.
Proof.
  destruct op as [req|req|req|]; cbn [opApply]; [| |by left|by left].
  - destruct (decide (k = pr_Key req)) as [->|Hne]; [|rewrite hset_other by done; by left].
    rewrite hset_same. intros [->|Hin]%elem_of_cons; [|by left]. right. left. apply putRec_rev.
  - unfold deleteKeys. case_decide; [|by left]. unfold delRecs. destruct (M k) as [|h0 hs]; [by left|].
    destruct (isLive h0); [|by left]. intros [->|Hin]%elem_of_cons; [by right; right|by left].
Qed.

Lemma opApply_length i ks op M k : (length (opApply rev i ks op M k) <= S (length (M k)))%nat.
Proof.
  destruct op as [req|req|req|]; cbn [opApply]; try lia.
  - destruct (decide (k = pr_Key req)) as [->|Hne]; [rewrite hset_same; cbn [length]; lia|rewrite hset_other by done; lia].
  - unfold deleteKeys. case_decide; [|lia]. unfold delRecs. destruct (M k) as [|h hs]; [cbn [length]; lia|]. destruct (isLive h); cbn [length]; lia.
Qed.

(** At most one key is new. *)
Lemma opApply_keys i ks ks' op M : keysOf M ks -> keysOf (opApply rev i ks op M) ks' -> (length ks' <= S (length ks))%nat.
Proof.
  intros [_ Hks] [Hs' Hks'].
  set (new := match op with RequestPut req => pr_Key req | _ => [] end).
  apply (submseteq_length ks' (new :: ks)), NoDup_submseteq; [by apply sorted_nodup|]. intros k Hk%Hks'.
  apply elem_of_cons. rewrite Hks. destruct op as [req|req|req|]; cbn [opApply] in Hk; try by right.
  - destruct (decide (k = pr_Key req)) as [->|Hne]; [by left|]. rewrite hset_other in Hk by done. by right.
  - right. unfold deleteKeys in Hk. case_decide; [|done]. intros E. by rewrite E in Hk.
Qed.

Lemma opApply_upTo i ks op M : keyrev_ok rev i -> upTo M rev -> upTo (opApply rev i ks op M) rev.
Proof.
  intros Hr Hup k h [Hin| [E|E] ]%opApply_new; [by eapply Hup|rewrite E, keyrev_upper_new by done; done..].
Qed.

Lemma opApply_fresh i ks op M : keyrev_ok rev (i + 1) -> 0 <= i -> fresh M rev i -> fresh (opApply rev i ks op M) rev (i + 1).
Proof.
  intros Hr Hi Hfr k h Hin. assert (keyrev_ok rev i) as Hr0 by (unfold keyrev_ok in *; lia).
  apply opApply_new in Hin. assert (h_rev h <= newkeyrev rev i true) as Hle; [|rewrite !newkeyrev_eq in * by done; lia].
  destruct Hin as [Hin| [-> | ->] ]; [specialize (Hfr k h Hin)|..]; rewrite !newkeyrev_eq in * by done; lia.
Qed.

End Growth.

(** ** The code follows the run *)

Section Run.
Context (cfg : config) `{DifferOk} `{SnappyOk} `{MdbOk} `{ErrLib}.
Context (fuel : nat) (shardID replicaID : Z) (min rev epoch : Z).

Abbreviation header := (responseHeader shardID replicaID rev).

(** Records, attachments and the oldest revision of a store inside a transaction. *)
Record InTxn (t : txn) (M : history) (A : list (Z * bytes)) : Prop := {
  it_rep : Rep cfg t M; it_att : AttRep t A; it_agree : Attached M A; it_min : getRevisionMin t = Ok min
}.

Lemma getRevisionMin_only t t' : only putTables t t' -> getRevisionMin t' = getRevisionMin t.
Proof.
  intros Ho. assert (view t' DbiMeta = view t DbiMeta) as E by (apply (only_meta putTables); [apply meta_put|done]).
  unfold getRevisionMin, getUint64. rewrite !mdb_get_ok by done. by rewrite E.
Qed.

Lemma opStep_ok n t M A ks i op rs0 keys0 ops :
  InTxn t M A -> keysOf M ks -> 0 < rev -> keyrev_ok rev i -> fresh M rev i -> opReady cfg min rev i ks M op ->
  (forall k, (length (M k) <= n)%nat) -> (length ks + n < fuel)%nat ->
  exists t' A' rs keys, InTxn t' (opApply rev i ks op M) A' /\ opAnswer cfg header ks M op rs keys
    /\ txnOpsLoop cfg fuel shardID replicaID t rev epoch i (op :: ops) rs0 keys0
       = txnOpsLoop cfg fuel shardID replicaID t' rev epoch (i + 1) ops (rs0 ++ rs) (keys0 ++ keys).
Proof.
  intros [HR HA HI Hmin] [Hs Hks] Hpos Hr Hfr Hop Hn Hf. destruct op as [req|req|req|]; cbn [opReady opApply opAnswer txnOpsLoop] in *.
  - destruct Hop as (Hargs & Hig & Hl & Hdup).
    destruct (cmdPut_ok cfg t M A rev i epoch req HR HA HI Hfr Hargs Hdup Hig Hl) as (t' & A' & prev & E & Hp & HR' & HA' & HI').
    rewrite E. eexists t', A', _, _. split; [split; [done..|]|split; [by exists prev|reflexivity]].
    rewrite (getRevisionMin_only t); [done|]. by eapply cmdPut_only.
  - destruct Hop as [Hk Hup].
    destruct (cmdDeleteRange_ok cfg fuel shardID replicaID t M A ks rev i epoch req) as (t' & A' & kvs & E & HR' & HA' & HI' & Hkvs); try done; [lia| |].
    { intros k. specialize (Hn k). lia. }
    rewrite E. eexists t', A', _, _. split; [split; [done..|]|split; [by exists kvs|reflexivity]].
    rewrite (getRevisionMin_only t); [done|]. by eapply cmdDeleteRange_only.
  - destruct Hop as [Hk Href].
    pose proof (queryRange_found cfg fuel shardID replicaID n t min rev M ks req Hmin HR Hk Hs Hks Hn Hf) as HQ.
    rewrite Href in HQ. destruct HQ as (items & Hi & ->). eexists t, A, _, _. split; [done|]. split; [by exists items|].
    by rewrite app_nil_r.
  - exists t, A, [], []. rewrite !app_nil_r. done.
Qed.

Lemma txnOpsLoop_ok n t M A ks i ops M' rs0 keys0 :
  opsReady cfg min rev i M ops M' -> InTxn t M A -> keysOf M ks -> 0 < rev < 2 ^ 52 ->
  0 <= i -> i + blen ops <= PCB_TXN_OPS_LIMIT -> (ops <> [] -> fresh M rev i) ->
  (forall k, (length (M k) <= n)%nat) -> (length ks + n + 2 * length ops < fuel)%nat ->
  exists t' A' rs keys,
    txnOpsLoop cfg fuel shardID replicaID t rev epoch i ops rs0 keys0 = Ok (t', rs0 ++ rs, keys0 ++ keys, None)
    /\ opsAnswer cfg header rev i M ops rs keys /\ InTxn t' M' A' /\ (upTo M rev -> upTo M' rev)
    /\ (keys = [] -> forall k, M' k = M k).
Proof.
  intros Hrun. revert n t A ks rs0 keys0. induction Hrun as [i M|i M ks1 op ops M' [Hs1 Hks1] Hop Hrun IH]; intros n t A ks rs0 keys0 HT [Hs Hks] Hrev Hi Hlim Hfr Hn Hf.
  { exists t, A, [], []. rewrite !app_nil_r. split; [done|]. split; [constructor|]. done. }
  assert (ks1 = ks) as -> by (apply sorted_ext; [done..|]; intros k; by rewrite Hks1, Hks).
  rewrite blen_cons in Hlim. pose proof (blen_nonneg ops). cbn [length] in Hf.
  assert (keyrev_ok rev i) as Hr by (unfold keyrev_ok; lia).
  destruct (opStep_ok n t M A ks i op rs0 keys0 ops HT (conj Hs Hks) ltac:(lia) Hr (Hfr ltac:(done)) Hop Hn ltac:(lia))
    as (t1 & A1 & rs1 & keys1 & HT1 & Hans & ->).
  set (ks' := tkeys (view t1 DbiRev)).
  assert (Hks' : keysOf (opApply rev i ks op M) ks').
  { split; [by eapply tkeys_sorted, view_sorted|]. intros k. apply (rep_keys cfg), HT1. }
  pose proof (opApply_keys rev i ks ks' op M (conj Hs Hks) Hks') as Hlen.
  destruct (IH (S n) t1 A1 ks' (rs0 ++ rs1) (keys0 ++ keys1)) as (t' & A' & rs & keys & E & Hans' & HT' & Hup & Hsame); try done; try lia.
  { intros Hne. apply opApply_fresh; [|done|by apply Hfr]. unfold keyrev_ok in *. destruct ops as [|o ops]; [done|]. rewrite blen_cons in *. pose proof (blen_nonneg ops). lia. }
  { intros k. pose proof (opApply_length rev i ks op M k). specialize (Hn k). lia. }
  exists t', A', (rs1 ++ rs), (keys1 ++ keys). rewrite !app_assoc. split; [exact E|].
  split; [by econstructor|]. split; [done|]. split.
  - intros Hu. apply Hup. by apply opApply_upTo.
  - intros [Ek1 Ek]%app_eq_nil k. rewrite Hsame by done. subst keys1. destruct op as [req|req|req|]; cbn [opAnswer opApply] in *.
    + by destruct Hans as (? & _ & _ & ?).
    + destruct Hans as (kvs & _ & _ & El). symmetry in El. apply app_eq_nil in El as [_ El].
      unfold deleteKeys. case_decide as Hd; [|done]. unfold delRecs. destruct (M k) as [|h hs] eqn:EM; [done|].
      destruct (isLive h) eqn:Eh; [|done]. exfalso.
      assert (k ∈ liveKeys M (delKeys (dr_Key req) (dr_RangeEnd req) ks)) as Hin; [|rewrite El in Hin; inversion Hin].
      apply list_elem_of_filter. split; [|done]. rewrite EM, visible_now, Eh. eauto.
    + done.
    + done.
Qed.

Lemma InTxn_view t t' M A : (forall d, view t' d = view t d) -> InTxn t M A -> InTxn t' M A.
Proof.
  intros Hv [HR HA HI Hmin]. split; [by eapply Rep_view; [..|exact HR]|by eapply AttRep_view; [|exact HA]|done|].
  rewrite (getRevisionMin_only t); [done|]. intros d _. apply Hv.
Qed.

(** The nested transaction commits the run into the outer one. *)
Lemma txnOps_ok n t M A ks ops M' :
  opsReady cfg min rev 0 M ops M' -> InTxn t M A -> keysOf M ks -> 0 < rev < 2 ^ 52 ->
  blen ops <= PCB_TXN_OPS_LIMIT -> fresh M rev 0 ->
  (forall k, (length (M k) <= n)%nat) -> (length ks + n + 2 * length ops < fuel)%nat ->
  exists t' A' rs keys,
    txnOps cfg fuel shardID replicaID t rev epoch ops = Ok (t', rs, keys, None)
    /\ opsAnswer cfg header rev 0 M ops rs keys /\ InTxn t' M' A' /\ (upTo M rev -> upTo M' rev)
    /\ (keys = [] -> forall k, M' k = M k).
Proof.
  intros Hrun HT Hks Hrev Hlim Hfr Hn Hf. unfold txnOps, txnSub.
  destruct (sub_begin_ok t) as [s Es]. rewrite Es. cbn [rbind].
  destruct (txnOpsLoop_ok n s M A ks 0 ops M' [] [] Hrun) as (s' & A' & rs & keys & E & Hans & HT' & Hup & Hsame); try done.
  { eapply InTxn_view; [|exact HT]. intros d. by apply sub_begin_view. }
  rewrite E. cbn [rbind app]. destruct (sub_commit_ok t s') as [t' Et]. rewrite Et. cbn [rbind].
  exists t', A', rs, keys. split; [done|]. split; [done|]. split; [|done].
  eapply InTxn_view; [|exact HT']. intros d. by eapply sub_commit_view.
Qed.

End Run.

(** ** Operations one by one

    A single operation as the command it is, and a run of operations that all succeed: each
    command on the contents the one before left. What a transaction did, or how far it came
    before one of its commands failed, is told with these. *)
Section Steps.
Context (cfg : config) `{Differ} `{Snappy} `{Mdb} `{ErrLib}.
Context (fuel : nat) (shardID replicaID : Z) (rev epoch : Z).

Definition opRun (t : txn) (i : Z) (op : RequestOp) : res (txn * list ResponseOp * list bytes) :=
  match op with
  | RequestPut req => let! '(t, (res, _, keys)) := cmdPut cfg t rev i epoch req in Ok (t, [ResponsePut res], keys)
  | RequestDeleteRange req =>
      let! '(t, (res, keys)) := cmdDeleteRange cfg fuel shardID replicaID t rev i epoch req in Ok (t, [ResponseDeleteRange res], keys)
  | RequestRange req => let! res := queryRange cfg fuel shardID replicaID t rev req in Ok (t, [ResponseRange res], [])
  | RequestOther => Ok (t, [], [])
  end.

Inductive opsRun : Z -> txn -> list RequestOp -> txn -> list ResponseOp -> list bytes -> Prop :=
| run_nil i t : opsRun i t [] t [] []
| run_cons i t op t1 rs keys ops t2 rs' keys' : opRun t i op = Ok (t1, rs, keys) -> opsRun (i + 1) t1 ops t2 rs' keys' ->
    opsRun i t (op :: ops) t2 (rs ++ rs') (keys ++ keys').

(** An operation fails: those before it ran, and it returns the error. *)
Definition opsFail (i : Z) (t : txn) (ops : list RequestOp) (e : error) (rs : list ResponseOp) (keys : list bytes) : Prop :=
  exists before op later t1, ops = before ++ op :: later /\ opsRun i t before t1 rs keys
    /\ opRun t1 (i + blen before) op = Err e.

Lemma txnOpsLoop_steps ops t i rs0 keys0 t' rs' keys' err :
  txnOpsLoop cfg fuel shardID replicaID t rev epoch i ops rs0 keys0 = Ok (t', rs', keys', err) ->
  exists rs keys, rs' = rs0 ++ rs /\ keys' = keys0 ++ keys
    /\ match err with None => opsRun i t ops t' rs keys | Some e => opsFail i t ops e rs keys end.
Proof.
  revert t i rs0 keys0. induction ops as [|op ops IH]; intros t i rs0 keys0 E; cbn [txnOpsLoop] in E.
  { apply Ok_inj in E. injection E as <- <- <- <-. exists [], []. rewrite !app_nil_r. split_and!; [done..|constructor]. }
  assert (forall e, opRun t i op = Err e -> opsFail i t (op :: ops) e [] []) as Hstop.
  { intros e He. exists [], op, ops, t. rewrite Z.add_0_r. split_and!; [done|constructor|done]. }
  assert (forall t1 rs keys, opRun t i op = Ok (t1, rs, keys) ->
    txnOpsLoop cfg fuel shardID replicaID t1 rev epoch (i + 1) ops (rs0 ++ rs) (keys0 ++ keys) = Ok (t', rs', keys', err) ->
    exists rs keys, rs' = rs0 ++ rs /\ keys' = keys0 ++ keys
      /\ match err with None => opsRun i t (op :: ops) t' rs keys | Some e => opsFail i t (op :: ops) e rs keys end) as Hgo.
  { intros t1 rs1 keys1 Hone (rs & keys & -> & -> & Hr)%IH. exists (rs1 ++ rs), (keys1 ++ keys). rewrite !app_assoc.
    split_and!; [done..|]. destruct err as [e|]; [|by econstructor].
    destruct Hr as (before & op' & later & t2 & -> & Hrun & He). exists (op :: before), op', later, t2.
    split_and!; [done|by econstructor|]. rewrite blen_cons. by replace (i + (1 + blen before)) with (i + 1 + blen before) by lia. }
  destruct op as [req|req|req|]; unfold opRun in Hstop, Hgo; cbn [rbind] in *.
  - destruct (cmdPut _ _ _ _ _ _) as [[t1 [[res val] keys]]|e| |]; [by eapply Hgo|..|done|done].
    apply Ok_inj in E. injection E as <- <- <- <-. exists [], []. rewrite !app_nil_r. split_and!; [done..|by apply Hstop].
  - destruct (cmdDeleteRange _ _ _ _ _ _ _ _ _) as [[t1 [res keys]]|e| |]; [by eapply Hgo|..|done|done].
    apply Ok_inj in E. injection E as <- <- <- <-. exists [], []. rewrite !app_nil_r. split_and!; [done..|by apply Hstop].
  - destruct (queryRange _ _ _ _ _ _ _) as [res|e| |]; [eapply Hgo; [done|by rewrite app_nil_r]|..|done|done].
    apply Ok_inj in E. injection E as <- <- <- <-. exists [], []. rewrite !app_nil_r. split_and!; [done..|by apply Hstop].
  - eapply Hgo; [done|by rewrite !app_nil_r].
Qed.

End Steps.

(** The nested transaction of a list of operations, by its steps. *)
Lemma txnOps_steps (cfg : config) `{Differ} `{Snappy} `{MdbOk} `{ErrLib} fuel shardID replicaID t rev epoch ops t' rs keys err :
  txnOps cfg fuel shardID replicaID t rev epoch ops = Ok (t', rs, keys, err) ->
  exists start t1, (forall d, view start d = view t d)
    /\ (forall d, view t' d = match err with None => view t1 d | Some _ => view t d end)
    /\ match err with
       | None => opsRun cfg fuel shardID replicaID rev epoch 0 start ops t1 rs keys
       | Some e => opsFail cfg fuel shardID replicaID rev epoch 0 start ops e rs keys
       end.
Proof.
  unfold txnOps. intros E. apply rbind_ok in E as ([[t2 [rs2 keys2]] e] & E & X). apply Ok_inj in X. injection X as <- <- <- <-.
  apply txnSub_ok in E as (start & t1 & Hs & E & Hv). apply rbind_ok in E as ([[[t3 rs3] keys3] e3] & E & X).
  apply Ok_inj in X. injection X as <- <- <- <-.
  apply txnOpsLoop_steps in E as (rs & keys & -> & -> & Hrun). by exists start, t3.
Qed.

(** A transaction entry of the log. *)
Section Entry.
Context (cfg : config) `{DifferOk} `{SnappyOk} `{MdbOk} `{Proto} `{ErrLib}.
Context (fuel : nat) (shardID replicaID : Z).

Lemma handleTxn_ok s M A ks n min cmd r req M' :
  StoreAt cfg s M A -> getRevisionMin (u_txn s) = Ok min -> pb_Unmarshal MTxnRequest cmd = Some req ->
  Forall condTyped (tr_Compare req) ->
  let success := forallb (condHolds M) (tr_Compare req) in
  let ops := if success then tr_Success req else tr_Failure req in
  let rev := u_newRev s + 1 in
  opsReady cfg min rev 0 M ops M' -> blen ops <= PCB_TXN_OPS_LIMIT -> rev < 2 ^ 52 - 1 ->
  keysOf M ks -> (forall k, (length (M k) <= n)%nat) -> (length ks + n + 2 * length ops < fuel)%nat ->
  (forall a, exists b, pb_Marshal MTxnResponse a = Ok b) ->
  exists s' A' rs keys data,
    handleTxn cfg fuel shardID replicaID s cmd r = Ok (s', mkResult 1 data)
    /\ pb_Marshal MTxnResponse (mkTxnResponse (Some (responseHeader shardID replicaID (u_newRev s'))) success rs) = Ok data
    /\ opsAnswer cfg (responseHeader shardID replicaID rev) rev 0 M ops rs keys
    /\ u_newRev s' = (if decide (keys = []) then u_newRev s else rev) /\ u_keys s' = u_keys s ++ keys /\ u_epoch s' = u_epoch s
    /\ StoreAt cfg s' M' A'.
Proof.
  intros [HR HA HI Hup Hrev] Hmin Hcmd HT success ops rev Hready Hlim Hb Hks Hn Hf Hm.
  unfold handleTxn. rewrite Hcmd, (txnCompare_ok cfg fuel _ M _ HR HT) by (intros k; specialize (Hn k); lia). cbn [rbind].
  fold success. fold ops. destruct (next_keyrev (u_newRev s) Hrev) as (-> & Hk & Hpos).
  fold rev in Hk, Hpos |- *.
  destruct (txnOps_ok cfg fuel shardID replicaID min rev (u_epoch s) n (u_txn s) M A ks ops M' Hready)
    as (t' & A' & rs & keys & E & Hans & HT' & Hup' & Hsame); try done; [lia|by apply (upTo_fresh cfg (u_txn s))|].
  rewrite E. cbn [rbind].
  assert (bump (u_newRev s) keys = if decide (keys = []) then u_newRev s else rev) as ->.
  { unfold bump. destruct keys as [|k keys]; [done|]. rewrite blen_cons, decide_False by done. pose proof (blen_nonneg keys).
    destruct (Z.ltb_spec 0 (1 + blen keys)); [|lia]. by destruct (next_keyrev (u_newRev s) Hrev). }
  destruct (Hm (mkTxnResponse (Some (responseHeader shardID replicaID (if decide (keys = []) then u_newRev s else rev))) success rs)) as [data Ed].
  rewrite Ed. cbn [rbind]. eexists _, A', rs, keys, data. split; [reflexivity|]. split; [exact Ed|]. split; [exact Hans|].
  split; [done|]. split; [done|]. split; [done|]. destruct HT' as [HR' HA' HI' _]. split; try done; cbn [u_newRev].
  - case_decide as Ek; [intros k h; rewrite Hsame by done; apply Hup|]. apply Hup'. intros k h Hin. specialize (Hup k h Hin). lia.
  - case_decide; lia.
Qed.

End Entry.
