(* ===== verification/LeaseExpire.v ===== *)
(** * The expiry of leases (src/state_machine.go: the tick; src/db_lease_exp.go: scan)

    The expiry index as a list of expiries and ids in order. A tick walks it while it
    revokes leases, and so removes entries of the index it walks. *)

From stdpp Require Import gmap sorting.
From S2P Require Import Prelude Types GoBinary Patch Kv Mdb MdbFacts MdbKeys Db DbFacts DbLease DbKv Frame LeaseFacts History DbKvRead DbKvWrite DbKvRange DbKvDelete Pb StateMachine Update SmFrame SmMeta LeaseOps LeaseInv LeaseGrant SmOps.

Lemma StronglySorted_sublist {A} (R : A -> A -> Prop) l1 l2 : l1 `sublist_of` l2 -> StronglySorted R l2 -> StronglySorted R l1.
Proof.
  induction 1 as [|x l1 l2 Hl IH|x l1 l2 Hl IH]; intros Hs; [done|apply StronglySorted_inv in Hs as [Hs Hf]..].
  - constructor; [by apply IH|]. apply Forall_forall. intros y Hy. eapply Forall_forall in Hf; [exact Hf|]. by eapply elem_of_sublist.
  - by apply IH.
Qed.

(** ** The index *)

Definition expKey (p : Z * Z) : bytes := leaseExpKey (mkLease p.2 p.1 0).
Definition expEntry (p : Z * Z) : entry := (expKey p, addChecksum (expKey p) []).

Lemma expKey_lease it : leaseExpKey it = expKey (l_expires it, l_id it).
Proof. done. Qed.

(** A pair of an expiry and the id of a lease, as they fit a machine word. *)
Definition expOk (p : Z * Z) : Prop := is_u64 p.1 /\ is_u64 p.2.

Lemma expKey_inj p q : expOk p -> expOk q -> expKey p = expKey q -> p = q.
Proof.
  intros [Hp1 Hp2] [Hq1 Hq2] E. destruct p as [e i], q as [e' i']. cbn in *.
  destruct (leaseExpKey_inj (mkLease i e 0) (mkLease i' e' 0)) as [E1 E2]; [split; cbn; auto; done..|done|]. cbn in *. congruence.
Qed.

Lemma be_order n a b x y : is_u64 a -> is_u64 b -> n = 8%nat -> blt (be_put n a ++ x) (be_put n b ++ y) -> a <= b.
Proof.
  intros Ha Hb -> Hlt. destruct (Z.le_gt_cases a b) as [|Hgt]; [done|]. exfalso.
  assert (blt (be_put 8 b ++ y) (be_put 8 a ++ x)) as Hc; [|exact (StrictOrder_Irreflexive _ (transitivity Hlt Hc))].
  apply be8_lt in Hgt; [|done..]. unfold blt in *. clear Hlt.
  assert (length (be_put 8 b) = length (be_put 8 a)) as El by (by rewrite !be_put_length).
  revert Hgt El. generalize (be_put 8 b) (be_put 8 a). intros u. induction u as [|c u IH]; intros [|d v]; cbn; try done.
  destruct (bZ c ?= bZ d); try done. intros. apply IH; [done|lia].
Qed.

(** Earlier entries expire earlier. *)
Lemma expEntry_order p q : expOk p -> expOk q -> blt (expKey p) (expKey q) -> p.1 <= q.1.
Proof.
  intros [Hp _] [Hq _]. unfold expKey, leaseExpKey, AppendUvarint, AppendUint64. cbn [app]. by apply be_order.
Qed.

Section Index.
Context `{MdbOk}.

Record ExpRep (t : txn) (E : list (Z * Z)) : Prop := {
  exp_view : view t DbiLeaseExp = expEntry <$> E;
  exp_ok : Forall expOk E
}.

Lemma ExpRep_view t t' E : view t' DbiLeaseExp = view t DbiLeaseExp -> ExpRep t E -> ExpRep t' E.
Proof. intros Ev [Hv Hok]. split; [by rewrite Ev|done]. Qed.

Lemma exp_in t E p : ExpRep t E -> expOk p -> vget (expKey p) (view t DbiLeaseExp) <> None <-> p ∈ E.
Proof.
  intros [Hv Hok] Hp. rewrite Hv. unfold vget. split.
  - intros Hn. destruct (dups (expKey p) (expEntry <$> E)) as [|v vs] eqn:Ed; [done|].
    assert (v ∈ dups (expKey p) (expEntry <$> E)) as Hin by (rewrite Ed; constructor).
    apply elem_dups, list_elem_of_fmap in Hin as (q & Eq & Hq). apply (f_equal fst) in Eq.
    rewrite Forall_forall in Hok. by rewrite (expKey_inj p q Hp (Hok q Hq) Eq).
  - intros Hin. destruct (dups (expKey p) (expEntry <$> E)) as [|v vs] eqn:Ed; [|done].
    assert (addChecksum (expKey p) [] ∈ dups (expKey p) (expEntry <$> E)) as Hx; [|rewrite Ed in Hx; inversion Hx].
    apply elem_dups, list_elem_of_fmap. by exists p.
Qed.

Lemma exp_sorted E : Forall expOk E -> StronglySorted klt (expEntry <$> E) -> StronglySorted (fun p q => p.1 <= q.1) E.
Proof.
  intros Hok Hs. induction E as [|p E IH]; [constructor|]. apply Forall_cons in Hok as [Hp Hok]. rewrite fmap_cons in Hs.
  apply StronglySorted_inv in Hs as [Hs Hf]. constructor; [by apply IH|]. apply Forall_forall. intros q Hq.
  apply expEntry_order; [done|by eapply Forall_forall in Hok|].
  eapply Forall_forall in Hf; [|apply list_elem_of_fmap; by exists q]. exact Hf.
Qed.

Lemma ExpRep_sorted t E : ExpRep t E -> StronglySorted klt (expEntry <$> E).
Proof. intros [Hv _]. rewrite <- Hv. exact (view_sorted t DbiLeaseExp). Qed.

Lemma vdelkey_exp p E : expOk p -> Forall expOk E -> vdelkey (expKey p) (expEntry <$> E) = expEntry <$> filter (fun q => q <> p) E.
Proof.
  intros Hp Hok. induction Hok as [|q E Hq Hok IH]; [done|]. rewrite fmap_cons, filter_cons. unfold vdelkey. rewrite filter_cons.
  destruct (decide (q = p)) as [->|Hne].
  - rewrite !decide_False by (intros X; by apply X). exact IH.
  - rewrite !decide_True; [rewrite fmap_cons; f_equal; exact IH|done|]. intros X. apply Hne. symmetry. by apply expKey_inj.
Qed.

(** From the place of an entry the cursor moves to the next one that is left. *)
Lemma exp_next t c p pre post (Q : Z * Z -> Prop) `{forall q, Decision (Q q)} E :
  cur_dbi c = DbiLeaseExp -> cur_pos c = Some (expEntry p) -> ExpRep t E ->
  E = filter Q (pre ++ p :: post) -> StronglySorted klt (expEntry <$> (pre ++ p :: post)) ->
  exists c2, cur_dbi c2 = DbiLeaseExp /\
    match filter Q post with
    | [] => cur_get t c [] Next = (c2, Err ErrMdbNotFound)
    | q :: _ => cur_get t c [] Next = (c2, Ok (expEntry q)) /\ cur_pos c2 = Some (expEntry q)
    end.
Proof.
  intros Hc Hp [Hv Hok] -> Hs. destruct (cur_get_ok t c [] Next I) as (c2 & Hc2 & Hg). exists c2. split; [congruence|].
  rewrite Hp, Hc, Hv in Hg. cbn [curSpec] in Hg.
  assert (after (expEntry p) (expEntry <$> filter Q (pre ++ p :: post)) = expEntry <$> filter Q post) as Ea.
  { assert (StronglySorted plt (expEntry <$> (pre ++ p :: post))) as Hs' by exact (plt_sorted false _ Hs).
    rewrite fmap_app, fmap_cons in Hs'. rewrite filter_app, filter_cons, fmap_app.
    assert (StronglySorted plt ((expEntry <$> filter Q pre) ++ expEntry p :: (expEntry <$> filter Q post))) as Hsf.
    { eapply StronglySorted_sublist; [|exact Hs']. apply sublist_app; [|apply sublist_skip]; apply fmap_sublist, sublist_filter. }
    destruct (after_suffix _ _ _ Hsf) as [E1 E2]. case_decide; [rewrite fmap_cons; exact E1|exact E2]. }
  rewrite Ea in Hg. destruct (filter Q post); destruct Hg; [done|by split].
Qed.

End Index.

(** ** Revoking *)

(** What revoking the leases [ids] does to a history: the keys that carry them are gone;
    what was to be read at the revisions up to [rev] stays. *)
Record revokedBy (ids : list Z) (rev : Z) (M M' : history) : Prop := {
  rv_now k : visible 0 (M' k) = match visible 0 (M k) with
                                | Some h => if decide (h_lease h ∈ ids) then None else Some h
                                | None => None
                                end;
  rv_past k r : 0 < r <= rev -> visible r (M' k) = visible r (M k)
}.

(** [keys] are those that carried one of [ids]. *)
Definition carried (ids : list Z) (M : history) (keys : list bytes) : Prop :=
  forall k, k ∈ keys <-> exists h, visible 0 (M k) = Some h /\ h_lease h ∈ ids.

Lemma revokedBy_nil rev M : revokedBy [] rev M M.
Proof. split; [|done]. intros k. destruct (visible 0 (M k)); [|done]. rewrite decide_False; [done|]. apply not_elem_of_nil. Qed.

Lemma carried_nil M : carried [] M [].
Proof. intros k. rewrite elem_of_nil. split; [done|]. by intros (h & _ & X%elem_of_nil). Qed.

Lemma revokedBy_trans ids1 ids2 rev1 rev2 M1 M2 M3 :
  revokedBy ids1 rev1 M1 M2 -> revokedBy ids2 rev2 M2 M3 -> rev1 <= rev2 -> revokedBy (ids1 ++ ids2) rev1 M1 M3.
Proof.
  intros [N1 P1] [N2 P2] Hle. split.
  - intros k. rewrite N2, N1. destruct (visible 0 (M1 k)) as [h|]; [|done].
    pose proof (elem_of_app ids1 ids2 (h_lease h)). repeat case_decide; tauto || done.
  - intros k r Hr. rewrite P2 by lia. by apply P1.
Qed.

Lemma carried_app ids1 ids2 rev M1 M2 keys1 keys2 :
  revokedBy ids1 rev M1 M2 -> carried ids1 M1 keys1 -> carried ids2 M2 keys2 -> carried (ids1 ++ ids2) M1 (keys1 ++ keys2).
Proof.
  intros [N1 _] C1 C2 k. rewrite elem_of_app, (C1 k), (C2 k), N1. split.
  - intros [(h & Hh & Hin)|(h & Hh & Hin)]; [exists h; split; [done|]; apply elem_of_app; by left|].
    destruct (visible 0 (M1 k)) as [h'|] eqn:Ev; [|done]. case_decide; [done|]. injection Hh as ->.
    exists h. split; [done|]. apply elem_of_app. by right.
  - intros (h & Hh & Hin). rewrite Hh. destruct (decide (h_lease h ∈ ids1)) as [|Hn]; [left; eauto|].
    right. exists h. split; [done|]. apply elem_of_app in Hin as [?|?]; done.
Qed.

Section Tick.
Context (cfg : config) `{DifferOk} `{SnappyOk} `{MdbOk} `{Proto} `{ErrLib}.
Context (fuel : nat).

(** A store with its leases [L] and their expiry index [E]: every lease is in the index
    under its expiry. *)
Record LeaseStore (s : updState) (M : history) (A : list (Z * bytes)) (L : gmap Z lease) (E : list (Z * Z)) : Prop := {
  ls_store : StoreAt cfg s M A;
  ls_leases : LeaseRep (u_txn s) L;
  ls_exp : ExpRep (u_txn s) E;
  ls_held id it : is_u64 id -> L !! id = Some it -> (l_expires it, id) ∈ E;
  ls_zero : L !! 0 = None
}.

(** The index entries that the revocation of [id] leaves. *)
Definition keptEntry (L : gmap Z lease) (id : Z) (q : Z * Z) : Prop := forall it, L !! id = Some it -> q <> (l_expires it, id).

#[export] Instance keptEntry_dec L id q : Decision (keptEntry L id q).
Proof.
  unfold keptEntry. destruct (L !! id) as [it|].
  - destruct (decide (q = (l_expires it, id))) as [->|Hne]; [right|left]; [intros X; by apply (X it)|by intros it' [= <-]].
  - by left.
Defined.

(** The leases that are revoked when [id] is due. *)
Definition revokedIds (L : gmap Z lease) (id : Z) : list Z := match L !! id with Some _ => [id] | None => [] end.

Lemma attKeys_le t' M M' A A' id ids rev :
  AttRep t' A' -> Attached M A -> Attached M' A' -> revokedBy ids rev M M' -> (length (attKeys id A') <= length (attKeys id A))%nat.
Proof.
  intros HA' HI HI' [Hnow _]. apply submseteq_length, NoDup_submseteq; [by eapply attKeys_NoDup|].
  intros k. rewrite !elem_of_attKeys, (at_iff _ _ HI'), (at_iff _ _ HI), Hnow. intros (? & h & Hh & Hl). split; [done|].
  exists h. split; [|done]. destruct (visible 0 (M k)); [|done]. by case_decide.
Qed.

Lemma tickRevoke_ok t M A L E id epoch rev keys :
  LeaseStore (mkUpd t epoch rev keys) M A L E -> is_u64 id -> (length (attKeys id A) < fuel)%nat -> rev + 1 < 2 ^ 52 - 1 ->
  exists t' M' A' rev' ks,
    tickRevoke fuel epoch t (rev, keys) id = Ok (t', (rev', keys ++ ks))
    /\ LeaseStore (mkUpd t' epoch rev' (keys ++ ks)) M' A' (delete id L) (filter (keptEntry L id) E)
    /\ revokedBy (revokedIds L id) rev M M' /\ carried (revokedIds L id) M ks /\ rev <= rev' <= rev + 1
    /\ only leaseTables t t'.
Proof.
  intros [[HR HA HI Hup Hrev] HL HE Hheld Hzero] Hid Hf Hb. cbn [u_txn u_newRev] in *. unfold tickRevoke, revokedIds. cbn [fst snd].
  destruct (next_keyrev rev Hrev) as (-> & Hk & Hpos). pose proof (HL id Hid) as Hst.
  destruct (L !! id) as [it|] eqn:El.
  2:{ unfold cmdLeaseRevoke. rewrite (lease_get_ok t id None Hst). cbn [rbind default from_option l_id lease_zero].
      exists t, M, A, rev, []. split; [reflexivity|].
      rewrite app_nil_r, delete_id by done. rewrite filter_all by (intros q _ it; rewrite El; discriminate).
      split; [by split|]. split; [apply revokedBy_nil|]. split; [apply carried_nil|]. split; [lia|]. apply only_refl. }
  destruct (LeaseRep_id t L id it HL Hid El) as [Ei Hok]. subst id.
  assert (leaseHeld t it) as Hh.
  { split; [exact Hst|]. rewrite expKey_lease. apply (exp_in t E); [done|by split; apply Hok|by apply Hheld]. }
  assert (l_id it <> 0) as Hz by (intros Ez; rewrite Ez in El; congruence).
  destruct (cmdLeaseRevoke_ok cfg fuel t M A (rev + 1) epoch it HR HA HI Hh Hz Hk Hpos (upTo_fresh cfg t M rev HR Hup Hk) Hf)
    as (t' & A' & Erev & HR' & HA' & HI' & Hn' & Ho' & Hx' & _).
  rewrite Erev. cbn [rbind]. set (ks := attKeys (l_id it) A) in *.
  assert (Hrv : revokedBy [l_id it] rev M (deleteKeys (rev + 1) 0 ks M)).
  { split.
    - intros k. rewrite visible_deleteKeys by done. unfold ks. destruct (visible 0 (M k)) as [h|] eqn:Ev; [|by case_decide].
      assert (k ∈ attKeys (l_id it) A <-> h_lease h ∈ [l_id it]) as Hiff.
      { rewrite elem_of_attKeys, (at_iff _ _ HI), Ev, list_elem_of_singleton. split; [by intros (_ & ? & [= <-] & ?)|]. intros El'. split; [done|eauto]. }
      repeat case_decide; tauto || done.
    - intros k r Hr. unfold deleteKeys. case_decide; [|done]. apply visible_delRecs; [done|lia]. }
  assert (Hc : carried [l_id it] M ks).
  { intros k. unfold ks. rewrite elem_of_attKeys, (at_iff _ _ HI). setoid_rewrite list_elem_of_singleton. split; [by intros [_ ?]|by split]. }
  assert (Hbump : rev <= bump rev ks <= rev + 1 /\ upTo (deleteKeys (rev + 1) 0 ks M) (bump rev ks)).
  { unfold bump. rewrite (u64_id (rev + 1)) by (unfold is_u64; lia). destruct ks as [|k0 ks0].
    - change (0 <? blen []) with false. cbn iota. split; [lia|]. intros k h. rewrite deleteKeys_nil. apply Hup.
    - rewrite blen_cons. pose proof (blen_nonneg ks0). destruct (Z.ltb_spec 0 (1 + blen ks0)); [|lia]. split; [lia|]. by apply upTo_delete. }
  destruct Hbump as [Hbump Hup'].
  exists t', (deleteKeys (rev + 1) 0 ks M), A', (bump rev ks), ks. split; [done|]. split; [split; cbn [u_txn u_newRev]|].
  - split; try done. cbn [u_newRev]. lia.
  - intros id Hid'. destruct (decide (id = l_id it)) as [->|Hne]; [by rewrite lookup_delete_eq|].
    rewrite lookup_delete_ne by done. apply Ho'; [done|done|by apply HL].
  - destruct HE as [Hv Hoks]. split.
    + rewrite Hx', Hv, expKey_lease, vdelkey_exp by (done || (split; apply Hok)). f_equal. apply list_filter_iff. intros q. unfold keptEntry.
      split; [by intros Hq it'; rewrite El; intros [= <-]|]. intros Hq. by apply Hq.
    + apply Forall_forall. intros q [_ Hq]%list_elem_of_filter. by eapply Forall_forall in Hoks.
  - intros id it' Hid' Hl'. destruct (decide (id = l_id it)) as [->|Hne]; [by rewrite lookup_delete_eq in Hl'|].
    rewrite lookup_delete_ne in Hl' by done. apply list_elem_of_filter. split; [|by apply Hheld]. intros it'' _ [= _ E']. done.
  - rewrite lookup_delete_None. by right.
  - split; [done|]. split; [done|]. split; [done|]. by eapply cmdLeaseRevoke_only.
Qed.

(** ** The walk *)

(** The ids of the entries that have expired. *)
Definition due (epoch : Z) (E : list (Z * Z)) : list Z := snd <$> filter (fun p => p.1 <= epoch) E.

Lemma elem_of_due epoch E id : id ∈ due epoch E <-> exists e, e <= epoch /\ (e, id) ∈ E.
Proof.
  unfold due. rewrite list_elem_of_fmap. split.
  - intros ([e i] & -> & [Hle Hin]%list_elem_of_filter). by exists e.
  - intros (e & Hle & Hin). exists (e, id). split; [done|]. by apply list_elem_of_filter.
Qed.

(** What a walk over [rest] does with the leases [L] and the index [E]. *)
Record walked (epoch : Z) (rest : list (Z * Z)) (L L' : gmap Z lease) (E E' : list (Z * Z)) (ids : list Z) : Prop := {
  wk_ids id : id ∈ ids <-> id ∈ due epoch rest /\ is_Some (L !! id);
  wk_leases id : L' !! id = if decide (id ∈ ids) then None else L !! id;
  wk_index q : q ∈ E' <-> q ∈ E /\ forall it, q.2 ∈ ids -> L !! q.2 = Some it -> q.1 <> l_expires it
}.

Lemma walked_stop epoch rest L E : due epoch rest = [] -> walked epoch rest L L E E [].
Proof.
  intros Hd. split; [|done|].
  - intros id. rewrite Hd, !elem_of_nil. tauto.
  - intros q. split; [|tauto]. intros Hq. split; [done|]. by intros it X%elem_of_nil.
Qed.

Lemma elem_of_revokedIds L id i : i ∈ revokedIds L id <-> i = id /\ is_Some (L !! id).
Proof.
  unfold revokedIds. destruct (L !! id) as [it|]; [rewrite list_elem_of_singleton|rewrite elem_of_nil].
  - split; [by eauto|tauto].
  - split; [done|]. by intros [_ [? ?]].
Qed.

Lemma walked_step epoch e id post L L' E E' ids : e <= epoch ->
  walked epoch (filter (keptEntry L id) post) (delete id L) L' (filter (keptEntry L id) E) E' ids ->
  walked epoch ((e, id) :: post) L L' E E' (revokedIds L id ++ ids).
Proof.
  intros He [Hids HL HE].
  assert (Hother : forall i, i <> id -> i ∈ due epoch (filter (keptEntry L id) post) <-> i ∈ due epoch ((e, id) :: post)).
  { intros i Hi. rewrite !elem_of_due. apply exist_proper. intros x. rewrite list_elem_of_filter, elem_of_cons. unfold keptEntry.
    split; [tauto|]. intros [? [E1|?]]; [by injection E1 as _ ?|]. split; [done|]. split; [|done]. intros it _ E1. by injection E1 as _ ?. }
  assert (Hi0 : id ∉ ids) by (rewrite Hids, lookup_delete_eq; intros [_ [? ?]]; done).
  assert (Happ : forall i, i ∈ revokedIds L id ++ ids <-> (i = id /\ is_Some (L !! id)) \/ i ∈ ids).
  { intros i. by rewrite elem_of_app, elem_of_revokedIds. }
  split.
  - intros i. rewrite Happ. destruct (decide (i = id)) as [->|Hi].
    + assert (id ∈ due epoch ((e, id) :: post)) as Hd by (apply elem_of_due; exists e; split; [done|constructor]). tauto.
    + rewrite Hids, lookup_delete_ne, Hother by done. tauto.
  - intros i. rewrite HL. specialize (Happ i). destruct (decide (i = id)) as [->|Hi].
    + rewrite decide_False, lookup_delete_eq by done. case_decide as Hd; [done|]. destruct (L !! id); [|done]. exfalso. apply Hd, Happ. eauto.
    + rewrite lookup_delete_ne by done. destruct (decide (i ∈ ids)), (decide (i ∈ revokedIds L id ++ ids)); tauto.
  - intros [x i]. rewrite HE, list_elem_of_filter. cbn [fst snd]. specialize (Happ i). unfold keptEntry. destruct (decide (i = id)) as [->|Hi].
    + split.
      * intros [[Hk ?] _]. split; [done|]. intros it _ El ->. by apply (Hk it).
      * intros [? Hk]. split; [split; [|done]|by intros]. intros it El E1. injection E1 as ->. apply (Hk it); [|done|done]. apply Happ. eauto.
    + rewrite lookup_delete_ne by done. split.
      * intros [[_ ?] Hk]. split; [done|]. intros it Hin. apply Hk. tauto.
      * intros [? Hk]. split; [split; [|done]|].
        -- intros it _ E1. by injection E1 as _ ?.
        -- intros it Hin. apply Hk. tauto.
Qed.

(** Reading one entry. *)
Lemma expEntry_read p {X} (stop : res X) (go : Z -> res X) lim : expOk p ->
  (if blen (expKey p) <? 9 then stop else
   let! hd := slice (expKey p) 0 8 in
   let! exp := Uint64 hd in
   if lim <? exp then stop else
   let! tl := slice (expKey p) 8 (blen (expKey p)) in go (fst (Uvarint tl))) = if lim <? p.1 then stop else go p.2.
Proof.
  intros [H1' H2']. unfold expKey, leaseExpKey, AppendUvarint, AppendUint64. cbn [app l_expires l_id].
  pose proof (uvarint_length p.2) as Hl. rewrite blen_app, blen_be_put.
  destruct (Z.ltb_spec (Z.of_nat 8 + blen (uvarint p.2)) 9); [lia|].
  rewrite slice_ok by (rewrite ?blen_app, ?blen_be_put; lia). cbn [rbind].
  change (Z.to_nat (8 - 0)) with 8%nat. change (Z.to_nat 0) with 0%nat. rewrite drop_0, take_app_be, Uint64_be by done. cbn [rbind].
  destruct (lim <? p.1); [done|]. rewrite slice_ok by (rewrite ?blen_app, ?blen_be_put; lia). cbn [rbind]. change (Z.to_nat 8) with 8%nat.
  rewrite drop_app_be, take_ge by (unfold blen; lia). rewrite <- (app_nil_r (uvarint p.2)), Uvarint_app by done. done.
Qed.

Lemma expLoop_ok n t c r pre rest M A L E epoch rev keys :
  LeaseStore (mkUpd t epoch rev keys) M A L E -> E = pre ++ rest -> cur_dbi c = DbiLeaseExp ->
  match rest with [] => r = Err ErrMdbNotFound | p :: _ => r = Ok (expEntry p) /\ cur_pos c = Some (expEntry p) end ->
  (length rest < n)%nat -> (forall id, (length (attKeys id A) < fuel)%nat) -> rev + blen rest < 2 ^ 52 - 1 ->
  exists t' M' A' L' E' rev' ks ids,
    leaseExpLoop n t c r epoch (tickRevoke fuel epoch) (rev, keys) = Ok (t', (rev', keys ++ ks))
    /\ LeaseStore (mkUpd t' epoch rev' (keys ++ ks)) M' A' L' E' /\ walked epoch rest L L' E E' ids
    /\ revokedBy ids rev M M' /\ carried ids M ks /\ rev <= rev' <= rev + blen rest /\ only leaseTables t t'.
Proof.
  revert t c r pre rest M A L E rev keys. induction n as [|n IH]; intros t c r pre rest M A L E rev keys HS HE Hc Hr Hn Hf Hb; [lia|].
  cbn [leaseExpLoop].
  assert (Hstop : due epoch rest = [] -> forall R, R = Ok (t, (rev, keys)) -> exists t' M' A' L' E' rev' ks ids, R = Ok (t', (rev', keys ++ ks))
    /\ LeaseStore (mkUpd t' epoch rev' (keys ++ ks)) M' A' L' E' /\ walked epoch rest L L' E E' ids
    /\ revokedBy ids rev M M' /\ carried ids M ks /\ rev <= rev' <= rev + blen rest /\ only leaseTables t t').
  { intros Hd R ->. exists t, M, A, L, E, rev, [], []. rewrite app_nil_r. pose proof (blen_nonneg rest). split; [done|]. split; [done|].
    split; [by apply walked_stop|]. split; [apply revokedBy_nil|]. split; [apply carried_nil|]. split; [lia|]. apply only_refl. }
  destruct rest as [|p post]; [subst r; by apply Hstop|]. destruct Hr as [-> Hp].
  pose proof (ls_exp _ _ _ _ _ HS) as HX. cbn [u_txn] in HX. pose proof (exp_ok _ _ HX) as Hok. pose proof (ExpRep_sorted t E HX) as Hsrt.
  subst E. pose proof Hok as [_ [Hpo Hposto]%Forall_cons]%Forall_app.
  unfold expEntry at 1. cbn [fst snd]. rewrite trim_add. cbv beta iota zeta.
  rewrite (expEntry_read p (Ok (t, (rev, keys))) (fun id =>
    let! '(t, s) := tickRevoke fuel epoch t (rev, keys) id in
    let '(c, r) := cur_get t c [] Next in leaseExpLoop n t c r epoch (tickRevoke fuel epoch) s) epoch) by done. destruct (Z.ltb_spec epoch p.1) as [Hlt|Hle].
  { apply Hstop; [|done]. unfold due. rewrite filter_none; [done|].
    pose proof (exp_sorted _ Hok Hsrt) as Hs. apply StronglySorted_app_1_r, StronglySorted_inv in Hs as [_ Hs].
    intros q [->|Hq]%elem_of_cons; [lia|]. eapply Forall_forall in Hs; [|exact Hq]. lia. }
  clear Hstop. destruct p as [e id]. cbn [fst snd length] in *. rewrite blen_cons in *. pose proof (blen_nonneg post) as Hbp.
  destruct (tickRevoke_ok t M A L (pre ++ (e, id) :: post) id epoch rev keys HS (proj2 Hpo) (Hf id) ltac:(lia))
    as (t1 & M1 & A1 & rev1 & ks1 & -> & HS1 & Hrv1 & Hc1 & Hrev1 & Ho1). cbn [rbind].
  destruct (exp_next t1 c (e, id) pre post (keptEntry L id) _ Hc Hp (ls_exp _ _ _ _ _ HS1) eq_refl Hsrt) as (c2 & Hc2 & Hg).
  destruct (cur_get t1 c [] Next) as [c3 r3].
  assert (Hlen : (length (filter (keptEntry L id) post) <= length post)%nat) by apply length_filter.
  destruct (IH t1 c3 r3 (filter (keptEntry L id) (pre ++ [(e, id)])) (filter (keptEntry L id) post) M1 A1 (delete id L)
              (filter (keptEntry L id) (pre ++ (e, id) :: post)) rev1 (keys ++ ks1) HS1)
    as (t' & M' & A' & L' & E' & rev' & ks & ids & -> & HS' & Hw & Hrv & Hcr & Hrev' & Ho').
  - by rewrite <- filter_app, <- app_assoc.
  - destruct (filter _ post); [by injection Hg as -> ->|]. destruct Hg as [Hg _]. by injection Hg as -> ->.
  - destruct (filter _ post); [by injection Hg as -> ->|]. destruct Hg as [Hg ?]. by injection Hg as -> ->.
  - lia.
  - intros i. pose proof (sa_att _ _ _ _ (ls_store _ _ _ _ _ HS1)) as HA1.
    pose proof (attKeys_le t1 M M1 A A1 i _ rev HA1 (sa_agree _ _ _ _ (ls_store _ _ _ _ _ HS)) (sa_agree _ _ _ _ (ls_store _ _ _ _ _ HS1)) Hrv1).
    specialize (Hf i). lia.
  - unfold blen in *. lia.
  - exists t', M', A', L', E', rev', (ks1 ++ ks), (revokedIds L id ++ ids). rewrite !app_assoc.
    split; [done|]. split; [done|]. split; [by eapply walked_step|].
    split; [eapply revokedBy_trans; [exact Hrv1|exact Hrv|lia]|]. split; [by eapply carried_app|].
    split; [unfold blen in *; lia|]. by eapply only_trans.
Qed.

Lemma expScan_ok t M A L E epoch rev keys :
  LeaseStore (mkUpd t epoch rev keys) M A L E -> (length E < fuel)%nat -> (forall id, (length (attKeys id A) < fuel)%nat) ->
  rev + blen E < 2 ^ 52 - 1 ->
  exists t' M' A' L' E' rev' ks ids,
    dbLeaseExp_scan fuel t epoch (tickRevoke fuel epoch) (rev, keys) = Ok (t', (rev', keys ++ ks))
    /\ LeaseStore (mkUpd t' epoch rev' (keys ++ ks)) M' A' L' E' /\ walked epoch E L L' E E' ids
    /\ revokedBy ids rev M M' /\ carried ids M ks /\ rev <= rev' <= rev + blen E /\ only leaseTables t t'.
Proof.
  intros HS Hn Hf Hb. unfold dbLeaseExp_scan. destruct (cur_open_ok t DbiLeaseExp) as (c & -> & Hc & Hp).
  destruct (cur_get_ok t c [] Next I) as (c2 & Hc2 & Hg). pose proof (exp_view _ _ (ls_exp _ _ _ _ _ HS)) as Hv. cbn [u_txn] in Hv.
  rewrite Hp, Hc, Hv in Hg. cbn [curSpec] in Hg.
  destruct (cur_get t c [] Next) as [c3 r3].
  apply (expLoop_ok fuel t c3 r3 [] E M A L E epoch rev keys); try done.
  - destruct E; destruct Hg as [Hg _]; injection Hg as -> _; congruence.
  - destruct E; destruct Hg as [Hg Hq]; by injection Hg as -> ->.
Qed.

(** Moving the epoch touches none of the tables of a store. *)
Lemma LeaseStore_view s s' M A L E :
  (forall d, d <> DbiMeta -> view (u_txn s') d = view (u_txn s) d) -> u_newRev s' = u_newRev s ->
  LeaseStore s M A L E -> LeaseStore s' M A L E.
Proof.
  intros Hv Hr [[HR HA HI Hup Hrev] HL HE Hh Hz]. split; [split|..]; try done; rewrite ?Hr; try done.
  - by eapply Rep_view; [..|exact HR]; apply Hv.
  - by eapply AttRep_view; [|exact HA]; apply Hv.
  - by eapply LeaseRep_view; [|exact HL]; apply Hv.
  - by eapply ExpRep_view; [|exact HE]; apply Hv.
Qed.

Lemma handleTick_ok s m M A L E index cmd r req :
  LeaseStore s M A L E -> MetaRep (u_txn s) m -> u_epoch s = m_epoch m -> u_epoch s + 1 < 2 ^ 64 ->
  pb_Unmarshal MTickRequest cmd = Some req -> m_term m <= tick_Term req -> (forall a, exists b, pb_Marshal MTickResponse a = Ok b) ->
  (length E < fuel)%nat -> (forall id, (length (attKeys id A) < fuel)%nat) -> u_newRev s + blen E < 2 ^ 52 - 1 ->
  let epoch := u_epoch s + 1 in
  exists s' M' A' L' E' ids keys data,
    handleTick fuel s index cmd r = Ok (s', mkResult index data) /\ pb_Marshal MTickResponse (mkTickResponse epoch) = Ok data
    /\ u_epoch s' = epoch /\ u_keys s' = u_keys s ++ keys /\ u_newRev s <= u_newRev s' <= u_newRev s + blen E
    /\ LeaseStore s' M' A' L' E' /\ walked epoch E L L' E E' ids /\ revokedBy ids (u_newRev s) M M' /\ carried ids M keys
    /\ MetaRep (u_txn s') (mkMeta epoch (m_index m) (m_leaseID m) (m_rev m) (m_revCompacted m) (m_revMin m) (m_term m)).
Proof.
  intros HS HM Hep Hb Hcmd Hterm Hm Hn Hf Hrev epoch. unfold handleTick. rewrite Hcmd, (getTerm_rep _ _ HM). cbn [rbind].
  destruct (Z.ltb_spec (tick_Term req) (m_term m)); [lia|].
  assert (is_u64 epoch) as Hu by (pose proof (epoch_u64 _ _ HM); unfold is_u64, epoch in *; lia).
  change (u_epoch s + 1) with epoch. rewrite (u64_id epoch Hu).
  destruct (putUint64_has (u_txn s) metaKeyEpoch epoch) as (t1 & E1 & _ & _ & Hd1); [by vm_compute|done|].
  unfold setEpoch at 1. rewrite E1. cbn [rbind]. pose proof (setEpoch_rep _ _ _ _ HM Hu E1) as HM1.
  destruct (expScan_ok t1 M A L E epoch (u_newRev s) (u_keys s)) as (t' & M' & A' & L' & E' & rev' & ks & ids & -> & HS' & Hw & Hrv & Hc & Hr' & Ho); try done.
  { by eapply (LeaseStore_view s). }
  cbn [rbind]. destruct (Hm (mkTickResponse epoch)) as [data Ed]. rewrite Ed. cbn [rbind].
  eexists _, M', A', L', E', ids, ks, data. split; [reflexivity|]. repeat (split; [done|]).
  eapply MetaRep_view; [|exact HM1]. apply (only_meta leaseTables); [apply meta_lease|done].
Qed.

(** After the walk no lease is left whose time has come. *)
Lemma walked_none_due s M A L E epoch L' E' ids id it :
  LeaseStore s M A L E -> walked epoch E L L' E E' ids -> is_u64 id -> L' !! id = Some it -> epoch < l_expires it.
Proof.
  intros HS [Hids HL _] Hid Hl. rewrite HL in Hl. case_decide as Hn; [done|].
  destruct (Z.lt_ge_cases epoch (l_expires it)) as [|Hle]; [done|]. exfalso. apply Hn, Hids. split; [|eauto].
  apply elem_of_due. exists (l_expires it). split; [lia|]. by apply (ls_held _ _ _ _ _ HS).
Qed.

End Tick.
