(* ===== verification/Events.v ===== *)
(** * The event log (src/db_kv.go: scan)

    The event table as a list of events in the order of their revisions, and the scan
    that reads it. *)

From stdpp Require Import sorting.
From S2P Require Import Prelude Types GoBinary Patch Kv Mdb MdbFacts MdbKeys Db DbFacts DbKv Frame DbKvRead DbKvWrite LeaseOps.

Definition evtEntry (e : kvEvent) : entry :=
  (keyrev_key (ev_rev e), evtBytes (ev_rev e) (ev_epoch e) (ev_key e)).

Definition evt_ok (e : kvEvent) : Prop := is_u64 (ev_rev e) /\ is_u64 (ev_epoch e).

Lemma evtFromBytes_ok e : evt_ok e -> evtFromBytes (evtEntry e).1 (evtEntry e).2 = Ok e.
Proof.
  intros [Hr He]. unfold evtFromBytes, evtEntry, evtBytes. cbn [fst snd].
  assert (keyrev_FromKey (keyrev_key (ev_rev e)) (addChecksum (keyrev_key (ev_rev e)) (AppendUvarint [] (ev_epoch e) ++ ev_key e))
          = Ok (ev_rev e)) as ->.
  { unfold keyrev_FromKey, addChecksum, AppendUint32. rewrite blen_app, blen_be_put.
    pose proof (blen_nonneg (AppendUvarint [] (ev_epoch e) ++ ev_key e)).
    destruct (Z.ltb_spec (blen (AppendUvarint [] (ev_epoch e) ++ ev_key e) + Z.of_nat 4) 4); [lia|].
    rewrite sumOk_app. cbn [rbind negb]. unfold keyrev_key, keyrev_appendbytes, AppendUint64. cbn [app]. by apply Uint64_be. }
  cbn [rbind]. rewrite trim_add. cbn [rbind]. unfold AppendUvarint. cbn [app].
  rewrite Uvarint_app by done. pose proof (blen_nonneg (ev_key e)). pose proof (blen_nonneg (uvarint (ev_epoch e))).
  rewrite slice_ok by (rewrite ?blen_app; lia). cbn [rbind].
  rewrite drop_app_length' by (unfold blen; lia).
  rewrite take_ge by (rewrite blen_app; unfold blen; lia). by destruct e.
Qed.

Lemma evtEntry_list_inj X Y : Forall evt_ok X -> Forall evt_ok Y -> evtEntry <$> X = evtEntry <$> Y -> X = Y.
Proof.
  intros HX. revert Y. induction HX as [|x X Hx HX IH]; intros [|y Y] HY E; try done.
  apply Forall_cons in HY as [Hy HY]. rewrite !fmap_cons in E. apply (f_equal (fun l => (head l, tail l))) in E.
  cbn [head tail] in E. assert (evtEntry x = evtEntry y /\ evtEntry <$> X = evtEntry <$> Y) as [Exy EXY] by (split; congruence).
  f_equal; [|by apply IH]. apply evtFromBytes_ok in Hx, Hy. rewrite Exy, Hy in Hx. congruence.
Qed.

Definition evtUpper (e : kvEvent) : Z := keyrev_upper (ev_rev e).

Definition byRev : list kvEvent -> Prop := StronglySorted (fun e e' => ev_rev e <= ev_rev e').

Definition inOrder : list kvEvent -> Prop := StronglySorted (fun e e' => evtUpper e <= evtUpper e').

Section Events.
Context `{MdbOk}.

Record EvtRep (t : txn) (E : list kvEvent) : Prop := {
  er_view : view t DbiEvt = evtEntry <$> E;
  er_ok : Forall evt_ok E
}.

Lemma EvtRep_view t t' E : view t' DbiEvt = view t DbiEvt -> EvtRep t E -> EvtRep t' E.
Proof. intros Hv [Ho Hk]. split; [congruence|done]. Qed.

Lemma EvtRep_byRev t E : EvtRep t E -> byRev E.
Proof.
  intros [Hv Hok]. pose proof (plt_sorted _ _ (view_sorted t DbiEvt)) as Hs. rewrite Hv in Hs. clear Hv.
  induction Hok as [|e E He Hok IH]; [constructor|]. rewrite fmap_cons in Hs. apply StronglySorted_inv in Hs as [Hs Hf].
  constructor; [by apply IH|]. rewrite Forall_forall in Hf. rewrite Forall_forall in Hok. apply Forall_forall. intros e' Hin.
  assert (plt (evtEntry e) (evtEntry e')) as Hp by (apply Hf, list_elem_of_fmap; eauto).
  destruct (Hok e' Hin) as [He' _], He as [He _]. destruct Hp as [Hlt|[E0 _]].
  - apply be8_lt in Hlt; [lia|done|done].
  - apply keyrev_key_inj in E0; [lia|done|done].
Qed.

Lemma EvtRep_order t E : EvtRep t E -> inOrder E.
Proof.
  intros HE. apply EvtRep_byRev in HE. induction HE as [|e E Hs IH Hf]; constructor; [done|].
  eapply Forall_impl; [exact Hf|]. intros e'. apply keyrev_upper_mono.
Qed.

(** The loop over an iterator. *)
Fixpoint runYield {S} (yield : S -> kvEvent -> res (S * bool)) (s : S) (E : list kvEvent) : res S :=
  match E with
  | [] => Ok s
  | e :: E => let! '(s, go_on) := yield s e in if negb go_on then Ok s else runYield yield s E
  end.

(** Where [Next] and [NextDup] take a cursor standing at [p], also when [p] itself was
    just deleted. *)
Lemma next_after t c p post :
  cur_pos c = Some p -> after p (view t (cur_dbi c)) = post ->
  exists c2, cur_dbi c2 = cur_dbi c
    /\ cur_get t c [] Next = (c2, match post with [] => Err ErrMdbNotFound | q :: _ => Ok q end)
    /\ match post with [] => True | q :: _ => cur_pos c2 = Some q end.
Proof.
  intros Hp Ha. destruct (cur_get_ok t c [] Next I) as (c2 & Hc2 & Hg). exists c2. split; [done|].
  rewrite Hp in Hg. cbn [curSpec] in Hg. rewrite Ha in Hg. destruct post; by destruct Hg.
Qed.

Lemma nextDup_after t c p post :
  cur_pos c = Some p -> after p (view t (cur_dbi c)) = post ->
  exists c2, cur_dbi c2 = cur_dbi c /\
    match post with
    | q :: _ => if decide (q.1 = p.1) then cur_get t c [] NextDup = (c2, Ok q) /\ cur_pos c2 = Some q
                else cur_get t c [] NextDup = (c2, Err ErrMdbNotFound) /\ cur_pos c2 = Some p
    | [] => cur_get t c [] NextDup = (c2, Err ErrMdbNotFound) /\ cur_pos c2 = Some p
    end.
Proof.
  intros Hp Ha. destruct (cur_get_ok t c [] NextDup) as (c2 & Hc2 & Hg); [by rewrite Hp|]. exists c2. split; [done|].
  rewrite Hp in Hg. cbn [curSpec] in Hg. rewrite Ha in Hg.
  destruct post as [|q post]; cbn [head] in Hg; [|case_decide]; destruct Hg as [? Hpos]; split; try done; by apply Hpos.
Qed.

(** Trying [NextDup] first does not change where a cursor goes. *)
Lemma cur_nextDup_next t c p post :
  cur_pos c = Some p -> after p (view t (cur_dbi c)) = post ->
  exists c2, cur_dbi c2 = cur_dbi c /\
    (let '(c1, r) := cur_get t c [] NextDup in if isNotFound r then cur_get t c1 [] Next else (c1, r))
    = (c2, match post with [] => Err ErrMdbNotFound | q :: _ => Ok q end)
    /\ match post with [] => True | q :: _ => cur_pos c2 = Some q end.
Proof.
  intros Hp Ha. destruct (nextDup_after t c p post Hp Ha) as (c1 & Hc1 & Hg).
  assert (cur_get t c [] NextDup = (c1, Err ErrMdbNotFound) -> cur_pos c1 = Some p -> exists c2, cur_dbi c2 = cur_dbi c /\
    (let '(c1, r) := cur_get t c [] NextDup in if isNotFound r then cur_get t c1 [] Next else (c1, r))
    = (c2, match post with [] => Err ErrMdbNotFound | q :: _ => Ok q end)
    /\ match post with [] => True | q :: _ => cur_pos c2 = Some q end) as Hnext.
  { intros -> Hp1. cbn [isNotFound]. rewrite <- Hc1 in Ha. destruct (next_after t c1 p post Hp1 Ha) as (c2 & ? & ? & ?).
    exists c2. split; [congruence|done]. }
  destruct post as [|q post]; [by destruct Hg; apply Hnext|].
  case_decide; destruct Hg as [Hg Hp1]; [|by apply Hnext]. rewrite Hg. cbn [isNotFound]. by exists c1.
Qed.

Lemma scanLoop_ok {S} fuel t c r (yield : S -> kvEvent -> res (S * bool)) s pre E :
  view t DbiEvt = evtEntry <$> (pre ++ E) -> Forall evt_ok E -> cur_dbi c = DbiEvt -> (length E < fuel)%nat ->
  match E with
  | [] => r = Err ErrMdbNotFound
  | e :: _ => r = Ok (evtEntry e) /\ cur_pos c = Some (evtEntry e)
  end ->
  scanLoop fuel t c r yield s = runYield yield s E.
Proof.
  intros Hv. revert fuel c r s pre Hv. induction E as [|e E IH]; intros fuel c r s pre Hv Hok Hc Hf Hr.
  { destruct fuel; [cbn in Hf; lia|]. by subst r. }
  destruct fuel as [|fuel]; [lia|]. destruct Hr as [-> Hp]. apply Forall_cons in Hok as [He Hok]. cbn [scanLoop].
  pose proof (evtFromBytes_ok e He) as Ef. destruct (evtEntry e) as [k v] eqn:Ee. cbn [fst snd] in Ef. rewrite Ef.
  cbn [runYield]. destruct (yield s e) as [[s' go_on]| | |]; [|done..]. cbn [rbind]. destruct go_on; cbn [negb]; [|done].
  destruct (cur_nextDup_next t c (k, v) (evtEntry <$> E)) as (c2 & Hc2 & Hg & Hp2).
  { done. }
  { pose proof (plt_sorted _ _ (view_sorted t DbiEvt)) as Hs. rewrite Hc. rewrite Hv, fmap_app, fmap_cons, Ee in *.
    by destruct (after_suffix (k, v) _ _ Hs). }
  destruct (cur_get t c [] NextDup) as [c1 r1]. rewrite Hg.
  apply (IH fuel c2 _ s' (pre ++ [e])).
  - by rewrite <- app_assoc.
  - done.
  - congruence.
  - cbn [length] in Hf. lia.
  - destruct E; [done|]. by split.
Qed.

(** Events at or after a revision. *)
Definition since (rev : Z) (E : list kvEvent) : list kvEvent := filter (fun e => rev <= keyrev_upper (ev_rev e)) E.

Lemma since_evt_ok rev E : Forall evt_ok E -> Forall evt_ok (since rev E).
Proof. rewrite !Forall_forall. intros Hok e [_ He]%list_elem_of_filter. by apply Hok. Qed.

Lemma seek_since rev E :
  Forall evt_ok E -> 0 <= rev < 2 ^ 52 ->
  seek (AppendUint64 [] (u64 (Z.shiftl rev 12))) (evtEntry <$> E) = evtEntry <$> since rev E.
Proof.
  intros Hok Hr. rewrite Z.shiftl_mul_pow2 by lia. change (2 ^ 12) with 4096.
  rewrite u64_id by (unfold is_u64; lia). unfold seek, since. induction Hok as [|e E [He _] Hok IH]; [done|].
  rewrite fmap_cons, !filter_cons. unfold evtEntry at 1. cbn [fst].
  unfold keyrev_key, keyrev_appendbytes, AppendUint64 in *. cbn [app] in *. rewrite IH.
  assert (blt (be_put 8 (ev_rev e)) (be_put 8 (rev * 4096)) <-> ~ rev <= keyrev_upper (ev_rev e)) as Hiff.
  { rewrite be8_lt by (done || unfold is_u64; lia). unfold keyrev_upper. rewrite Z.shiftr_div_pow2 by lia.
    change (2 ^ 12) with 4096. Z.to_euclidean_division_equations. lia. }
  repeat case_decide; tauto || done.
Qed.

(** Where a cursor that seeks a revision lands. *)
Lemma seekEvent_ok t E rev c :
  EvtRep t E -> 0 <= rev < 2 ^ 52 -> cur_dbi c = DbiEvt ->
  exists P c2 r, E = P ++ since rev E /\ cur_get t c (AppendUint64 [] (u64 (Z.shiftl rev 12))) SetRange = (c2, r)
    /\ cur_dbi c2 = DbiEvt
    /\ match since rev E with
       | [] => r = Err ErrMdbNotFound
       | e :: _ => r = Ok (evtEntry e) /\ cur_pos c2 = Some (evtEntry e)
       end.
Proof.
  intros [Hv Hok] Hr Hc. set (k := AppendUint64 [] (u64 (Z.shiftl rev 12))).
  assert (k <> []) as Hk. { apply blen_nonempty. unfold k, AppendUint64. rewrite blen_app, blen_be_put, blen_nil. lia. }
  destruct (cur_get_ok t c k SetRange Hk) as (c' & Hc' & Hg). rewrite Hc in Hc', Hg. cbn [curSpec] in Hg.
  destruct (seek_suffix _ k _ (view_sorted t DbiEvt)) as [pre Epre].
  rewrite Hv in Hg, Epre. unfold k in Hg, Epre. rewrite seek_since in Hg, Epre by done. fold k in Hg.
  assert (exists P, E = P ++ since rev E) as [P EP].
  { apply fmap_app_inv in Epre as (P & Q & _ & EQ & ->). exists P. f_equal.
    symmetry. apply evtEntry_list_inj; [by apply since_evt_ok|by apply Forall_app in Hok as [_ ?]|done]. }
  destruct (cur_get t c k SetRange) as [c2 r] eqn:Eg. exists P, c2, r. split; [done|]. split; [done|].
  split; [apply cur_get_dbi' in Eg; congruence|].
  destruct (since rev E); cbn [fmap list_fmap head] in Hg; destruct Hg as [Hg ?]; by simplify_eq.
Qed.

Lemma since_length rev E : (length (since rev E) <= length E)%nat.
Proof. apply length_filter. Qed.

Lemma scan_ok {S} fuel t E rev (yield : S -> kvEvent -> res (S * bool)) s :
  EvtRep t E -> 0 <= rev < 2 ^ 52 -> (length E < fuel)%nat ->
  dbKv_scan fuel t rev yield s = runYield yield s (since rev E).
Proof.
  intros HE Hr Hf. unfold dbKv_scan. destruct (cur_open_ok t DbiEvt) as (c & -> & Hc & _).
  destruct (seekEvent_ok t E rev c HE Hr Hc) as (P & c2 & r & EP & -> & Hc2 & Hat). pose proof HE as [Hv Hok].
  apply (scanLoop_ok fuel t c2 r yield s P); [by rewrite Hv, <- EP|by apply since_evt_ok|done| |done].
  pose proof (since_length rev E). lia.
Qed.

End Events.
