(* ===== verification/Compact.v ===== *)
(** * Compaction implements the history (src/db_kv.go: compact)

    Compaction takes the events below a revision off the log and drops, for each key
    they name, the records older than its last such event. *)

From stdpp Require Import sorting.
From S2P Require Import Prelude Types GoBinary Patch Kv Mdb MdbFacts MdbKeys Db DbFacts DbKv Frame History DbKvRead DbKvWrite DbKvRange DbKvDelete LeaseOps Events.

(** ** Specification on histories *)

(** The records from revision [rev] on. *)
Definition keepFrom (rev : Z) (hs : list hrec) : list hrec := filter (fun h => rev <= h_rev h) hs.

(** The last event of a key. *)
Definition lastRev (k : bytes) (E : list kvEvent) : option Z := last (ev_rev <$> filter (fun e => ev_key e = k) E).

(** The history after the events [E] were compacted. *)
Definition compacted (E : list kvEvent) (M : history) : history :=
  fun k => match lastRev k E with Some r => keepFrom r (M k) | None => M k end.

Lemma keepFrom_prefix rev hs : StronglySorted newestFirst hs -> exists old, hs = keepFrom rev hs ++ old /\ Forall (fun h => h_rev h < rev) old.
Proof.
  induction 1 as [|h hs Hs (old & E & Ho) Hf]; [by exists []|]. unfold keepFrom in *. rewrite filter_cons. case_decide.
  - exists old. split; [|done]. cbn. by f_equal.
  - exists (h :: hs). assert (filter (fun h0 => rev <= h_rev h0) hs = []) as ->.
    { apply filter_none. intros h' Hin. rewrite Forall_forall in Hf. specialize (Hf h' Hin). unfold newestFirst in Hf. lia. }
    split; [done|]. constructor; [lia|]. eapply Forall_impl; [exact Hf|]. unfold newestFirst. lia.
Qed.

Lemma keepFrom_keepFrom r r' hs : r <= r' -> keepFrom r' (keepFrom r hs) = keepFrom r' hs.
Proof.
  intros Hle. unfold keepFrom. induction hs as [|h hs IH]; [done|]. rewrite !filter_cons.
  destruct (decide (r <= h_rev h)); [rewrite filter_cons|]; repeat case_decide; rewrite ?IH; done || lia.
Qed.

(** ** The entries of a key in the index *)

Definition ent (key : bytes) (h : hrec) : entry := (key, recBytes key h).

Lemma dups_app k l1 l2 : dups k (l1 ++ l2) = dups k l1 ++ dups k l2.
Proof. unfold dups. by rewrite filter_app, fmap_app. Qed.

Lemma dups_ent k key hs : dups k (ent key <$> hs) = if decide (k = key) then recBytes key <$> hs else [].
Proof.
  unfold dups. induction hs as [|h hs IH]; [by case_decide|]. rewrite fmap_cons, filter_cons. cbn [ent fst].
  repeat case_decide; subst; try done; rewrite ?fmap_cons; rewrite IH; by rewrite ?decide_True by done.
Qed.

Lemma dups_none k l : Forall (fun p => p.1 <> k) l -> dups k l = [].
Proof.
  intros Hf. unfold dups. rewrite filter_none; [done|]. intros p Hp E. rewrite Forall_forall in Hf. by apply (Hf p Hp).
Qed.

Lemma keys_ne_lt k l : Forall (fun p => blt k p.1) l -> Forall (fun p : entry => p.1 <> k) l.
Proof. intros Hf. eapply Forall_impl; [exact Hf|]. intros p Hlt E. cbn in Hlt. rewrite E in Hlt. by apply blt_irrefl in Hlt. Qed.

Lemma key_front k l :
  sortedBy true l -> Forall (fun p => ~ blt p.1 k) l ->
  exists Q, l = ((fun v => (k, v)) <$> dups k l) ++ Q /\ Forall (fun p => p.1 <> k) Q.
Proof.
  induction l as [|[a b] l IH]; intros Hs Hge; [by exists []|]. apply Forall_cons in Hge as [Ha Hge]. cbn in Ha.
  destruct (blt_total k a) as [Hgt|[<-|?]]; [|..|done].
  - pose proof (sortedBy_keys_lt _ k (a, b) l Hs Hgt) as Hlt. exists ((a, b) :: l).
    rewrite dups_nil_lt by done. split; [done|by apply keys_ne_lt].
  - destruct (IH (sortedBy_tail _ _ _ Hs) Hge) as (Q & El & HQ). exists Q. split; [|done].
    rewrite dups_cons, decide_True by done. rewrite fmap_cons. cbn [app]. by f_equal.
Qed.

Lemma key_split k l :
  sortedBy true l ->
  exists P Q, l = P ++ ((fun v => (k, v)) <$> dups k l) ++ Q
    /\ Forall (fun p => p.1 <> k) P /\ Forall (fun p => p.1 <> k) Q.
Proof.
  induction l as [|[a b] l IH]; intros Hs; [by exists [], []|]. destruct (decide (blt a k)) as [Hlt|Hge].
  - destruct (IH (sortedBy_tail _ _ _ Hs)) as (P & Q & El & HP & HQ).
    assert (a <> k) as Hne by (intros ->; by apply blt_irrefl in Hlt).
    rewrite dups_cons, decide_False by done. exists ((a, b) :: P), Q. split; [cbn; by f_equal|]. split; [by constructor|done].
  - destruct (key_front k ((a, b) :: l) Hs) as (Q & E & HQ); [|by exists [], Q].
    constructor; [done|]. eapply Forall_impl; [by eapply sortedBy_keys_le|]. intros q Hq Hlt. cbn in Hq.
    destruct (blt_total a k) as [?|[->|Hgt]]; [done|done|]. apply Hq. by etrans.
Qed.

(** ** The records of one key *)

Section Compact.
Context (cfg : config) `{DifferOk} `{SnappyOk} `{MdbOk}.

(** The values that go with the dropped records. *)
Definition droppedKeys (rev : Z) (hs : list hrec) : list bytes :=
  (fun h => keyrev_key (h_rev h)) <$> filter (fun h => h_rev h < rev /\ isLive h = true) hs.

Lemma droppedKeys_cons rev h hs k :
  h_rev h < rev ->
  k ∈ droppedKeys rev (h :: hs) <-> (isLive h = true /\ k = keyrev_key (h_rev h)) \/ k ∈ droppedKeys rev hs.
Proof.
  intros Hlt. unfold droppedKeys. rewrite filter_cons. destruct (isLive h).
  - rewrite decide_True by done. rewrite fmap_cons, elem_of_cons. tauto.
  - rewrite decide_False by (by intros [_ ?]). split; [tauto|]. by intros [[? _]|?].
Qed.

Lemma droppedKeys_keep rev h hs : rev <= h_rev h -> droppedKeys rev (h :: hs) = droppedKeys rev hs.
Proof. intros Hle. unfold droppedKeys. rewrite filter_cons, decide_False; [done|]. intros [? _]. lia. Qed.

(** A cursor on the first of [rest], with [Q] behind. *)
Definition atRecord (c : cursor) (r : res entry) (key : bytes) (rest : list hrec) : Prop :=
  match rest with
  | [] => r = Err ErrMdbNotFound
  | h :: _ => r = Ok (ent key h) /\ cur_pos c = Some (ent key h)
  end.

Lemma nextDup_record t c key h rest Q :
  cur_pos c = Some (ent key h) -> cur_dbi c = DbiRev ->
  after (ent key h) (view t DbiRev) = (ent key <$> rest) ++ Q -> Forall (fun p => p.1 <> key) Q ->
  exists c' r, cur_get t c [] NextDup = (c', r) /\ cur_dbi c' = DbiRev /\ atRecord c' r key rest.
Proof.
  intros Hp Hc Ha HQ. rewrite <- Hc in Ha. destruct (nextDup_after t c _ _ Hp Ha) as (c' & Hc' & Hg). exists c'.
  destruct rest as [|h' rest]; cbn [fmap list_fmap app] in Hg.
  - destruct Q as [|q Q].
    + destruct Hg as [-> _]. eexists. split; [done|]. split; [congruence|done].
    + apply Forall_cons in HQ as [Hq _]. rewrite decide_False in Hg by done. destruct Hg as [-> _].
      eexists. split; [done|]. split; [congruence|done].
  - rewrite decide_True in Hg by done. destruct Hg as [-> ?]. eexists. split; [done|]. split; [congruence|by split].
Qed.

Lemma compactKey_ok fuel t c r key rev rec hasNewer P rest Q :
  view t DbiRev = P ++ (ent key <$> rest) ++ Q -> Forall (fun p => p.1 <> key) Q -> cur_dbi c = DbiRev ->
  Forall hrec_ok rest -> StronglySorted newestFirst rest -> (length rest < fuel)%nat -> atRecord c r key rest ->
  (hasNewer = true \/ match rest with h :: _ => rev <= h_rev h | [] => True end) ->
  (forall h, h ∈ rest -> h_rev h < rev -> isLive h = true -> vget (keyrev_key (h_rev h)) (view t DbiVal) <> None) ->
  exists t' c' rec', compactKey fuel t c r key rev rec hasNewer = Ok (t', c', rec', Some ErrMdbNotFound)
    /\ cur_dbi c' = DbiRev
    /\ view t' DbiRev = P ++ (ent key <$> keepFrom rev rest) ++ Q
    /\ (forall k, vget k (view t' DbiVal) = if decide (k ∈ droppedKeys rev rest) then None else vget k (view t DbiVal))
    /\ forall d, d <> DbiRev -> d <> DbiVal -> view t' d = view t d.
Proof.
  intros Hv HQ. revert fuel t c r rec hasNewer P Hv. induction rest as [|h rest IH];
    intros fuel t c r rec hasNewer P Hv Hc Hok Hs Hf Hat Hnew Hval; (destruct fuel as [|fuel]; [cbn in Hf; lia|]); cbn [compactKey].
  { cbn in Hat. subst r. exists t, c, rec. split; [done|]. split; [done|]. split; [done|]. split; [|done].
    intros k. rewrite decide_False; [done|]. intros X. inversion X. }
  destruct Hat as [-> Hp]. apply Forall_cons in Hok as [Hh Hok]. apply StronglySorted_inv in Hs as [Hs Hfst].
  cbn [length] in Hf. unfold ent at 1. rewrite beqb_refl. cbn [negb]. rewrite recBytes_decode by done. cbn [rbind].
  set (rec1 := mkKeyrecord key (h_rev h) _). change (kr_rev rec1) with (h_rev h).
  pose proof (plt_sorted _ _ (view_sorted t DbiRev)) as Hsv. rewrite Hv, fmap_cons in Hsv. cbn [app] in Hsv.
  destruct (after_suffix _ _ _ Hsv) as [Ea Ea']. unfold keepFrom. rewrite filter_cons.
  destruct (Z.leb_spec rev (h_rev h)) as [Hle|Hlt].
  - rewrite decide_True by done. rewrite droppedKeys_keep by done.
    destruct (nextDup_record t c key h rest Q Hp Hc) as (c1 & r1 & -> & Hc1 & Hat1); [|done|].
    { by rewrite Hv, fmap_cons. }
    destruct (IH fuel t c1 r1 rec1 true (P ++ [ent key h])) as (t' & c' & rec' & E & Hc' & Hv' & Hval' & Hfr); try done; auto.
    { by rewrite Hv, fmap_cons, <- app_assoc. } { lia. } { intros h' Hin. apply Hval. by constructor. }
    exists t', c', rec'. split; [done|]. split; [done|]. split; [|done]. rewrite Hv', <- app_assoc. by rewrite fmap_cons.
  - rewrite (decide_False (P := rev <= h_rev h)) by lia.
    assert (hasNewer = true) as -> by (destruct Hnew; [done|lia]). cbn [andb].
    assert (exists t1, (if negb (keyrev_isdel (h_rev h)) then mdb_del t DbiVal (keyrev_key (h_rev h)) else Ok t) = Ok t1
      /\ (forall k, vget k (view t1 DbiVal) = if decide (isLive h = true /\ k = keyrev_key (h_rev h)) then None else vget k (view t DbiVal))
      /\ forall d, d <> DbiVal -> view t1 d = view t d) as (t1 & -> & Hv1 & Hf1).
    { fold (isLive h). destruct (isLive h) eqn:El.
      - pose proof (mdb_del_ok t DbiVal (keyrev_key (h_rev h)) (keyrev_key_nonempty _)) as Hd.
        destruct (vget (keyrev_key (h_rev h)) (view t DbiVal)) eqn:Eg; [|by destruct (Hval h); [constructor|..]].
        destruct Hd as (t1 & -> & V). exists t1. split; [done|]. split; [|intros d Hd; by rewrite V, decide_False].
        intros k. rewrite V, decide_True by done. unfold vget. rewrite dups_vdelkey.
        destruct (decide (k = keyrev_key (h_rev h))) as [->|Hne]; [by rewrite decide_True by done|].
        rewrite decide_False; [done|]. by intros [_ ?].
      - exists t. split; [done|]. split; [|done]. intros k. rewrite decide_False; [done|]. by intros [? _]. }
    cbn [rbind].
    destruct (cur_del_ok t1 c (ent key h) Hp) as (t2 & c2 & -> & Hc2 & Hp2 & V2).
    { rewrite Hc, Hf1, Hv, fmap_cons by done. apply elem_of_app. right. constructor. }
    cbn [rbind]. rewrite Hc in V2.
    assert (view t2 DbiRev = P ++ (ent key <$> rest) ++ Q) as Hv2.
    { rewrite V2, decide_True by done. rewrite Hf1 by done. rewrite Hv, fmap_cons. cbn [app]. by apply vremove_mid. }
    destruct (nextDup_record t2 c2 key h rest Q Hp2) as (c3 & r3 & -> & Hc3 & Hat3); [congruence|by rewrite Hv2|done|].
    destruct (IH fuel t2 c3 r3 rec1 true P) as (t' & c' & rec' & E & Hc' & Hv' & Hval' & Hfr); try done; auto.
    { lia. }
    { intros h' Hin Hl Hlv. rewrite V2, decide_False by done. rewrite Hv1. rewrite decide_False.
      - apply Hval; [by constructor|done|done].
      - intros [_ E]. rewrite Forall_forall in Hfst. specialize (Hfst h' Hin). unfold newestFirst in Hfst.
        rewrite Forall_forall in Hok. apply keyrev_key_inj in E; [lia|by apply hrec_rev_u64, Hok|by apply hrec_rev_u64]. }
    exists t', c', rec'. split; [done|]. split; [done|]. split; [done|]. split.
    + intros k. rewrite Hval', (V2 DbiVal), (decide_False (P := DbiVal = DbiRev)), Hv1 by done.
      pose proof (droppedKeys_cons rev h rest k Hlt) as Hiff. repeat case_decide; tauto || done.
    + intros d Hd1 Hd2. rewrite Hfr, V2, decide_False by done. by apply Hf1.
Qed.

Lemma chain_prefix key vals above l1 l2 : chain cfg key vals above (l1 ++ l2) -> chain cfg key vals above l1.
Proof. revert above. induction l1 as [|h l1 IH]; intros above Hc; [done|]. destruct Hc as [Hh Hc]. split; [done|by apply IH]. Qed.

Lemma droppedKeys_elem rev hs h :
  Forall hrec_ok hs -> hrec_ok h -> keyrev_key (h_rev h) ∈ droppedKeys rev hs ->
  exists h', h' ∈ hs /\ h_rev h' = h_rev h /\ h_rev h' < rev /\ isLive h' = true.
Proof.
  intros Hok Hh Hin. apply list_elem_of_fmap in Hin as (h' & E & [[Hlt Hl] Hin]%list_elem_of_filter). exists h'.
  rewrite Forall_forall in Hok. apply keyrev_key_inj in E; [done|by apply hrec_rev_u64|by apply hrec_rev_u64, Hok].
Qed.

Lemma Rep_keep t t' M key rev P Q :
  Rep cfg t M ->
  view t DbiRev = P ++ (ent key <$> M key) ++ Q -> Forall (fun p => p.1 <> key) P -> Forall (fun p => p.1 <> key) Q ->
  view t' DbiRev = P ++ (ent key <$> keepFrom rev (M key)) ++ Q ->
  (forall k, vget k (view t' DbiVal) = if decide (k ∈ droppedKeys rev (M key)) then None else vget k (view t DbiVal)) ->
  Rep cfg t' (hset M key (keepFrom rev (M key))).
Proof.
  intros HR Hv HP HQ Hv' Hval. pose proof (rep_ok _ _ _ HR) as Hok.
  assert (forall k h, h ∈ M k -> hrec_ok h) as Hokh.
  { intros k h Hin. specialize (Hok k). rewrite Forall_forall in Hok. by apply Hok. }
  assert (forall k h, h ∈ hset M key (keepFrom rev (M key)) k -> h ∈ M k) as Hsub.
  { intros k h. destruct (decide (k = key)) as [->|Hne]; [rewrite hset_same|by rewrite hset_other].
    by intros [_ ?]%list_elem_of_filter. }
  split.
  - intros k. rewrite Hv', !dups_app, dups_ent. destruct (decide (k = key)) as [->|Hne].
    + rewrite (dups_none key P), (dups_none key Q), hset_same, app_nil_r by done. done.
    + rewrite hset_other by done. rewrite <- (rep_rev _ _ _ HR k), Hv, !dups_app, dups_ent, decide_False by done. done.
  - intros k Hk. destruct (decide (k = key)) as [->|Hne]; [|rewrite hset_other in Hk by done; by apply HR].
    apply HR. intros E. rewrite hset_same, E in Hk. done.
  - intros k. apply Forall_forall. intros h Hin. eapply Hokh, Hsub, Hin.
  - intros k. destruct (decide (k = key)) as [->|Hne]; [rewrite hset_same|rewrite hset_other by done; apply HR].
    apply StronglySorted_filter, HR.
  - intros k. apply (chain_ext cfg) with (vals := view t DbiVal).
    + intros h Hin Hl. rewrite Hval, decide_False; [done|]. intros Hd.
      apply droppedKeys_elem in Hd as (h' & Hin' & E & Hlt & Hl'); [|done|by eapply Hokh, Hsub].
      assert (key = k) as -> by (eapply (rep_unique _ _ _ HR); [exact Hin'|by apply Hsub|done|done]).
      rewrite hset_same in Hin. apply list_elem_of_filter in Hin as [? _]. lia.
    + destruct (decide (k = key)) as [->|Hne]; [rewrite hset_same|rewrite hset_other by done; apply HR].
      destruct (keepFrom_prefix rev (M key) (rep_sorted _ _ _ HR key)) as (old & E & _).
      apply (chain_prefix _ _ _ _ old). rewrite <- E. apply HR.
  - intros r Hr Hd. rewrite Hval. case_decide; [done|]. by apply HR.
  - intros k1 k2 h1 h2 Hi1 Hi2. apply (rep_unique _ _ _ HR); by apply Hsub.
Qed.

(** One key of the map, found and thinned. *)
Lemma compactOne_ok fuel t c M key rev rec :
  Rep cfg t M -> cur_dbi c = DbiRev -> (length (M key) < fuel)%nat ->
  (exists h, h ∈ M key /\ h_rev h = rev) ->
  exists t' c' rec', (let '(c, r) := cur_get t c key SetRange in compactKey fuel t c r key rev rec false)
      = Ok (t', c', rec', Some ErrMdbNotFound)
    /\ cur_dbi c' = DbiRev /\ Rep cfg t' (hset M key (keepFrom rev (M key)))
    /\ forall d, d <> DbiRev -> d <> DbiVal -> view t' d = view t d.
Proof.
  intros HR Hc Hf (he & Hhe & Erev). pose proof (rep_rev _ _ _ HR key) as Hd.
  destruct (key_split key (view t DbiRev) (view_sorted t DbiRev)) as (P & Q & Hv & HP & HQ). rewrite Hd in Hv.
  assert (((fun v => (key, v)) <$> (recBytes key <$> M key)) = ent key <$> M key) as Ee by (by rewrite <- list_fmap_compose).
  rewrite Ee in Hv. assert (M key <> []) as Hne by (intros E; rewrite E in Hhe; inversion Hhe).
  assert (key <> []) as Hk by (apply blen_nonempty; destruct (rep_key _ _ _ HR key Hne); lia).
  pose proof (rep_sorted _ _ _ HR key) as Hs. pose proof (rep_ok _ _ _ HR key) as Hok.
  pose proof (rep_vals _ _ _ HR key) as Hch.
  destruct (M key) as [|h hs] eqn:EM; [done|].
  destruct (cur_seek t c key (recBytes key h) (recBytes key <$> hs)) as (c1 & -> & Hc1 & Hp1); [done|by rewrite Hc, Hd|].
  destruct (compactKey_ok fuel t c1 (Ok (ent key h)) key rev rec false P (h :: hs) Q) as (t' & c' & rec' & E & Hc' & Hv' & Hval & Hfr); try done.
  { congruence. }
  { right. apply elem_of_cons in Hhe as [->|Hin]; [lia|]. apply StronglySorted_inv in Hs as [_ Hs].
    rewrite Forall_forall in Hs. specialize (Hs he Hin). unfold newestFirst in Hs. lia. }
  { intros h' Hin Hlt Hl. clear - Hch Hin Hl. revert Hch Hin. generalize (@None hrec). induction (h :: hs) as [|x l IH];
      intros above Hch Hin; [inversion Hin|]. destruct Hch as [Hx Hch].
    apply elem_of_cons in Hin as [->|Hin]; [|by eapply IH]. destruct (Hx Hl) as (b & -> & _). done. }
  exists t', c', rec'. split; [exact E|]. split; [done|]. split; [|done]. rewrite <- EM in *. by eapply Rep_keep.
Qed.

(** ** The keys of a batch *)

Fixpoint assoc (k : bytes) (L : list (bytes * Z)) : option Z :=
  match L with [] => None | (a, r) :: L => if decide (a = k) then Some r else assoc k L end.

Definition thin (L : list (bytes * Z)) (M : history) : history :=
  fun k => match assoc k L with Some r => keepFrom r (M k) | None => M k end.

Lemma assoc_elem k r L : NoDup L.*1 -> assoc k L = Some r <-> (k, r) ∈ L.
Proof.
  induction L as [|[a b] L IH]; intros Hnd; cbn [assoc]; [split; [done|intros X; inversion X]|].
  cbn in Hnd. apply NoDup_cons in Hnd as [Hni Hnd]. rewrite elem_of_cons. case_decide as E.
  - subst a. split; [intros [= ->]; by left|]. intros [[= ->]|Hin]; [done|].
    destruct Hni. apply list_elem_of_fmap. by exists (k, r).
  - rewrite IH by done. split; [by right|]. by intros [[= ? ?]|?].
Qed.

Lemma assoc_none k L : assoc k L = None <-> k ∉ L.*1.
Proof.
  induction L as [|[a b] L IH]; cbn [assoc fmap list_fmap fst]; [split; [intros _ X; inversion X|done]|].
  rewrite not_elem_of_cons. case_decide; [split; [done|]; intros [? _]; congruence|]. rewrite IH. split; [intros; split; congruence|tauto].
Qed.

Lemma assoc_perm L L' k : NoDup L.*1 -> L' ≡ₚ L -> assoc k L' = assoc k L.
Proof.
  intros Hnd Hp. assert (NoDup L'.*1) as Hnd' by (by rewrite Hp).
  destruct (assoc k L') as [r|] eqn:E.
  - apply (assoc_elem k r L' Hnd') in E. symmetry. apply assoc_elem; [done|]. by rewrite <- Hp.
  - apply assoc_none in E. symmetry. apply assoc_none. by rewrite <- Hp.
Qed.

Lemma compactKeys_ok fuel t c M L rec err :
  Rep cfg t M -> cur_dbi c = DbiRev -> NoDup L.*1 ->
  (forall k r, (k, r) ∈ L -> (exists h, h ∈ M k /\ h_rev h = r) /\ (length (M k) < fuel)%nat) ->
  exists t' c' err', compactKeys fuel t c L rec err = Ok (t', c', err')
    /\ (err' = err \/ err' = Some ErrMdbNotFound) /\ cur_dbi c' = DbiRev
    /\ Rep cfg t' (thin L M) /\ forall d, d <> DbiRev -> d <> DbiVal -> view t' d = view t d.
Proof.
  revert t c M rec err. induction L as [|[key rev] L IH]; intros t c M rec err HR Hc Hnd Hin; cbn [compactKeys].
  { exists t, c, err. split; [done|]. split; [by left|]. split; [done|]. split; [|done]. by eapply Rep_ext. }
  cbn in Hnd. apply NoDup_cons in Hnd as [Hni Hnd].
  destruct (Hin key rev) as [Hrec Hf]; [constructor|].
  destruct (compactOne_ok fuel t c M key rev rec HR Hc Hf Hrec) as (t1 & c1 & rec1 & E & Hc1 & HR1 & Hf1).
  destruct (cur_get t c key SetRange) as [c0 r0]. rewrite E. cbn [rbind].
  assert (forall k, k ∈ L.*1 -> hset M key (keepFrom rev (M key)) k = M k) as Hsame
    by (intros k Hk; apply hset_other; by intros ->).
  destruct (IH t1 c1 _ rec1 (Some ErrMdbNotFound) HR1 Hc1 Hnd) as (t' & c' & err' & -> & He & Hc' & HR' & Hf').
  { intros k r Hkr. rewrite Hsame by (apply list_elem_of_fmap; by exists (k, r)). apply Hin. by constructor. }
  exists t', c', err'. split; [done|]. split; [right; by destruct He|]. split; [done|]. split; [|intros; by rewrite Hf', Hf1].
  eapply Rep_ext; [|exact HR']. intros k. unfold thin. cbn [assoc]. case_decide as Ek.
  - subst k. rewrite (proj2 (assoc_none key L) Hni). by rewrite hset_same.
  - rewrite hset_other by done. done.
Qed.

(** The map built from a run of events. *)
Definition keysOf (E : list kvEvent) (L : list (bytes * Z)) : list (bytes * Z) :=
  foldl (fun L e => keysSet L (ev_key e) (ev_rev e)) L E.

Lemma keysSet_assoc L key r k : assoc k (keysSet L key r) = if decide (key = k) then Some r else assoc k L.
Proof.
  induction L as [|[a b] L IH]; cbn [keysSet assoc]; [done|].
  destruct (beqb_spec a key) as [->|Hne]; cbn [assoc]; [by repeat case_decide|]. rewrite IH. repeat case_decide; congruence || done.
Qed.

Lemma keysSet_keys L key r k : k ∈ (keysSet L key r).*1 <-> k = key \/ k ∈ L.*1.
Proof.
  induction L as [|[a b] L IH]; cbn [keysSet fmap list_fmap fst]; [rewrite !elem_of_cons; tauto|].
  destruct (beqb_spec a key) as [->|Hne]; cbn [fmap list_fmap fst]; rewrite !elem_of_cons, ?IH; tauto.
Qed.

Lemma keysSet_NoDup L key r : NoDup L.*1 -> NoDup (keysSet L key r).*1.
Proof.
  induction L as [|[a b] L IH]; cbn [keysSet fmap list_fmap fst]; intros Hnd; [repeat constructor; set_solver|].
  apply NoDup_cons in Hnd as [Hni Hnd]. destruct (beqb_spec a key) as [->|Hne]; cbn [fmap list_fmap fst]; apply NoDup_cons; [done|].
  split; [|by apply IH]. rewrite keysSet_keys. by intros [?|?].
Qed.

Lemma keysOf_NoDup E L : NoDup L.*1 -> NoDup (keysOf E L).*1.
Proof. revert L. induction E as [|e E IH]; intros L Hnd; [done|]. cbn. by apply IH, keysSet_NoDup. Qed.

Lemma lastRev_cons k e E :
  lastRev k (e :: E) = match lastRev k E with Some r => Some r | None => if decide (ev_key e = k) then Some (ev_rev e) else None end.
Proof.
  unfold lastRev. rewrite filter_cons. case_decide; [|by destruct (last _)].
  rewrite fmap_cons. destruct (ev_rev <$> filter (fun e0 => ev_key e0 = k) E) as [|x l]; [done|].
  change (last (ev_rev e :: x :: l)) with (last (x :: l)). destruct (last (x :: l)) eqn:El; [done|]. by apply last_None in El.
Qed.

Lemma keysOf_assoc E L k : assoc k (keysOf E L) = match lastRev k E with Some r => Some r | None => assoc k L end.
Proof.
  revert L. induction E as [|e E IH]; intros L; [done|]. cbn [keysOf foldl]. change (foldl _ ?L E) with (keysOf E L) at 1.
  unfold keysOf in IH |- *. rewrite IH, lastRev_cons, keysSet_assoc. destruct (lastRev k E); [done|]. by case_decide.
Qed.

(** ** Taking events off the log *)

(** The variables of [compact] when the cursor stands on the first of [E], the log. *)
Definition atEvent (s : compactState) (E : list kvEvent) : Prop :=
  cur_dbi (cs_cur s) = DbiEvt /\ view (cs_t s) DbiEvt = evtEntry <$> E /\
  match E with
  | e :: _ => (cs_k s, cs_v s) = evtEntry e /\ cs_rev s = ev_rev e /\ cs_err s = None
              /\ cur_pos (cs_cur s) = Some (evtEntry e)
  | [] => cs_err s = Some ErrMdbNotFound /\ cs_k s = [] /\ cs_v s = []
  end.

Lemma nextEvent_ok t c e E rev :
  Forall evt_ok E -> cur_dbi c = DbiEvt -> cur_pos c = Some (evtEntry e) -> after (evtEntry e) (view t DbiEvt) = evtEntry <$> E ->
  exists c' k v rev' err, nextEvent t c rev = Ok (c', k, v, rev', err) /\ cur_dbi c' = DbiEvt /\
    match E with
    | e' :: _ => (k, v) = evtEntry e' /\ rev' = ev_rev e' /\ err = None /\ cur_pos c' = Some (evtEntry e')
    | [] => err = Some ErrMdbNotFound /\ k = [] /\ v = [] /\ rev' = rev
    end.
Proof.
  intros Hok Hc Hp Ha. rewrite <- Hc in Ha. destruct (cur_nextDup_next t c _ _ Hp Ha) as (c2 & Hc2 & Hg & Hp2).
  unfold nextEvent. destruct (cur_get t c [] NextDup) as [c1 r1]. rewrite Hg.
  destruct E as [|e' E]; cbn [fmap list_fmap] in *.
  - eexists _, _, _, _, _. split; [done|]. split; [congruence|done].
  - apply Forall_cons in Hok as [He' _]. pose proof (evtFromBytes_ok e' He') as Ef. unfold evtFromBytes in Ef.
    destruct (evtEntry e') as [k v]. cbn [fst snd] in Ef.
    apply rbind_ok in Ef as (rv & Er & Ef). rewrite Er. eexists _, _, _, _, _. split; [done|]. split; [congruence|].
    split; [done|]. split; [|done]. go_inv. done.
Qed.

(** Taking the first event off: its key is read, its entry deleted and the next one read. *)
Lemma takeEvent_ok s e E :
  atEvent s (e :: E) -> Forall evt_ok (e :: E) ->
  exists body t1 c1 c2 k v rev err,
    trimChecksum (cs_k s) (cs_v s) = Ok body
    /\ slice body (snd (Uvarint body)) (blen body) = Ok (ev_key e)
    /\ cur_del (cs_t s) (cs_cur s) = Ok (t1, c1)
    /\ nextEvent t1 c1 (cs_rev s) = Ok (c2, k, v, rev, err)
    /\ (forall keys last done, atEvent (mkCompactState t1 c2 k v rev err keys last done) E)
    /\ (E = [] -> rev = cs_rev s)
    /\ forall d, d <> DbiEvt -> view t1 d = view (cs_t s) d.
Proof.
  intros (Hc & Hv & Hkv & Hrev & Herr & Hp) Hok. apply Forall_cons in Hok as [He Hok].
  pose proof (evtFromBytes_ok e He) as Ef. rewrite <- Hkv in Ef. cbn [fst snd] in Ef. unfold evtFromBytes in Ef.
  apply rbind_ok in Ef as (rv & _ & Ef). apply rbind_ok in Ef as (body & Eb & Ef).
  destruct (Uvarint body) as [ep n] eqn:Eu. apply rbind_ok in Ef as (key & Ekey & Ef).
  apply Ok_inj in Ef. assert (key = ev_key e) as -> by (by rewrite <- Ef).
  destruct (cur_del_ok (cs_t s) (cs_cur s) (evtEntry e) Hp) as (t1 & c1 & Ed & Hc1 & Hp1 & V1).
  { rewrite Hc, Hv. constructor. }
  rewrite Hc in V1, Hc1. pose proof (plt_sorted _ _ (view_sorted (cs_t s) DbiEvt)) as Hs. rewrite Hv, fmap_cons in Hs.
  assert (view t1 DbiEvt = evtEntry <$> E) as Hv1.
  { rewrite V1, decide_True, Hv, fmap_cons by done. exact (vremove_mid (evtEntry e) [] _ Hs). }
  destruct (nextEvent_ok t1 c1 e E (cs_rev s) Hok Hc1 Hp1) as (c2 & k2 & v2 & rev2 & err2 & En & Hc2 & Hm).
  { rewrite Hv1. exact (proj2 (after_suffix (evtEntry e) [] _ Hs)). }
  exists body, t1, c1, c2, k2, v2, rev2, err2. rewrite Eu. split; [done|]. split; [done|]. split; [done|]. split; [done|].
  split; [|split; [intros ->; by destruct Hm as (_ & _ & _ & ?)|intros d Hd; by rewrite V1, decide_False]].
  intros keys last done. split; [done|]. split; [done|]. destruct E; [by destruct Hm as (? & ? & ? & _)|done].
Qed.

Lemma compactEvents_ok fuel max s E :
  atEvent s E -> Forall evt_ok E -> inOrder E -> 0 < max -> Exists (fun e => max <= evtUpper e) E -> (length E < fuel)%nat ->
  exists E1 E2 s', E = E1 ++ E2 /\ compactEvents fuel max s = Ok s' /\ atEvent s' E2
    /\ Forall (fun e => evtUpper e < max) E1 /\ Exists (fun e => max <= evtUpper e) E2
    /\ cs_keys s' = keysOf E1 (cs_keys s)
    /\ (if cs_done s' then Forall (fun e => max <= evtUpper e) E2 else blen (cs_keys s) < limitCompactionMaxKeys -> E1 <> [])
    /\ forall d, d <> DbiEvt -> view (cs_t s') d = view (cs_t s) d.
Proof.
  revert s E. induction fuel as [|fuel IH]; intros s E Hat Hok Hord Hmax Hex Hf; [lia|]. cbn [compactEvents].
  destruct E as [|e E]; [by inversion Hex|]. pose proof Hat as (Hc & Hv & Hkv & Hrev & Herr & Hp).
  rewrite Herr. destruct (Z.ltb_spec 0 max); [|lia]. cbn [andb]. rewrite Hrev. fold (evtUpper e).
  assert (forall b, atEvent (mkCompactState (cs_t s) (cs_cur s) (cs_k s) (cs_v s) (ev_rev e) None (cs_keys s) (cs_last s) b) (e :: E)) as Hstop
    by (intros b; by repeat split).
  apply StronglySorted_inv in Hord as [Hord Hge].
  destruct (Z.leb_spec max (evtUpper e)) as [Hle|Hlt].
  { exists [], (e :: E). eexists. split; [done|]. split; [done|]. split; [apply Hstop|]. split; [constructor|]. split; [done|].
    split; [done|]. cbn [cs_done]. split; [|done]. constructor; [done|]. eapply Forall_impl; [exact Hge|]. cbn. lia. }
  destruct (Z.leb_spec limitCompactionMaxKeys (blen (cs_keys s))) as [Hlim|Hlim].
  { exists [], (e :: E). eexists. split; [done|]. split; [done|]. split; [apply Hstop|]. split; [constructor|]. split; [done|].
    split; [done|]. cbn [cs_done]. split; [lia|done]. }
  destruct (takeEvent_ok s e E Hat Hok) as (body & t1 & c1 & c2 & k & v & rev & err & -> & Ekey & Ed & En & Hat1 & _ & Hf1).
  cbn [rbind]. rewrite Ekey. cbn [rbind]. rewrite Ed. cbn [rbind]. rewrite Hrev in En. rewrite En. cbn [rbind].
  apply Forall_cons in Hok as [_ Hok]. apply Exists_cons in Hex as [?|Hex]; [lia|].
  set (s1 := mkCompactState t1 c2 k v rev err (keysSet (cs_keys s) (ev_key e) (ev_rev e)) (evtUpper e) false).
  destruct (IH s1 E) as (E1 & E2 & s' & -> & Es & Hat' & Hlt1 & Hex2 & Hk' & Hd' & Hfr); try done.
  { apply Hat1. } { cbn [length] in Hf. lia. }
  exists (e :: E1), E2, s'. split; [done|]. split; [exact Es|]. split; [done|]. split; [by constructor|]. split; [done|].
  split; [exact Hk'|]. split; [by destruct (cs_done s')|].
  intros d Hd. rewrite Hfr by done. by apply Hf1.
Qed.

(** ** The whole compaction *)

Lemma lastRev_elem k E r : lastRev k E = Some r -> exists e, e ∈ E /\ ev_key e = k /\ ev_rev e = r.
Proof.
  unfold lastRev. intros Hl. apply last_Some_elem_of in Hl. apply list_elem_of_fmap in Hl as (e & -> & [? ?]%list_elem_of_filter).
  by exists e.
Qed.

Lemma lastRev_none k E e : lastRev k E = None -> e ∈ E -> ev_key e <> k.
Proof.
  unfold lastRev. intros Hl Hin Ek. apply last_None, fmap_nil_inv in Hl.
  assert (e ∈ filter (fun e0 => ev_key e0 = k) E) as X by (by apply list_elem_of_filter). rewrite Hl in X. inversion X.
Qed.

Lemma lastRev_max k E e : byRev E -> e ∈ E -> ev_key e = k -> exists r, lastRev k E = Some r /\ ev_rev e <= r.
Proof.
  induction 1 as [|x E Hs IH Hf]; intros Hin Ek; [inversion Hin|]. rewrite lastRev_cons.
  apply elem_of_cons in Hin as [->|Hin].
  - destruct (lastRev k E) as [r|] eqn:El; [|rewrite decide_True by done; eauto with lia].
    exists r. split; [done|]. apply lastRev_elem in El as (e' & Hin' & _ & <-). rewrite Forall_forall in Hf. by apply Hf.
  - destruct (IH Hin Ek) as (r & -> & Hle). by exists r.
Qed.

(** Compacting in two batches is compacting once. *)
Lemma compacted_app E1 E2 M k :
  byRev (E1 ++ E2) -> compacted E2 (compacted E1 M) k = compacted (E1 ++ E2) M k.
Proof.
  intros Hs. unfold compacted.
  assert (lastRev k (E1 ++ E2) = match lastRev k E2 with Some r => Some r | None => lastRev k E1 end) as ->.
  { clear Hs. induction E1 as [|e E1 IH]; cbn [app]; [by destruct (lastRev k E2)|]. rewrite !lastRev_cons, IH.
    by destruct (lastRev k E2). }
  destruct (lastRev k E2) as [r2|] eqn:L2; [|done]. destruct (lastRev k E1) as [r1|] eqn:L1; [|done].
  apply keepFrom_keepFrom. apply lastRev_elem in L1 as (e1 & H1' & _ & <-). apply lastRev_elem in L2 as (e2 & H2' & _ & <-).
  by eapply StronglySorted_app_1_elem_of in Hs.
Qed.

(** Every event has its record. *)
Definition recorded (E : list kvEvent) (M : history) : Prop :=
  forall e, e ∈ E -> exists h, h ∈ M (ev_key e) /\ h_rev h = ev_rev e.

Lemma recorded_compacted E1 E2 M : byRev (E1 ++ E2) -> recorded (E1 ++ E2) M -> recorded E2 (compacted E1 M).
Proof.
  intros Hs Hr e Hin. destruct (Hr e) as (h & Hh & Eh); [apply elem_of_app; by right|]. exists h. split; [|done].
  unfold compacted. destruct (lastRev (ev_key e) E1) as [r|] eqn:El; [|done]. apply list_elem_of_filter. split; [|done].
  apply lastRev_elem in El as (e1 & H1' & _ & <-). rewrite Eh. by eapply StronglySorted_app_1_elem_of in Hs.
Qed.

Lemma compacted_length E M k : (length (compacted E M k) <= length (M k))%nat.
Proof. unfold compacted, keepFrom. destruct (lastRev k E); [apply length_filter|done]. Qed.

Section Loop.
Context (fuel : nat) (mapRange : list (bytes * Z) -> list (bytes * Z)) (max : Z).
Hypothesis mapRange_perm : forall l, mapRange l ≡ₚ l.
Hypothesis max_pos : 0 < max.

Definition below (E : list kvEvent) : list kvEvent := filter (fun e => evtUpper e < max) E.
Definition above (E : list kvEvent) : list kvEvent := filter (fun e => max <= evtUpper e) E.

(** The keys of the events taken off, thinned. *)
Lemma batch_ok t c M E1 rec err :
  Rep cfg t M -> cur_dbi c = DbiRev -> recorded E1 M -> (forall k, (length (M k) < fuel)%nat) ->
  exists t' c' err', compactKeys fuel t c (mapRange (keysOf E1 [])) rec err = Ok (t', c', err')
    /\ (err' = err \/ err' = Some ErrMdbNotFound) /\ cur_dbi c' = DbiRev
    /\ Rep cfg t' (compacted E1 M) /\ forall d, d <> DbiRev -> d <> DbiVal -> view t' d = view t d.
Proof.
  intros HR Hc Hrec Hf. set (L := keysOf E1 []). assert (NoDup L.*1) as Hnd by (apply keysOf_NoDup; constructor).
  assert (NoDup (mapRange L).*1) as Hnd' by (by rewrite mapRange_perm).
  assert (forall k, assoc k (mapRange L) = lastRev k E1) as Ha.
  { intros k. rewrite (assoc_perm L) by done. unfold L. rewrite keysOf_assoc. by destruct (lastRev k E1). }
  destruct (compactKeys_ok fuel t c M (mapRange L) rec err HR Hc Hnd') as (t' & c' & err' & E & He & Hc' & HR' & Hfr).
  { intros k r Hin. split; [|by apply Hf]. apply assoc_elem in Hin; [|done]. rewrite Ha in Hin.
    apply lastRev_elem in Hin as (e & Hin & <- & <-). by apply Hrec. }
  exists t', c', err'. split; [done|]. split; [done|]. split; [done|]. split; [|done].
  eapply Rep_ext; [|exact HR']. intros k. unfold thin, compacted. by rewrite Ha.
Qed.

Lemma compactLoop_ok n curRev s E M :
  atEvent s E -> cs_keys s = [] -> Forall evt_ok E -> inOrder E -> byRev E ->
  Exists (fun e => max <= evtUpper e) E -> (length E < fuel)%nat -> (length E < n)%nat ->
  Rep cfg (cs_t s) M -> cur_dbi curRev = DbiRev -> recorded E M -> (forall k, (length (M k) < fuel)%nat) ->
  exists t' last, compactLoop n fuel mapRange max curRev s = Ok (t', last)
    /\ Rep cfg t' (compacted (below E) M) /\ view t' DbiEvt = evtEntry <$> above E
    /\ forall d, d <> DbiRev -> d <> DbiVal -> d <> DbiEvt -> view t' d = view (cs_t s) d.
Proof.
  revert curRev s E M. induction n as [|n IH]; intros curRev s E M Hat Hk0 Hok Hord Hby Hex Hf Hn HR Hc Hrec Hlen; [lia|].
  cbn [compactLoop]. destruct (compactEvents_ok fuel max s E) as (E1 & E2 & s1 & EE & -> & Hat1 & Hlow & Hex2 & Hk1 & Hd1 & Hf1); try done.
  cbn [rbind]. rewrite Hk1, Hk0. subst E. apply Forall_app in Hok as [_ Hok2].
  assert (HR1 : Rep cfg (cs_t s1) M) by (eapply Rep_view; [..|exact HR]; by apply Hf1).
  destruct (batch_ok (cs_t s1) curRev M E1 keyrecord_zero (cs_err s1)) as (t2 & c2 & err2 & -> & Herr & Hc2 & HR2 & Hf2); try done.
  { intros e He. apply Hrec, elem_of_app. by left. }
  cbn [rbind]. assert (cs_err s1 = None) as Hs1 by (destruct E2; [by inversion Hex2|]; by destruct Hat1 as (_ & _ & _ & _ & ? & _)).
  assert (match err2 with Some ErrMdbNotFound => None | e => e end = None) as -> by (destruct Herr as [->| ->]; [by rewrite Hs1|done]).
  assert (below E1 = E1) as Eb1 by (apply filter_all; intros e He; rewrite Forall_forall in Hlow; by apply Hlow).
  assert (above E1 = []) as Ea1.
  { apply filter_none. intros e He ?. rewrite Forall_forall in Hlow. specialize (Hlow e He). cbn in Hlow. lia. }
  assert (below (E1 ++ E2) = E1 ++ below E2 /\ above (E1 ++ E2) = above E2) as [Ebel ->].
  { unfold below, above in *. rewrite !filter_app, Eb1, Ea1. done. }
  rewrite Ebel.
  destruct (cs_done s1).
  - assert (below E2 = [] /\ above E2 = E2) as [-> ->].
    { rewrite Forall_forall in Hd1. split; [apply filter_none|apply filter_all]; intros e He; specialize (Hd1 e He); cbn in Hd1; lia. }
    eexists t2, _. split; [done|]. rewrite app_nil_r. split; [done|]. split.
    + rewrite Hf2 by done. by destruct Hat1 as (_ & ? & _).
    + intros d ? ? ?. rewrite Hf2, Hf1 by done. done.
  - set (s2 := mkCompactState t2 (cs_cur s1) (cs_k s1) (cs_v s1) (cs_rev s1) None [] (cs_last s1) false).
    assert (E1 <> []) as Hne by (apply Hd1; rewrite Hk0; done).
    destruct (IH c2 s2 E2 (compacted E1 M)) as (t' & last & E & HR' & Hv' & Hf'); try done.
    + destruct Hat1 as (A1 & A2 & A3). split; [done|]. split; [cbn [cs_t s2]; by rewrite Hf2|].
      destruct E2; [by inversion Hex2|]. destruct A3 as (? & ? & ? & ?). by repeat split.
    + by apply StronglySorted_app_1_r in Hord.
    + by apply StronglySorted_app_1_r in Hby.
    + rewrite length_app in Hf. lia.
    + rewrite length_app in Hn. destruct E1; [done|]. cbn [length] in Hn. lia.
    + by apply recorded_compacted.
    + intros k. pose proof (compacted_length E1 M k). specialize (Hlen k). lia.
    + exists t', last. split; [exact E|]. split; [|split; [done|]].
      * eapply Rep_ext; [|exact HR']. intros k. apply compacted_app.
        rewrite <- Ebel. by apply StronglySorted_filter.
      * intros d ? ? ?. rewrite Hf' by done. cbn [cs_t s2]. rewrite Hf2, Hf1 by done. done.
Qed.

Lemma compact_ok n t M E :
  Rep cfg t M -> EvtRep t E -> recorded E M -> Exists (fun e => max <= evtUpper e) E ->
  (length E < fuel)%nat -> (length E < n)%nat -> (forall k, (length (M k) < fuel)%nat) ->
  exists t' last, dbKv_compact n fuel mapRange t max = Ok (t', last)
    /\ Rep cfg t' (compacted (below E) M) /\ EvtRep t' (above E)
    /\ forall d, d <> DbiRev -> d <> DbiVal -> d <> DbiEvt -> view t' d = view t d.
Proof.
  intros HR HE Hrec Hex Hf Hn Hlen. pose proof HE as [Hv Hok]. unfold dbKv_compact.
  destruct (cur_open_ok t DbiRev) as (cr & -> & Hcr & _). cbn [rbind].
  destruct (cur_open_ok t DbiEvt) as (ce & -> & Hce & Hpe). cbn [rbind].
  destruct (cur_get_ok t ce [] Next I) as (c1 & Hc1 & Hg). rewrite Hpe, Hce, Hv in Hg. cbn [curSpec] in Hg.
  destruct E as [|e E]; [by inversion Hex|]. rewrite fmap_cons in Hg. cbn [head] in Hg. destruct Hg as [-> Hp1].
  pose proof Hok as Hok0. apply Forall_cons in Hok0 as [He _]. pose proof (evtFromBytes_ok e He) as Ef. unfold evtFromBytes in Ef.
  destruct (evtEntry e) as [k v] eqn:Ee. cbn [fst snd rbind] in *. apply rbind_ok in Ef as (rv & Er & Ef). rewrite Er. cbn [rbind].
  assert (rv = ev_rev e) as -> by (go_inv; done).
  destruct (compactLoop_ok n cr (mkCompactState t c1 k v (ev_rev e) None [] 0 false) (e :: E) M)
    as (t' & last & E' & HR' & Hv' & Hf'); try done.
  - split; [cbn [cs_cur]; congruence|]. split; [done|]. by rewrite Ee.
  - by eapply EvtRep_order.
  - by eapply EvtRep_byRev.
  - exists t', last. split; [exact E'|]. split; [done|]. split; [|done]. split; [done|].
    apply Forall_forall. intros x [_ Hx]%list_elem_of_filter. rewrite Forall_forall in Hok. by apply Hok.
Qed.

End Loop.

(** ** What compaction keeps *)

Lemma dropNewer_app r l1 l2 :
  (exists h, h ∈ l1 /\ newer r h = false) -> dropNewer r (l1 ++ l2) = dropNewer r l1 ++ l2 /\ dropNewer r l1 <> [].
Proof.
  induction l1 as [|h l1 IH]; intros (h0 & Hin & Hn); [inversion Hin|]. cbn [dropNewer app].
  destruct (newer r h) eqn:E; [|done]. apply IH. exists h0. split; [|done].
  apply elem_of_cons in Hin as [->|]; [congruence|done].
Qed.

Lemma visible_keepFrom r rev hs :
  StronglySorted newestFirst hs -> (exists h, h ∈ hs /\ h_rev h = rev) -> r = 0 \/ keyrev_upper rev <= r ->
  visible r (keepFrom rev hs) = visible r hs.
Proof.
  intros Hs (h & Hin & Hr) Hle. destruct (keepFrom_prefix rev hs Hs) as (old & E & _). unfold visible. rewrite E at 2.
  destruct (dropNewer_app r (keepFrom rev hs) old) as [-> Hne].
  { exists h. split; [apply list_elem_of_filter; split; [lia|done]|]. unfold newer. rewrite Hr.
    destruct Hle as [->|Hle]; [done|]. destruct (Z.ltb_spec r (keyrev_upper rev)); [lia|]. apply andb_false_r. }
  by destruct (dropNewer r (keepFrom rev hs)).
Qed.

Lemma visible_compacted t M E r max k :
  Rep cfg t M -> recorded E M -> Forall (fun e => evtUpper e < max) E -> r = 0 \/ max <= r + 1 ->
  visible r (compacted E M k) = visible r (M k).
Proof.
  intros HR Hrec Hlow Hr. unfold compacted. destruct (lastRev k E) as [rev|] eqn:El; [|done].
  apply lastRev_elem in El as (e & Hin & <- & <-). apply visible_keepFrom; [apply HR|by apply Hrec|].
  rewrite Forall_forall in Hlow. specialize (Hlow e Hin). unfold evtUpper in Hlow. lia.
Qed.

End Compact.
