(* ===== verification/ModFacts.v ===== *)
(** * The storage module's compaction implements the history (src/module/storage-kv/kv_store.go: compact)

    A compaction takes the first events below the given revision, at most
    [mod_limitCompactionMaxKeys] of them, and thins the histories of their keys. *)

From stdpp Require Import gmap sorting.
From S2P Require Import Prelude Types GoBinary Patch Kv Mdb MdbFacts MdbKeys Db DbLease DbKv Frame History DbKvRead DbKvWrite DbKvRange DbKvDelete LeaseOps Events Compact ModStore.

(** The limit as a number of events. *)
Abbreviation batchLimit := (Z.to_nat mod_limitCompactionMaxKeys).

Section Sim.
Context `{Mdb}.

(** Where the native loops return, the module's do. *)
Lemma mod_compactKey_sim fuel t c r key rev rec hasNewer t' c' rec' e :
  compactKey fuel t c r key rev rec hasNewer = Ok (t', c', rec', e) ->
  mod_compactKey fuel t c r key rev rec hasNewer = Ok (t', c', rec', e, None).
Proof.
  revert t c r rec hasNewer. induction fuel as [|fuel IH]; intros t c r rec hasNewer E; [done|].
  cbn [compactKey mod_compactKey] in *. destruct r as [[k v]|e0| |]; [|by destruct e0; go_inv|done|done].
  destruct (negb (beqb k key)); [by go_inv|]. apply rbind_ok in E as (rec1 & -> & E).
  destruct (rev <=? kr_rev rec1).
  - destruct (cur_get t c [] NextDup). by apply IH.
  - apply rbind_ok in E as (t1 & -> & E). apply rbind_ok in E as ([t2 c2] & -> & E).
    destruct (cur_get t2 c2 [] NextDup). by apply IH.
Qed.

Lemma mod_compactKeys_sim fuel t c keys rec err t' c' e :
  compactKeys fuel t c keys rec err = Ok (t', c', e) -> mod_compactKeys fuel t c keys rec err = Ok (t', c', e, None).
Proof.
  revert t c rec err. induction keys as [|[key rev] keys IH]; intros t c rec err E; cbn [compactKeys mod_compactKeys] in *.
  { by go_inv. }
  destruct (cur_get t c key SetRange) as [c1 r]. apply rbind_ok in E as ([[[t1 c2] rec1] err1] & E1 & E).
  rewrite (mod_compactKey_sim _ _ _ _ _ _ _ _ _ _ _ _ E1). cbn [rbind]. by apply IH.
Qed.

End Sim.

Section ModCompact.
Context (cfg : config) `{DifferOk} `{SnappyOk} `{MdbOk}.
Context (fuel : nat) (mapRange : list (bytes * Z) -> list (bytes * Z)) (max : Z).
Hypothesis mapRange_perm : forall l, mapRange l ≡ₚ l.
Hypothesis max_pos : 0 < max.

Lemma elem_of_take_below n E e : e ∈ take n (below max E) -> e ∈ E /\ evtUpper e < max.
Proof. intros He. apply (subseteq_take n) in He. by apply list_elem_of_filter in He as [? ?]. Qed.

(** What one compaction takes when [n] events were taken already. *)
Definition batchOf (n : nat) (E : list kvEvent) : list kvEvent := take (batchLimit - n) (below max E).

Lemma batchOf_stop n e E : inOrder (e :: E) -> max <= evtUpper e -> batchOf n (e :: E) = [].
Proof.
  intros [_ Hge]%StronglySorted_inv Hle. unfold batchOf. assert (below max (e :: E) = []) as ->; [|by rewrite take_nil].
  apply filter_none. intros x [->|Hin]%elem_of_cons ?; [lia|]. rewrite Forall_forall in Hge. specialize (Hge x Hin). cbn in Hge. lia.
Qed.

Lemma batchOf_cons n e E : evtUpper e < max -> (n < batchLimit)%nat -> batchOf n (e :: E) = e :: batchOf (S n) E.
Proof.
  intros Hlt Hn. unfold batchOf, below. rewrite filter_cons_True by done.
  destruct (batchLimit - n)%nat as [|m] eqn:Em; [lia|]. cbn [take]. do 2 f_equal. lia.
Qed.

(** The events below a revision come first. *)
Lemma below_prefix m E : inOrder E -> E = take m (below max E) ++ drop (length (take m (below max E))) E.
Proof.
  revert m. induction E as [|e E IH]; intros m Hs; [change (below max []) with (@nil kvEvent); by rewrite take_nil|].
  destruct (decide (max <= evtUpper e)) as [Hle|Hlt].
  - assert (below max (e :: E) = []) as ->; [|by rewrite take_nil]. apply StronglySorted_inv in Hs as [_ Hge].
    apply filter_none. intros x [->|Hin]%elem_of_cons ?; [lia|]. rewrite Forall_forall in Hge. specialize (Hge x Hin). cbn in Hge. lia.
  - apply StronglySorted_inv in Hs as [Hs _]. unfold below. rewrite filter_cons_True by lia. destruct m as [|m]; [done|].
    cbn [take length drop app]. f_equal. by apply IH.
Qed.

Lemma mod_compactEvents_ok f n s E :
  atEvent s E -> Forall evt_ok E -> inOrder E -> (length E < f)%nat -> (n <= batchLimit)%nat ->
  let E1 := batchOf n E in
  exists s', mod_compactEvents f max (Z.of_nat n) s = Ok (s', Z.of_nat (n + length E1), None)
    /\ atEvent s' (drop (length E1) E) /\ cs_keys s' = keysOf E1 (cs_keys s)
    /\ cs_done s' = bool_decide (drop (length E1) E <> [])
    /\ (E1 <> [] -> drop (length E1) E = [] -> keyrev_upper (cs_rev s') < max)
    /\ forall d, d <> DbiEvt -> view (cs_t s') d = view (cs_t s) d.
Proof.
  revert n s E. induction f as [|f IH]; intros n s E Hat Hok Hord Hf Hn E1; [lia|]. cbn [mod_compactEvents].
  destruct E as [|e E].
  { assert (E1 = []) as EE by (apply take_nil). rewrite EE. cbn [length drop].
    pose proof Hat as (Hc & Hv & -> & Hk & Hv0). eexists. split; [rewrite Nat.add_0_r; done|]. by repeat split. }
  pose proof Hat as (Hc & Hv & Hkv & Hrev & -> & Hp). destruct (Z.ltb_spec 0 max); [|lia]. cbn [andb]. rewrite Hrev. fold (evtUpper e).
  destruct (Z.leb_spec max (evtUpper e)) as [Hle|Hlt].
  { unfold E1. rewrite batchOf_stop by done. cbn [length drop]. rewrite Nat.add_0_r. eexists. split; [done|]. by repeat split. }
  destruct (Z.leb_spec mod_limitCompactionMaxKeys (Z.of_nat n)) as [Hlim|Hlim].
  { assert (E1 = []) as ->.
    { unfold E1, batchOf. replace (batchLimit - n)%nat with O by lia. done. }
    cbn [length drop]. rewrite Nat.add_0_r. eexists. split; [done|]. by repeat split. }
  assert (EE : E1 = e :: batchOf (S n) E) by (apply batchOf_cons; lia).
  destruct (takeEvent_ok s e E Hat Hok) as (body & t1 & c1 & c2 & k & v & rev & err & -> & Ekey & Ed & En & Hat1 & Hre & Hf1).
  cbn [rbind]. rewrite Ekey. cbn [rbind]. rewrite Ed, <- Hrev, En. cbn [rbind]. rewrite Hrev in *.
  apply Forall_cons in Hok as [_ Hok]. apply StronglySorted_inv in Hord as [Hord _].
  set (s1 := mkCompactState t1 c2 k v rev err (keysSet (cs_keys s) (ev_key e) (ev_rev e)) (evtUpper e) false).
  destruct (IH (S n) s1 E) as (s' & Es & Hat' & Hk' & Hd' & Hr' & Hfr); try done.
  { apply Hat1. } { cbn [length] in Hf. lia. } { lia. }
  replace (Z.of_nat n + 1) with (Z.of_nat (S n)) by lia. rewrite EE. cbn [length drop]. clear E1 EE.
  exists s'. split; [rewrite Nat.add_succ_r; exact Es|]. split; [done|]. split; [exact Hk'|]. split; [done|]. split.
  - intros _ Hend. destruct (decide (batchOf (S n) E = [])) as [Hb|Hb]; [|by apply Hr'].
    rewrite Hb in Hend, Es. change (E = []) in Hend. subst E. destruct f as [|f]; [cbn in Hf; lia|]. cbn [mod_compactEvents] in Es.
    destruct (Hat1 [] 0 false) as (_ & _ & Herr & _). cbn [cs_err] in Herr. unfold s1 in Es. cbn [cs_err] in Es. rewrite Herr in Es.
    apply Ok_inj in Es. assert (cs_rev s' = rev) as -> by (by injection Es as <- _). by rewrite (Hre eq_refl).
  - intros d Hd. rewrite Hfr by done. by apply Hf1.
Qed.

(** A pass after the log ran out: at the limit it ends, below it it reads what is not there. *)
Lemma mod_exhausted n m curRev s :
  (0 < n)%nat -> (0 < fuel)%nat -> cs_err s = None -> cs_k s = [] -> cs_v s = [] -> cs_keys s = [] ->
  keyrev_upper (cs_rev s) < max ->
  exists last, mod_compactLoop n fuel mapRange max (Z.of_nat m) curRev s
    = Ok (cs_t s, last, if decide (m < batchLimit)%nat then Some ErrChecksumInvalid else None).
Proof.
  intros Hn Hf He Hk Hv Hks Hr. destruct n as [|n]; [lia|]. cbn [mod_compactLoop]. destruct fuel as [|f]; [lia|].
  cbn [mod_compactEvents]. rewrite He, Hk, Hv. destruct (Z.ltb_spec 0 max); [|lia].
  destruct (Z.leb_spec max (keyrev_upper (cs_rev s))); [lia|]. cbn [andb].
  destruct (Z.leb_spec mod_limitCompactionMaxKeys (Z.of_nat m)) as [Hm|Hm].
  - rewrite decide_False by lia. cbn [rbind cs_keys cs_t cs_err cs_done]. rewrite Hks.
    assert (mapRange [] = []) as -> by (apply Permutation_nil_r, mapRange_perm). cbn. by eexists.
  - rewrite decide_True by lia. by eexists.
Qed.

Lemma mod_compact_ok n t M E :
  Rep cfg t M -> EvtRep t E -> recorded E M ->
  (1 < n)%nat -> (length E < fuel)%nat -> (forall k, (length (M k) < fuel)%nat) ->
  let E1 := batchOf 0 E in
  exists t' last, mod_compact n fuel mapRange t max
      = Ok (t', last, if decide (E = []) then Some ErrChecksumMissing
                      else if decide (drop (length E1) E = [] /\ (length E1 < batchLimit)%nat) then Some ErrChecksumInvalid else None)
    /\ Rep cfg t' (compacted E1 M) /\ EvtRep t' (drop (length E1) E)
    /\ forall d, d <> DbiRev -> d <> DbiVal -> d <> DbiEvt -> view t' d = view t d.
Proof.
  intros HR HE Hrec Hn Hf Hlen E1. pose proof HE as [Hv Hok]. unfold mod_compact.
  destruct (cur_open_ok t DbiRev) as (cr & -> & Hcr & _). destruct (cur_open_ok t DbiEvt) as (ce & -> & Hce & Hpe).
  destruct (cur_get_ok t ce [] Next I) as (c1 & Hc1 & Hg). rewrite Hpe, Hce, Hv in Hg. cbn [curSpec] in Hg.
  destruct E as [|e E].
  { cbn [fmap list_fmap head] in Hg. destruct Hg as [-> _]. exists t, 0. assert (E1 = []) as -> by (apply take_nil). by split. }
  rewrite fmap_cons in Hg. cbn [head] in Hg. destruct Hg as [-> Hp1].
  pose proof Hok as Hok0. apply Forall_cons in Hok0 as [He _]. pose proof (evtFromBytes_ok e He) as Ef. unfold evtFromBytes in Ef.
  destruct (evtEntry e) as [k v] eqn:Ee. cbn [fst snd rbind] in *. apply rbind_ok in Ef as (rv & Er & Ef). rewrite Er.
  assert (rv = ev_rev e) as -> by (go_inv; done). rewrite (decide_False (P := e :: E = [])) by done.
  set (s0 := mkCompactState t c1 k v (ev_rev e) None [] 0 false). destruct n as [|n]; [lia|]. cbn [mod_compactLoop].
  change (mod_compactEvents fuel max 0 s0) with (mod_compactEvents fuel max (Z.of_nat 0) s0).
  destruct (mod_compactEvents_ok fuel 0 s0 (e :: E)) as (s1 & -> & Hat1 & Hk1 & Hd1 & Hr1 & Hf1); try done.
  { split; [cbn [cs_cur s0]; congruence|]. split; [done|]. cbn [s0 cs_k cs_v cs_rev cs_err cs_cur]. by rewrite Ee. }
  { by eapply EvtRep_order. } { lia. }
  fold E1 in Hat1, Hk1, Hd1, Hr1 |- *. cbn [rbind Nat.add].
  assert (Hpre : e :: E = E1 ++ drop (length E1) (e :: E)).
  { unfold E1, batchOf. set (m := (batchLimit - 0)%nat). apply below_prefix. by eapply EvtRep_order. }
  assert (HR1 : Rep cfg (cs_t s1) M) by (eapply Rep_view; [..|exact HR]; by apply Hf1).
  rewrite Hk1. cbn [cs_keys s0].
  destruct (batch_ok cfg fuel mapRange mapRange_perm (cs_t s1) cr M E1 keyrecord_zero (cs_err s1))
    as (t2 & c2 & err2 & E2 & Herr & Hc2 & HR2 & Hf2); try done.
  { intros x Hx. apply Hrec. rewrite Hpre. apply elem_of_app. by left. }
  rewrite (mod_compactKeys_sim _ _ _ _ _ _ _ _ _ E2). cbn [rbind].
  assert (match err2 with Some ErrMdbNotFound => None | e => e end = None) as ->.
  { destruct Herr as [->| ->]; [|done]. destruct (drop (length E1) (e :: E)); [by destruct Hat1 as (_ & _ & -> & _)|].
    by destruct Hat1 as (_ & _ & _ & _ & -> & _). }
  assert (HE2 : EvtRep t2 (drop (length E1) (e :: E))).
  { split; [rewrite Hf2 by done; by destruct Hat1 as (_ & ? & _)|]. by apply Forall_drop. }
  assert (Hfr : forall d, d <> DbiRev -> d <> DbiVal -> d <> DbiEvt -> view t2 d = view t d).
  { intros d ? ? ?. rewrite Hf2, Hf1 by done. done. }
  rewrite Hd1. case_bool_decide as Hend.
  { eexists t2, _. split; [|split; [exact HR2|split; [exact HE2|exact Hfr]]]. rewrite decide_False; [done|]. by intros [? _]. }
  assert (drop (length E1) (e :: E) = []) as Hend' by (destruct (drop (length E1) (e :: E)); [done|by destruct Hend]).
  rewrite Hend' in Hat1, Hpre. rewrite app_nil_r in Hpre. destruct Hat1 as (_ & _ & _ & Hk & Hv1).
  destruct (mod_exhausted n (length E1) c2
              (mkCompactState t2 (cs_cur s1) (cs_k s1) (cs_v s1) (cs_rev s1) None [] (cs_last s1) false))
    as (last & El); try done; [lia|lia|cbn [cs_rev]; apply Hr1; [by rewrite <- Hpre|done]|].
  exists t2, last. split; [|split; [exact HR2|split; [exact HE2|exact Hfr]]]. rewrite El. cbn [cs_t]. rewrite Hend'. repeat case_decide; tauto || done.
Qed.

End ModCompact.

(** ** Scans of the log *)

Section ModScan.
Context `{MdbOk}.

Lemma mod_scanLoop_ok {S} fuel t c r (yield : S -> kvEvent -> res (S * bool)) s pre E :
  view t DbiEvt = evtEntry <$> (pre ++ E) -> Forall evt_ok E -> cur_dbi c = DbiEvt -> (length E < fuel)%nat ->
  match E with
  | [] => r = Err ErrMdbNotFound
  | e :: _ => r = Ok (evtEntry e) /\ cur_pos c = Some (evtEntry e)
  end ->
  mod_scanLoop fuel t c r yield s = runYield yield s E.
Proof.
  intros Hv. revert fuel c r s pre Hv. induction E as [|e E IH]; intros fuel c r s pre Hv Hok Hc Hf Hr.
  { destruct fuel; [cbn in Hf; lia|]. by subst r. }
  destruct fuel as [|fuel]; [lia|]. destruct Hr as [-> Hp]. apply Forall_cons in Hok as [He Hok]. cbn [mod_scanLoop].
  pose proof (evtFromBytes_ok e He) as Ef. destruct (evtEntry e) as [k v] eqn:Ee. cbn [fst snd] in Ef.
  unfold mod_evtFromBytes. rewrite Ef. cbn [runYield].
  destruct (yield s e) as [[s' go_on]| | |]; [|done..]. cbn [rbind]. destruct go_on; cbn [negb]; [|done].
  pose proof (plt_sorted _ _ (view_sorted t DbiEvt)) as Hs. rewrite Hv, fmap_app, fmap_cons, Ee in Hs.
  destruct (cur_nextDup_next t c (k, v) (evtEntry <$> E)) as (c2 & Hc2 & Hg & Hp2); [done| |].
  { rewrite Hc, Hv, fmap_app, fmap_cons, Ee. by destruct (after_suffix (k, v) _ _ Hs). }
  destruct (cur_get t c [] NextDup) as [c1 r1]. rewrite Hg.
  apply (IH fuel c2 _ s' (pre ++ [e])); [by rewrite <- app_assoc|done|congruence|cbn [length] in Hf; lia|by destruct E].
Qed.

Lemma mod_scan_ok {S} fuel t E rev (yield : S -> kvEvent -> res (S * bool)) s :
  EvtRep t E -> 0 <= rev < 2 ^ 52 -> (length E < fuel)%nat ->
  mod_scan fuel t rev yield s = runYield yield s (since rev E).
Proof.
  intros HE Hr Hf. unfold mod_scan. destruct (cur_open_ok t DbiEvt) as (c & -> & Hc & _).
  destruct (seekEvent_ok t E rev c HE Hr Hc) as (P & c2 & r & EP & -> & Hc2 & Hat). pose proof HE as [Hv Hok].
  apply (mod_scanLoop_ok fuel t c2 r yield s P); [by rewrite Hv, <- EP|by apply since_evt_ok|done| |done].
  pose proof (since_length rev E). lia.
Qed.

(** The loop over an iterator, and whether it ran to the end. *)
Fixpoint runUntil {S} (yield : S -> kvEvent -> res (S * bool)) (s : S) (E : list kvEvent) : res (S * bool) :=
  match E with
  | [] => Ok (s, true)
  | e :: E => let! '(s, go_on) := yield s e in if negb go_on then Ok (s, false) else runUntil yield s E
  end.

Lemma runYield_until {S} (yield : S -> kvEvent -> res (S * bool)) s E1 E2 :
  runYield yield s (E1 ++ E2) = let! '(s, go_on) := runUntil yield s E1 in if go_on then runYield yield s E2 else Ok s.
Proof.
  revert s. induction E1 as [|e E1 IH]; intros s; [done|]. cbn [app runYield runUntil].
  destruct (yield s e) as [[s' go_on]| | |]; [|done..]. cbn [rbind]. by destruct go_on; [apply IH|].
Qed.

(** The events that share the key revision of the first. *)
Fixpoint sameRev (r : Z) (E : list kvEvent) : list kvEvent :=
  match E with
  | [] => []
  | e :: E => if ev_rev e =? r then e :: sameRev r E else []
  end.

Lemma mod_revDups_ok {S} fuel t c (yield : S -> kvEvent -> res (S * bool)) s pre e E :
  view t DbiEvt = evtEntry <$> (pre ++ e :: E) -> Forall evt_ok (e :: E) -> cur_dbi c = DbiEvt -> (length E < fuel)%nat ->
  cur_pos c = Some (evtEntry e) ->
  match runUntil yield s (e :: sameRev (ev_rev e) E) with
  | Ok (s', go_on) => exists c', mod_revDups fuel t c (fst (evtEntry e)) (snd (evtEntry e)) yield s = Ok (c', s', go_on)
                        /\ cur_dbi c' = DbiEvt
  | Err x => mod_revDups fuel t c (fst (evtEntry e)) (snd (evtEntry e)) yield s = Err x
  | Panic => mod_revDups fuel t c (fst (evtEntry e)) (snd (evtEntry e)) yield s = Panic
  | NoFuel => mod_revDups fuel t c (fst (evtEntry e)) (snd (evtEntry e)) yield s = NoFuel
  end.
Proof.
  intros Hv. revert fuel c s pre e Hv. induction E as [|e' E IH]; intros fuel c s pre e Hv Hok Hc Hf Hp;
    (destruct fuel as [|fuel]; [lia|]); apply Forall_cons in Hok as [He Hok]; cbn [mod_revDups]; unfold mod_evtFromBytes;
    rewrite (evtFromBytes_ok e He); cbn [runUntil];
    (destruct (yield s e) as [[s' go_on]| | |]; [|done..]); cbn [rbind];
    (destruct go_on; cbn [negb]; [|by exists c]);
    pose proof (plt_sorted _ _ (view_sorted t DbiEvt)) as Hs; rewrite Hv, fmap_app, fmap_cons in Hs.
  - destruct (nextDup_after t c (evtEntry e) []) as (c2 & Hc2 & Hg & _); [done| |].
    { rewrite Hc, Hv, fmap_app, fmap_cons. by destruct (after_suffix (evtEntry e) _ _ Hs). }
    rewrite Hg. cbn [sameRev runUntil]. exists c2. split; [done|congruence].
  - destruct (nextDup_after t c (evtEntry e) (evtEntry <$> e' :: E)) as (c2 & Hc2 & Hg); [done| |].
    { rewrite Hc, Hv, fmap_app, fmap_cons. by destruct (after_suffix (evtEntry e) _ _ Hs). }
    rewrite fmap_cons in Hg. pose proof Hok as Hok1. apply Forall_cons in Hok1 as [He' _]. cbn [sameRev].
    destruct (Z.eqb_spec (ev_rev e') (ev_rev e)) as [Heq|Hne].
    + rewrite decide_True in Hg by (unfold evtEntry; cbn [fst]; by rewrite Heq). destruct Hg as [-> Hp2].
      specialize (IH fuel c2 s' (pre ++ [e]) e'). rewrite Heq in IH. destruct (evtEntry e') as [k' v'] eqn:Ee'. cbn [fst snd] in IH.
      apply IH; [by rewrite <- app_assoc|done|congruence|cbn [length] in Hf; lia|done].
    + rewrite decide_False in Hg.
      2:{ unfold evtEntry. cbn [fst]. intros Hk. apply keyrev_key_inj in Hk; [done|by destruct He'|by destruct He]. }
      destruct Hg as [-> _]. cbn [runUntil]. exists c2. split; [done|congruence].
Qed.

(** What [revScan] yields for one revision. *)
Definition groupOf (E : list kvEvent) (rev : Z) : list kvEvent :=
  match since rev E with [] => [] | e :: E' => e :: sameRev (ev_rev e) E' end.

Lemma mod_revScan_ok {S} fuel t E revs (yield : S -> kvEvent -> res (S * bool)) s :
  EvtRep t E -> Forall (fun r => 0 <= r < 2 ^ 52 /\ since r E <> []) revs -> (length E < fuel)%nat ->
  mod_revScan fuel t revs yield s = runYield yield s (concat (groupOf E <$> revs)).
Proof.
  intros HE Hrevs Hf. unfold mod_revScan. destruct (cur_open_ok t DbiEvt) as (c & -> & Hc & _). pose proof HE as [Hv Hok].
  revert c s Hc. induction Hrevs as [|rev revs [Hr Hne] Hrevs IH]; intros c s Hc; [done|]. cbn [mod_revScanLoop fmap list_fmap concat].
  destruct (seekEvent_ok t E rev c HE Hr Hc) as (P & c2 & r & EP & -> & Hc2 & Hat). unfold groupOf at 1.
  destruct (since rev E) as [|e E'] eqn:Es; [done|]. destruct Hat as [-> Hp]. rewrite runYield_until.
  pose proof (since_length rev E) as Hlen. rewrite Es in Hlen. cbn [length] in Hlen.
  pose proof (mod_revDups_ok fuel t c2 yield s P e E') as Hd. rewrite Hv in Hd. specialize (Hd ltac:(by rewrite <- EP)).
  destruct (evtEntry e) as [k v] eqn:Ee. cbn [fst snd] in Hd.
  specialize (Hd ltac:(rewrite <- Es; by apply since_evt_ok) Hc2 ltac:(lia) Hp).
  destruct (runUntil yield s (e :: sameRev (ev_rev e) E')) as [[s' go_on]| | |]; [destruct Hd as (c3 & -> & Hc3)|rewrite Hd..]; try done.
  cbn [rbind]. destruct go_on; cbn [negb]; [by apply IH|done].
Qed.

(** When the events of a revision share their key revision, that is all of them. *)
Lemma sameRev_filter r E : byRev E -> Forall (fun e => r <= ev_rev e) E -> sameRev r E = filter (fun e => ev_rev e = r) E.
Proof.
  induction 1 as [|e E Hs IH Hf]; intros Hge; [done|]. apply Forall_cons in Hge as [Hr Hge]. cbn [sameRev].
  rewrite filter_cons. destruct (Z.eqb_spec (ev_rev e) r) as [->|Hne]; [rewrite decide_True by done; f_equal; by apply IH|].
  rewrite decide_False by done. symmetry. apply filter_none. intros x Hx ?. rewrite Forall_forall in Hf. specialize (Hf x Hx). lia.
Qed.

Lemma filter_ext_in {A} (P Q : A -> Prop) `{!forall x, Decision (P x)} `{!forall x, Decision (Q x)} (l : list A) :
  (forall x, x ∈ l -> P x <-> Q x) -> filter P l = filter Q l.
Proof.
  induction l as [|x l IH]; intros Hl; [done|]. rewrite !filter_cons, IH by (intros y Hy; apply Hl; by right).
  specialize (Hl x ltac:(left)). repeat case_decide; tauto || done.
Qed.

Lemma groupOf_all t E rev r :
  EvtRep t E -> (exists e, e ∈ E /\ evtUpper e = rev) -> (forall e, e ∈ E -> evtUpper e = rev -> ev_rev e = r) ->
  groupOf E rev = filter (fun e => evtUpper e = rev) E /\ since rev E <> [].
Proof.
  intros HE (e0 & Hin0 & Hu0) Hall. pose proof (EvtRep_byRev t E HE) as Hby.
  assert (Hr : keyrev_upper r = rev) by (rewrite <- (Hall e0 Hin0 Hu0); exact Hu0).
  assert (byRev (since rev E)) as Hs by (by apply StronglySorted_filter).
  assert (e0 ∈ since rev E) as Hin by (apply list_elem_of_filter; unfold evtUpper in Hu0; split; [lia|done]).
  assert (Hfil : filter (fun e => evtUpper e = rev) E = filter (fun e => ev_rev e = r) (since rev E)).
  { unfold since. rewrite list_filter_filter. apply filter_ext_in. intros e He. split.
    - intros Hu. split; [by apply Hall|]. unfold evtUpper in Hu. lia.
    - intros [Hx _]. unfold evtUpper. by rewrite Hx. }
  rewrite Hfil. unfold groupOf. destruct (since rev E) as [|e1 E1] eqn:Es; [inversion Hin|]. split; [|done].
  apply StronglySorted_inv in Hs as [Hs1 Hf1]. assert (ev_rev e1 = r) as He1.
  { assert (e1 ∈ since rev E) as [Hge1 Hin1]%list_elem_of_filter by (rewrite Es; left). apply Hall; [done|].
    assert (ev_rev e1 <= ev_rev e0) as Hle by (apply elem_of_cons in Hin as [->|Hin]; [done|rewrite Forall_forall in Hf1; by apply Hf1]).
    apply keyrev_upper_mono in Hle. unfold evtUpper in *. lia. }
  rewrite He1, filter_cons_True by done. f_equal. apply sameRev_filter; [done|]. by rewrite <- He1.
Qed.

End ModScan.
