(* ===== verification/Instances.v ===== *)
(** * Concrete instances of the interfaces, for evaluating examples

    The theorems hold for every instance of [Differ], [Snappy], [Mdb] and [Proto]
    that keeps its laws; the instances here show that the laws can be met and let
    concrete runs be computed. *)

From Stdlib Require Import Strings.String.
From stdpp Require Import gmap.
From S2P Require Import Prelude Types GoBinary Patch Lcs LcsTwoSided Kv Mdb Db History ModStore Pb.

(** ** The program's own differ, with nothing left in its pool *)

#[global] Instance goDiffer : Differ := lcsDiffer (fun _ _ => ∅) (fun _ _ => ∅).

#[global] Instance goDifferOk : DifferOk.
Proof. apply lcsDiffer_ok. Qed.

(** ** A compressor with one phrase in its dictionary

    Data that starts with the phrase gets shorter by it, all other data longer by a byte. *)

Definition phrase : bytes := str "a first value".

#[global] Instance storeSnappy : Snappy := {|
  snappy_Encode b :=
    if beqb (take (length phrase) b) phrase then Zb 0 :: drop (length phrase) b else Zb 1 :: b;
  snappy_Decode b :=
    match b with
    | [] => Err (ErrSnappy 0)
    | c :: b => Ok (if bZ c =? 0 then phrase ++ b else b)
    end
|}.

#[global] Instance storeSnappyOk : SnappyOk.
Proof.
  split. intros b. cbn [snappy_Encode storeSnappy]. destruct (beqb_spec (take (length phrase) b) phrase) as [E|]; [|done].
  cbn [snappy_Decode]. change (bZ (Zb 0) =? 0) with true. cbn match. f_equal. rewrite <- (take_drop (length phrase) b) at 2. by rewrite E.
Qed.

(** ** A host that writes into every slice with room *)

#[global] Instance reuseSlices : HostSlices :=
  {| host_reuses _ _ := true; host_cap len := len; append_cap len := len |}.

(** ** Error texts *)

#[global] Instance plainErrLib : ErrLib := {|
  status_Error code desc := str "rpc error: " ++ str desc;
  lib_Error _ := str "storage error"
|}.

(** ** The empty store *)

#[global] Existing Instance refMdb.

Lemma Rep_empty cfg : Rep cfg (refEmpty : @txn refMdb) (fun _ => []).
Proof.
  split; cbn; try done; try constructor. intros * X. inversion X.
Qed.

(** ** A codec that decodes to given messages

    Marshalling yields no bytes; a request of each kind decodes to the one given. *)

Definition scriptProto (decode : forall A, msg A -> option A) : Proto :=
  {| pb_Marshal A m a := Ok []; pb_Unmarshal A m b := decode A m |}.

(** ** Evaluating a run

    Only the interesting part of an outcome is computed. *)

Definition rmap {A B} (f : A -> B) (r : res A) : res B := let! a := r in Ok (f a).

Definition returns {A} (r : res A) : bool := match r with Ok _ => true | _ => false end.

Lemma returns_ok {A} (r : res A) : returns r = true -> exists a, r = Ok a.
Proof. destruct r as [a| | |]; [by exists a|done..]. Qed.
