(* ===== verification/Watch.v ===== *)
(** * Watches on the state machine (src/state_machine.go: Watch, watch, Stream)

    A watch reads the event table in read-only transactions and sends messages on a
    channel. Between two transactions the writer may commit, so a watch is modelled
    as the segments that run between these points: [watchOpen] (the check of the
    start revision and the INIT message), [watchScan] (one event scan) and
    [watchWake] (one turn of the sync loop). [Stream] multiplexes watches; its state
    is the table of watches and the id counter. *)

From stdpp Require Import gmap.
From S2P Require Import Prelude Types GoBinary Patch Kv Mdb Db DbLease DbKv Pb StateMachine.

Definition WatchMessageType_INIT : Z := 1.
Definition WatchMessageType_EVENT : Z := 2.
Definition WatchMessageType_SYNC : Z := 3.
Definition WatchMessageType_NOTIFY : Z := 4.
Definition WatchMessageType_CANCELED : Z := 5.
Definition WatchMessageType_ERR_COMPACTED : Z := 6.
Definition WatchMessageType_ERR_EXISTS : Z := 7.

Section Watch.
Context (cfg : config) `{Differ} `{Snappy} `{Mdb} `{Proto} `{ErrLib}.
Context (fuel : nat) (shardID replicaID : Z).

Definition withWatchId (req : WatchCreateRequest) (id : Z) : WatchCreateRequest :=
  mkWatchCreateRequest (wc_Key req) (wc_RangeEnd req) (wc_StartRevision req)
    (wc_ProgressNotify req) (wc_Filters req) (wc_PrevKv req) id.

(** A message: its type, what [MarshalAppend] appends, and the watch id as value. *)
Definition watchMessage {A} (typ : Z) (pre : bytes) (m : msg A) (a : A) (id : Z) : res Result :=
  let! b := pb_Marshal m a in Ok (mkResult (u64 id) (Zb typ :: pre ++ b)).

(** ** Which events a watch reports *)

Definition inWatch (req : WatchCreateRequest) (key : bytes) : bool :=
  if negb (beqb key (wc_Key req)) then
    if (blen (wc_RangeEnd req) =? 0) || beqb (wc_Key req) (wc_RangeEnd req) then false
    else if bltb key (wc_Key req) then false
    else bltb key (wc_RangeEnd req)
  else true.

Definition etypeZ (e : EventType) : Z := match e with Event_PUT => 0 | Event_DELETE => 1 end.

Definition filtered (req : WatchCreateRequest) (e : EventType) : bool :=
  existsb (fun f => f mod 256 =? etypeZ e) (wc_Filters req).

(** ** One event scan

    What the closure [scan] has sent and counted, and the error that stopped it. *)
Record scanState : Type := mkScan { sc_out : list Result; sc_sent : Z; sc_err : option error }.

(** The key-values of an event: a deleted key has no value of its own, and an error of
    reading its previous value is dropped. *)
Definition eventKvs (t : txn) (req : WatchCreateRequest) (evt : kvEvent) : res (kv * kv * option error) :=
  let key := ev_key evt in
  let upper := keyrev_upper (ev_rev evt) in
  if keyrev_isdel (ev_rev evt) then
    let current := mkKv (ev_rev evt) 0 0 0 0 key None in
    if wc_PrevKv req then
      let! '(_, prev, _) := dbKv_getRev fuel t key upper true in Ok (current, prev, None)
    else Ok (current, kv_zero, None)
  else dbKv_getRev fuel t key upper (wc_PrevKv req).

Definition eventOf (evt : kvEvent) (current prev : kv) : Event :=
  mkEvent (kvEvent_etype evt)
    (if 0 <? keyrev_upper (kv_rev current) then Some (kv_ToProto current) else None)
    (if 0 <? keyrev_upper (kv_rev prev) then Some (kv_ToProto prev) else None).

(** The body of the loop over the events of [dbKv.scan]. *)
Definition scanYield (t : txn) (req : WatchCreateRequest) (rev : Z) (s : scanState) (evt : kvEvent)
  : res (scanState * bool) :=
  if negb (inWatch req (ev_key evt)) then Ok (s, true) else
  if filtered req (kvEvent_etype evt) then Ok (s, true) else
  let! '(current, prev, err) := eventKvs t req evt in
  match err with
  | Some e => Ok (mkScan (sc_out s) (sc_sent s) (Some e), false)
  | None =>
      match watchMessage WatchMessageType_EVENT (AppendUint64 [] rev) MEvent (eventOf evt current prev)
              (wc_WatchId req) with
      | Ok m => Ok (mkScan (sc_out s ++ [m]) (sc_sent s + 1) None, true)
      | Err e => Ok (mkScan (sc_out s) (sc_sent s) (Some e), false)
      | Panic => Panic
      | NoFuel => NoFuel
      end
  end.

(** The SYNC message that closes a scan that sent events. *)
Definition scanSync (req : WatchCreateRequest) (rev : Z) (s : scanState) : res scanState :=
  if isErr (sc_err s) then Ok s else
  if 0 <? sc_sent s then
    match watchMessage WatchMessageType_SYNC [] MResponseHeader (responseHeader shardID replicaID rev)
            (wc_WatchId req) with
    | Ok m => Ok (mkScan (sc_out s ++ [m]) (sc_sent s) None)
    | Err e => Ok (mkScan (sc_out s) (sc_sent s) (Some e))
    | Panic => Panic
    | NoFuel => NoFuel
    end
  else Ok s.

(** [scan(since)] in one read-only transaction: the revision read and the rest. *)
Definition watchScan (t : txn) (req : WatchCreateRequest) (since : Z) : res (Z * scanState) :=
  match getRevision t with
  | Ok rev =>
      if since =? 0 then Ok (rev, mkScan [] 0 None) else
      let! s := dbKv_scan fuel t since (scanYield t req rev) (mkScan [] 0 None) in
      let! s := scanSync req rev s in Ok (rev, s)
  | Err e => Ok (0, mkScan [] 0 (Some e))
  | Panic => Panic
  | NoFuel => NoFuel
  end.

(** ** The start of a watch: everything before its first scan

    The messages sent and, unless the watch ends here, the request it goes on with.
    [nextID] is the stream's id allocator, with the stream's state threaded. *)
Definition watchOpen {S} (t : txn) (req : WatchCreateRequest) (nextID : option (S -> res (Z * S))) (s : S)
  : res (list Result * option WatchCreateRequest * S) :=
  let since := u64 (wc_StartRevision req) in
  match getRevisionMin t with
  | Ok min =>
      if (0 <? since) && (since <? min) then
        match watchMessage WatchMessageType_ERR_COMPACTED [] MResponseHeader
                (responseHeader shardID replicaID min) (wc_WatchId req) with
        | Ok m => Ok ([m], None, s)
        | Err _ => Ok ([], None, s)
        | Panic => Panic
        | NoFuel => NoFuel
        end
      else
        let! '(req, s) :=
          match nextID with
          | Some next =>
              if wc_WatchId req =? 0 then let! '(id, s) := next s in Ok (withWatchId req id, s)
              else Ok (req, s)
          | None => Ok (req, s)
          end in
        match watchMessage WatchMessageType_INIT [] MResponseHeader
                (responseHeader shardID replicaID 0) (wc_WatchId req) with
        | Ok m => Ok ([m], Some req, s)
        | Err _ => Ok ([], None, s)
        | Panic => Panic
        | NoFuel => NoFuel
        end
  | Err _ => Ok ([], None, s)
  | Panic => Panic
  | NoFuel => NoFuel
  end.

(** ** The sync loop

    [ws_alerts] is the buffered channel [alert], oldest first. *)
Record watchState : Type := mkWatch { ws_req : WatchCreateRequest; ws_rev : Z; ws_alerts : list Z }.

(** The progress notice after a scan that found nothing. *)
Definition watchNotify (req : WatchCreateRequest) (rev : Z) (s : scanState) : res scanState :=
  if (sc_sent s =? 0) && wc_ProgressNotify req then
    match watchMessage WatchMessageType_NOTIFY [] MResponseHeader (responseHeader shardID replicaID rev)
            (wc_WatchId req) with
    | Ok m => Ok (mkScan (sc_out s ++ [m]) 0 None)
    | Err e => Ok (mkScan (sc_out s) 0 (Some e))
    | Panic => Panic
    | NoFuel => NoFuel
    end
  else Ok s.

(** A turn of the loop that receives an alert: drain the channel, keep the last
    revision, skip it when it was already scanned. [None]: the watch ended on an
    error. With no alert buffered the loop stays blocked. *)
Definition watchWake (t : txn) (w : watchState) : res (list Result * option watchState) :=
  match last (ws_alerts w) with
  | None => Ok ([], Some w)
  | Some alertRev =>
      if alertRev <=? ws_rev w then Ok ([], Some (mkWatch (ws_req w) (ws_rev w) [])) else
      let! '(rev, s) := watchScan t (ws_req w) (u64 (ws_rev w + 1)) in
      let! s := if isErr (sc_err s) then Ok s else watchNotify (ws_req w) rev s in
      Ok (sc_out s, if isErr (sc_err s) then None else Some (mkWatch (ws_req w) rev []))
  end.

(** ** One watch and the writer

    [commit] is an [Update] that leaves contents [t'] and, once the watch is
    registered, sends it the new revision. *)
Inductive phase : Type :=
| Opened (req : WatchCreateRequest)                  (* before event scan 1 *)
| Scanned (req : WatchCreateRequest) (rev : Z)       (* before it is registered *)
| Registered (req : WatchCreateRequest) (rev : Z) (alerts : list Z)   (* before scan 2 *)
| Syncing (w : watchState)
| Ended.

Definition pushAlert (p : phase) (rev : Z) : phase :=
  match p with
  | Registered req r alerts => Registered req r (alerts ++ [rev])
  | Syncing w => Syncing (mkWatch (ws_req w) (ws_rev w) (ws_alerts w ++ [rev]))
  | p => p
  end.

(** The watch's own next segment, with what it sends. *)
Definition watchStep (t : txn) (p : phase) : res (list Result * phase) :=
  match p with
  | Opened req =>
      let! '(rev, s) := watchScan t req (u64 (wc_StartRevision req)) in
      Ok (sc_out s, if isErr (sc_err s) then Ended else Scanned req rev)
  | Scanned req rev => Ok ([], Registered req rev [])
  | Registered req rev alerts =>
      let! '(rev, s) := watchScan t req (u64 (rev + 1)) in
      Ok (sc_out s, if isErr (sc_err s) then Ended else Syncing (mkWatch req rev alerts))
  | Syncing w =>
      let! '(out, w) := watchWake t w in
      Ok (out, match w with Some w => Syncing w | None => Ended end)
  | Ended => Ok ([], Ended)
  end.

(** [Watch]: the request arrives marshalled; there is no id allocator. *)
Definition Watch (t : txn) (query : bytes) : res (list Result * phase) :=
  match pb_Unmarshal MWatchCreateRequest query with
  | None => Ok ([], Ended)
  | Some req =>
      let! '(out, r, _) := watchOpen t req (None : option (unit -> res (Z * unit))) tt in
      Ok (out, match r with Some req => Opened req | None => Ended end)
  end.

(** ** Stream

    [watches] maps an id to its cancel function, named by the number of the watch it
    belongs to; [st_cancelled] are the watches whose context was cancelled. *)
Record streamState : Type := mkStream {
  st_watchID : Z; st_watches : gmap Z nat; st_next : nat;
  st_running : gmap nat Z; st_cancelled : list nat
}.

Definition streamInit : streamState :=
  mkStream (if PCB_WATCH_ID_ZERO_INDEX cfg then -1 else 0) ∅ 0 ∅ [].

(** The search of [nextWatchID]; one more turn than there are watches is enough. *)
Fixpoint nextIdLoop (n : nat) (watches : gmap Z nat) (id : Z) : res Z :=
  match n with
  | O => NoFuel
  | S n =>
      let id := i64 (id + 1) in
      match watches !! id with
      | None => Ok id
      | Some _ => nextIdLoop n watches id
      end
  end.

Definition nextWatchID (s : streamState) : res (Z * streamState) :=
  let! id := nextIdLoop (S (size (st_watches s))) (st_watches s) (st_watchID s) in
  Ok (id, mkStream id (st_watches s) (st_next s) (st_running s) (st_cancelled s)).

(** A create request: the watch is entered under its id before [watch] runs, and
    [watch] allocates again for an id of 0. The watch that goes on is returned with
    its number. *)
Definition streamCreate (t : txn) (s : streamState) (req : WatchCreateRequest)
  : res (streamState * list Result * option (nat * WatchCreateRequest)) :=
  let! '(req, s, fresh) :=
    if wc_WatchId req =? 0 then
      let! '(id, s) := nextWatchID s in Ok (withWatchId req id, s, true)
    else Ok (req, s, match st_watches s !! wc_WatchId req with Some _ => false | None => true end) in
  if negb fresh then Ok (s, [mkResult 1 [Zb WatchMessageType_ERR_EXISTS]], None) else
  let h := st_next s in
  let s := mkStream (st_watchID s) (<[wc_WatchId req := h]> (st_watches s)) (S h)
             (st_running s) (st_cancelled s) in
  let! '(out, r, s) := watchOpen t req (Some nextWatchID) s in
  match r with
  | Some req =>
      Ok (mkStream (st_watchID s) (st_watches s) (st_next s)
            (<[h := wc_WatchId req]> (st_running s)) (st_cancelled s), out, Some (h, req))
  | None => Ok (s, out, None)
  end.

(** The callback after the sync loop of watch [h]: whatever its id names now is
    cancelled and removed. *)
Definition streamDone (s : streamState) (h : nat) : streamState :=
  match st_running s !! h with
  | None => s
  | Some id =>
      match st_watches s !! id with
      | Some h' => mkStream (st_watchID s) (delete id (st_watches s)) (st_next s)
                     (delete h (st_running s)) (h' :: st_cancelled s)
      | None => mkStream (st_watchID s) (st_watches s) (st_next s)
                  (delete h (st_running s)) (st_cancelled s)
      end
  end.

Definition streamCancel (s : streamState) (id : Z) : streamState * list Result :=
  match st_watches s !! id with
  | Some h =>
      (mkStream (st_watchID s) (delete id (st_watches s)) (st_next s) (st_running s)
         (h :: st_cancelled s),
       [mkResult (u64 id) [Zb WatchMessageType_CANCELED]])
  | None => (s, [])
  end.

(** [watches.Min()]: 0 when there is none. *)
Definition watchesMin {A} (watches : gmap Z A) : Z :=
  match (map_to_list watches).*1 with
  | [] => 0
  | k :: ks => foldr Z.min k ks
  end.

(** An error of reading the revision is overwritten; the revision is then 0. *)
Definition streamProgress (t : txn) (s : streamState) : res (option Result) :=
  let! rev := match getRevision t with
              | Ok rev => Ok rev | Err _ => Ok 0 | Panic => Panic | NoFuel => NoFuel end in
  match watchMessage WatchMessageType_NOTIFY [] MResponseHeader (responseHeader shardID replicaID rev)
          (watchesMin (st_watches s)) with
  | Ok m => Ok (Some m)
  | Err _ => Ok None
  | Panic => Panic
  | NoFuel => NoFuel
  end.

(** What ends the stream: its context, a message that is no request, a notice that
    cannot be marshalled. Only the first cancels the watches. *)
Inductive streamNext : Type := StreamOn (s : streamState) | StreamOver (s : streamState).

Definition streamRecv (t : txn) (s : streamState) (b : bytes)
  : res (streamNext * list Result * option (nat * WatchCreateRequest)) :=
  match pb_Unmarshal MWatchRequest b with
  | None => Ok (StreamOver s, [], None)
  | Some (WatchCreate req) =>
      let! '(s, out, w) := streamCreate t s req in Ok (StreamOn s, out, w)
  | Some (WatchCancel id) => let '(s, out) := streamCancel s id in Ok (StreamOn s, out, None)
  | Some WatchProgress =>
      let! r := streamProgress t s in
      match r with
      | Some m => Ok (StreamOn s, [m], None)
      | None => Ok (StreamOver s, [], None)
      end
  | Some WatchOther => Ok (StreamOver s, [], None)
  end.

Definition streamCtxDone (s : streamState) : streamNext :=
  StreamOver (mkStream (st_watchID s) (st_watches s) (st_next s) (st_running s)
                ((map_to_list (st_watches s)).*2 ++ st_cancelled s)).

End Watch.
