(* ===== verification/ModStream.v ===== *)
(** * The storage module: its watch streams (src/module/storage-kv/stream.go)

    A watch is opened with the host's range-watch service, which queues the notices of
    [ModMain] and hands them, with the ids of the watches they concern, to
    [rangeWatchRecv]. The service (github.com/pantopic/ext-range-watch) is the class
    [RangeWatch]; the module's cache of requests and its counters are maps and numbers.
    Between the transactions of one call other batches may commit, so a call takes the
    contents each of its transactions reads. *)

From Stdlib Require Import Strings.String.
From stdpp Require Import gmap.
From S2P Require Import Prelude Types GoBinary Patch Kv Mdb Db DbLease DbKv Pb StateMachine Update ModStore ModMain Watch.

Definition MWatch_CANCELED : Z := 1.
Definition MWatch_ERR_COMPACTED : Z := 2.
Definition MWatch_ERR_EXISTS : Z := 3.
Definition MWatch_EVENT_BATCH : Z := 4.
Definition MWatch_EVENT_SYNC : Z := 5.
Definition MWatch_INIT : Z := 6.
Definition MWatch_NOTIFY : Z := 7.

(** The range-watch service, by watch id. [None]: it reports an error. *)
Class RangeWatch (W : Type) : Type := {
  rw_Reserve : W -> Z -> option W;
  rw_Open : W -> Z -> bytes -> bytes -> option W;
  rw_Start : W -> Z -> option W;
  rw_OpenStart : W -> Z -> bytes -> bytes -> option W;
  rw_Stop : W -> Z -> W;
  rw_GroupStart : W -> W;
  rw_GroupStop : W -> W
}.

Section ModStream.
Context `{Differ} `{Snappy} `{Mdb} `{HostSlices} `{Proto} {W : Type} `{RangeWatch W}.
Context (fuel : nat) (shardID replicaID : Z).
(** The order in which Go ranges over the map of requests. *)
Context (idRange : list Z -> list Z).

(** ** Messages *)

Definition sendCodeMsg {A} (val code : Z) (m : msg A) (a : A) : res Result :=
  let! b := must (pb_Marshal m a) in Ok (mkResult val (Zb code :: b)).

Definition sendCodeHeader (val code rev : Z) : res Result :=
  sendCodeMsg val code MResponseHeader (mod_responseHeader shardID replicaID rev).

(** ** One event scan *)

(** The switch on [bytes.Compare(evt.key, req.Key)]. *)
Definition mod_inWatch (req : WatchCreateRequest) (key : bytes) : bool :=
  if bltb key (wc_Key req) then false
  else if beqb key (wc_Key req) then true
  else bltb key (wc_RangeEnd req).

(** The key-values of an event and the variable [err] of the closure, which keeps the
    error of reading what a deletion replaced. *)
Definition mod_eventKvs (t : txn) (evt : kvEvent) (withPrev : bool) (err : option error)
  : res (kv * kv * option error) :=
  let upper := keyrev_upper (ev_rev evt) in
  if keyrev_isdel (ev_rev evt) then
    let current := mkKv (ev_rev evt) 0 0 0 0 (ev_key evt) None in
    if withPrev then
      let! '(_, prev, err) := mod_getRev fuel t (ev_key evt) upper true in Ok (current, prev, err)
    else Ok (current, kv_zero, err)
  else
    let! '(current, prev, err) := mod_getRev fuel t (ev_key evt) upper withPrev in
    if isErr err then Panic else Ok (current, prev, None).

Definition mod_scanYield (t : txn) (req : WatchCreateRequest) (rev : Z) (s : scanState) (evt : kvEvent)
  : res (scanState * bool) :=
  if negb (mod_inWatch req (ev_key evt)) then Ok (s, true) else
  if filtered req (kvEvent_etype evt) then Ok (s, true) else
  let! '(current, prev, err) := mod_eventKvs t evt (wc_PrevKv req) (sc_err s) in
  let! m := sendCodeMsg (u64 (wc_WatchId req)) MWatch_EVENT_BATCH MWatchEventBatch
              (mkWatchEventBatch (eventOf evt current prev) rev [wc_WatchId req] []) in
  Ok (mkScan (sc_out s ++ [m]) (sc_sent s + 1) err, true).

Definition mod_scanSync (req : WatchCreateRequest) (rev : Z) (s : scanState) : res scanState :=
  if 0 <? sc_sent s then
    let! m := sendCodeMsg 0 MWatch_EVENT_SYNC MWatchEventSync (mkWatchEventSync [wc_WatchId req] rev) in
    Ok (mkScan (sc_out s ++ [m]) (sc_sent s) (sc_err s))
  else Ok s.

Definition mod_watchScan (t : txn) (req : WatchCreateRequest) (since : Z) (start : bool) : res (Z * scanState) :=
  match getRevision t with
  | Ok rev =>
      let! init := if start then let! m := sendCodeHeader (u64 (wc_WatchId req)) MWatch_INIT rev in Ok [m] else Ok [] in
      let! s := if since =? 0 then Ok (mkScan init 0 None)
                else mod_scan fuel t since (mod_scanYield t req rev) (mkScan init 0 None) in
      let! s := mod_scanSync req rev s in Ok (rev, s)
  | Err e => Ok (0, mkScan [] 0 (Some e))
  | Panic => Panic
  | NoFuel => NoFuel
  end.

(** ** The stream's variables *)

Record modStream : Type := mkModStream {
  st_rw : W; st_cache : gmap Z bytes; st_revs : gmap Z Z; st_seq : Z; st_progress : Z
}.

Definition mustSome {A} (o : option A) : res A := match o with Some a => Ok a | None => Panic end.

Definition mod_streamOpen (s : modStream) : modStream :=
  mkModStream (rw_GroupStart (st_rw s)) (st_cache s) (st_revs s) (st_seq s) (st_progress s).

(** The requests of the stream's watches stay in the cache. *)
Definition mod_streamClosed (s : modStream) : modStream :=
  mkModStream (rw_GroupStop (st_rw s)) (st_cache s) (st_revs s) (st_seq s) (st_progress s).

(** [for { watchID.Add(1); Reserve }]: [n] bounds the ids tried. *)
Fixpoint mod_nextID (n : nat) (rw : W) (seq : Z) : res (Z * W) :=
  match n with
  | O => NoFuel
  | S n =>
      let seq := u64 (seq + 1) in
      match rw_Reserve rw seq with
      | Some rw => Ok (seq, rw)
      | None => mod_nextID n rw seq
      end
  end.

(** The id of a new watch: [None] when the one asked for is taken. *)
Definition mod_reserve (n : nat) (s : modStream) (req : WatchCreateRequest) : res (option (WatchCreateRequest * modStream)) :=
  if wc_WatchId req =? 0 then
    let! '(id, rw) := mod_nextID n (st_rw s) (st_seq s) in
    Ok (Some (withWatchId req (i64 id), mkModStream rw (st_cache s) (st_revs s) id (st_progress s)))
  else
    match rw_Reserve (st_rw s) (u64 (wc_WatchId req)) with
    | Some rw => Ok (Some (req, mkModStream rw (st_cache s) (st_revs s) (st_seq s) (st_progress s)))
    | None => Ok None
    end.

(** [watchRev.Store; watchCache.Put], with the watch open in [rw]. *)
Definition mod_register (s : modStream) (rw : W) (id rev : Z) (b : bytes) : modStream :=
  mkModStream rw (<[id := b]> (st_cache s)) (<[id := rev]> (st_revs s)) (st_seq s) (st_progress s).

(** [t0], [t1], [t2]: what the check of the start revision and the two scans read. *)
Definition mod_watchStart (n : nat) (s : modStream) (t0 t1 t2 : txn) (req : WatchCreateRequest)
  : res (modStream * list Result) :=
  let since := u64 (wc_StartRevision req) in
  let! r := mod_reserve n s req in
  match r with
  | None => Ok (s, [mkResult 1 [Zb MWatch_ERR_EXISTS]])
  | Some (req, s) =>
      let id := u64 (wc_WatchId req) in
      let! min := must (getRevisionMin t0) in
      if (0 <? since) && (since <? min) then
        let! m := sendCodeHeader id MWatch_ERR_COMPACTED min in Ok (s, [m])
      else
        let! b := must (pb_Marshal MWatchCreateRequest req) in
        let! '(rev, s1) := mod_watchScan t1 req since true in
        if isErr (sc_err s1) then Panic else
        let! '(s, rev, out) :=
          if since =? 0 then
            let! rw := mustSome (rw_OpenStart (st_rw s) id (wc_Key req) (wc_RangeEnd req)) in
            Ok (mod_register s rw id rev b, rev, sc_out s1)
          else
            let! rw := mustSome (rw_Open (st_rw s) id (wc_Key req) (wc_RangeEnd req)) in
            let! '(rev, s2) := mod_watchScan t2 req (u64 (rev + 1)) false in
            if isErr (sc_err s2) then Panic else
            let! rw := mustSome (rw_Start rw id) in
            Ok (mod_register s rw id rev b, rev, sc_out s1 ++ sc_out s2) in
        if wc_ProgressNotify req then
          let! m := sendCodeHeader id MWatch_NOTIFY rev in Ok (s, out ++ [m])
        else Ok (s, out)
  end.

(** ** Requests of a stream *)

(** [watchCache.Min()]: the least id, 0 when there is none. *)
Definition mod_minID (s : modStream) : Z := watchesMin (st_cache s).

Definition mod_streamRecv (n : nat) (s : modStream) (t0 t1 t2 : txn) (data : bytes) : res (modStream * list Result) :=
  match pb_Unmarshal MWatchRequest data with
  | None => Panic
  | Some (WatchCreate req) => mod_watchStart n s t0 t1 t2 req
  | Some (WatchCancel wid) =>
      let id := u64 wid in
      Ok (mkModStream (rw_Stop (st_rw s) id) (delete id (st_cache s)) (delete id (st_revs s)) (st_seq s) (st_progress s),
          [mkResult id [Zb MWatch_CANCELED]])
  | Some WatchProgress =>
      let! rev := must (getRevision t0) in
      let! m := sendCodeHeader (mod_minID s) MWatch_NOTIFY rev in Ok (s, [m])
  | Some WatchOther => Ok (s, [])
  end.

(** ** Notices *)

(** range_watch.Notice: a revision and the watches with a key in it. *)
Record notice : Type := mkNotice { n_Val : Z; n_IDs : list Z }.

(** What the first loop collects: the requests by id, the revision each watch has been
    served up to, and the ids of the sync message. *)
Record served : Type := mkServed { sv_reqs : gmap Z WatchCreateRequest; sv_mins : gmap Z Z; sv_ids : list Z }.

(** The ids of one notice; [prev] counts the watches that want previous values. An id
    without a cached request is skipped, but is in the sync message. *)
Fixpoint mod_lookupIDs (s : modStream) (v : served) (prev : Z) (ids : list Z) : res (served * Z) :=
  match ids with
  | [] => Ok (v, prev)
  | id :: ids =>
      let v := mkServed (sv_reqs v) (sv_mins v) (sv_ids v ++ [i64 id]) in
      let count req := if wc_PrevKv req then prev + 1 else prev in
      match sv_reqs v !! id with
      | Some req => mod_lookupIDs s v (count req) ids
      | None =>
          match default [] (st_cache s !! id) with
          | [] => mod_lookupIDs s v prev ids
          | b =>
              match pb_Unmarshal MWatchCreateRequest b with
              | None => Panic
              | Some req =>
                  mod_lookupIDs s (mkServed (<[id := req]> (sv_reqs v)) (<[id := default 0 (st_revs s !! id)]> (sv_mins v)) (sv_ids v))
                    (count req) ids
              end
          end
      end
  end.

Fixpoint mod_lookups (s : modStream) (v : served) (notices : list notice) : res (served * list Z) :=
  match notices with
  | [] => Ok (v, [])
  | n :: notices =>
      let! '(v, prev) := mod_lookupIDs s v 0 (n_IDs n) in
      let! '(v, prevs) := mod_lookups s v notices in Ok (v, prev :: prevs)
  end.

(** Whether a watch is sent an event. *)
Definition mod_wants (req : WatchCreateRequest) (min : Z) (evt : kvEvent) : bool :=
  negb ((0 <? min) && (keyrev_upper (ev_rev evt) <=? min))
  && negb (filtered req (kvEvent_etype evt)) && mod_inWatch req (ev_key evt).

(** The watches of a notice that are sent an event, those without previous values and
    those with, and the count of events sent to each watch. *)
Fixpoint mod_addressees (v : served) (evt : kvEvent) (ids : list Z) (sent : gmap Z Z) (plain prev : list Z)
  : gmap Z Z * list Z * list Z :=
  match ids with
  | [] => (sent, plain, prev)
  | id :: ids =>
      match sv_reqs v !! id with
      | None => mod_addressees v evt ids sent plain prev
      | Some req =>
          if mod_wants req (default 0 (sv_mins v !! id)) evt then
            let sent := <[id := default 0 (sent !! id) + 1]> sent in
            if negb (wc_PrevKv req) then mod_addressees v evt ids sent (plain ++ [i64 id]) prev
            else mod_addressees v evt ids sent plain (prev ++ [i64 id])
          else mod_addressees v evt ids sent plain prev
      end
  end.

(** The variables of the loop over the events: the revision last seen, the index of its
    notice, the counts, the messages and the error of the closure. *)
Record recvState : Type := mkRecv {
  rv_n : Z; rv_i : nat; rv_sent : gmap Z Z; rv_out : list Result; rv_err : option error
}.

(** The event without key-value is dereferenced for the revision of the batch. *)
Definition mod_recvYield (t : txn) (notices : list notice) (prevs : list Z) (v : served) (s : recvState) (evt : kvEvent)
  : res (recvState * bool) :=
  let upper := keyrev_upper (ev_rev evt) in
  let '(n, i) := if negb (rv_n s =? upper) then (upper, if 0 <? rv_n s then S (rv_i s) else rv_i s) else (rv_n s, rv_i s) in
  let! prev := mustSome (prevs !! i) in
  let! '(current, previous, err) := mod_eventKvs t evt (0 <? prev) (rv_err s) in
  let! notice := mustSome (notices !! i) in
  let e := eventOf evt current previous in
  let! k := mustSome (evt_Kv e) in
  let '(sent, plain, withPrev) := mod_addressees v evt (n_IDs notice) (rv_sent s) [] [] in
  let! out :=
    if (0 <? blen plain) || (0 <? blen withPrev) then
      let! m := sendCodeMsg 0 MWatch_EVENT_BATCH MWatchEventBatch (mkWatchEventBatch e (u64 (ModRevision k)) plain withPrev) in
      Ok (rv_out s ++ [m])
    else Ok (rv_out s) in
  Ok (mkRecv n i sent out err, true).

(** The progress notices of the watches that were sent nothing. *)
Fixpoint mod_notifies (v : served) (sent : gmap Z Z) (rev : Z) (ids : list Z) : res (list Result) :=
  match ids with
  | [] => Ok []
  | id :: ids =>
      let quiet := default 0 (sent !! id) =? 0 in
      let! m := if quiet && match sv_reqs v !! id with Some req => wc_ProgressNotify req | None => false end
                then let! m := sendCodeHeader id MWatch_NOTIFY rev in Ok [m] else Ok [] in
      let! ms := mod_notifies v sent rev ids in Ok (m ++ ms)
  end.

Definition mod_rangeWatchRecv (t : txn) (s : modStream) (notices : list notice) : res (modStream * list Result) :=
  let! '(v, prevs) := mod_lookups s (mkServed ∅ ∅ []) notices in
  let! r := mod_revScan fuel t (n_Val <$> notices) (mod_recvYield t notices prevs v) (mkRecv 0 0 ∅ [] None) in
  if isErr (rv_err r) then Panic else
  let! rev := mustSome (last (n_Val <$> notices)) in
  let! sync := if 0 <? blen (sv_ids v)
               then let! m := sendCodeMsg 0 MWatch_EVENT_SYNC MWatchEventSync (mkWatchEventSync (sv_ids v) rev) in Ok [m]
               else Ok [] in
  let! notify := mod_notifies v (rv_sent r) rev (idRange ((map_to_list (sv_reqs v)).*1)) in
  Ok (mkModStream (st_rw s) (st_cache s) (st_revs s) (st_seq s) rev, rv_out r ++ sync ++ notify).

End ModStream.
