(* ===== verification/WatchFacts.v ===== *)
(** * What a watch sends (src/state_machine.go: watch)

    One scan sends one message per selected event, in revision order; a watch that is
    scheduled against a writer in any way sends each selected event once. *)

From stdpp Require Import gmap sorting.
From S2P Require Import Prelude Types GoBinary Patch Kv Mdb MdbFacts MdbKeys Db DbFacts DbLease DbKv History DbKvRead DbKvWrite Pb StateMachine LeaseOps Events Watch.

(** ** Selected events *)

Definition selects (req : WatchCreateRequest) (e : kvEvent) : bool :=
  inWatch req (ev_key e) && negb (filtered req (kvEvent_etype e)).

Abbreviation selected req := (filter (fun e => selects req e = true)).

(** Events between two revisions, both included. *)
Definition between (a b : Z) (E : list kvEvent) : list kvEvent :=
  filter (fun e => a <= evtUpper e <= b) E.

(** A range of revisions splits in two at any point. *)
Lemma between_split a b c E :
  inOrder E -> a <= b + 1 -> b <= c -> between a c E = between a b E ++ between (b + 1) c E.
Proof.
  intros Hs Hab Hbc. induction Hs as [|e E Hs IH Hf]; [done|]. unfold between in *. rewrite !filter_cons, IH.
  destruct (decide (evtUpper e <= b)) as [Hle|Hgt].
  - rewrite (decide_False (P := b + 1 <= evtUpper e <= c)) by lia.
    destruct (decide (a <= evtUpper e)).
    + rewrite !decide_True by lia. done.
    + rewrite !decide_False by lia. done.
  - rewrite (decide_False (P := a <= evtUpper e <= b)) by lia.
    assert (filter (fun e0 => a <= evtUpper e0 <= b) E = []) as ->; [|by cbn [app]; repeat case_decide; lia || done].
    apply filter_none. intros e' Hin [_ Hb]. rewrite Forall_forall in Hf. specialize (Hf e' Hin). cbn in Hf. lia.
Qed.

Lemma between_app_later a b E N :
  Forall (fun e => b < evtUpper e) N -> between a b (E ++ N) = between a b E.
Proof.
  intros HN. unfold between. rewrite filter_app, (filter_none _ N), app_nil_r; [done|].
  intros e Hin [_ Hb]. rewrite Forall_forall in HN. specialize (HN e Hin). cbn in HN. lia.
Qed.

Lemma filter_agree {A} (P Q : A -> Prop) `{forall x, Decision (P x)} `{forall x, Decision (Q x)} l :
  Forall (fun x => P x <-> Q x) l -> filter P l = filter Q l.
Proof. induction 1 as [|x l Hx _ IH]; [done|]. rewrite !filter_cons, IH. repeat case_decide; tauto || done. Qed.

Lemma between_empty a b E : b < a -> between a b E = [].
Proof. intros Hab. apply filter_none. intros e _ ?. lia. Qed.

(** A scan that sends a message for each selected event and goes on. *)
Lemma scanRun (yield : scanState -> kvEvent -> res (scanState * bool)) (P : kvEvent -> Result -> Prop) req E X s :
  (forall s e, e ∈ E -> sc_err s = None ->
     if selects req e
     then exists m, yield s e = Ok (mkScan (sc_out s ++ [m]) (sc_sent s + 1) None, true) /\ P e m
     else yield s e = Ok (s, true)) ->
  X ⊆ E -> sc_err s = None ->
  exists ms, runYield yield s X = Ok (mkScan (sc_out s ++ ms) (sc_sent s + blen ms) None) /\ Forall2 P (selected req X) ms.
Proof.
  intros Hyield. revert s. induction X as [|e X IH]; intros s HX Hs; cbn [runYield].
  { exists []. destruct s as [o n er]. cbn in *. subst. rewrite app_nil_r, Z.add_0_r. by split. }
  assert (e ∈ E) as Hin by (apply HX; constructor). assert (X ⊆ E) as HX' by (intros x Hx; apply HX; by constructor).
  pose proof (Hyield s e Hin Hs) as Hy. rewrite filter_cons.
  destruct (selects req e).
  - destruct Hy as (m & -> & Hm). cbn [rbind negb]. rewrite decide_True by done.
    destruct (IH (mkScan (sc_out s ++ [m]) (sc_sent s + 1) None) HX' eq_refl) as (ms & -> & Hf). cbn [sc_out sc_sent].
    exists (m :: ms). rewrite <- app_assoc, blen_cons. split; [|by constructor]. cbn [app]. by rewrite Z.add_assoc.
  - rewrite Hy. cbn [rbind negb]. rewrite decide_False by done. by apply IH.
Qed.

Section WatchFacts.
Context (cfg : config) `{DifferOk} `{SnappyOk} `{MdbOk} `{Proto}.
Context (fuel : nat) (shardID replicaID : Z).

(** The messages can be marshalled. *)
Hypothesis marshal_event : forall e, exists b, pb_Marshal MEvent e = Ok b.
Hypothesis marshal_header : forall h, exists b, pb_Marshal MResponseHeader h = Ok b.

(** A store whose event log agrees with its history, at revision [rev]. *)
Record Logged (t : txn) (M : history) (E : list kvEvent) (rev : Z) : Prop := {
  lg_rep : Rep cfg t M; lg_evt : EvtRep t E; lg_rev : getRevision t = Ok rev; lg_bound : 0 <= rev < 2 ^ 52 - 1;
  lg_upto : Forall (fun e => 0 < evtUpper e <= rev) E;
  lg_below k h : h ∈ M k -> keyrev_upper (h_rev h) <= rev;
  lg_rec e : e ∈ E -> keyrev_isdel (ev_rev e) = false ->
    exists h, visible (evtUpper e) (M (ev_key e)) = Some h /\ keyrev_upper (h_rev h) = evtUpper e;
  lg_key e : e ∈ E -> ev_key e <> [] /\ (length (M (ev_key e)) <= fuel)%nat;
  lg_fuel : (length E < fuel)%nat
}.

(** [m] is the message of event [e]: its kind, key and revision, under the watch's id. *)
Definition isFor (req : WatchCreateRequest) (e : kvEvent) (m : Result) : Prop :=
  exists rev evt k b, pb_Marshal MEvent evt = Ok b
    /\ m = mkResult (u64 (wc_WatchId req)) (Zb WatchMessageType_EVENT :: AppendUint64 [] rev ++ b)
    /\ evt_Type evt = kvEvent_etype e /\ evt_Kv evt = Some k
    /\ Key k = ev_key e /\ ModRevision k = i64 (evtUpper e).

(** The values it carries: the record of the event's revision and, when asked, the one
    it replaced. *)
Definition carries (req : WatchCreateRequest) (M : history) (rev : Z) (e : kvEvent) (m : Result) : Prop :=
  exists cur prev b,
    (if keyrev_isdel (ev_rev e) then cur = mkKv (ev_rev e) 0 0 0 0 (ev_key e) None
     else kvOr (ev_key e) (visible (evtUpper e) (M (ev_key e))) cur)
    /\ kvOr (ev_key e) (if wc_PrevKv req then prevOf (evtUpper e) (M (ev_key e)) else None) prev
    /\ pb_Marshal MEvent (eventOf e cur prev) = Ok b
    /\ m = mkResult (u64 (wc_WatchId req)) (Zb WatchMessageType_EVENT :: AppendUint64 [] rev ++ b).

Lemma carries_isFor t M E rev req rev' e m :
  Logged t M E rev -> e ∈ E -> carries req M rev' e m -> isFor req e m.
Proof.
  intros HL Hin (cur & prev & b & Hcur & _ & Eb & ->). exists rev', (eventOf e cur prev), (kv_ToProto cur), b.
  pose proof (lg_upto _ _ _ _ HL) as Hup. rewrite Forall_forall in Hup. specialize (Hup e Hin). cbn in Hup.
  assert (keyrev_upper (kv_rev cur) = evtUpper e /\ kv_key cur = ev_key e) as [Er Ek].
  { destruct (keyrev_isdel (ev_rev e)) eqn:Ed; [by subst cur|].
    destruct (lg_rec _ _ _ _ HL e Hin Ed) as (h & Hh & Hu). rewrite Hh in Hcur. destruct Hcur. split; congruence. }
  split; [done|]. split; [done|]. split; [done|]. unfold eventOf, kv_ToProto. cbn [evt_Kv Key ModRevision]. rewrite Er, Ek.
  destruct (Z.ltb_spec 0 (evtUpper e)); [done|lia].
Qed.

(** ** One scan *)

Lemma eventKvs_ok t M E rev req e :
  Logged t M E rev -> e ∈ E ->
  exists cur prev, eventKvs fuel t req e = Ok (cur, prev, None)
    /\ (if keyrev_isdel (ev_rev e) then cur = mkKv (ev_rev e) 0 0 0 0 (ev_key e) None
        else kvOr (ev_key e) (visible (evtUpper e) (M (ev_key e))) cur)
    /\ kvOr (ev_key e) (if wc_PrevKv req then prevOf (evtUpper e) (M (ev_key e)) else None) prev.
Proof.
  intros HL Hin. destruct (lg_key _ _ _ _ HL e Hin) as [Hne Hf]. unfold eventKvs. fold (evtUpper e).
  destruct (keyrev_isdel (ev_rev e)).
  - destruct (wc_PrevKv req); [|by eexists _, _].
    destruct (getRev_ok cfg fuel t M (ev_key e) (evtUpper e) true (lg_rep _ _ _ _ HL) Hne Hf) as (item & prev & -> & _ & Hp).
    cbn [rbind]. by eexists _, prev.
  - destruct (getRev_ok cfg fuel t M (ev_key e) (evtUpper e) (wc_PrevKv req) (lg_rep _ _ _ _ HL) Hne Hf)
      as (item & prev & -> & Hi & Hp). by exists item, prev.
Qed.

Lemma scanYield_ok t M E rev req rev' s e :
  Logged t M E rev -> e ∈ E ->
  if selects req e
  then exists m, scanYield fuel t req rev' s e = Ok (mkScan (sc_out s ++ [m]) (sc_sent s + 1) None, true)
         /\ carries req M rev' e m
  else scanYield fuel t req rev' s e = Ok (s, true).
Proof.
  intros HL Hin. unfold selects, scanYield. destruct (inWatch req (ev_key e)); cbn [negb andb]; [|done].
  destruct (filtered req (kvEvent_etype e)); cbn [negb]; [done|].
  destruct (eventKvs_ok t M E rev req e HL Hin) as (cur & prev & -> & Hc & Hp). cbn [rbind].
  unfold watchMessage. destruct (marshal_event (eventOf e cur prev)) as [b Eb]. rewrite Eb. cbn [rbind].
  eexists. split; [reflexivity|]. by exists cur, prev, b.
Qed.

Lemma scanRun_ok t M E rev req rev' X s :
  Logged t M E rev -> X ⊆ E -> sc_err s = None ->
  exists ms, runYield (scanYield fuel t req rev') s X = Ok (mkScan (sc_out s ++ ms) (sc_sent s + blen ms) None)
    /\ Forall2 (carries req M rev') (selected req X) ms.
Proof.
  intros HL HX Hs. apply (scanRun (scanYield fuel t req rev') (carries req M rev') req E); [|done|done].
  intros s' e Hin _. by apply (scanYield_ok t M E rev).
Qed.

(** The SYNC message after the events of a scan. *)
Definition syncOf (req : WatchCreateRequest) (rev : Z) (ms : list Result) (sync : list Result) : Prop :=
  if decide (ms = []) then sync = []
  else exists b, pb_Marshal MResponseHeader (responseHeader shardID replicaID rev) = Ok b
         /\ sync = [mkResult (u64 (wc_WatchId req)) (Zb WatchMessageType_SYNC :: b)].

Lemma watchScan_ok t M E rev req sn :
  Logged t M E rev -> 0 < sn < 2 ^ 52 ->
  exists ms sync, watchScan fuel shardID replicaID t req sn = Ok (rev, mkScan (ms ++ sync) (blen ms) None)
    /\ Forall2 (carries req M rev) (selected req (between sn rev E)) ms /\ syncOf req rev ms sync.
Proof.
  intros HL Hsn. unfold watchScan. rewrite (lg_rev _ _ _ _ HL). destruct (Z.eqb_spec sn 0); [lia|].
  rewrite (scan_ok fuel t E sn) by (try apply HL; lia).
  assert (since sn E = between sn rev E) as ->.
  { unfold since, between. apply filter_agree. pose proof (lg_upto _ _ _ _ HL) as Hup.
    eapply Forall_impl; [exact Hup|]. cbn. unfold evtUpper. lia. }
  destruct (scanRun_ok t M E rev req rev (between sn rev E) (mkScan [] 0 None) HL) as (ms & -> & Hf);
    [by intros x [_ Hx]%list_elem_of_filter|done|]. cbn [sc_out sc_sent app rbind]. rewrite Z.add_0_l.
  unfold scanSync. cbn [sc_err isErr sc_sent]. unfold syncOf. destruct ms as [|m ms].
  - exists [], []. split; [done|]. by split.
  - rewrite blen_cons. pose proof (blen_nonneg ms). destruct (Z.ltb_spec 0 (1 + blen ms)); [|lia].
    unfold watchMessage. destruct (marshal_header (responseHeader shardID replicaID rev)) as [b Eb]. rewrite Eb. cbn [rbind sc_out].
    eexists (m :: ms), _. split; [by rewrite blen_cons|]. split; [done|]. rewrite decide_False by done. by exists b.
Qed.

(** ** A put keeps the log in step with the history *)

Lemma vput_last dup k v l :
  Forall (fun p => blt p.1 k) l -> vput dup k v l = l ++ [(k, v)].
Proof.
  induction 1 as [|[k' v'] l Hlt Hl IH]; [done|]. cbn [vput app]. cbn [fst] in Hlt.
  rewrite (proj2 (bcompare_gt _ _) Hlt). by rewrite IH.
Qed.

(** Events of a later revision go to the end of the log. *)
Lemma EvtRep_push t t' E rev epoch key d :
  EvtRep t E -> Forall (fun e => evtUpper e <= rev) E -> keyrev_ok (rev + 1) 0 -> is_u64 epoch ->
  let evt := mkKvEvent epoch key (newkeyrev (rev + 1) 0 d) in
  view t' DbiEvt = vput true (evtEntry evt).1 (evtEntry evt).2 (view t DbiEvt) -> EvtRep t' (E ++ [evt]).
Proof.
  intros [Hv Hok] Hup Hk He evt Hevt. split.
  - rewrite Hevt, Hv, fmap_app. rewrite vput_last; [by rewrite <- surjective_pairing|]. apply Forall_fmap.
    rewrite Forall_forall in Hup. rewrite Forall_forall in Hok. apply Forall_forall.
    intros e Hin. unfold evtEntry. cbn [fst ev_rev evt compose]. destruct (Hok e Hin) as [He0 _]. specialize (Hup e Hin). cbn in Hup.
    apply be8_lt; [done|apply newkeyrev_u64; done|]. rewrite newkeyrev_eq by done. unfold evtUpper, keyrev_upper in Hup.
    rewrite Z.shiftr_div_pow2 in Hup by lia. change (2 ^ 12) with 4096 in Hup. destruct d; Z.to_euclidean_division_equations; lia.
  - apply Forall_app. split; [done|]. constructor; [|constructor]. split; [apply newkeyrev_u64; done|done].
Qed.

Lemma Logged_put t M E rev lease epoch key val iv il :
  Logged t M E rev -> put_args (rev + 1) 0 lease key val iv -> is_u64 epoch -> rev + 1 < 2 ^ 52 - 1 ->
  (S (length E) < fuel)%nat -> (length (M key) < fuel)%nat ->
  let new := putRec (rev + 1) 0 lease val iv il (M key) in
  let evt := mkKvEvent epoch key (newkeyrev (rev + 1) 0 false) in
  exists t1 out t', dbKv_put cfg t (rev + 1) 0 lease epoch key val iv il = Ok (t1, out)
    /\ setRevision t1 (rev + 1) = Ok t'
    /\ Logged t' (hset M key (new :: M key)) (E ++ [evt]) (rev + 1).
Proof.
  intros [HR HE Hrev Hb Hup Hbelow Hrec Hkey Hf] Ha He Hb' Hf1 Hf2 new evt.
  assert (keyrev_ok (rev + 1) 0) as Hk by (unfold keyrev_ok, PCB_TXN_OPS_LIMIT; lia).
  destruct (put_ok cfg t M (rev + 1) 0 lease epoch key val iv il) as (t1 & prev & next & patched & E1 & HR1 & _ & _ & Hevt & Hfr).
  { done. }
  { intros k h Hin. specialize (Hbelow k h Hin). pose proof (rep_ok _ _ _ HR k) as Hok. rewrite Forall_forall in Hok.
    destruct (ok_rev _ (Hok h Hin)) as (u & l & d & Hul & _ & Er). rewrite Er in *. rewrite keyrev_upper_new in Hbelow by done.
    rewrite !newkeyrev_eq by done. unfold keyrev_ok, PCB_TXN_OPS_LIMIT in *. destruct d; lia. }
  { done. }
  { intros h Hh _. left. assert (h ∈ M key) as Hin by (destruct (M key); [done|injection Hh as ->; constructor]).
    specialize (Hbelow _ _ Hin). lia. }
  destruct (putUint64_has t1 metaKeyRevision (rev + 1)) as (t' & E2 & Hhas & _ & Hd); [by vm_compute|unfold is_u64; lia|].
  exists t1, (prev, next, patched), t'. split; [exact E1|]. split; [exact E2|].
  destruct (putRec_ok _ _ _ _ _ _ il _ Ha (rep_ok _ _ _ HR key)) as (_ & Hnr & Hnl). fold new in Hnr, Hnl, HR1.
  assert (evtUpper evt = rev + 1) as Eu by (by apply keyrev_upper_new). split.
  - eapply Rep_view; [..|exact HR1]; by apply Hd.
  - apply (EvtRep_push t); [done|eapply Forall_impl; [exact Hup|]; cbn; lia|done|done|]. by rewrite Hd, Hevt.
  - unfold getRevision. apply metaHas_get; done.
  - lia.
  - apply Forall_app. split; [eapply Forall_impl; [exact Hup|]; cbn; lia|]. constructor; [|constructor]. lia.
  - intros k h. destruct (decide (k = key)) as [->|Hne].
    + rewrite hset_same. intros [->|Hin]%elem_of_cons; [by rewrite Hnr, keyrev_upper_new|]. specialize (Hbelow _ _ Hin). lia.
    + rewrite hset_other by done. intros Hin. specialize (Hbelow _ _ Hin). lia.
  - intros e [Hin| ->%list_elem_of_singleton]%elem_of_app Hd0.
    + destruct (Hrec e Hin Hd0) as (h & Hh & Hu). exists h. split; [|done].
      destruct (decide (ev_key e = key)) as [Ek|Hne]; [|by rewrite hset_other].
      rewrite Ek in Hh |- *. rewrite hset_same. rewrite Forall_forall in Hup. specialize (Hup e Hin). cbn in Hup.
      rewrite (visible_push _ (rev + 1) 0 false); [done|done|lia|done].
    + exists new. rewrite Eu. cbn [ev_key evt]. rewrite hset_same. unfold visible. cbn [dropNewer]. unfold newer. rewrite Hnr, keyrev_upper_new by done.
      rewrite Z.ltb_irrefl, andb_false_r, Hnl. by split.
  - intros e [Hin| ->%list_elem_of_singleton]%elem_of_app.
    + destruct (Hkey e Hin) as [Hne Hl]. split; [done|]. destruct (decide (ev_key e = key)) as [->|Hk2];
        [rewrite hset_same; cbn; lia|by rewrite hset_other].
    + cbn [ev_key evt]. split; [|rewrite hset_same; cbn; lia]. destruct (pa_key _ _ _ _ _ _ Ha) as [Hl _]. apply blen_nonempty. lia.
  - rewrite length_app. cbn. lia.
Qed.

End WatchFacts.
