(* ===== verification/ModNotice.v ===== *)
(** * Notices reach the watches (src/module/storage-kv/stream.go: rangeWatchRecv)

    One message per event of the notices' revisions that some watch wants, in the order
    of the log, addressed to exactly the watches that want it. *)

From stdpp Require Import gmap sorting.
From S2P Require Import Prelude Types GoBinary Patch Kv Mdb MdbFacts MdbKeys Db DbFacts DbLease DbKv Frame History DbKvRead DbKvWrite Pb StateMachine Update LeaseOps Events Compact ModStore ModMain ModSlices ModFacts Watch WatchFacts ModStream.

(** The ids of all notices, as the sync message has them. *)
Abbreviation allIDs notices := (concat ((fun n => i64 <$> n_IDs n) <$> notices)).

Section Notice.
Context (cfg : config) `{DifferOk} `{SnappyOk} `{MdbOk} `{HostSlices} `{Proto} {W : Type} `{RangeWatch W}.
Context (fuel : nat) (shardID replicaID : Z) (idRange : list Z -> list Z).
Hypothesis marshal_batch : forall a, exists b, pb_Marshal MWatchEventBatch a = Ok b.
Hypothesis marshal_sync : forall a, exists b, pb_Marshal MWatchEventSync a = Ok b.
Hypothesis marshal_header : forall a, exists b, pb_Marshal MResponseHeader a = Ok b.

Abbreviation stream := (@modStream W).

(** ** The requests of the watches *)

(** The request a watch was created with, as the cache has it. *)
Definition cachedReq (s : stream) (id : Z) : option WatchCreateRequest :=
  match default [] (st_cache s !! id) with [] => None | b => pb_Unmarshal MWatchCreateRequest b end.

(** What the cache holds can be read. *)
Definition readable (s : stream) (id : Z) : Prop :=
  default [] (st_cache s !! id) <> [] -> cachedReq s id <> None.

(** Whether a watch is sent an event, as one that wants previous values or not. *)
Definition addressed (s : stream) (e : kvEvent) (wantPrev : bool) (id : Z) : bool :=
  match cachedReq s id with
  | Some req => mod_wants req (default 0 (st_revs s !! id)) e && Bool.eqb (wc_PrevKv req) wantPrev
  | None => false
  end.

Abbreviation addressees s e wantPrev ids := (i64 <$> filter (fun id => addressed s e wantPrev id = true) ids).

(** What was looked up came from the cache. *)
Definition servedFrom (s : stream) (v : served) : Prop :=
  forall id req, sv_reqs v !! id = Some req -> cachedReq s id = Some req /\ sv_mins v !! id = Some (default 0 (st_revs s !! id)).

Lemma lookupIDs_ok (s : stream) ids v prev :
  servedFrom s v -> Forall (readable s) ids ->
  exists v' prev', mod_lookupIDs s v prev ids = Ok (v', prev') /\ servedFrom s v' /\ prev <= prev'
    /\ (forall id req, sv_reqs v !! id = Some req -> sv_reqs v' !! id = Some req)
    /\ forall id req, id ∈ ids -> cachedReq s id = Some req ->
         sv_reqs v' !! id = Some req /\ (wc_PrevKv req = true -> prev < prev').
Proof.
  revert v prev. induction ids as [|id ids IH]; intros v prev Hv Hr; cbn [mod_lookupIDs].
  { exists v, prev. split; [done|]. split; [done|]. split; [lia|]. split; [done|]. intros id req X. inversion X. }
  apply Forall_cons in Hr as [Hid Hr]. set (v1 := mkServed (sv_reqs v) (sv_mins v) (sv_ids v ++ [i64 id])).
  assert (Hgo : forall w p, servedFrom s w -> prev <= p -> (forall x r, sv_reqs v !! x = Some r -> sv_reqs w !! x = Some r) ->
    (forall r, cachedReq s id = Some r -> sv_reqs w !! id = Some r /\ (wc_PrevKv r = true -> prev < p)) ->
    exists v' prev', mod_lookupIDs s w p ids = Ok (v', prev') /\ servedFrom s v' /\ prev <= prev'
      /\ (forall x r, sv_reqs v !! x = Some r -> sv_reqs v' !! x = Some r)
      /\ forall x r, x ∈ id :: ids -> cachedReq s x = Some r -> sv_reqs v' !! x = Some r /\ (wc_PrevKv r = true -> prev < prev')).
  { intros w p Hw Hp Hgrow Hhere. destruct (IH w p Hw Hr) as (v' & prev' & E & Hv' & Hle & Hg & Hall). exists v', prev'.
    split; [done|]. split; [done|]. split; [lia|]. split; [intros x r Hx; by apply Hg, Hgrow|].
    intros x r [->|Hx]%elem_of_cons Hc.
    - destruct (Hhere r Hc) as [Hw' Hlt]. split; [by apply Hg|]. intros Hpv. specialize (Hlt Hpv). lia.
    - destruct (Hall x r Hx Hc) as [? Hlt]. split; [done|]. intros Hpv. specialize (Hlt Hpv). lia. }
  destruct (sv_reqs v1 !! id) as [req|] eqn:Ev; change (sv_reqs v1) with (sv_reqs v) in *.
  - apply Hgo; [exact Hv|destruct (wc_PrevKv req); lia|done|]. intros r Hc. destruct (Hv id req Ev) as [Hc' _].
    assert (r = req) as -> by congruence. split; [done|]. destruct (wc_PrevKv req); [lia|done].
  - unfold readable, cachedReq in Hid, Hgo |- *. destruct (default [] (st_cache s !! id)) as [|b0 b] eqn:Eb.
    + apply Hgo; [exact Hv|lia|done|done].
    + destruct (pb_Unmarshal MWatchCreateRequest (b0 :: b)) as [req|] eqn:Eu; [|by destruct Hid].
      apply Hgo.
      * intros x r. cbn [sv_reqs sv_mins]. destruct (decide (x = id)) as [->|Hne].
        -- rewrite !lookup_insert_eq. intros [= <-]. split; [|done]. unfold cachedReq. by rewrite Eb.
        -- rewrite !lookup_insert_ne by done. apply Hv.
      * destruct (wc_PrevKv req); lia.
      * intros x r Hx. cbn [sv_reqs]. rewrite lookup_insert_ne; [done|congruence].
      * intros r [= <-]. cbn [sv_reqs]. rewrite lookup_insert_eq. split; [done|]. destruct (wc_PrevKv req); [lia|done].
Qed.

(** The lookups of all notices: [prevs] is positive where a watch wants previous values. *)
Lemma lookups_ok (s : stream) notices v :
  servedFrom s v -> Forall (fun n => Forall (readable s) (n_IDs n)) notices ->
  exists v' prevs, mod_lookups s v notices = Ok (v', prevs) /\ servedFrom s v'
    /\ (forall id req, sv_reqs v !! id = Some req -> sv_reqs v' !! id = Some req)
    /\ Forall2 (fun n p => forall id req, id ∈ n_IDs n -> cachedReq s id = Some req ->
                  sv_reqs v' !! id = Some req /\ (wc_PrevKv req = true -> 0 < p)) notices prevs.
Proof.
  revert v. induction notices as [|n notices IH]; intros v Hv Hr; cbn [mod_lookups].
  { exists v, []. split; [done|]. split; [done|]. split; [done|constructor]. }
  apply Forall_cons in Hr as [Hn Hr]. destruct (lookupIDs_ok s (n_IDs n) v 0 Hv Hn) as (v1 & p & -> & Hv1 & _ & Hg1 & Hall1). cbn [rbind].
  destruct (IH v1 Hv1 Hr) as (v2 & prevs & -> & Hv2 & Hg2 & Hall2). cbn [rbind]. exists v2, (p :: prevs).
  split; [done|]. split; [done|]. split; [intros id req Hx; by apply Hg2, Hg1|]. constructor; [|done].
  intros id req Hin Hc. destruct (Hall1 id req Hin Hc) as [? ?]. split; [by apply Hg2|done].
Qed.

(** ** The addressees of an event *)

Lemma addressees_ok (s : stream) v e ids sent plain prev :
  servedFrom s v -> (forall id req, id ∈ ids -> cachedReq s id = Some req -> sv_reqs v !! id = Some req) ->
  exists sent', mod_addressees v e ids sent plain prev
    = (sent', plain ++ addressees s e false ids, prev ++ addressees s e true ids).
Proof.
  intros Hv. revert sent plain prev. induction ids as [|id ids IH]; intros sent plain prev Hids; cbn [mod_addressees].
  { exists sent. by rewrite !app_nil_r. }
  assert (Hids' : forall x r, x ∈ ids -> cachedReq s x = Some r -> sv_reqs v !! x = Some r) by (intros x r Hx; apply Hids; by right).
  rewrite !filter_cons. destruct (sv_reqs v !! id) as [req|] eqn:Ev.
  - destruct (Hv id req Ev) as [Hc Hm]. rewrite Hm. change (default 0 (Some ?x)) with x.
    assert (Ha : forall b, addressed s e b id = mod_wants req (default 0 (st_revs s !! id)) e && Bool.eqb (wc_PrevKv req) b)
      by (intros b; unfold addressed; by rewrite Hc).
    destruct (mod_wants req (default 0 (st_revs s !! id)) e); cbn [andb] in Ha.
    + destruct (wc_PrevKv req); cbn [negb Bool.eqb] in *.
      * rewrite decide_False, decide_True by (by rewrite Ha). rewrite fmap_cons.
        edestruct IH as [sent' E]; [exact Hids'|]. exists sent'. rewrite E. by rewrite <- (app_assoc prev).
      * rewrite decide_True, decide_False by (by rewrite Ha). rewrite fmap_cons.
        edestruct IH as [sent' E]; [exact Hids'|]. exists sent'. rewrite E. by rewrite <- (app_assoc plain).
    + rewrite !decide_False by (by rewrite Ha). apply IH, Hids'.
  - assert (cachedReq s id = None) as Hc by (destruct (cachedReq s id) as [r|] eqn:Ec; [|done]; by rewrite (Hids id r ltac:(left) Ec) in Ev).
    rewrite !decide_False by (unfold addressed; by rewrite Hc). apply IH, Hids'.
Qed.

(** ** One event *)

(** The message of an event: its key-values, its revision and the watches it is for. *)
Definition batchFor (s : stream) (M : history) (ids : list Z) (e : kvEvent) (m : Result) : Prop :=
  exists cur prev (withPrev : bool) b,
    (if keyrev_isdel (ev_rev e) then cur = mkKv (ev_rev e) 0 0 0 0 (ev_key e) None
     else kvOr (ev_key e) (visible (evtUpper e) (M (ev_key e))) cur)
    /\ kvOr (ev_key e) (if withPrev then prevOf (evtUpper e) (M (ev_key e)) else None) prev
    /\ (addressees s e true ids <> [] -> withPrev = true)
    /\ pb_Marshal MWatchEventBatch (mkWatchEventBatch (eventOf e cur prev) (evtUpper e)
                                      (addressees s e false ids) (addressees s e true ids)) = Ok b
    /\ m = mkResult 0 (Zb MWatch_EVENT_BATCH :: b).

(** Some watch wants the event. *)
Definition wanted (s : stream) (ids : list Z) (e : kvEvent) : bool :=
  (0 <? blen (addressees s e false ids)) || (0 <? blen (addressees s e true ids)).

Lemma mod_eventKvs_ok t M E rev e withPrev :
  Logged cfg fuel t M E rev -> readsRight t M (ev_key e) (evtUpper e) -> e ∈ E ->
  exists cur prev, mod_eventKvs fuel t e withPrev None = Ok (cur, prev, None)
    /\ (if keyrev_isdel (ev_rev e) then cur = mkKv (ev_rev e) 0 0 0 0 (ev_key e) None
        else kvOr (ev_key e) (visible (evtUpper e) (M (ev_key e))) cur)
    /\ kvOr (ev_key e) (if withPrev then prevOf (evtUpper e) (M (ev_key e)) else None) prev
    /\ keyrev_upper (kv_rev cur) = evtUpper e.
Proof.
  intros HL Hnp Hin. destruct (lg_key _ _ _ _ _ _ HL e Hin) as [Hne Hf]. unfold mod_eventKvs.
  rewrite !(mod_getRev_eq cfg fuel t M (ev_key e)) by (done || apply HL). fold (evtUpper e).
  destruct (keyrev_isdel (ev_rev e)) eqn:Ed.
  - destruct withPrev; [|by eexists _, _].
    destruct (getRev_ok cfg fuel t M (ev_key e) (evtUpper e) true (lg_rep _ _ _ _ _ _ HL) Hne Hf) as (item & prev & -> & _ & Hp).
    cbn [rbind]. by eexists _, prev.
  - destruct (getRev_ok cfg fuel t M (ev_key e) (evtUpper e) withPrev (lg_rep _ _ _ _ _ _ HL) Hne Hf) as (item & prev & -> & Hi & Hp).
    cbn [rbind isErr]. exists item, prev. split; [done|]. split; [done|]. split; [done|].
    destruct (lg_rec _ _ _ _ _ _ HL e Hin Ed) as (h & Hh & Hu). rewrite Hh in Hi. destruct Hi. congruence.
Qed.

Section Recv.
Context (t : txn) (M : history) (E : list kvEvent) (rev : Z) (s : stream) (notices : list notice) (prevs : list Z) (v : served).
Hypothesis logged : Logged cfg fuel t M E rev.
Hypothesis reads_right : forall n e, n ∈ notices -> e ∈ E -> evtUpper e = n_Val n -> readsRight t M (ev_key e) (evtUpper e).
Hypothesis from_cache : servedFrom s v.
Hypothesis looked_up : Forall2 (fun n p => forall id req, id ∈ n_IDs n -> cachedReq s id = Some req ->
                          sv_reqs v !! id = Some req /\ (wc_PrevKv req = true -> 0 < p)) notices prevs.

Abbreviation yield := (mod_recvYield fuel t notices prevs v).

(** The index of the notice of a revision, from the last one seen. *)
Definition nextIndex (r : recvState) (val : Z) : nat :=
  if rv_n r =? val then rv_i r else if 0 <? rv_n r then S (rv_i r) else rv_i r.

Lemma recvYield_ok r e nt :
  e ∈ E -> readsRight t M (ev_key e) (evtUpper e) -> rv_err r = None -> notices !! nextIndex r (evtUpper e) = Some nt ->
  exists sent ms, yield r e = Ok (mkRecv (evtUpper e) (nextIndex r (evtUpper e)) sent (rv_out r ++ ms) None, true)
    /\ if wanted s (n_IDs nt) e then exists m, ms = [m] /\ batchFor s M (n_IDs nt) e m else ms = [].
Proof.
  intros Hin Hright Herr Hnt. set (i := nextIndex r (evtUpper e)) in *.
  destruct (Forall2_lookup_l _ _ _ _ _ looked_up Hnt) as (p & Hp & Hids).
  unfold mod_recvYield. fold (evtUpper e).
  assert ((if negb (rv_n r =? evtUpper e) then (evtUpper e, if 0 <? rv_n r then S (rv_i r) else rv_i r) else (rv_n r, rv_i r))
          = (evtUpper e, i)) as ->.
  { unfold i, nextIndex. destruct (Z.eqb_spec (rv_n r) (evtUpper e)) as [->|]; done. }
  rewrite Hp. cbn [mustSome rbind]. rewrite Herr.
  destruct (mod_eventKvs_ok t M E rev e (0 <? p) logged Hright Hin) as (cur & prev & -> & Hcur & Hprev & Hup). cbn [rbind].
  rewrite Hnt. cbn [mustSome rbind].
  pose proof (lg_upto _ _ _ _ _ _ logged) as Hb. rewrite Forall_forall in Hb. specialize (Hb e Hin). cbn in Hb.
  pose proof (lg_bound _ _ _ _ _ _ logged) as Hbound.
  assert (evt_Kv (eventOf e cur prev) = Some (kv_ToProto cur)) as ->.
  { unfold eventOf. cbn [evt_Kv]. rewrite Hup. by destruct (Z.ltb_spec 0 (evtUpper e)); [|lia]. }
  cbn [mustSome rbind]. unfold kv_ToProto at 1. cbn [ModRevision]. rewrite Hup, u64_i64 by (unfold is_u64; lia).
  destruct (addressees_ok s v e (n_IDs nt) (rv_sent r) [] []) as [sent ->]; [done|by intros id req Hid Hc; destruct (Hids id req Hid Hc)|].
  cbn [app]. fold (wanted s (n_IDs nt) e). destruct (wanted s (n_IDs nt) e) eqn:Ew.
  - unfold sendCodeMsg. destruct (marshal_batch (mkWatchEventBatch (eventOf e cur prev) (evtUpper e)
      (addressees s e false (n_IDs nt)) (addressees s e true (n_IDs nt)))) as [b Eb]. rewrite Eb. cbn [must rbind].
    eexists sent, _. split; [done|]. eexists. split; [done|]. exists cur, prev, (0 <? p), b. split; [done|]. split; [done|]. split; [|done].
    intros Hne. assert (0 < p) as Hpos.
    { destruct (filter (fun id => addressed s e true id = true) (n_IDs nt)) as [|id l] eqn:Ef; [done|].
      assert (id ∈ filter (fun id => addressed s e true id = true) (n_IDs nt)) as [Ha Hid]%list_elem_of_filter by (rewrite Ef; left).
      unfold addressed in Ha. destruct (cachedReq s id) as [req|] eqn:Ec; [|done].
      apply andb_true_iff in Ha as [_ Hpv]. destruct (Hids id req Hid Ec) as [_ Hlt]. apply Hlt. by destruct (wc_PrevKv req). }
    by apply Z.ltb_lt.
  - exists sent, []. rewrite app_nil_r. by split.
Qed.

(** The events of one notice. *)
Lemma group_ok X r val nt :
  X ⊆ E -> Forall (fun e => readsRight t M (ev_key e) (evtUpper e)) X -> Forall (fun e => evtUpper e = val) X -> rv_err r = None -> notices !! nextIndex r val = Some nt ->
  exists r' ms, runUntil yield r X = Ok (r', true) /\ rv_err r' = None /\ rv_out r' = rv_out r ++ ms
    /\ (X <> [] \/ rv_n r = val -> rv_n r' = val /\ rv_i r' = nextIndex r val)
    /\ Forall2 (batchFor s M (n_IDs nt)) (filter (fun e => wanted s (n_IDs nt) e = true) X) ms.
Proof.
  revert r. induction X as [|e X IH]; intros r HX Hright Hval Herr Hnt; cbn [runUntil].
  { exists r, []. rewrite app_nil_r. split; [done|]. split; [done|]. split; [done|]. split; [|constructor].
    intros [?|Hn]; [done|]. split; [done|]. unfold nextIndex. by rewrite Hn, Z.eqb_refl. }
  apply Forall_cons in Hval as [He Hval]. apply Forall_cons in Hright as [Hr0 Hright]. rewrite <- He in Hnt.
  destruct (recvYield_ok r e nt (HX e ltac:(left)) Hr0 Herr Hnt) as (sent & ms & -> & Hms). cbn [rbind negb].
  set (r1 := mkRecv _ _ _ _ _). assert (nextIndex r1 val = nextIndex r val) as Hi.
  { unfold nextIndex at 1. cbn [rv_n r1 rv_i]. rewrite He. by rewrite Z.eqb_refl. }
  destruct (IH r1) as (r' & ms' & -> & Herr' & Hout & Hend & Hf); [intros x Hx; apply HX; by right|done|done|done|by rewrite Hi, <- He|].
  exists r', (ms ++ ms'). split; [done|]. split; [done|]. split; [by rewrite Hout, app_assoc|]. split.
  - intros _. rewrite <- Hi. apply Hend. by right.
  - rewrite filter_cons. destruct (wanted s (n_IDs nt) e).
    + destruct Hms as (m & -> & Hm). rewrite decide_True by done. by constructor.
    + subst ms. by rewrite decide_False.
Qed.

(** The events a notice stands for. *)
Abbreviation eventsOf n := (filter (fun e => evtUpper e = n_Val n) E).

(** Where the loop stands after some notices. *)
Definition standsAt (r : recvState) (before : list notice) : Prop :=
  match last before with
  | None => rv_n r = 0 /\ rv_i r = 0%nat
  | Some n => rv_n r = n_Val n /\ 0 < n_Val n /\ S (rv_i r) = length before
  end.

Lemma standsAt_next r before n :
  standsAt r before -> Forall (fun m => n_Val m < n_Val n) before -> 0 < n_Val n -> nextIndex r (n_Val n) = length before.
Proof.
  unfold standsAt, nextIndex. intros Hs Hlt Hpos. destruct (last before) as [m|] eqn:El.
  - destruct Hs as (-> & Hm & Hi). apply last_Some_elem_of in El. rewrite Forall_forall in Hlt. specialize (Hlt m El). cbn in Hlt.
    destruct (Z.eqb_spec (n_Val m) (n_Val n)); [lia|]. by destruct (Z.ltb_spec 0 (n_Val m)); [|lia].
  - destruct Hs as [-> ->]. apply last_None in El as ->. by destruct (Z.eqb_spec 0 (n_Val n)); [lia|].
Qed.

Lemma notices_ok before after_ r :
  notices = before ++ after_ -> standsAt r before -> rv_err r = None ->
  StronglySorted (fun n m => n_Val n < n_Val m) notices -> Forall (fun n => 0 < n_Val n /\ eventsOf n <> []) after_ ->
  exists r' ms, runYield yield r (concat ((fun n => eventsOf n) <$> after_)) = Ok r' /\ rv_err r' = None
    /\ rv_out r' = rv_out r ++ concat ms
    /\ Forall2 (fun n l => Forall2 (batchFor s M (n_IDs n)) (filter (fun e => wanted s (n_IDs n) e = true) (eventsOf n)) l) after_ ms.
Proof.
  revert before r. induction after_ as [|n after_ IH]; intros before r Hn Hs Herr Hsort Hok; cbn [fmap list_fmap concat].
  { exists r, []. rewrite app_nil_r. split; [done|]. split; [done|]. split; [done|constructor]. }
  apply Forall_cons in Hok as [[Hpos Hne] Hok].
  assert (Hlt : Forall (fun m => n_Val m < n_Val n) before).
  { rewrite Hn in Hsort. apply Forall_forall. intros m Hm.
    exact (StronglySorted_app_1_elem_of _ _ _ m n Hsort Hm ltac:(left)). }
  pose proof (standsAt_next r before n Hs Hlt Hpos) as Hi.
  destruct (group_ok (eventsOf n) r (n_Val n) n) as (r1 & l & E1 & Herr1 & Hout1 & Hend1 & Hf1).
  { by intros x [_ Hx]%list_elem_of_filter. }
  { apply Forall_forall. intros x [Hx Hin]%list_elem_of_filter. apply (reads_right n); [|done..]. rewrite Hn. apply elem_of_app. right. left. }
  { apply Forall_forall. by intros x [Hx _]%list_elem_of_filter. }
  { done. }
  { rewrite Hi, Hn. by apply list_lookup_middle. }
  destruct Hend1 as [Hn1 Hi1]; [by left|].
  destruct (IH (before ++ [n]) r1) as (r2 & ms & E2 & Herr2 & Hout2 & Hf2); try done.
  { by rewrite <- app_assoc. }
  { unfold standsAt. rewrite last_snoc. split; [done|]. split; [done|]. rewrite Hi1, Hi, length_app. cbn. lia. }
  exists r2, (l :: ms). rewrite runYield_until, E1. cbn [rbind concat]. split; [exact E2|]. split; [done|].
  split; [by rewrite Hout2, Hout1, app_assoc|]. by constructor.
Qed.

End Recv.

(** ** The whole call *)

Definition isBatch (m : Result) : bool := match res_Data m with b :: _ => bZ b =? MWatch_EVENT_BATCH | [] => false end.

(** The progress notices, for watches that are cached. *)
Definition progressNote (s : stream) (rev : Z) (m : Result) : Prop :=
  exists id b, cachedReq s id <> None /\ pb_Marshal MResponseHeader (mod_responseHeader shardID replicaID rev) = Ok b
    /\ m = mkResult id (Zb MWatch_NOTIFY :: b).

(** The sync message, which names the ids of all notices. *)
Definition syncNote (ids : list Z) (rev : Z) (ms : list Result) : Prop :=
  if 0 <? blen ids then exists b, pb_Marshal MWatchEventSync (mkWatchEventSync ids rev) = Ok b
                                  /\ ms = [mkResult 0 (Zb MWatch_EVENT_SYNC :: b)]
  else ms = [].

Lemma notifies_ok s v sent rev ids :
  servedFrom s v -> exists ms, mod_notifies shardID replicaID v sent rev ids = Ok ms /\ Forall (progressNote s rev) ms.
Proof.
  intros Hv. induction ids as [|id ids (ms & Ems & Hms)]; cbn [mod_notifies]; [by exists []|].
  destruct (sv_reqs v !! id) as [req|] eqn:Er; [|rewrite andb_false_r; cbn [rbind]; rewrite Ems; cbn [rbind]; by exists ms].
  destruct (_ && _).
  - unfold sendCodeHeader, sendCodeMsg. destruct (marshal_header (mod_responseHeader shardID replicaID rev)) as [b Eb]. rewrite Eb.
    cbn [must rbind]. rewrite Ems. cbn [rbind]. eexists. split; [done|]. constructor; [|done]. exists id, b.
    destruct (Hv id req Er) as [-> _]. by split.
  - cbn [rbind]. rewrite Ems. cbn [rbind]. by exists ms.
Qed.

Lemma lookupIDs_ids (s : stream) v prev ids v' prev' :
  mod_lookupIDs s v prev ids = Ok (v', prev') -> sv_ids v' = sv_ids v ++ (i64 <$> ids).
Proof.
  revert v prev. induction ids as [|id ids IH]; intros v prev; cbn [mod_lookupIDs]; [intros [= -> _]; by rewrite app_nil_r|].
  destruct (sv_reqs _ !! id).
  - intros ->%IH. cbn [sv_ids]. by rewrite <- app_assoc.
  - destruct (default [] _).
    + intros ->%IH. cbn [sv_ids]. by rewrite <- app_assoc.
    + destruct (pb_Unmarshal _ _); [|done]. intros ->%IH. cbn [sv_ids]. by rewrite <- app_assoc.
Qed.

Lemma lookups_ids (s : stream) notices v v' prevs :
  mod_lookups s v notices = Ok (v', prevs) -> sv_ids v' = sv_ids v ++ allIDs notices.
Proof.
  revert v prevs. induction notices as [|n notices IH]; intros v prevs; cbn [mod_lookups]; [intros [= -> _]; by rewrite app_nil_r|].
  intros ([v1 p] & E1 & E)%rbind_ok. apply rbind_ok in E as ([v2 ps] & E2 & [= -> _]). apply IH in E2 as ->.
  apply lookupIDs_ids in E1 as ->. rewrite fmap_cons. cbn [concat]. by rewrite app_assoc.
Qed.

Lemma rangeWatchRecv_ok t M E rev (s : stream) notices :
  Logged cfg fuel t M E rev -> (forall n e, n ∈ notices -> e ∈ E -> evtUpper e = n_Val n -> readsRight t M (ev_key e) (evtUpper e)) -> notices <> [] ->
  Forall (fun n => Forall (readable s) (n_IDs n)) notices ->
  StronglySorted (fun n m => n_Val n < n_Val m) notices ->
  Forall (fun n => 0 < n_Val n <= rev /\ (exists e, e ∈ E /\ evtUpper e = n_Val n)
                   /\ exists kr, forall e, e ∈ E -> evtUpper e = n_Val n -> ev_rev e = kr) notices ->
  exists s' batches sync notes lst,
    mod_rangeWatchRecv fuel shardID replicaID idRange t s notices = Ok (s', concat batches ++ sync ++ notes)
    /\ Forall2 (fun n l => Forall2 (batchFor s M (n_IDs n))
                  (filter (fun e => wanted s (n_IDs n) e = true) (filter (fun e => evtUpper e = n_Val n) E)) l) notices batches
    /\ last (n_Val <$> notices) = Some lst /\ syncNote (allIDs notices) lst sync /\ Forall (progressNote s lst) notes
    /\ st_progress s' = lst /\ st_cache s' = st_cache s /\ st_revs s' = st_revs s.
Proof.
  intros HL Hnp Hne Hread Hsort Hok. unfold mod_rangeWatchRecv.
  destruct (lookups_ok s notices (mkServed ∅ ∅ [])) as (v & prevs & El0 & Hv & _ & Hl); [by intros id req X|done|].
  apply lookups_ids in El0 as Hids. cbn [sv_ids app] in Hids. rewrite El0. cbn [rbind].
  pose proof (lg_evt _ _ _ _ _ _ HL) as HE. pose proof (lg_bound _ _ _ _ _ _ HL) as Hb.
  rewrite (mod_revScan_ok fuel t E (n_Val <$> notices)); [|done|..|apply HL].
  2:{ apply Forall_fmap. eapply Forall_impl; [exact Hok|]. cbn. intros n (Hr & Hex & kr & Hkr).
      split; [lia|]. by destruct (groupOf_all t E (n_Val n) kr HE Hex Hkr). }
  assert (groupOf E <$> (n_Val <$> notices) = (fun n => filter (fun e => evtUpper e = n_Val n) E) <$> notices) as ->.
  { rewrite <- list_fmap_compose. apply list_fmap_ext. intros i n Hi. rewrite Forall_forall in Hok.
    destruct (Hok n) as (_ & Hex & kr & Hkr); [by eapply list_elem_of_lookup_2|]. cbn. by destruct (groupOf_all t E (n_Val n) kr HE Hex Hkr). }
  destruct (notices_ok t M E rev s notices prevs v HL Hnp Hv Hl [] notices (mkRecv 0 0 ∅ [] None)) as (r & batches & -> & Herr & Hout & Hf);
    [done|by split|done|done|..].
  { eapply Forall_impl; [exact Hok|]. cbn. intros n (Hr & (e & Hin & Hu) & _). split; [lia|].
    intros Hnil. assert (e ∈ filter (fun e => evtUpper e = n_Val n) E) as X by (by apply list_elem_of_filter). rewrite Hnil in X. inversion X. }
  cbn [rbind]. rewrite Herr. cbn [isErr].
  destruct (last (n_Val <$> notices)) as [lst|] eqn:El; [|by apply last_None, fmap_nil_inv in El]. cbn [mustSome rbind].
  destruct (notifies_ok s v (rv_sent r) lst (idRange ((map_to_list (sv_reqs v)).*1)) Hv) as (nt & Ent & Hnt).
  cbn [rv_out app] in Hout. rewrite Hout, Hids. unfold syncNote. destruct (0 <? blen (allIDs notices)).
  - unfold sendCodeMsg. destruct (marshal_sync (mkWatchEventSync (allIDs notices) lst)) as [b Eb]. rewrite Eb. cbn [must rbind].
    rewrite Ent. cbn [rbind]. eexists _, batches, _, nt, lst. split; [done|]. repeat (split; [done|]). split; [by exists b|]. done.
  - cbn [rbind]. rewrite Ent. cbn [rbind app]. eexists _, batches, [], nt, lst. done.
Qed.

End Notice.
