(* ===== verification/ModWatch.v ===== *)
(** * A watch of the module from its start (src/module/storage-kv/stream.go: watchStart, watchScan)

    The two scans of a watch that names a start revision, and the hand-over to the
    notices: what the scans sent, the notices leave out. *)

From stdpp Require Import gmap sorting.
From S2P Require Import Prelude Types GoBinary Patch Kv Mdb MdbFacts MdbKeys Db DbFacts DbLease DbKv Frame History DbKvRead DbKvWrite Pb StateMachine Update LeaseOps Events Compact ModStore ModMain ModSlices ModFacts Watch WatchFacts ModStream ModNotice.

(** ** The module selects the events the native watch selects *)

Lemma mod_inWatch_eq req key : mod_inWatch req key = inWatch req key.
Proof.
  unfold mod_inWatch, inWatch. destruct (beqb_spec key (wc_Key req)) as [->|Hne]; cbn [negb].
  { destruct (bltb_spec (wc_Key req) (wc_Key req)) as [X|]; [by destruct (blt_irrefl _ X)|done]. }
  destruct (bltb_spec key (wc_Key req)) as [Hlt|Hge].
  { by destruct ((blen (wc_RangeEnd req) =? 0) || beqb (wc_Key req) (wc_RangeEnd req)). }
  destruct (Z.eqb_spec (blen (wc_RangeEnd req)) 0) as [He|_]; cbn [orb].
  { destruct (wc_RangeEnd req); [by destruct key|]. rewrite blen_cons in He. pose proof (blen_nonneg l). lia. }
  destruct (beqb_spec (wc_Key req) (wc_RangeEnd req)) as [<-|_]; [|done].
  by destruct (bltb_spec key (wc_Key req)).
Qed.

(** A watch wants what it selects, from after the revision it was served up to. *)
Lemma mod_wants_eq req min e :
  0 < evtUpper e -> mod_wants req min e = selects req e && (min <? evtUpper e).
Proof.
  intros He. unfold mod_wants, selects. fold (evtUpper e). rewrite mod_inWatch_eq.
  destruct (filtered req (kvEvent_etype e)), (inWatch req (ev_key e)); cbn [negb andb]; rewrite ?andb_false_r, ?andb_true_r; try done.
  destruct (Z.ltb_spec 0 min), (Z.leb_spec (evtUpper e) min), (Z.ltb_spec min (evtUpper e)); cbn; lia || done.
Qed.

Section ModWatch.
Context (cfg : config) `{DifferOk} `{SnappyOk} `{MdbOk} `{HostSlices} `{Proto} {W : Type} `{RangeWatch W}.
Context (fuel : nat) (shardID replicaID : Z).
Hypothesis marshal_batch : forall a, exists b, pb_Marshal MWatchEventBatch a = Ok b.
Hypothesis marshal_sync : forall a, exists b, pb_Marshal MWatchEventSync a = Ok b.
Hypothesis marshal_header : forall a, exists b, pb_Marshal MResponseHeader a = Ok b.

(** ** One scan *)

(** The message of an event to the watch that is starting. *)
Definition startBatch (req : WatchCreateRequest) (M : history) (rev : Z) (e : kvEvent) (m : Result) : Prop :=
  exists cur prev b,
    (if keyrev_isdel (ev_rev e) then cur = mkKv (ev_rev e) 0 0 0 0 (ev_key e) None
     else kvOr (ev_key e) (visible (evtUpper e) (M (ev_key e))) cur)
    /\ kvOr (ev_key e) (if wc_PrevKv req then prevOf (evtUpper e) (M (ev_key e)) else None) prev
    /\ pb_Marshal MWatchEventBatch (mkWatchEventBatch (eventOf e cur prev) rev [wc_WatchId req] []) = Ok b
    /\ m = mkResult (u64 (wc_WatchId req)) (Zb MWatch_EVENT_BATCH :: b).

Lemma startBatch_isBatch req M rev E ms :
  Forall2 (startBatch req M rev) E ms -> filter (fun m => isBatch m = true) ms = ms.
Proof.
  intros Hf. apply filter_all. intros m Hin. apply list_elem_of_lookup in Hin as [i Hi].
  destruct (Forall2_lookup_r _ _ _ _ _ Hf Hi) as (e & _ & cur & prev & b & _ & _ & _ & ->). by vm_compute.
Qed.

Lemma mod_scanYield_ok t M E rev req rev' s e :
  Logged cfg fuel t M E rev -> readsRight t M (ev_key e) (evtUpper e) -> e ∈ E -> sc_err s = None ->
  if selects req e
  then exists m, mod_scanYield fuel t req rev' s e = Ok (mkScan (sc_out s ++ [m]) (sc_sent s + 1) None, true)
         /\ startBatch req M rev' e m
  else mod_scanYield fuel t req rev' s e = Ok (s, true).
Proof.
  intros HL Hnp Hin Hs. unfold selects, mod_scanYield. rewrite mod_inWatch_eq.
  destruct (inWatch req (ev_key e)); cbn [negb andb]; [|done]. destruct (filtered req (kvEvent_etype e)); cbn [negb]; [done|].
  rewrite Hs. destruct (mod_eventKvs_ok cfg fuel t M E rev e (wc_PrevKv req) HL Hnp Hin) as (cur & prev & -> & Hc & Hp & _). cbn [rbind].
  unfold sendCodeMsg. destruct (marshal_batch (mkWatchEventBatch (eventOf e cur prev) rev' [wc_WatchId req] [])) as [b Eb].
  rewrite Eb. cbn [must rbind]. eexists. split; [done|]. by exists cur, prev, b.
Qed.

(** The values of some events can be read. *)
Definition allRight (t : txn) (M : history) (X : list kvEvent) : Prop := Forall (fun e => readsRight t M (ev_key e) (evtUpper e)) X.

Lemma mod_scanRun_ok t M E rev req rev' X s :
  Logged cfg fuel t M E rev -> allRight t M X -> X ⊆ E -> sc_err s = None ->
  exists ms, runYield (mod_scanYield fuel t req rev') s X = Ok (mkScan (sc_out s ++ ms) (sc_sent s + blen ms) None)
    /\ Forall2 (startBatch req M rev') (selected req X) ms.
Proof.
  intros HL Hnp HX Hs. apply (scanRun (mod_scanYield fuel t req rev') (startBatch req M rev') req X); [|done|done].
  intros s' e Hin Hs'. unfold allRight in Hnp. rewrite Forall_forall in Hnp. apply (mod_scanYield_ok t M E rev); auto.
Qed.

(** What a scan sends: the INIT message of a first scan, the selected events, and a sync
    when there were any. *)
Definition initMsg (req : WatchCreateRequest) (rev : Z) (start : bool) (l : list Result) : Prop :=
  if start then exists b, pb_Marshal MResponseHeader (mod_responseHeader shardID replicaID rev) = Ok b
                          /\ l = [mkResult (u64 (wc_WatchId req)) (Zb MWatch_INIT :: b)]
  else l = [].

Definition syncMsg (req : WatchCreateRequest) (rev : Z) (ms l : list Result) : Prop :=
  match ms with
  | [] => l = []
  | _ => exists b, pb_Marshal MWatchEventSync (mkWatchEventSync [wc_WatchId req] rev) = Ok b /\ l = [mkResult 0 (Zb MWatch_EVENT_SYNC :: b)]
  end.

Definition scanMsgs (req : WatchCreateRequest) (M : history) (rev : Z) (E : list kvEvent) (start : bool) (out : list Result) : Prop :=
  exists init ms sync, out = init ++ ms ++ sync /\ initMsg req rev start init
    /\ Forall2 (startBatch req M rev) (selected req E) ms /\ syncMsg req rev ms sync.

Lemma mod_watchScan_ok t M E rev req sn start :
  Logged cfg fuel t M E rev -> allRight t M (between sn rev E) -> 0 < sn < 2 ^ 52 ->
  exists out n, mod_watchScan fuel shardID replicaID t req sn start = Ok (rev, mkScan out n None)
    /\ scanMsgs req M rev (between sn rev E) start out.
Proof.
  intros HL Hnp Hsn. unfold mod_watchScan. rewrite (lg_rev _ _ _ _ _ _ HL).
  assert (exists init, (if start then let! m := sendCodeHeader shardID replicaID (u64 (wc_WatchId req)) MWatch_INIT rev in Ok [m] else Ok [])
            = Ok init /\ initMsg req rev start init) as (init & -> & Hi).
  { destruct start; [|by exists []]. unfold sendCodeHeader, sendCodeMsg, initMsg.
    destruct (marshal_header (mod_responseHeader shardID replicaID rev)) as [b Eb]. rewrite Eb. eexists. split; [done|]. by exists b. }
  cbn [rbind]. destruct (Z.eqb_spec sn 0); [lia|]. rewrite (mod_scan_ok fuel t E sn) by (try apply HL; lia).
  assert (since sn E = between sn rev E) as ->.
  { unfold since, between. apply filter_agree. eapply Forall_impl; [exact (lg_upto _ _ _ _ _ _ HL)|]. cbn. unfold evtUpper. lia. }
  destruct (mod_scanRun_ok t M E rev req rev (between sn rev E) (mkScan init 0 None) HL Hnp) as (ms & -> & Hf);
    [by intros x [_ Hx]%list_elem_of_filter|done|]. cbn [sc_out sc_sent rbind]. unfold mod_scanSync. cbn [sc_sent].
  destruct ms as [|m ms]; [rewrite app_nil_r|rewrite blen_cons; destruct (Z.ltb_spec 0 (0 + (1 + blen ms))); [|pose proof (blen_nonneg ms); lia]]; cbn [Z.add Z.ltb Z.compare rbind].
  - eexists _, _. split; [reflexivity|]. exists init, [], []. by rewrite app_nil_r.
  - unfold sendCodeMsg. destruct (marshal_sync (mkWatchEventSync [wc_WatchId req] rev)) as [b Eb]. rewrite Eb. cbn [must rbind sc_out sc_err].
    eexists _, _. split; [reflexivity|]. exists init, (m :: ms). eexists. rewrite <- (app_assoc init). split; [reflexivity|]. split; [done|].
    split; [done|]. by exists b.
Qed.

Lemma batches_app a b : Forall (fun m => isBatch m = false) a -> filter (fun m => isBatch m = true) (a ++ b) = filter (fun m => isBatch m = true) b.
Proof.
  intros Ha. rewrite filter_app, filter_none; [done|]. intros m Hm. rewrite Forall_forall in Ha. specialize (Ha m Hm). cbn in Ha. congruence.
Qed.

Lemma scan_batches req M rev E start out :
  scanMsgs req M rev E start out -> Forall2 (startBatch req M rev) (selected req E) (filter (fun m => isBatch m = true) out).
Proof.
  intros (init & ms & sync & -> & Hi & Hf & Hs).
  assert (Forall (fun m => isBatch m = false) init) as Hi'.
  { destruct start; cbn in Hi; [|by subst init]. destruct Hi as (b & _ & ->). by constructor. }
  assert (Forall (fun m => isBatch m = false) sync) as Hs'.
  { destruct ms; cbn in Hs; [by subst sync|]. destruct Hs as (b & _ & ->). by constructor. }
  rewrite batches_app, filter_app, (startBatch_isBatch req M rev _ ms Hf) by done.
  rewrite <- (app_nil_r sync), batches_app by done. cbn. by rewrite app_nil_r.
Qed.

(** ** The start of a watch *)

(** The state a started watch leaves: its request is cached and readable, and its
    revision recorded. *)
Definition registered (s s' : @modStream W) (rw : W) (id rev : Z) (req : WatchCreateRequest) : Prop :=
  exists b, pb_Marshal MWatchCreateRequest req = Ok b /\ s' = mod_register s rw id rev b.

(** The progress notice that ends a start, when asked for. *)
Definition startNote (req : WatchCreateRequest) (rev : Z) (l : list Result) : Prop :=
  if wc_ProgressNotify req then
    exists b, pb_Marshal MResponseHeader (mod_responseHeader shardID replicaID rev) = Ok b
              /\ l = [mkResult (u64 (wc_WatchId req)) (Zb MWatch_NOTIFY :: b)]
  else l = [].

Lemma startNote_noBatch req rev l : startNote req rev l -> filter (fun m => isBatch m = true) l = [].
Proof.
  unfold startNote. destruct (wc_ProgressNotify req); [|by intros ->]. by intros (b & _ & ->).
Qed.

Lemma watchStart_ok n (s : @modStream W) t0 t1 t2 req M1 M2 E1 E2 rev1 rev2 min rw1 rw2 rw3 :
  let id := u64 (wc_WatchId req) in let start := wc_StartRevision req in
  0 < start < 2 ^ 52 -> wc_WatchId req <> 0 -> getRevisionMin t0 = Ok min -> min <= start ->
  rw_Reserve (st_rw s) id = Some rw1 -> rw_Open rw1 id (wc_Key req) (wc_RangeEnd req) = Some rw2 -> rw_Start rw2 id = Some rw3 ->
  (exists b, pb_Marshal MWatchCreateRequest req = Ok b) ->
  Logged cfg fuel t1 M1 E1 rev1 -> Logged cfg fuel t2 M2 E2 rev2 -> allRight t1 M1 (between start rev1 E1) -> allRight t2 M2 (between (rev1 + 1) rev2 E2) ->
  exists s' out1 out2 notes, mod_watchStart fuel shardID replicaID n s t0 t1 t2 req = Ok (s', (out1 ++ out2) ++ notes)
    /\ scanMsgs req M1 rev1 (between start rev1 E1) true out1
    /\ scanMsgs req M2 rev2 (between (rev1 + 1) rev2 E2) false out2
    /\ startNote req rev2 notes
    /\ registered s s' rw3 id rev2 req.
Proof.
  intros id start Hst Hid Hmin Hle Hres Hopen Hstart [b Eb] HL1 HL2 Hnp1 Hnp2. unfold mod_watchStart, mod_reserve.
  destruct (Z.eqb_spec (wc_WatchId req) 0); [lia|]. fold id. rewrite Hres. cbn [rbind st_rw]. rewrite Hmin. cbn [must rbind].
  fold start id. rewrite (u64_id start) by (unfold is_u64; lia).
  destruct (Z.ltb_spec start min); [lia|]. rewrite andb_false_r, Eb. cbn [must rbind].
  destruct (mod_watchScan_ok t1 M1 E1 rev1 req start true HL1 Hnp1 Hst) as (out1 & ? & -> & Ho1). cbn [rbind sc_err isErr].
  destruct (Z.eqb_spec start 0); [lia|]. rewrite Hopen. cbn [mustSome rbind].
  pose proof (lg_bound _ _ _ _ _ _ HL1) as Hb1. rewrite (u64_id (rev1 + 1)) by (unfold is_u64; lia).
  destruct (mod_watchScan_ok t2 M2 E2 rev2 req (rev1 + 1) false HL2 Hnp2) as (out2 & ? & -> & Ho2); [lia|].
  cbn [rbind sc_err isErr]. rewrite Hstart. cbn [mustSome rbind sc_out]. unfold startNote.
  destruct (wc_ProgressNotify req).
  - unfold sendCodeHeader, sendCodeMsg. destruct (marshal_header (mod_responseHeader shardID replicaID rev2)) as [h Eh]. rewrite Eh. cbn [must rbind].
    eexists _, out1, out2, _. split; [reflexivity|]. split; [done|]. split; [done|]. split; [by exists h|by exists b].
  - eexists _, out1, out2, []. rewrite app_nil_r. split; [reflexivity|]. split; [done|]. split; [done|]. split; [done|by exists b].
Qed.

(** From then on the notices address exactly the later events the watch selects. *)
Lemma registered_addressed (s s' : @modStream W) rw id rev req e :
  (forall b, pb_Marshal MWatchCreateRequest req = Ok b -> b <> [] /\ pb_Unmarshal MWatchCreateRequest b = Some req) ->
  registered s s' rw id rev req -> 0 < evtUpper e ->
  addressed s' e (wc_PrevKv req) id = selects req e && (rev <? evtUpper e).
Proof.
  intros Hrt (b & Eb & ->) He. destruct (Hrt b Eb) as [Hne Hu]. unfold addressed, cachedReq, mod_register. cbn [st_cache st_revs].
  rewrite !lookup_insert_eq. change (default [] (Some b)) with b. change (default 0 (Some rev)) with rev.
  destruct b as [|b0 b]; [done|]. rewrite Hu, mod_wants_eq, Bool.eqb_reflx by done. by rewrite andb_true_r.
Qed.

End ModWatch.
