(* ===== verification/Wire.v ===== *)
(** * The wire format of the modules' messages
    (src/module/service-grpc/internal: api.pb.go, internal.pb.go)

    The modules' messages are marshalled by generated code over the runtime
    github.com/aperturerobotics/protobuf-go-lite, the class [WireLib]. A
    [MarshalToSizedBufferVT] fills its buffer from the back; the [..._body] functions are
    what it writes, from the front. An [UnmarshalVT] merges into the message it is called
    on and leaves what it has decoded there when it fails, so it returns the message and
    the error. A message carries the fields it does not know as they came ([raw]), and
    they are marshalled after the others. *)

From Stdlib Require Import Strings.String.
From S2P Require Import Prelude Types GoBinary Patch Kv Mdb Db Pb Watch.

Module Wire.

(** The errors of [UnmarshalVT]: its own, io.ErrUnexpectedEOF, and the runtime's. *)
Inductive wireError : Type :=
| EndGroup (message : string)
| IllegalTag (message : string) (fieldNum wire : Z)
| WrongWireType (wireType : Z) (field : string)
| InvalidLength
| UnexpectedEOF
| LibError (code : Z).

(** The runtime. A decoding function returns the value, the error or the next index. *)
Class WireLib : Type := {
  EncodeVarint : Z -> bytes;
  EncodeBytes : bytes -> bytes;
  EncodeBool : bool -> bytes;
  EncodeVarintPacked : list Z -> bytes;
  EncodeRawBytes : bytes -> bytes;
  SizeVarintNonZero : Z -> Z -> Z;
  SizeBytesNonEmpty : Z -> bytes -> Z;
  SizeBoolNonZero : Z -> bool -> Z;
  SizeVarintPacked : Z -> list Z -> Z;
  SizeMessage : Z -> Z -> Z;
  DecodeVarint : bytes -> Z -> Z * (wireError + Z);
  DecodeVarintInt64 : bytes -> Z -> Z * (wireError + Z);
  DecodeVarintBool : bytes -> Z -> bool * (wireError + Z);
  DecodeBytesAppend : nslice -> bytes -> Z -> nslice * (wireError + Z);
  DecodeString : bytes -> Z -> bytes * (wireError + Z);
  DecodeLengthDelimited : bytes -> Z -> wireError + (Z * Z);
  Skip : bytes -> wireError + Z;
  wireError_Error : wireError -> bytes
}.

Definition i32 (z : Z) : Z := (z + 2 ^ 31) mod 2 ^ 32 - 2 ^ 31.

(** ** Messages: an enumeration is its number, a message field may be nil *)

(** The known fields of a message and its [unknownFields]. *)
Record raw (A : Type) : Type := mkRaw { known : A; unknownFields : bytes }.
Arguments mkRaw {A} _ _.
Arguments known {A} _.
Arguments unknownFields {A} _.

Definition msgOf {A} (a : A) : raw A := mkRaw a [].

Record Event : Type := mkEvent { Type_ : Z; Kv : option (raw KeyValue); PrevKv : option (raw KeyValue) }.

Record WatchEventBatch : Type := mkWatchEventBatch {
  web_Event : option (raw Event); web_Revision : Z; web_WatchIds : list Z; web_WatchIdsPrev : list Z
}.

Record WatchResponse : Type := mkWatchResponse {
  wr_Header : option (raw ResponseHeader); wr_WatchId : Z; wr_Created : bool; wr_Canceled : bool;
  wr_CompactRevision : Z; wr_CancelReason : bytes; wr_Fragment : bool; wr_Events : list (raw Event)
}.

Record MemberListResponse : Type := mkMemberListResponse { ml_Header : raw ResponseHeader; ml_MemberID : Z }.

Record StatusResponse : Type := mkStatusResponse {
  st_Header : raw ResponseHeader; st_Version : bytes; st_DbSize : Z; st_Leader : Z; st_RaftIndex : Z;
  st_RaftTerm : Z; st_RaftAppliedIndex : Z; st_DbSizeInUse : Z
}.

(** The records of Pb, which the storage module fills, as these messages: the wire does
    not tell an empty value from none. *)
Definition ofKv (k : KeyValue) : raw KeyValue :=
  msgOf (mkKeyValue (CreateRevision k) (ModRevision k) (Version k) (Lease k) (Key k)
    (match Value k with Some [] => None | v => v end)).

Definition ofEvent (e : Pb.Event) : raw Event := msgOf (mkEvent (etypeZ (evt_Type e)) (ofKv <$> evt_Kv e) (ofKv <$> evt_PrevKv e)).

Definition ofBatch (b : Pb.WatchEventBatch) : raw WatchEventBatch :=
  msgOf (mkWatchEventBatch (Some (ofEvent (Pb.web_Event b))) (Pb.web_Revision b) (Pb.web_WatchIds b) (Pb.web_WatchIdsPrev b)).

Definition KeyValue_zero : raw KeyValue := msgOf (mkKeyValue 0 0 0 0 [] None).
Definition Event_zero : raw Event := msgOf (mkEvent 0 None None).
Definition ResponseHeader_zero : raw ResponseHeader := msgOf (mkResponseHeader 0 0 0 0).
Definition WatchEventBatch_zero : raw WatchEventBatch := msgOf (mkWatchEventBatch None 0 [] []).
Definition WatchEventSync_zero : raw WatchEventSync := msgOf (mkWatchEventSync [] 0).
Definition WatchResponse_zero : raw WatchResponse := msgOf (mkWatchResponse None 0 false false 0 [] false []).

Section Wire.
Context `{WireLib}.

(** ** Marshalling *)

(** A field, with its tag, when it is not the zero value. *)
Definition putVarint (tag v : Z) : bytes := if v =? 0 then [] else Zb tag :: EncodeVarint (u64 v).
Definition putBytes (tag : Z) (b : bytes) : bytes := if 0 <? blen b then Zb tag :: EncodeBytes b else [].
Definition putBool (tag : Z) (b : bool) : bytes := if b then Zb tag :: EncodeBool b else [].
Definition putPacked (tag : Z) (vs : list Z) : bytes := if 0 <? blen vs then Zb tag :: EncodeVarintPacked vs else [].
Definition putMessage (tag : Z) (body : bytes) : bytes := Zb tag :: EncodeVarint (blen body) ++ body.
Definition putMessageOpt {A} (tag : Z) (body : A -> bytes) (m : option A) : bytes :=
  match m with Some m => putMessage tag (body m) | None => [] end.

(** The unknown fields, nil when there are none. *)
Definition putUnknown (b : bytes) : bytes := match b with [] => [] | b => EncodeRawBytes b end.

(** [make([]byte, size)], filled from the back with [body]: panics when it is too small. *)
Definition sizedBuffer (size : Z) (body : bytes) : res bytes :=
  if size <? blen body then Panic else Ok (replicate (Z.to_nat (size - blen body)) Byte.x00 ++ body).

(** [MarshalVT]: the first [n] bytes of the buffer, [n] being the number written. *)
Definition marshalVT (size : Z) (body : bytes) : res bytes :=
  let! dAtA := sizedBuffer size body in Ok (take (length body) dAtA).

Definition KeyValue_body (m : raw KeyValue) : bytes :=
  putBytes 0x0a (Key (known m)) ++ putVarint 0x10 (CreateRevision (known m)) ++ putVarint 0x18 (ModRevision (known m))
  ++ putVarint 0x20 (Version (known m)) ++ putBytes 0x2a (sbytes (Value (known m))) ++ putVarint 0x30 (Lease (known m)) ++ putUnknown (unknownFields m).

Definition KeyValue_SizeVT (m : raw KeyValue) : Z :=
  SizeBytesNonEmpty 1 (Key (known m)) + SizeVarintNonZero 1 (CreateRevision (known m)) + SizeVarintNonZero 1 (ModRevision (known m))
  + SizeVarintNonZero 1 (Version (known m)) + SizeBytesNonEmpty 1 (sbytes (Value (known m))) + SizeVarintNonZero 1 (Lease (known m)) + blen (unknownFields m).

Definition sizeMessageOpt {A} (size : A -> Z) (m : option A) : Z :=
  match m with Some m => SizeMessage 1 (size m) | None => 0 end.

Definition Event_body (m : raw Event) : bytes :=
  putVarint 0x08 (Type_ (known m)) ++ putMessageOpt 0x12 KeyValue_body (Kv (known m)) ++ putMessageOpt 0x1a KeyValue_body (PrevKv (known m)) ++ putUnknown (unknownFields m).

Definition Event_SizeVT (m : raw Event) : Z :=
  SizeVarintNonZero 1 (Type_ (known m)) + sizeMessageOpt KeyValue_SizeVT (Kv (known m)) + sizeMessageOpt KeyValue_SizeVT (PrevKv (known m)) + blen (unknownFields m).

(** [MarshalVT] of a nil event is nil. *)
Definition Event_MarshalVT (m : option (raw Event)) : res bytes :=
  match m with Some m => marshalVT (Event_SizeVT m) (Event_body m) | None => Ok [] end.

Definition ResponseHeader_body (m : raw ResponseHeader) : bytes :=
  putVarint 0x08 (h_ClusterId (known m)) ++ putVarint 0x10 (h_MemberId (known m)) ++ putVarint 0x18 (h_Revision (known m)) ++ putVarint 0x20 (h_RaftTerm (known m)) ++ putUnknown (unknownFields m).

Definition ResponseHeader_SizeVT (m : raw ResponseHeader) : Z :=
  SizeVarintNonZero 1 (h_ClusterId (known m)) + SizeVarintNonZero 1 (h_MemberId (known m)) + SizeVarintNonZero 1 (h_Revision (known m))
  + SizeVarintNonZero 1 (h_RaftTerm (known m)) + blen (unknownFields m).

Definition WatchEventBatch_body (m : raw WatchEventBatch) : bytes :=
  putMessageOpt 0x0a Event_body (web_Event (known m)) ++ putVarint 0x10 (web_Revision (known m)) ++ putPacked 0x1a (web_WatchIds (known m))
  ++ putPacked 0x22 (web_WatchIdsPrev (known m)) ++ putUnknown (unknownFields m).

Definition WatchEventBatch_SizeVT (m : raw WatchEventBatch) : Z :=
  sizeMessageOpt Event_SizeVT (web_Event (known m)) + SizeVarintNonZero 1 (web_Revision (known m)) + SizeVarintPacked 1 (web_WatchIds (known m))
  + SizeVarintPacked 1 (web_WatchIdsPrev (known m)) + blen (unknownFields m).

Definition WatchEventSync_body (m : raw WatchEventSync) : bytes :=
  putPacked 0x0a (wes_IDs (known m)) ++ putVarint 0x10 (wes_Revision (known m)) ++ putUnknown (unknownFields m).

Definition WatchEventSync_SizeVT (m : raw WatchEventSync) : Z :=
  SizeVarintPacked 1 (wes_IDs (known m)) + SizeVarintNonZero 1 (wes_Revision (known m)) + blen (unknownFields m).

Definition WatchResponse_body (m : raw WatchResponse) : bytes :=
  putMessageOpt 0x0a ResponseHeader_body (wr_Header (known m)) ++ putVarint 0x10 (wr_WatchId (known m)) ++ putBool 0x18 (wr_Created (known m))
  ++ putBool 0x20 (wr_Canceled (known m)) ++ putVarint 0x28 (wr_CompactRevision (known m)) ++ putBytes 0x32 (wr_CancelReason (known m))
  ++ putBool 0x38 (wr_Fragment (known m)) ++ concat ((fun e => putMessage 0x5a (Event_body e)) <$> wr_Events (known m)) ++ putUnknown (unknownFields m).

Definition WatchResponse_SizeVT (m : raw WatchResponse) : Z :=
  sizeMessageOpt ResponseHeader_SizeVT (wr_Header (known m)) + SizeVarintNonZero 1 (wr_WatchId (known m)) + SizeBoolNonZero 1 (wr_Created (known m))
  + SizeBoolNonZero 1 (wr_Canceled (known m)) + SizeVarintNonZero 1 (wr_CompactRevision (known m)) + SizeBytesNonEmpty 1 (wr_CancelReason (known m))
  + SizeBoolNonZero 1 (wr_Fragment (known m)) + fold_right Z.add 0 ((fun e => SizeMessage 1 (Event_SizeVT e)) <$> wr_Events (known m)) + blen (unknownFields m).

Definition WatchResponse_MarshalVT (m : raw WatchResponse) : res bytes := marshalVT (WatchResponse_SizeVT m) (WatchResponse_body m).

Definition MemberListResponse_MarshalVT (m : MemberListResponse) : res bytes :=
  marshalVT (SizeMessage 1 (ResponseHeader_SizeVT (ml_Header m)) + SizeMessage 1 (SizeVarintNonZero 1 (ml_MemberID m)))
    (putMessage 0x0a (ResponseHeader_body (ml_Header m)) ++ putMessage 0x12 (putVarint 0x08 (ml_MemberID m))).

Definition StatusResponse_MarshalVT (m : StatusResponse) : res bytes :=
  marshalVT (SizeMessage 1 (ResponseHeader_SizeVT (st_Header m)) + SizeBytesNonEmpty 1 (st_Version m)
             + SizeVarintNonZero 1 (st_DbSize m) + SizeVarintNonZero 1 (st_Leader m) + SizeVarintNonZero 1 (st_RaftIndex m)
             + SizeVarintNonZero 1 (st_RaftTerm m) + SizeVarintNonZero 1 (st_RaftAppliedIndex m) + SizeVarintNonZero 1 (st_DbSizeInUse m))
    (putMessage 0x0a (ResponseHeader_body (st_Header m)) ++ putBytes 0x12 (st_Version m) ++ putVarint 0x18 (st_DbSize m)
     ++ putVarint 0x20 (st_Leader m) ++ putVarint 0x28 (st_RaftIndex m) ++ putVarint 0x30 (st_RaftTerm m)
     ++ putVarint 0x38 (st_RaftAppliedIndex m) ++ putVarint 0x48 (st_DbSizeInUse m)).

(** [alarmResp]: an empty header and no alarms. *)
Definition AlarmResponse_MarshalVT : res bytes :=
  marshalVT (SizeMessage 1 (ResponseHeader_SizeVT ResponseHeader_zero)) (putMessage 0x0a (ResponseHeader_body ResponseHeader_zero)).

(** ** Unmarshalling *)

(** What a case of the switch leaves: the message, and the error or the next index. *)
Abbreviation fieldRes A := (res (A * (wireError + Z))).

(** The loop over the fields of [dAtA]. [field] is the switch, [None] its default case;
    [n] bounds the fields. *)
Fixpoint unmarshalLoop {A} (n : nat) (name : string) (field : A -> Z -> Z -> bytes -> Z -> option (fieldRes A))
    (m : raw A) (dAtA : bytes) (iNdEx : Z) : res (raw A * option wireError) :=
  let l := blen dAtA in
  if iNdEx <? l then
    match n with
    | O => NoFuel
    | S n =>
        let '(wire, r) := DecodeVarint dAtA iNdEx in
        match r with
        | inl e => Ok (m, Some e)
        | inr i =>
            let fieldNum := i32 (Z.shiftr wire 3) in
            let wireType := Z.land wire 7 in
            if wireType =? 4 then Ok (m, Some (EndGroup name)) else
            if fieldNum <=? 0 then Ok (m, Some (IllegalTag name fieldNum wire)) else
            match field (known m) fieldNum wireType dAtA i with
            | Some r =>
                let! '(k, r) := r in
                let m := mkRaw k (unknownFields m) in
                match r with
                | inl e => Ok (m, Some e)
                | inr i => unmarshalLoop n name field m dAtA i
                end
            | None =>
                let! rest := slice dAtA iNdEx l in
                match Skip rest with
                | inl e => Ok (m, Some e)
                | inr skippy =>
                    if (skippy <? 0) || (iNdEx + skippy <? 0) then Ok (m, Some InvalidLength) else
                    if l <? iNdEx + skippy then Ok (m, Some UnexpectedEOF)
                    else
                      let! skipped := slice dAtA iNdEx (iNdEx + skippy) in
                      unmarshalLoop n name field (mkRaw (known m) (unknownFields m ++ skipped)) dAtA (iNdEx + skippy)
                end
            end
        end
    end
  else Ok (m, if l <? iNdEx then Some UnexpectedEOF else None).

Definition unmarshalVT {A} name field (m : raw A) (dAtA : bytes) : res (raw A * option wireError) :=
  unmarshalLoop (length dAtA) name field m dAtA 0.

(** The cases, by the type of the field. *)
Section Fields.
Context {A : Type} (name : string) (m : A) (wireType : Z) (dAtA : bytes) (i : Z).

Definition getVarint (set : Z -> A) : fieldRes A :=
  if negb (wireType =? 0) then Ok (m, inl (WrongWireType wireType name))
  else let '(v, r) := DecodeVarint dAtA i in Ok (set v, r).

Definition getInt64 (set : Z -> A) : fieldRes A :=
  if negb (wireType =? 0) then Ok (m, inl (WrongWireType wireType name))
  else let '(v, r) := DecodeVarintInt64 dAtA i in Ok (set v, r).

Definition getBool (set : bool -> A) : fieldRes A :=
  if negb (wireType =? 0) then Ok (m, inl (WrongWireType wireType name))
  else let '(v, r) := DecodeVarintBool dAtA i in Ok (match r with inl _ => m | inr _ => set v end, r).

Definition getBytes (old : nslice) (set : nslice -> A) : fieldRes A :=
  if negb (wireType =? 2) then Ok (m, inl (WrongWireType wireType name))
  else let '(v, r) := DecodeBytesAppend old dAtA i in Ok (set v, r).

Definition getString (set : bytes -> A) : fieldRes A :=
  if negb (wireType =? 2) then Ok (m, inl (WrongWireType wireType name))
  else let '(v, r) := DecodeString dAtA i in Ok (match r with inl _ => m | inr _ => set v end, r).

(** A message field: decoded into the message there is, or a new one. *)
Definition getMessage {B} (unmarshal : B -> bytes -> res (B * option wireError)) (old : B) (set : B -> A) : fieldRes A :=
  if negb (wireType =? 2) then Ok (m, inl (WrongWireType wireType name))
  else
    match DecodeLengthDelimited dAtA i with
    | inl e => Ok (m, inl e)
    | inr (msgStart, postIndex) =>
        let! b := slice dAtA msgStart postIndex in
        let! '(x, e) := unmarshal old b in
        Ok (set x, match e with Some e => inl e | None => inr postIndex end)
    end.

(** The packed elements up to [postIndex]; an element may run past it. *)
Fixpoint packedLoop (n : nat) (set : list Z -> A) (vs : list Z) (i postIndex : Z) : fieldRes A :=
  if i <? postIndex then
    match n with
    | O => NoFuel
    | S n =>
        let '(v, r) := DecodeVarintInt64 dAtA i in
        match r with
        | inl e => Ok (set vs, inl e)
        | inr i => packedLoop n set (vs ++ [v]) i postIndex
        end
    end
  else Ok (set vs, inr i).

Definition getPacked (old : list Z) (set : list Z -> A) : fieldRes A :=
  if wireType =? 0 then
    let '(v, r) := DecodeVarintInt64 dAtA i in
    Ok (match r with inl _ => m | inr _ => set (old ++ [v]) end, r)
  else if wireType =? 2 then
    match DecodeLengthDelimited dAtA i with
    | inl e => Ok (m, inl e)
    | inr (packedStart, postIndex) => packedLoop (length dAtA) set old packedStart postIndex
    end
  else Ok (m, inl (WrongWireType wireType name)).

End Fields.

Definition KeyValue_field (m : KeyValue) (fieldNum wireType : Z) (dAtA : bytes) (i : Z) : option (fieldRes KeyValue) :=
  let '(mkKeyValue c md v l k val) := m in
  match fieldNum with
  | 1 => Some (getBytes "Key" m wireType dAtA i (Some k) (fun k => mkKeyValue c md v l (sbytes k) val))
  | 2 => Some (getInt64 "CreateRevision" m wireType dAtA i (fun c => mkKeyValue c md v l k val))
  | 3 => Some (getInt64 "ModRevision" m wireType dAtA i (fun md => mkKeyValue c md v l k val))
  | 4 => Some (getInt64 "Version" m wireType dAtA i (fun v => mkKeyValue c md v l k val))
  | 5 => Some (getBytes "Value" m wireType dAtA i val (fun val => mkKeyValue c md v l k val))
  | 6 => Some (getInt64 "Lease" m wireType dAtA i (fun l => mkKeyValue c md v l k val))
  | _ => None
  end%string.

Definition KeyValue_UnmarshalVT := unmarshalVT "KeyValue" KeyValue_field.

Definition Event_field (m : Event) (fieldNum wireType : Z) (dAtA : bytes) (i : Z) : option (fieldRes Event) :=
  let '(mkEvent t k p) := m in
  match fieldNum with
  | 1 => Some (getVarint "Type" m wireType dAtA i (fun t => mkEvent (i32 t) k p))
  | 2 => Some (getMessage "Kv" m wireType dAtA i KeyValue_UnmarshalVT (default KeyValue_zero k) (fun k => mkEvent t (Some k) p))
  | 3 => Some (getMessage "PrevKv" m wireType dAtA i KeyValue_UnmarshalVT (default KeyValue_zero p) (fun p => mkEvent t k (Some p)))
  | _ => None
  end%string.

Definition Event_UnmarshalVT := unmarshalVT "Event" Event_field.

Definition ResponseHeader_field (m : ResponseHeader) (fieldNum wireType : Z) (dAtA : bytes) (i : Z) : option (fieldRes ResponseHeader) :=
  let '(mkResponseHeader rev c mem t) := m in
  match fieldNum with
  | 1 => Some (getVarint "ClusterId" m wireType dAtA i (fun c => mkResponseHeader rev c mem t))
  | 2 => Some (getVarint "MemberId" m wireType dAtA i (fun mem => mkResponseHeader rev c mem t))
  | 3 => Some (getInt64 "Revision" m wireType dAtA i (fun rev => mkResponseHeader rev c mem t))
  | 4 => Some (getVarint "RaftTerm" m wireType dAtA i (fun t => mkResponseHeader rev c mem t))
  | _ => None
  end%string.

Definition ResponseHeader_UnmarshalVT := unmarshalVT "ResponseHeader" ResponseHeader_field.

Definition WatchEventBatch_field (m : WatchEventBatch) (fieldNum wireType : Z) (dAtA : bytes) (i : Z) : option (fieldRes WatchEventBatch) :=
  let '(mkWatchEventBatch e r ids prev) := m in
  match fieldNum with
  | 1 => Some (getMessage "Event" m wireType dAtA i Event_UnmarshalVT (default Event_zero e) (fun e => mkWatchEventBatch (Some e) r ids prev))
  | 2 => Some (getVarint "Revision" m wireType dAtA i (fun r => mkWatchEventBatch e r ids prev))
  | 3 => Some (getPacked "WatchIds" m wireType dAtA i ids (fun ids => mkWatchEventBatch e r ids prev))
  | 4 => Some (getPacked "WatchIdsPrev" m wireType dAtA i prev (fun prev => mkWatchEventBatch e r ids prev))
  | _ => None
  end%string.

Definition WatchEventBatch_UnmarshalVT := unmarshalVT "WatchEventBatch" WatchEventBatch_field.

Definition WatchEventSync_field (m : WatchEventSync) (fieldNum wireType : Z) (dAtA : bytes) (i : Z) : option (fieldRes WatchEventSync) :=
  let '(mkWatchEventSync ids r) := m in
  match fieldNum with
  | 1 => Some (getPacked "IDs" m wireType dAtA i ids (fun ids => mkWatchEventSync ids r))
  | 2 => Some (getVarint "Revision" m wireType dAtA i (fun r => mkWatchEventSync ids r))
  | _ => None
  end%string.

Definition WatchEventSync_UnmarshalVT := unmarshalVT "WatchEventSync" WatchEventSync_field.

Definition WatchResponse_field (m : WatchResponse) (fieldNum wireType : Z) (dAtA : bytes) (i : Z) : option (fieldRes WatchResponse) :=
  let '(mkWatchResponse h id cr ca rev why fr evs) := m in
  match fieldNum with
  | 1 => Some (getMessage "Header" m wireType dAtA i ResponseHeader_UnmarshalVT (default ResponseHeader_zero h)
                 (fun h => mkWatchResponse (Some h) id cr ca rev why fr evs))
  | 2 => Some (getInt64 "WatchId" m wireType dAtA i (fun id => mkWatchResponse h id cr ca rev why fr evs))
  | 3 => Some (getBool "Created" m wireType dAtA i (fun cr => mkWatchResponse h id cr ca rev why fr evs))
  | 4 => Some (getBool "Canceled" m wireType dAtA i (fun ca => mkWatchResponse h id cr ca rev why fr evs))
  | 5 => Some (getInt64 "CompactRevision" m wireType dAtA i (fun rev => mkWatchResponse h id cr ca rev why fr evs))
  | 6 => Some (getString "CancelReason" m wireType dAtA i (fun why => mkWatchResponse h id cr ca rev why fr evs))
  | 7 => Some (getBool "Fragment" m wireType dAtA i (fun fr => mkWatchResponse h id cr ca rev why fr evs))
  | 11 => Some (getMessage "Events" m wireType dAtA i Event_UnmarshalVT Event_zero
                  (fun e => mkWatchResponse h id cr ca rev why fr (evs ++ [e])))
  | _ => None
  end%string.

Definition WatchResponse_UnmarshalVT := unmarshalVT "WatchResponse" WatchResponse_field.

(** The sort fields, which nothing reads, are decoded and dropped. *)
Definition RangeRequest_field (m : RangeRequest) (fieldNum wireType : Z) (dAtA : bytes) (i : Z) : option (fieldRes RangeRequest) :=
  let '(mkRangeRequest k e l r mm xm mc xc ko co s) := m in
  match fieldNum with
  | 1 => Some (getBytes "Key" m wireType dAtA i (Some k) (fun k => mkRangeRequest (sbytes k) e l r mm xm mc xc ko co s))
  | 2 => Some (getBytes "RangeEnd" m wireType dAtA i (Some e) (fun e => mkRangeRequest k (sbytes e) l r mm xm mc xc ko co s))
  | 3 => Some (getInt64 "Limit" m wireType dAtA i (fun l => mkRangeRequest k e l r mm xm mc xc ko co s))
  | 4 => Some (getInt64 "Revision" m wireType dAtA i (fun r => mkRangeRequest k e l r mm xm mc xc ko co s))
  | 5 => Some (getVarint "SortOrder" m wireType dAtA i (fun _ => m))
  | 6 => Some (getVarint "SortTarget" m wireType dAtA i (fun _ => m))
  | 7 => Some (getBool "Serializable" m wireType dAtA i (fun s => mkRangeRequest k e l r mm xm mc xc ko co s))
  | 8 => Some (getBool "KeysOnly" m wireType dAtA i (fun ko => mkRangeRequest k e l r mm xm mc xc ko co s))
  | 9 => Some (getBool "CountOnly" m wireType dAtA i (fun co => mkRangeRequest k e l r mm xm mc xc ko co s))
  | 10 => Some (getInt64 "MinModRevision" m wireType dAtA i (fun mm => mkRangeRequest k e l r mm xm mc xc ko co s))
  | 11 => Some (getInt64 "MaxModRevision" m wireType dAtA i (fun xm => mkRangeRequest k e l r mm xm mc xc ko co s))
  | 12 => Some (getInt64 "MinCreateRevision" m wireType dAtA i (fun mc => mkRangeRequest k e l r mm xm mc xc ko co s))
  | 13 => Some (getInt64 "MaxCreateRevision" m wireType dAtA i (fun xc => mkRangeRequest k e l r mm xm mc xc ko co s))
  | _ => None
  end%string.

Definition RangeRequest_UnmarshalVT := unmarshalVT "RangeRequest" RangeRequest_field.

End Wire.

End Wire.
