(* ===== verification/WireFacts.v ===== *)
(** * Facts about the wire format (src/module/service-grpc/internal)

    The laws of the runtime, [WireLibOk]; the size computed for a message is the number
    of bytes marshalled; what was marshalled is read back; decoding ends. *)

From Stdlib Require Import Strings.String.
From S2P Require Import Prelude Types GoBinary Patch Kv Mdb Db Pb Watch Wire.

Import Wire(WireLib, Event, WatchEventBatch, WatchResponse, raw, known, unknownFields).

(** The runtime writes and reads protobuf's base-128 varints and length prefixes, and a
    decoder that succeeds has read at least a byte. *)
Class WireLibOk `{WireLib} : Prop := {
  enc_small v : 0 <= v < 128 -> Wire.EncodeVarint v = [Zb v];
  enc_length v : is_u64 v -> blen (Wire.EncodeVarint v) <= 10;
  enc_bytes b : Wire.EncodeBytes b = Wire.EncodeVarint (blen b) ++ b;
  enc_bool b : Wire.EncodeBool b = Wire.EncodeVarint (if b then 1 else 0);
  enc_packed vs : Wire.EncodeVarintPacked vs
    = Wire.EncodeVarint (blen (concat ((fun v => Wire.EncodeVarint (u64 v)) <$> vs))) ++ concat ((fun v => Wire.EncodeVarint (u64 v)) <$> vs);
  enc_raw b : Wire.EncodeRawBytes b = b;
  size_varint k v : Wire.SizeVarintNonZero k v = if v =? 0 then 0 else k + blen (Wire.EncodeVarint (u64 v));
  size_bytes k b : Wire.SizeBytesNonEmpty k b = if 0 <? blen b then k + blen (Wire.EncodeBytes b) else 0;
  size_bool k b : Wire.SizeBoolNonZero k b = if b then k + blen (Wire.EncodeBool b) else 0;
  size_packed k vs : Wire.SizeVarintPacked k vs = if 0 <? blen vs then k + blen (Wire.EncodeVarintPacked vs) else 0;
  size_message k n : Wire.SizeMessage k n = k + blen (Wire.EncodeVarint n) + n;
  dec_varint pre v post : is_u64 v ->
    Wire.DecodeVarint (pre ++ Wire.EncodeVarint v ++ post) (blen pre) = (v, inr (blen pre + blen (Wire.EncodeVarint v)));
  dec_int64 pre v post : is_i64 v ->
    Wire.DecodeVarintInt64 (pre ++ Wire.EncodeVarint (u64 v) ++ post) (blen pre) = (v, inr (blen pre + blen (Wire.EncodeVarint (u64 v))));
  dec_bool pre b post :
    Wire.DecodeVarintBool (pre ++ Wire.EncodeBool b ++ post) (blen pre) = (b, inr (blen pre + blen (Wire.EncodeBool b)));
  dec_bytes old pre b post : sbytes old = [] -> blen b < 2 ^ 63 ->
    Wire.DecodeBytesAppend old (pre ++ Wire.EncodeBytes b ++ post) (blen pre) = (Some b, inr (blen pre + blen (Wire.EncodeBytes b)));
  dec_string pre b post : blen b < 2 ^ 63 ->
    Wire.DecodeString (pre ++ Wire.EncodeBytes b ++ post) (blen pre) = (b, inr (blen pre + blen (Wire.EncodeBytes b)));
  dec_delimited pre b post : blen b < 2 ^ 63 ->
    Wire.DecodeLengthDelimited (pre ++ Wire.EncodeBytes b ++ post) (blen pre)
    = inr (blen pre + blen (Wire.EncodeVarint (blen b)), blen pre + blen (Wire.EncodeBytes b));
  dec_progress d i v j : Wire.DecodeVarint d i = (v, inr j) -> i < j;
  int64_progress d i v j : Wire.DecodeVarintInt64 d i = (v, inr j) -> i < j;
  bool_progress d i v j : Wire.DecodeVarintBool d i = (v, inr j) -> i < j;
  bytes_progress old d i v j : Wire.DecodeBytesAppend old d i = (v, inr j) -> i < j;
  string_progress d i v j : Wire.DecodeString d i = (v, inr j) -> i < j;
  delimited_progress d i a b : 0 <= i -> Wire.DecodeLengthDelimited d i = inr (a, b) -> i < a /\ a <= b <= blen d;
  skip_progress d n : Wire.Skip d = inr n -> 0 < n
}.

Section WireFacts.
Context {L : WireLib} {LOk : WireLibOk}.

(** ** Sizes *)

Lemma len_putVarint tag v : blen (Wire.putVarint tag v) = Wire.SizeVarintNonZero 1 v.
Proof. rewrite size_varint. unfold Wire.putVarint. destruct (v =? 0); [done|blia]. Qed.

Lemma len_putBytes tag b : blen (Wire.putBytes tag b) = Wire.SizeBytesNonEmpty 1 b.
Proof. rewrite size_bytes. unfold Wire.putBytes. destruct (0 <? blen b); [blia|done]. Qed.

Lemma len_putBool tag b : blen (Wire.putBool tag b) = Wire.SizeBoolNonZero 1 b.
Proof. rewrite size_bool. unfold Wire.putBool. destruct b; [blia|done]. Qed.

Lemma len_putPacked tag vs : blen (Wire.putPacked tag vs) = Wire.SizeVarintPacked 1 vs.
Proof. rewrite size_packed. unfold Wire.putPacked. destruct (0 <? blen vs); [blia|done]. Qed.

Lemma len_putMessage tag body : blen (Wire.putMessage tag body) = Wire.SizeMessage 1 (blen body).
Proof. rewrite size_message. unfold Wire.putMessage. blia. Qed.

Lemma len_putMessageOpt {A} tag (body : A -> bytes) size m :
  (forall x, blen (body x) = size x) -> blen (Wire.putMessageOpt tag body m) = Wire.sizeMessageOpt size m.
Proof. intros Hs. destruct m as [x|]; [|done]. cbn. by rewrite len_putMessage, Hs. Qed.

Lemma putUnknown_id b : Wire.putUnknown b = b.
Proof. destruct b; [done|]. apply enc_raw. Qed.

Create Rewrite HintDb wiresize.
Create HintDb wiremoves discriminated.
#[local] Hint Rewrite @blen_app len_putVarint len_putBytes len_putBool len_putPacked len_putMessage putUnknown_id : wiresize.

Lemma KeyValue_size m : blen (Wire.KeyValue_body m) = Wire.KeyValue_SizeVT m.
Proof. unfold Wire.KeyValue_body, Wire.KeyValue_SizeVT. autorewrite with wiresize. lia. Qed.

Lemma Event_size m : blen (Wire.Event_body m) = Wire.Event_SizeVT m.
Proof.
  unfold Wire.Event_body, Wire.Event_SizeVT. autorewrite with wiresize.
  rewrite !(len_putMessageOpt _ _ _ _ KeyValue_size). lia.
Qed.

Lemma ResponseHeader_size m : blen (Wire.ResponseHeader_body m) = Wire.ResponseHeader_SizeVT m.
Proof. unfold Wire.ResponseHeader_body, Wire.ResponseHeader_SizeVT. autorewrite with wiresize. lia. Qed.

Lemma WatchEventBatch_size m : blen (Wire.WatchEventBatch_body m) = Wire.WatchEventBatch_SizeVT m.
Proof.
  unfold Wire.WatchEventBatch_body, Wire.WatchEventBatch_SizeVT. autorewrite with wiresize.
  rewrite (len_putMessageOpt _ _ _ _ Event_size). lia.
Qed.

Lemma WatchEventSync_size m : blen (Wire.WatchEventSync_body m) = Wire.WatchEventSync_SizeVT m.
Proof. unfold Wire.WatchEventSync_body, Wire.WatchEventSync_SizeVT. autorewrite with wiresize. lia. Qed.

Lemma WatchResponse_size m : blen (Wire.WatchResponse_body m) = Wire.WatchResponse_SizeVT m.
Proof.
  unfold Wire.WatchResponse_body, Wire.WatchResponse_SizeVT. autorewrite with wiresize.
  rewrite (len_putMessageOpt _ _ _ _ ResponseHeader_size).
  assert (blen (concat ((fun e => Wire.putMessage 0x5a (Wire.Event_body e)) <$> Wire.wr_Events (Wire.known m)))
          = fold_right Z.add 0 ((fun e => Wire.SizeMessage 1 (Wire.Event_SizeVT e)) <$> Wire.wr_Events (Wire.known m))) as ->; [|lia].
  induction (Wire.wr_Events (Wire.known m)) as [|e l IH]; [done|]. cbn [fmap list_fmap concat fold_right].
  rewrite blen_app, IH, len_putMessage, Event_size. done.
Qed.

(** A buffer of the right size comes back filled and whole. *)
Lemma sizedBuffer_exact size body : blen body = size -> Wire.sizedBuffer size body = Ok body.
Proof.
  intros <-. unfold Wire.sizedBuffer. rewrite Z.ltb_irrefl, Z.sub_diag. done.
Qed.

Lemma marshalVT_exact size body : blen body = size -> Wire.marshalVT size body = Ok body.
Proof. intros E. unfold Wire.marshalVT. rewrite sizedBuffer_exact by done. cbn [rbind]. by rewrite take_ge. Qed.

(** ** Reading back

    [reads name field m body m']: with [body] ahead, whatever is around it, the loop goes
    on behind it with [m'] in place of [m], having used no more steps than bytes. *)
Definition reads {A} (name : string) (field : A -> Z -> Z -> bytes -> Z -> option (res (A * (Wire.wireError + Z)))) (m : A) (body : bytes) (m' : A) : Prop :=
  forall u pre post n, (length body <= n)%nat -> exists n', (n <= n' + length body)%nat
    /\ Wire.unmarshalLoop n name field (Wire.mkRaw m u) (pre ++ body ++ post) (blen pre)
       = Wire.unmarshalLoop n' name field (Wire.mkRaw m' u) (pre ++ body ++ post) (blen (pre ++ body)).

Lemma reads_nil {A} name field (m : A) : reads name field m [] m.
Proof. intros u pre post n _. exists n. rewrite app_nil_r. split; [cbn; lia|done]. Qed.

Lemma reads_app {A} name field (m m1 m2 : A) a b :
  reads name field m a m1 -> reads name field m1 b m2 -> reads name field m (a ++ b) m2.
Proof.
  intros Ha Hb u pre post n Hn. rewrite length_app in Hn |- *.
  destruct (Ha u pre (b ++ post) n) as (n1 & Hn1 & E1); [lia|].
  destruct (Hb u (pre ++ a) post n1) as (n2 & Hn2 & E2); [lia|].
  exists n2. split; [lia|]. rewrite <- !app_assoc in *. by rewrite E1, E2.
Qed.

Lemma reads_all {A} name field (m m' : A) body :
  reads name field m body m' -> Wire.unmarshalVT name field (Wire.msgOf m) body = Ok (Wire.msgOf m', None).
Proof.
  intros Hr. unfold Wire.unmarshalVT. destruct (Hr [] [] [] (length body)) as (n & _ & E); [done|].
  cbn [app] in E. rewrite app_nil_r in E. change (blen []) with 0 in E. unfold Wire.msgOf. rewrite E.
  destruct n; cbn [Wire.unmarshalLoop]; by rewrite Z.ltb_irrefl.
Qed.

(** One field: its tag is a byte, and its case reads the payload. *)
Lemma reads_field {A} name field (m m' : A) tag payload :
  0 < tag < 128 -> Z.land tag 7 <> 4 -> 0 < Z.shiftr tag 3 ->
  (forall pre post, field m (Z.shiftr tag 3) (Z.land tag 7) (pre ++ payload ++ post) (blen pre)
                    = Some (Ok (m', inr (blen pre + blen payload)))) ->
  reads name field m (Zb tag :: payload) m'.
Proof.
  intros Ht H4 H3 Hf u pre post n Hn. destruct n as [|n]; [cbn in Hn; lia|]. exists n. split; [cbn; lia|].
  cbn [Wire.unmarshalLoop Wire.known Wire.unknownFields]. pose proof (blen_nonneg pre) as Hp.
  destruct (Z.ltb_spec (blen pre) (blen (pre ++ (Zb tag :: payload) ++ post))) as [_|]; [|blia].
  pose proof (dec_varint pre tag (payload ++ post)) as Hd. rewrite (enc_small tag) in Hd by lia.
  change ([Zb tag] ++ payload ++ post) with ((Zb tag :: payload) ++ post) in Hd. rewrite Hd by (unfold is_u64; lia).
  assert (Wire.i32 (Z.shiftr tag 3) = Z.shiftr tag 3) as ->.
  { unfold Wire.i32. rewrite Z.shiftr_div_pow2 in * by lia. rewrite Z.mod_small; [lia|]. change (2 ^ 3) with 8. Z.to_euclidean_division_equations; lia. }
  destruct (Z.eqb_spec (Z.land tag 7) 4) as [|_]; [done|]. destruct (Z.leb_spec (Z.shiftr tag 3) 0) as [|_]; [lia|].
  specialize (Hf (pre ++ [Zb tag]) post). rewrite <- app_assoc in Hf. cbn [app] in Hf |- *.
  replace (blen pre + blen [Zb tag]) with (blen (pre ++ [Zb tag])) by blia. rewrite Hf. cbn [rbind].
  f_equal. blia.
Qed.

(** The kinds of fields, each left out when it is the zero value. *)
Lemma reads_varint {A} name field (m m' : A) set fname tag v :
  0 < tag < 128 -> Z.land tag 7 = 0 -> 0 < Z.shiftr tag 3 -> is_u64 v ->
  (v <> 0 -> set v = m') -> (v = 0 -> m = m') ->
  (forall d i, field m (Z.shiftr tag 3) 0 d i = Some (Wire.getVarint fname m 0 d i set)) ->
  reads name field m (Wire.putVarint tag v) m'.
Proof.
  intros Ht H7 H3 Hv Hset H0 Hf. unfold Wire.putVarint. destruct (Z.eqb_spec v 0) as [E|Hne]; [rewrite H0 by done; apply reads_nil|].
  rewrite u64_id by done. apply reads_field; try lia. intros pre post. rewrite H7, Hf. unfold Wire.getVarint. cbn [Z.eqb negb].
  rewrite dec_varint by done. by rewrite Hset.
Qed.

Lemma reads_int64 {A} name field (m m' : A) set fname tag v :
  0 < tag < 128 -> Z.land tag 7 = 0 -> 0 < Z.shiftr tag 3 -> is_i64 v ->
  (v <> 0 -> set v = m') -> (v = 0 -> m = m') ->
  (forall d i, field m (Z.shiftr tag 3) 0 d i = Some (Wire.getInt64 fname m 0 d i set)) ->
  reads name field m (Wire.putVarint tag v) m'.
Proof.
  intros Ht H7 H3 Hv Hset H0 Hf. unfold Wire.putVarint. destruct (Z.eqb_spec v 0) as [E|Hne]; [rewrite H0 by done; apply reads_nil|].
  apply reads_field; try lia. intros pre post. rewrite H7, Hf. unfold Wire.getInt64. cbn [Z.eqb negb].
  rewrite dec_int64 by done. by rewrite Hset.
Qed.

Lemma reads_bool {A} name field (m m' : A) set fname tag b :
  0 < tag < 128 -> Z.land tag 7 = 0 -> 0 < Z.shiftr tag 3 ->
  (b = true -> set true = m') -> (b = false -> m = m') ->
  (forall d i, field m (Z.shiftr tag 3) 0 d i = Some (Wire.getBool fname m 0 d i set)) ->
  reads name field m (Wire.putBool tag b) m'.
Proof.
  intros Ht H7 H3 Hset H0 Hf. unfold Wire.putBool. destruct b; [|rewrite H0 by done; apply reads_nil].
  apply reads_field; try lia. intros pre post. rewrite H7, Hf. unfold Wire.getBool. cbn [Z.eqb negb].
  rewrite dec_bool. by rewrite Hset.
Qed.

Lemma blen_pos {A} (l : list A) : l <> [] -> 0 < blen l.
Proof. destruct l; [done|]. intros _. rewrite blen_cons. pose proof (blen_nonneg l). lia. Qed.

Lemma reads_bytes {A} name field (m m' : A) set fname tag b old :
  0 < tag < 128 -> Z.land tag 7 = 2 -> 0 < Z.shiftr tag 3 -> blen b < 2 ^ 63 -> sbytes old = [] ->
  (b <> [] -> set (Some b) = m') -> (b = [] -> m = m') ->
  (forall d i, field m (Z.shiftr tag 3) 2 d i = Some (Wire.getBytes fname m 2 d i old set)) ->
  reads name field m (Wire.putBytes tag b) m'.
Proof.
  intros Ht H7 H3 Hb Hold Hset H0 Hf. unfold Wire.putBytes.
  destruct (decide (b = [])) as [->|Hne]; [rewrite H0 by done; apply reads_nil|].
  destruct (Z.ltb_spec 0 (blen b)) as [_|]; [|pose proof (blen_pos b Hne); lia].
  apply reads_field; try lia. intros pre post. rewrite H7, Hf. unfold Wire.getBytes. cbn [Z.eqb negb].
  rewrite dec_bytes by done. by rewrite Hset.
Qed.

Lemma reads_string {A} name field (m m' : A) set fname tag b :
  0 < tag < 128 -> Z.land tag 7 = 2 -> 0 < Z.shiftr tag 3 -> blen b < 2 ^ 63 ->
  (b <> [] -> set b = m') -> (b = [] -> m = m') ->
  (forall d i, field m (Z.shiftr tag 3) 2 d i = Some (Wire.getString fname m 2 d i set)) ->
  reads name field m (Wire.putBytes tag b) m'.
Proof.
  intros Ht H7 H3 Hb Hset H0 Hf. unfold Wire.putBytes.
  destruct (decide (b = [])) as [->|Hne]; [rewrite H0 by done; apply reads_nil|].
  destruct (Z.ltb_spec 0 (blen b)) as [_|]; [|pose proof (blen_pos b Hne); lia].
  apply reads_field; try lia. intros pre post. rewrite H7, Hf. unfold Wire.getString. cbn [Z.eqb negb].
  rewrite dec_string by done. by rewrite Hset.
Qed.

(** The bytes of a length-prefixed field. *)
Lemma slice_payload {A} (pre a b post : list A) :
  slice (pre ++ (a ++ b) ++ post) (blen pre + blen a) (blen pre + blen (a ++ b)) = Ok b.
Proof.
  rewrite slice_ok by blia. f_equal.
  replace (pre ++ (a ++ b) ++ post) with ((pre ++ a) ++ b ++ post) by (by rewrite <- !app_assoc).
  replace (Z.to_nat (blen pre + blen a)) with (length (pre ++ a)) by (rewrite length_app; unfold blen; lia).
  rewrite drop_app_length.
  replace (Z.to_nat (blen pre + blen (a ++ b) - (blen pre + blen a))) with (length b) by (rewrite blen_app; unfold blen; lia).
  apply take_app_length.
Qed.

Lemma reads_message {A B} name field (m m' : A) (unmarshal : B -> bytes -> res (B * option Wire.wireError)) old x set fname tag body :
  0 < tag < 128 -> Z.land tag 7 = 2 -> 0 < Z.shiftr tag 3 -> blen body < 2 ^ 63 ->
  unmarshal old body = Ok (x, None) -> set x = m' ->
  (forall d i, field m (Z.shiftr tag 3) 2 d i = Some (Wire.getMessage fname m 2 d i unmarshal old set)) ->
  reads name field m (Wire.putMessage tag body) m'.
Proof.
  intros Ht H7 H3 Hb Hu Hset Hf. unfold Wire.putMessage. apply reads_field; try lia.
  intros pre post. rewrite H7, Hf. unfold Wire.getMessage. cbn [Z.eqb negb].
  pose proof (dec_delimited pre body post Hb) as Hd. rewrite enc_bytes in Hd. rewrite Hd, slice_payload. cbn [rbind].
  rewrite Hu. cbn [rbind]. by rewrite Hset.
Qed.

Lemma reads_messageOpt {A B} name field (m m' : A) (unmarshal : B -> bytes -> res (B * option Wire.wireError)) old set fname tag body (o : option B) :
  0 < tag < 128 -> Z.land tag 7 = 2 -> 0 < Z.shiftr tag 3 ->
  (forall x, o = Some x -> blen (body x) < 2 ^ 63 /\ unmarshal old (body x) = Ok (x, None) /\ set x = m') ->
  (o = None -> m = m') ->
  (forall d i, field m (Z.shiftr tag 3) 2 d i = Some (Wire.getMessage fname m 2 d i unmarshal old set)) ->
  reads name field m (Wire.putMessageOpt tag body o) m'.
Proof.
  intros Ht H7 H3 Hs Hn Hf. destruct o as [x|]; cbn [Wire.putMessageOpt]; [|rewrite Hn by done; apply reads_nil].
  destruct (Hs x eq_refl) as (Hb & Hu & Hset). by eapply reads_message.
Qed.

(** Packed integers. *)
Definition packed (vs : list Z) : bytes := concat ((fun v => Wire.EncodeVarint (u64 v)) <$> vs).

Lemma enc_varint_pos v : is_u64 v -> 0 < blen (Wire.EncodeVarint v).
Proof. intros Hv. pose proof (dec_varint [] v [] Hv) as Hd. apply dec_progress in Hd. change (blen []) with 0 in Hd. lia. Qed.

Lemma packedLoop_ok {A} (set : list Z -> A) vs acc pre post n :
  Forall is_i64 vs -> (length vs <= n)%nat ->
  Wire.packedLoop (pre ++ packed vs ++ post) n set acc (blen pre) (blen pre + blen (packed vs))
  = Ok (set (acc ++ vs), inr (blen pre + blen (packed vs))).
Proof.
  revert acc pre n. induction vs as [|v vs IH]; intros acc pre n Hvs Hn.
  { destruct n; cbn [Wire.packedLoop]; (destruct (Z.ltb_spec (blen pre) (blen pre + blen (packed []))) as [X|_];
      [change (blen (packed [])) with 0 in X; lia|]); by rewrite Z.add_0_r, app_nil_r. }
  apply Forall_cons in Hvs as [Hv Hvs]. destruct n as [|n]; [cbn in Hn; lia|]. cbn [Wire.packedLoop].
  unfold packed. cbn [fmap list_fmap concat]. fold (packed vs). set (b := Wire.EncodeVarint (u64 v)).
  pose proof (enc_varint_pos (u64 v) (u64_range v)) as Hp. fold b in Hp.
  destruct (Z.ltb_spec (blen pre) (blen pre + blen (b ++ packed vs))) as [_|]; [|blia].
  rewrite <- (app_assoc b). unfold b at 1. rewrite dec_int64 by done. fold b.
  specialize (IH (acc ++ [v]) (pre ++ b) n Hvs ltac:(cbn in Hn; lia)). rewrite <- !app_assoc in IH. cbn [app] in IH.
  rewrite !blen_app in *. by rewrite <- !Z.add_assoc in *.
Qed.

Lemma packed_length vs : (length vs <= length (packed vs))%nat.
Proof.
  induction vs as [|v vs IH]; [done|]. unfold packed. cbn [fmap list_fmap concat length]. fold (packed vs). rewrite length_app.
  pose proof (enc_varint_pos (u64 v) (u64_range v)) as Hp. unfold blen in Hp. lia.
Qed.

Lemma reads_packed {A} name field (m m' : A) set fname tag vs :
  0 < tag < 128 -> Z.land tag 7 = 2 -> 0 < Z.shiftr tag 3 -> Forall is_i64 vs -> blen (packed vs) < 2 ^ 63 ->
  (vs <> [] -> set vs = m') -> (vs = [] -> m = m') ->
  (forall d i, field m (Z.shiftr tag 3) 2 d i = Some (Wire.getPacked fname m 2 d i [] set)) ->
  reads name field m (Wire.putPacked tag vs) m'.
Proof.
  intros Ht H7 H3 Hvs Hb Hset H0 Hf. unfold Wire.putPacked.
  destruct (decide (vs = [])) as [->|Hne]; [rewrite H0 by done; apply reads_nil|].
  destruct (Z.ltb_spec 0 (blen vs)) as [_|]; [|pose proof (blen_pos vs Hne); lia].
  apply reads_field; try lia. intros pre post. rewrite H7, Hf. unfold Wire.getPacked. cbn [Z.eqb].
  pose proof (dec_delimited pre (packed vs) post Hb) as Hd. rewrite enc_bytes in Hd.
  rewrite enc_packed. fold (packed vs). rewrite Hd. set (p := Wire.EncodeVarint (blen (packed vs))).
  pose proof (packedLoop_ok set vs [] (pre ++ p) post (length (pre ++ (p ++ packed vs) ++ post)) Hvs) as Hl.
  replace (pre ++ (p ++ packed vs) ++ post) with ((pre ++ p) ++ packed vs ++ post) in * by (by rewrite <- !app_assoc).
  rewrite <- blen_app. replace (blen pre + blen (p ++ packed vs)) with (blen (pre ++ p) + blen (packed vs)) by blia. rewrite Hl.
  - cbn [app]. by rewrite Hset.
  - rewrite !length_app. pose proof (packed_length vs). lia.
Qed.

(** ** The messages

    A message that can be marshalled: integers within their width, no field that is
    present but empty, no unknown fields, and lengths that are [int]s. *)
Abbreviation fits b := (blen b < 2 ^ 63).

Record KeyValue_ok (r : raw KeyValue) : Prop := {
  kok_create : is_i64 (CreateRevision (known r)); kok_mod : is_i64 (ModRevision (known r)); kok_version : is_i64 (Version (known r));
  kok_lease : is_i64 (Lease (known r)); kok_key : fits (Key (known r));
  kok_val : Value (known r) <> Some [] /\ fits (sbytes (Value (known r)));
  kok_body : fits (Wire.KeyValue_body r); kok_plain : unknownFields r = []
}.

Definition Event_ok (r : raw Event) : Prop :=
  let m := known r in
  (Wire.Type_ m = 0 \/ Wire.Type_ m = 1) /\ (forall k, Wire.Kv m = Some k -> KeyValue_ok k)
  /\ (forall k, Wire.PrevKv m = Some k -> KeyValue_ok k) /\ fits (Wire.Event_body r) /\ unknownFields r = [].

(** A header whose fields have their types. *)
Definition header_typed (m : ResponseHeader) : Prop :=
  is_u64 (h_ClusterId m) /\ is_u64 (h_MemberId m) /\ is_i64 (h_Revision m) /\ is_u64 (h_RaftTerm m).

Definition ResponseHeader_ok (r : raw ResponseHeader) : Prop := header_typed (known r) /\ unknownFields r = [].

Lemma header_fits r : ResponseHeader_ok r -> fits (Wire.ResponseHeader_body r).
Proof.
  destruct r as [m u]. intros [_ Hu]. cbn in Hu. subst u. unfold Wire.ResponseHeader_body, Wire.putVarint. cbn [known unknownFields Wire.putUnknown].
  pose proof (enc_length (u64 (h_ClusterId m)) (u64_range _)). pose proof (enc_length (u64 (h_MemberId m)) (u64_range _)).
  pose proof (enc_length (u64 (h_Revision m)) (u64_range _)). pose proof (enc_length (u64 (h_RaftTerm m)) (u64_range _)).
  destruct (h_ClusterId m =? 0), (h_MemberId m =? 0), (h_Revision m =? 0), (h_RaftTerm m =? 0); blia.
Qed.

Definition ids_ok (ids : list Z) : Prop := Forall is_i64 ids /\ fits (packed ids).

Definition WatchEventBatch_ok (r : raw WatchEventBatch) : Prop :=
  let m := known r in unknownFields r = [] /\
  (forall e, Wire.web_Event m = Some e -> Event_ok e) /\ is_u64 (Wire.web_Revision m)
  /\ ids_ok (Wire.web_WatchIds m) /\ ids_ok (Wire.web_WatchIdsPrev m).

Definition WatchEventSync_ok (r : raw WatchEventSync) : Prop :=
  let m := known r in unknownFields r = [] /\ ids_ok (wes_IDs m) /\ is_u64 (wes_Revision m).

Definition WatchResponse_ok (r : raw WatchResponse) : Prop :=
  let m := known r in unknownFields r = [] /\
  (forall h, Wire.wr_Header m = Some h -> ResponseHeader_ok h) /\ is_i64 (Wire.wr_WatchId m)
  /\ is_i64 (Wire.wr_CompactRevision m) /\ fits (Wire.wr_CancelReason m) /\ Forall Event_ok (Wire.wr_Events m).

(** Reads one field: its tag, the value of the field and its zero value. *)
Tactic Notation "read_with" uconstr(lem) :=
  eapply lem; [..|intros ? ?; reflexivity]; [lia|reflexivity|reflexivity|..]; try done; try (by intros ->).

Lemma KeyValue_read m : KeyValue_ok m -> Wire.KeyValue_UnmarshalVT Wire.KeyValue_zero (Wire.KeyValue_body m) = Ok (m, None).
Proof.
  destruct m as [[c md v l k val] u]. intros [Hc Hm Hv Hl Hk [Hval Hvf] _ Hu]. cbn in Hu. subst u. apply reads_all.
  cbn [CreateRevision ModRevision Version Lease Key Value known] in *.
  unfold Wire.KeyValue_body. cbn [CreateRevision ModRevision Version Lease Key Value known unknownFields Wire.putUnknown]. rewrite app_nil_r.
  eapply (reads_app _ _ _ (mkKeyValue 0 0 0 0 k None)); [read_with reads_bytes|].
  eapply (reads_app _ _ _ (mkKeyValue c 0 0 0 k None)); [read_with reads_int64|].
  eapply (reads_app _ _ _ (mkKeyValue c md 0 0 k None)); [read_with reads_int64|].
  eapply (reads_app _ _ _ (mkKeyValue c md v 0 k None)); [read_with reads_int64|].
  eapply (reads_app _ _ _ (mkKeyValue c md v 0 k val)); [read_with reads_bytes|read_with reads_int64].
  - by destruct val.
  - intros E. destruct val as [b|]; [|done]. cbn in E. by subst b.
Qed.

Lemma Event_read m : Event_ok m -> Wire.Event_UnmarshalVT Wire.Event_zero (Wire.Event_body m) = Ok (m, None).
Proof.
  destruct m as [[t k p] u]. intros (Ht & Hk & Hp & _ & Hu). cbn in Hu. subst u. apply reads_all. cbn [Wire.Type_ Wire.Kv Wire.PrevKv known] in *.
  unfold Wire.Event_body. cbn [Wire.Type_ Wire.Kv Wire.PrevKv known unknownFields Wire.putUnknown]. rewrite app_nil_r.
  assert (is_u64 t /\ Wire.i32 t = t) as [Hu Hi] by (destruct Ht as [-> | ->]; done).
  eapply (reads_app _ _ _ (Wire.mkEvent t None None)).
  { read_with reads_varint. intros _. cbn beta. by rewrite Hi. }
  eapply (reads_app _ _ _ (Wire.mkEvent t k None)).
  - read_with reads_messageOpt. intros x ->. specialize (Hk x eq_refl).
    split; [apply Hk|]. split; [by apply KeyValue_read|done].
  - read_with reads_messageOpt. intros x ->. specialize (Hp x eq_refl).
    split; [apply Hp|]. split; [by apply KeyValue_read|done].
Qed.

Lemma ResponseHeader_read m :
  ResponseHeader_ok m -> Wire.ResponseHeader_UnmarshalVT Wire.ResponseHeader_zero (Wire.ResponseHeader_body m) = Ok (m, None).
Proof.
  destruct m as [[r c mem t] u]. intros [(Hc & Hm & Hr & Ht) Hu]. cbn in * |-. subst u. apply reads_all.
  unfold Wire.ResponseHeader_body. cbn [h_ClusterId h_MemberId h_Revision h_RaftTerm known unknownFields Wire.putUnknown]. rewrite app_nil_r.
  eapply (reads_app _ _ _ (mkResponseHeader 0 c 0 0)); [read_with reads_varint|].
  eapply (reads_app _ _ _ (mkResponseHeader 0 c mem 0)); [read_with reads_varint|].
  eapply (reads_app _ _ _ (mkResponseHeader r c mem 0)); [read_with reads_int64|].
  read_with reads_varint.
Qed.

Lemma WatchEventBatch_read m :
  WatchEventBatch_ok m -> Wire.WatchEventBatch_UnmarshalVT Wire.WatchEventBatch_zero (Wire.WatchEventBatch_body m) = Ok (m, None).
Proof.
  destruct m as [[e r ids prev] u]. intros (Hu & He & Hr & [Hi Hif] & [Hp Hpf]). cbn in * |-. subst u. apply reads_all.
  unfold Wire.WatchEventBatch_body. cbn [Wire.web_Event Wire.web_Revision Wire.web_WatchIds Wire.web_WatchIdsPrev known unknownFields Wire.putUnknown]. rewrite app_nil_r.
  eapply (reads_app _ _ _ (Wire.mkWatchEventBatch e 0 [] [])).
  { read_with reads_messageOpt. intros x ->. specialize (He x eq_refl).
    split; [apply He|]. split; [by apply Event_read|done]. }
  eapply (reads_app _ _ _ (Wire.mkWatchEventBatch e r [] [])); [read_with reads_varint|].
  eapply (reads_app _ _ _ (Wire.mkWatchEventBatch e r ids [])); [read_with reads_packed|].
  read_with reads_packed.
Qed.

Lemma WatchEventSync_read m :
  WatchEventSync_ok m ->
  Wire.WatchEventSync_UnmarshalVT Wire.WatchEventSync_zero (Wire.WatchEventSync_body m) = Ok (m, None).
Proof.
  destruct m as [[ids r] u]. intros (Hu & [Hi Hf] & Hr). cbn in * |-. subst u. apply reads_all.
  unfold Wire.WatchEventSync_body. cbn [wes_IDs wes_Revision known unknownFields Wire.putUnknown]. rewrite app_nil_r.
  eapply (reads_app _ _ _ (mkWatchEventSync ids 0)); [read_with reads_packed|].
  read_with reads_varint.
Qed.

Lemma reads_events h id cr ca rev why fr acc es :
  Forall Event_ok es ->
  reads "WatchResponse" Wire.WatchResponse_field (Wire.mkWatchResponse h id cr ca rev why fr acc)
    (concat ((fun e => Wire.putMessage 0x5a (Wire.Event_body e)) <$> es)) (Wire.mkWatchResponse h id cr ca rev why fr (acc ++ es)).
Proof.
  intros Hes. revert acc. induction Hes as [|e es He _ IH]; intros acc; cbn [fmap list_fmap concat].
  { rewrite app_nil_r. apply reads_nil. }
  eapply (reads_app _ _ _ (Wire.mkWatchResponse h id cr ca rev why fr (acc ++ [e]))).
  - eapply reads_message; [..|intros ? ?; reflexivity]; [lia|reflexivity|reflexivity|apply He|by apply Event_read|done].
  - specialize (IH (acc ++ [e])). by rewrite <- app_assoc in IH.
Qed.

Lemma WatchResponse_read m :
  WatchResponse_ok m -> Wire.WatchResponse_UnmarshalVT Wire.WatchResponse_zero (Wire.WatchResponse_body m) = Ok (m, None).
Proof.
  destruct m as [[h id cr ca rev why fr evs] u]. intros (Hu & Hh & Hid & Hrev & Hwhy & Hes). cbn in * |-. subst u. apply reads_all.
  unfold Wire.WatchResponse_body. cbn [known unknownFields Wire.putUnknown Wire.wr_Header Wire.wr_WatchId Wire.wr_Created Wire.wr_Canceled
    Wire.wr_CompactRevision Wire.wr_CancelReason Wire.wr_Fragment Wire.wr_Events].
  eapply (reads_app _ _ _ (Wire.mkWatchResponse h 0 false false 0 [] false [])).
  { read_with reads_messageOpt. intros x ->. specialize (Hh x eq_refl).
    split; [by apply header_fits|]. split; [by apply ResponseHeader_read|done]. }
  eapply (reads_app _ _ _ (Wire.mkWatchResponse h id false false 0 [] false [])); [read_with reads_int64|].
  eapply (reads_app _ _ _ (Wire.mkWatchResponse h id cr false 0 [] false [])); [read_with reads_bool|].
  eapply (reads_app _ _ _ (Wire.mkWatchResponse h id cr ca 0 [] false [])); [read_with reads_bool|].
  eapply (reads_app _ _ _ (Wire.mkWatchResponse h id cr ca rev [] false [])); [read_with reads_int64|].
  eapply (reads_app _ _ _ (Wire.mkWatchResponse h id cr ca rev why false [])); [read_with reads_string|].
  eapply (reads_app _ _ _ (Wire.mkWatchResponse h id cr ca rev why fr [])); [read_with reads_bool|].
  rewrite app_nil_r. exact (reads_events h id cr ca rev why fr [] evs Hes).
Qed.

(** ** Decoding any bytes returns

    A case of the switch returns, and moves on when it succeeds. *)
Definition moves {A} (i : Z) (r : res (A * (Wire.wireError + Z))) : Prop :=
  exists m e, r = Ok (m, e) /\ forall j, e = inr j -> i < j.

Definition advances {A} (field : A -> Z -> Z -> bytes -> Z -> option (res (A * (Wire.wireError + Z)))) : Prop :=
  forall m num wt d i r, 0 <= i -> field m num wt d i = Some r -> moves i r.

Definition total {A} (unmarshal : raw A -> bytes -> res (raw A * option Wire.wireError)) : Prop :=
  forall m d, exists r, unmarshal m d = Ok r.

Lemma loop_returns {A} name field (m : raw A) d i n :
  advances field -> 0 <= i -> blen d - i <= Z.of_nat n -> exists r, Wire.unmarshalLoop n name field m d i = Ok r.
Proof.
  intros Hf. revert m i. induction n as [|n IH]; intros m i Hi Hn; cbn [Wire.unmarshalLoop];
    (destruct (Z.ltb_spec i (blen d)) as [Hl|]; [|by eexists]); [lia|].
  destruct (Wire.DecodeVarint d i) as [wire [e|j]] eqn:Ed; [by eexists|]. apply dec_progress in Ed.
  destruct (_ =? 4); [by eexists|]. destruct (_ <=? 0); [by eexists|].
  destruct (field _ _ _ _ _) as [r|] eqn:Ef.
  - apply Hf in Ef as (m' & e & -> & Hj); [|lia]. cbn [rbind]. destruct e as [e|k]; [by eexists|].
    specialize (Hj k eq_refl). apply IH; lia.
  - rewrite slice_ok by lia. cbn [rbind]. destruct (Wire.Skip _) as [e|k] eqn:Es; [by eexists|]. apply skip_progress in Es.
    destruct (_ || _); [by eexists|]. destruct (Z.ltb_spec (blen d) (i + k)); [by eexists|]. rewrite slice_ok by lia. cbn [rbind]. apply IH; lia.
Qed.

Lemma unmarshal_total {A} name (field : A -> _) : advances field -> total (Wire.unmarshalVT name field).
Proof. intros Hf m d. apply loop_returns; [done|lia|]. unfold blen. lia. Qed.

Section Moves.
Context {A : Type} (name : string) (m : A) (wt : Z) (d : bytes) (i : Z) (Hi : 0 <= i).

Ltac scalar lem :=
  match goal with |- context [if ?b then _ else _] => destruct b end;
  [by eexists _, _|]; match goal with |- context [let '(_, _) := ?x in _] => destruct x as [? [?|?]] eqn:Ed end;
  (eexists _, _; split; [reflexivity|]); [done|]; intros ? [= <-]; by eapply lem.

Lemma getVarint_moves set : moves i (Wire.getVarint name m wt d i set).
Proof using LOk. unfold Wire.getVarint. scalar dec_progress. Qed.
Lemma getInt64_moves set : moves i (Wire.getInt64 name m wt d i set).
Proof using LOk. unfold Wire.getInt64. scalar int64_progress. Qed.
Lemma getBool_moves set : moves i (Wire.getBool name m wt d i set).
Proof using LOk. unfold Wire.getBool. scalar bool_progress. Qed.
Lemma getBytes_moves old set : moves i (Wire.getBytes name m wt d i old set).
Proof using LOk. unfold Wire.getBytes. scalar bytes_progress. Qed.
Lemma getString_moves set : moves i (Wire.getString name m wt d i set).
Proof using LOk. unfold Wire.getString. scalar string_progress. Qed.

Lemma getMessage_moves {B} (unmarshal : raw B -> _) old set : total unmarshal -> moves i (Wire.getMessage name m wt d i unmarshal old set).
Proof using LOk Hi.
  intros Ht. unfold Wire.getMessage. destruct (negb _); [by eexists _, _|].
  destruct (Wire.DecodeLengthDelimited d i) as [e|[a b]] eqn:Ed; [by eexists _, _|]. apply delimited_progress in Ed; [|done].
  rewrite slice_ok by lia. cbn [rbind]. destruct (Ht old (take (Z.to_nat (b - a)) (drop (Z.to_nat a) d))) as [[x e] ->]. cbn [rbind].
  destruct e; eexists _, _; (split; [reflexivity|]); [done|]. intros j [= <-]. lia.
Qed.

Lemma packedLoop_moves n (set : list Z -> A) vs k post :
  i < k -> post - k <= Z.of_nat n -> moves i (Wire.packedLoop d n set vs k post).
Proof using LOk.
  revert vs k. induction n as [|n IH]; intros vs k Hk Hn; cbn [Wire.packedLoop];
    (destruct (Z.ltb_spec k post); [|by eexists _, _; split; [reflexivity|]; intros ? [= <-]]); [lia|].
  destruct (Wire.DecodeVarintInt64 d k) as [v [e|j]] eqn:Ed; [by eexists _, _|]. apply int64_progress in Ed. apply IH; lia.
Qed.

Lemma getPacked_moves old set : moves i (Wire.getPacked name m wt d i old set).
Proof using LOk Hi.
  unfold Wire.getPacked. destruct (wt =? 0).
  { destruct (Wire.DecodeVarintInt64 d i) as [v [e|j]] eqn:Ed; eexists _, _; (split; [reflexivity|]); [done|].
    intros ? [= <-]. by eapply int64_progress. }
  destruct (wt =? 2); [|by eexists _, _]. destruct (Wire.DecodeLengthDelimited d i) as [e|[a b]] eqn:Ed; [by eexists _, _|].
  apply delimited_progress in Ed; [|done]. apply packedLoop_moves; unfold blen in *; lia.
Qed.

End Moves.

#[local] Hint Resolve getVarint_moves getInt64_moves getBool_moves getBytes_moves getString_moves getPacked_moves getMessage_moves : wiremoves.

(** The cases of a message, one by one. *)
Ltac advance_cases :=
  intros m num wt d i r Hi; destruct m; cbn -[Wire.unmarshalVT];
  repeat match goal with
    | |- match ?p with _ => _ end = Some _ -> _ => destruct p; try done
    end; intros [= <-]; auto with wiremoves.

Lemma KeyValue_total : total Wire.KeyValue_UnmarshalVT.
Proof. apply unmarshal_total. advance_cases. Qed.

#[local] Hint Resolve KeyValue_total : wiremoves.

Lemma Event_total : total Wire.Event_UnmarshalVT.
Proof. apply unmarshal_total. advance_cases. Qed.

Lemma ResponseHeader_total : total Wire.ResponseHeader_UnmarshalVT.
Proof. apply unmarshal_total. advance_cases. Qed.

#[local] Hint Resolve Event_total ResponseHeader_total : wiremoves.

Lemma WatchEventBatch_total : total Wire.WatchEventBatch_UnmarshalVT.
Proof. apply unmarshal_total. advance_cases. Qed.

Lemma WatchEventSync_total : total Wire.WatchEventSync_UnmarshalVT.
Proof. apply unmarshal_total. advance_cases. Qed.

Lemma WatchResponse_total : total Wire.WatchResponse_UnmarshalVT.
Proof. apply unmarshal_total. advance_cases. Qed.

Lemma RangeRequest_total : total Wire.RangeRequest_UnmarshalVT.
Proof. apply unmarshal_total. advance_cases. Qed.

End WireFacts.
