(* ===== verification/WireRef.v ===== *)
(** * A runtime for the wire format, for witnesses

    Protobuf's encoding computed with Go's varints; it keeps the laws of [WireLibOk]. *)

From Stdlib Require Import Strings.String.
From S2P Require Import Prelude Types GoBinary Patch Kv Mdb Db Pb Watch Wire WireFacts.

Definition refVarint (d : bytes) (i : Z) : Z * (Wire.wireError + Z) :=
  if i <? 0 then (0, inl Wire.InvalidLength) else
  let '(v, n) := Uvarint (drop (Z.to_nat i) d) in
  if n <=? 0 then (0, inl Wire.UnexpectedEOF) else (v, inr (i + n)).

Definition refDelimited (d : bytes) (i : Z) : Wire.wireError + (Z * Z) :=
  match refVarint d i with
  | (_, inl e) => inl e
  | (v, inr j) => if (0 <=? v) && (v <? 2 ^ 63) && (j + v <=? blen d) then inr (j, j + v) else inl Wire.UnexpectedEOF
  end.

Definition refBytes (d : bytes) (i : Z) : bytes * (Wire.wireError + Z) :=
  match refDelimited d i with
  | inl e => ([], inl e)
  | inr (a, b) => (take (Z.to_nat (b - a)) (drop (Z.to_nat a) d), inr b)
  end.

(** The length of the field at the front: a varint, eight bytes, a length or four bytes. *)
Definition refSkip (d : bytes) : Wire.wireError + Z :=
  match refVarint d 0 with
  | (_, inl e) => inl e
  | (wire, inr j) =>
      match Z.land wire 7 with
      | 0 => snd (refVarint d j)
      | 1 => inr (j + 8)
      | 2 => match refDelimited d j with inl e => inl e | inr (_, b) => inr b end
      | 5 => inr (j + 4)
      | _ => inl (Wire.LibError 0)
      end
  end.

Definition refPacked (vs : list Z) : bytes := concat ((fun v => uvarint (u64 v)) <$> vs).

#[global] Instance refWire : Wire.WireLib := {|
  Wire.EncodeVarint := uvarint;
  Wire.EncodeBytes b := uvarint (blen b) ++ b;
  Wire.EncodeBool b := uvarint (if b then 1 else 0);
  Wire.EncodeRawBytes b := b;
  Wire.EncodeVarintPacked vs := uvarint (blen (refPacked vs)) ++ refPacked vs;
  Wire.SizeVarintNonZero k v := if v =? 0 then 0 else k + blen (uvarint (u64 v));
  Wire.SizeBytesNonEmpty k b := if 0 <? blen b then k + blen (uvarint (blen b) ++ b) else 0;
  Wire.SizeBoolNonZero k b := if b then k + 1 else 0;
  Wire.SizeVarintPacked k vs := if 0 <? blen vs then k + blen (uvarint (blen (refPacked vs)) ++ refPacked vs) else 0;
  Wire.SizeMessage k n := k + blen (uvarint n) + n;
  Wire.DecodeVarint := refVarint;
  Wire.DecodeVarintInt64 d i := let '(v, r) := refVarint d i in (i64 v, r);
  Wire.DecodeVarintBool d i := let '(v, r) := refVarint d i in (negb (v =? 0), r);
  Wire.DecodeBytesAppend old d i := let '(b, r) := refBytes d i in (Some b, r);
  Wire.DecodeString := refBytes;
  Wire.DecodeLengthDelimited := refDelimited;
  Wire.Skip := refSkip;
  Wire.wireError_Error _ := str "proto: error"
|}.

Lemma refVarint_ok pre v post : is_u64 v -> refVarint (pre ++ uvarint v ++ post) (blen pre) = (v, inr (blen pre + blen (uvarint v))).
Proof.
  intros Hv. unfold refVarint. pose proof (blen_nonneg pre). destruct (Z.ltb_spec (blen pre) 0); [lia|].
  replace (Z.to_nat (blen pre)) with (length pre) by (unfold blen; lia). rewrite drop_app_length, Uvarint_app by done.
  pose proof (uvarint_length v). destruct (Z.leb_spec (blen (uvarint v)) 0); [lia|done].
Qed.

Lemma get_uvarint_u64 d i x : (i <= 10)%nat -> ((i <= 9)%nat -> 0 <= x < 2 ^ (7 * Z.of_nat i)) -> is_u64 (get_uvarint i x d).1.
Proof.
  revert i x. induction d as [|b d IH]; intros i x Hi Hx; cbn [get_uvarint]; [done|].
  destruct (Nat.eqb_spec i MaxVarintLen64) as [|Hne]; [done|]. unfold MaxVarintLen64 in Hne. specialize (Hx ltac:(lia)).
  pose proof (bZ_range b). pose proof (varint_pow i) as Hp. destruct (Z.ltb_spec (bZ b) 128) as [Hb|Hb].
  - destruct (Nat.eqb_spec i 9) as [->|H9]; cbn [andb].
    + change (2 ^ (7 * Z.of_nat 9)) with (2 ^ 63) in *. destruct (Z.ltb_spec 1 (bZ b)); [done|]. cbn [fst]. unfold is_u64. nia.
    + assert (2 ^ (7 * Z.of_nat (S i)) <= 2 ^ 64) by (apply Z.pow_le_mono_r; lia). cbn [fst]. unfold is_u64. nia.
  - apply IH; [lia|]. intros H9. pose proof (Z.mod_pos_bound (bZ b) 128 eq_refl). rewrite Hp. nia.
Qed.

Lemma Uvarint_u64 d : is_u64 (Uvarint d).1.
Proof. apply get_uvarint_u64; [lia|done]. Qed.

Lemma refVarint_progress d i v j : refVarint d i = (v, inr j) -> i < j.
Proof.
  unfold refVarint. destruct (i <? 0); [done|]. destruct (Uvarint _) as [w n]. destruct (Z.leb_spec n 0); [done|]. intros [= _ <-]. lia.
Qed.

Lemma refDelimited_ok pre b post : blen b < 2 ^ 63 ->
  refDelimited (pre ++ (uvarint (blen b) ++ b) ++ post) (blen pre)
  = inr (blen pre + blen (uvarint (blen b)), blen pre + blen (uvarint (blen b) ++ b)).
Proof.
  intros Hb. pose proof (blen_nonneg b). unfold refDelimited. rewrite <- app_assoc, refVarint_ok by (unfold is_u64; lia).
  destruct (Z.leb_spec 0 (blen b)); [|lia]. destruct (Z.ltb_spec (blen b) (2 ^ 63)); [|lia]. cbn [andb].
  destruct (Z.leb_spec (blen pre + blen (uvarint (blen b)) + blen b) (blen (pre ++ uvarint (blen b) ++ b ++ post))); [|blia].
  rewrite (blen_app (uvarint (blen b)) b), Z.add_assoc. done.
Qed.

Lemma refDelimited_progress d i a b : refDelimited d i = inr (a, b) -> i < a /\ a <= b <= blen d.
Proof.
  unfold refDelimited. destruct (refVarint d i) as [v [e|j]] eqn:E; [done|]. apply refVarint_progress in E.
  destruct (Z.leb_spec 0 v); [|done]. destruct (_ <? _); [|done]. destruct (Z.leb_spec (j + v) (blen d)); [|done]. intros [= <- <-]. lia.
Qed.

Lemma refBytes_ok pre b post : blen b < 2 ^ 63 ->
  refBytes (pre ++ (uvarint (blen b) ++ b) ++ post) (blen pre) = (b, inr (blen pre + blen (uvarint (blen b) ++ b))).
Proof.
  intros Hb. unfold refBytes. rewrite refDelimited_ok by done.
  pose proof (slice_payload pre (uvarint (blen b)) b post) as Hs. rewrite slice_ok in Hs by blia. by injection Hs as ->.
Qed.

Lemma refBytes_progress d i v j : refBytes d i = (v, inr j) -> i < j.
Proof.
  unfold refBytes. destruct (refDelimited d i) as [|[a b]] eqn:E; [done|]. apply refDelimited_progress in E. intros [= _ <-]. lia.
Qed.

#[global] Instance refWireOk : WireLibOk.
Proof.
  split; cbn [Wire.EncodeVarint Wire.EncodeBytes Wire.EncodeBool Wire.EncodeVarintPacked Wire.EncodeRawBytes Wire.SizeVarintNonZero Wire.SizeBytesNonEmpty
    Wire.SizeBoolNonZero Wire.SizeVarintPacked Wire.SizeMessage Wire.DecodeVarint Wire.DecodeVarintInt64 Wire.DecodeVarintBool
    Wire.DecodeBytesAppend Wire.DecodeString Wire.DecodeLengthDelimited Wire.Skip refWire]; try done.
  - intros v Hv. unfold uvarint. cbn. by destruct (Z.ltb_spec v 128); [|lia].
  - intros v _. apply uvarint_length.
  - intros k []; by vm_compute.
  - intros pre v post Hv. by apply refVarint_ok.
  - intros pre v post Hv. rewrite refVarint_ok by apply u64_range. by rewrite i64_u64.
  - intros pre b post. rewrite refVarint_ok by by destruct b. by destruct b.
  - intros old pre b post _ Hb. by rewrite refBytes_ok.
  - intros pre b post Hb. by apply refBytes_ok.
  - intros pre b post Hb. by apply refDelimited_ok.
  - apply refVarint_progress.
  - intros d i v j. destruct (refVarint d i) as [w r] eqn:E. intros [= _ ->]. by eapply refVarint_progress.
  - intros d i v j. destruct (refVarint d i) as [w r] eqn:E. intros [= _ ->]. by eapply refVarint_progress.
  - intros old d i v j. destruct (refBytes d i) as [w r] eqn:E. intros [= _ ->]. by eapply refBytes_progress.
  - apply refBytes_progress.
  - intros d i a b _. apply refDelimited_progress.
  - intros d n. unfold refSkip. destruct (refVarint d 0) as [wire [e|j]] eqn:E; [done|]. apply refVarint_progress in E.
    destruct (Z.land wire 7) as [|p|p]; [|destruct p as [[p|p|]|[p|p|]|]|done]; try done.
    + destruct (refVarint d j) as [w [e|k]] eqn:E2; [done|]. apply refVarint_progress in E2. intros [= <-]. lia.
    + destruct p; [done|done|]. intros [= <-]. lia.
    + destruct (refDelimited d j) as [e|[a b]] eqn:E2; [done|]. apply refDelimited_progress in E2. intros [= <-]. lia.
    + intros [= <-]. lia.
Qed.
