(* ===== verification/SvcGrpc.v ===== *)
(** * The gRPC module for a wasm host (src/module/service-grpc)

    A second set of services: the host calls a handler with the bytes of a request, the
    handler asks the storage shard and the host calls back with the answer. What the
    module tells its host is a list of [hostCall]s in order. The module's variables that
    keep something from one call to the next are the record [svc]; the other messages
    it reuses are reset before each use. The host's buffers of watch events
    (github.com/pantopic/ext-buffer) are the class [BufferSet]. The error of a [Send] is
    handed back to the host that reported it and is left out. *)

From Stdlib Require Import Strings.String.
From S2P Require Import Prelude Types GoBinary Patch Kv Mdb Db Pb GrpcErrors Watch Wire.

Module Svc.
Import GrpcErrors.

(** ** types.go *)

Definition CMD_KV_COMPACT : Z := 2.
Definition CMD_KV_DELETE_RANGE : Z := 3.
Definition CMD_KV_PUT : Z := 4.
Definition CMD_KV_TXN : Z := 5.
Definition CMD_LEASE_GRANT : Z := 6.
Definition CMD_LEASE_KEEP_ALIVE : Z := 7.
Definition CMD_LEASE_REVOKE : Z := 9.

Definition QUERY_HEADER : Z := 0.
Definition QUERY_KV_RANGE : Z := 1.
Definition QUERY_LEASE_LEASES : Z := 2.
Definition QUERY_LEASE_TIME_TO_LIVE : Z := 3.

Definition WatchMessageType_CANCELED : Z := 1.
Definition WatchMessageType_ERR_COMPACTED : Z := 2.
Definition WatchMessageType_ERR_EXISTS : Z := 3.
Definition WatchMessageType_EVENT_BATCH : Z := 4.
Definition WatchMessageType_EVENT_SYNC : Z := 5.
Definition WatchMessageType_INIT : Z := 6.
Definition WatchMessageType_NOTIFY : Z := 7.

Definition WATCH_ID_ERROR : Z := 2 ^ 63.

Definition codes_Unknown : Z := 2.

(** ** error.go: the native table, but for one status that is not in it *)

Definition statusOf (e : grpcError) : Z * string :=
  match e with
  | ErrGRPCValTooLong => (InvalidArgument, "etcdserver: value too large")
  | e => GrpcErrors.statusOf e
  end%string.

Definition errStringToError (s : string) : option grpcError :=
  List.find (fun e => String.eqb (snd (statusOf e)) s) errTable.

Definition ErrWatcherDuplicateID : bytes := str "mvcc: duplicate watch ID provided on the WatchStream".

(** ** The host *)

Inductive hostCall : Type :=
| ApplyAsync (name : string) (cmd : bytes)
| ReadAsync (name : string) (query : bytes) (stale : bool)
| Send (data : bytes)
| SendErr (code : Z) (message : bytes)
| StreamOpen (name : string)
| StreamSend (name : string) (data : bytes).

(** The buffers by watch id: [mv_Append] is [None] when the value does not fit. *)
Class BufferSet (P : Type) : Type := {
  mv_Append : P -> Z -> bytes -> option P;
  mv_Iter : P -> Z -> list bytes;
  mv_Reset : P -> Z -> P
}.

Section Svc.
Context `{Wire.WireLib} {P : Type} `{BufferSet P}.

Record svc : Type := mkSvc {
  sv_range : Wire.raw RangeRequest; sv_members : Wire.MemberListResponse; sv_status : Wire.StatusResponse
}.

(** The package variables [rangeRequest], [memberListResp] and [statusResp]. *)
Definition svcInit : svc :=
  mkSvc (Wire.msgOf (mkRangeRequest [] [] 0 0 0 0 0 0 false false false))
    (Wire.mkMemberListResponse Wire.ResponseHeader_zero 0)
    (Wire.mkStatusResponse Wire.ResponseHeader_zero (str "3.6.5") 28672 0 0 0 0 28672).

(** ** util.go *)

(** The answer of the shard as an error: a status of the table by its text. *)
Definition grpcError_ (val : Z) (out : bytes) (err : option goError) : bytes * option goError :=
  (out,
   match err with
   | Some e => Some e
   | None =>
       if negb (val =? 1) then
         match errStringToError (string_of_list_byte out) with
         | Some g => Some (Status (fst (statusOf g)) (snd (statusOf g)))
         | None => Some (Status codes_Unknown (string_of_list_byte out))
         end
       else None
   end).

Definition autoSend (out : bytes) (err : option goError) : res (list hostCall) :=
  match err with
  | None => Ok [Send out]
  | Some (Status code message) => Ok [SendErr code (str message)]
  | Some _ => Panic
  end.

(** ** service_kv.go, service_lease.go *)

(** What a handler does: the module's variables, its calls and the error it returns. *)
Abbreviation handled := (res (svc * list hostCall * option goError)).

(** [rangeRequest] is not reset: the request is merged into the one before. *)
Definition kvRange (s : svc) (in_ : bytes) : handled :=
  let! '(r, err) := Wire.RangeRequest_UnmarshalVT (sv_range s) in_ in
  let s := mkSvc r (sv_members s) (sv_status s) in
  match err with
  | Some e => Ok (s, [SendErr InvalidArgument (Wire.wireError_Error e)], Some (OtherError (string_of_list_byte (Wire.wireError_Error e))))
  | None => Ok (s, [ReadAsync "kvRange" (in_ ++ [Zb QUERY_KV_RANGE]) (rr_Serializable (Wire.known r))], None)
  end%string.

Definition kvPut (in_ : bytes) : list hostCall := [ApplyAsync "kvPut" (in_ ++ [Zb CMD_KV_PUT])].
Definition kvDeleteRange (in_ : bytes) : list hostCall := [ApplyAsync "kvDeleteRange" (in_ ++ [Zb CMD_KV_DELETE_RANGE])].
Definition kvTxn (in_ : bytes) : list hostCall := [ApplyAsync "kvTxn" (in_ ++ [Zb CMD_KV_TXN])].
Definition kvCompact (in_ : bytes) : list hostCall := [ApplyAsync "kvCompact" (in_ ++ [Zb CMD_KV_COMPACT])].
Definition leaseGrant (in_ : bytes) : list hostCall := [ApplyAsync "leaseGrant" (in_ ++ [Zb CMD_LEASE_GRANT])].
Definition leaseRevoke (in_ : bytes) : list hostCall := [ApplyAsync "leaseRevoke" (in_ ++ [Zb CMD_LEASE_REVOKE])].
Definition leaseKeepaliveRecv (item : bytes) : list hostCall := [ApplyAsync "leaseKeepaliveRecv" (item ++ [Zb CMD_LEASE_KEEP_ALIVE])].
Definition leaseKeepaliveOpen : list hostCall := [].
Definition leaseKeepaliveClose : list hostCall := [].
Definition leaseLeases (in_ : bytes) : list hostCall := [ReadAsync "leaseLeases" (in_ ++ [Zb QUERY_LEASE_LEASES]) false].
Definition leaseTimeToLive (in_ : bytes) : list hostCall :=
  [ReadAsync "leaseTimeToLive" (in_ ++ [Zb QUERY_LEASE_TIME_TO_LIVE]) false].

(** ** service_cluster.go, service_maintenance.go

    [read] is the synchronous read of the shard. The calls that are not implemented
    answer with nothing. *)
Definition clusterMemberList (read : bytes -> bool -> Z * bytes * option goError) (s : svc) (in_ : bytes) : handled :=
  let '(val, out, err) := read (in_ ++ [Zb QUERY_HEADER]) false in
  let '(out, err) := grpcError_ val out err in
  match err with
  | Some e => Ok (s, [], Some e)
  | None =>
      let! '(h, err) := Wire.ResponseHeader_UnmarshalVT (Wire.ml_Header (sv_members s)) out in
      match err with
      | Some e =>
          Ok (mkSvc (sv_range s) (Wire.mkMemberListResponse h (Wire.ml_MemberID (sv_members s))) (sv_status s), [],
              Some (Status codes_Unknown (string_of_list_byte (Wire.wireError_Error e))))
      | None =>
          let m := Wire.mkMemberListResponse h (h_MemberId (Wire.known h)) in
          let! out := Wire.MemberListResponse_MarshalVT m in
          Ok (mkSvc (sv_range s) m (sv_status s), [Send out], None)
      end
  end.

Definition clusterMemberAdd (in_ : bytes) : list hostCall := [Send []].
Definition clusterMemberRemove (in_ : bytes) : list hostCall := [Send []].
Definition clusterMemberUpdate (in_ : bytes) : list hostCall := [Send []].
Definition clusterMemberPromote (in_ : bytes) : list hostCall := [Send []].
Definition maintenanceDefragment (in_ : bytes) : list hostCall := [Send []].
Definition maintenanceHash (in_ : bytes) : list hostCall := [Send []].
Definition maintenanceHashKV (in_ : bytes) : list hostCall := [Send []].
Definition maintenanceSnapshotOpen (in_ : bytes) : list hostCall := [Send []].
Definition maintenanceSnapshotClose : list hostCall := [Send []].
Definition maintenanceMoveLeader (in_ : bytes) : list hostCall := [Send []].
Definition maintenanceDowngrade (in_ : bytes) : list hostCall := [Send []].

Definition maintenanceAlarm (in_ : bytes) : res (list hostCall) :=
  let! out := Wire.AlarmResponse_MarshalVT in Ok [Send out].

Definition maintenanceStatus (in_ : bytes) : list hostCall := [ReadAsync "maintenanceStatus" (in_ ++ [Zb QUERY_HEADER]) false].

(** ** main.go: the answer of the shard *)

(** A failed status read is not answered. *)
Definition statusRecv (s : svc) (val : Z) (data : bytes) (err : option goError) : res (svc * list hostCall) :=
  let '(out, err) := grpcError_ val data err in
  match err with
  | Some _ => Ok (s, [])
  | None =>
      let st := sv_status s in
      let! '(h, err) := Wire.ResponseHeader_UnmarshalVT (Wire.st_Header st) out in
      match err with
      | Some e =>
          Ok (mkSvc (sv_range s) (sv_members s)
                (Wire.mkStatusResponse h (Wire.st_Version st) (Wire.st_DbSize st) (Wire.st_Leader st) (Wire.st_RaftIndex st)
                   (Wire.st_RaftTerm st) (Wire.st_RaftAppliedIndex st) (Wire.st_DbSizeInUse st)),
              [SendErr codes_Unknown (Wire.wireError_Error e)])
      | None =>
          let st := Wire.mkStatusResponse h (Wire.st_Version st) (Wire.st_DbSize st) (h_MemberId (Wire.known h)) (u64 (h_Revision (Wire.known h))) 1
                      (u64 (h_Revision (Wire.known h))) (Wire.st_DbSizeInUse st) in
          let! out := Wire.StatusResponse_MarshalVT st in
          Ok (mkSvc (sv_range s) (sv_members s) st, [Send out])
      end
  end.

Definition asyncRecv (s : svc) (name : string) (data : bytes) (val : Z) (err : option goError) : res (svc * list hostCall) :=
  if String.eqb name "maintenanceStatus" then statusRecv s val data err
  else let '(out, err) := grpcError_ val data err in let! calls := autoSend out err in Ok (s, calls).

(** ** service_watch.go *)

(** The events of a buffer, and the revision appended to the last. *)
Fixpoint readEvents (bs : list bytes) (events : list (Wire.raw Wire.Event)) (lastRev : Z) : res (list (Wire.raw Wire.Event) * Z) :=
  match bs with
  | [] => Ok (events, lastRev)
  | b :: bs =>
      let! d := slice b 0 (blen b - 8) in
      let! '(evt, err) := Wire.Event_UnmarshalVT Wire.Event_zero d in
      match err with
      | Some _ => Panic
      | None =>
          let! tail := slice b (blen b - 8) (blen b) in
          let! lastRev := Uint64 tail in
          readEvents bs (events ++ [evt]) lastRev
      end
  end.

(** [watchResp], which was reset. *)
Definition sendResponse (m : Wire.WatchResponse) : res (list hostCall) :=
  let! data := Wire.WatchResponse_MarshalVT (Wire.msgOf m) in Ok [Send data].

(** Sends what is buffered for a watch, if anything, and empties the buffer. *)
Definition clearEvents (p : P) (id rev : Z) (sync : bool) : res (P * list hostCall) :=
  let! '(events, lastRev) := readEvents (mv_Iter p (u64 id)) [] 0 in
  match events with
  | [] => Ok (p, [])
  | _ =>
      let! calls := sendResponse
        (Wire.mkWatchResponse (Some (Wire.msgOf (mkResponseHeader (i64 rev) 0 0 0))) id false false 0 [] (negb sync && (lastRev =? rev)) events) in
      Ok (mv_Reset p (u64 id), calls)
  end.

(** Buffers an event for a watch, after sending what is there when it is full. *)
Definition sendEvent (p : P) (id rev : Z) (b : bytes) : res (P * list hostCall) :=
  let b2 := AppendUint64 b rev in
  match mv_Append p (u64 id) b2 with
  | Some p => Ok (p, [])
  | None =>
      let! '(p, calls) := clearEvents p id rev false in
      match mv_Append p (u64 id) b2 with Some p => Ok (p, calls) | None => Panic end
  end.

Fixpoint sendEvents (p : P) (ids : list Z) (rev : Z) (b : bytes) : res (P * list hostCall) :=
  match ids with
  | [] => Ok (p, [])
  | id :: ids =>
      let! '(p, calls) := sendEvent p id rev b in
      let! '(p, calls') := sendEvents p ids rev b in Ok (p, calls ++ calls')
  end.

Fixpoint syncEvents (p : P) (ids : list Z) (rev : Z) : res (P * list hostCall) :=
  match ids with
  | [] => Ok (p, [])
  | id :: ids =>
      let! '(p, calls) := clearEvents p id rev true in
      let! '(p, calls') := syncEvents p ids rev in Ok (p, calls ++ calls')
  end.

(** [Event.PrevKv = nil] dereferences the event. *)
Definition withoutPrev (e : option (Wire.raw Wire.Event)) : res (option (Wire.raw Wire.Event)) :=
  match e with
  | Some e => Ok (Some (Wire.mkRaw (Wire.mkEvent (Wire.Type_ (Wire.known e)) (Wire.Kv (Wire.known e)) None) (Wire.unknownFields e)))
  | None => Panic
  end.

Definition sendBatch (p : P) (m : Wire.WatchEventBatch) : res (P * list hostCall) :=
  let! '(p, calls) :=
    if 0 <? blen (Wire.web_WatchIdsPrev m) then
      let! b := Wire.Event_MarshalVT (Wire.web_Event m) in sendEvents p (Wire.web_WatchIdsPrev m) (Wire.web_Revision m) b
    else Ok (p, []) in
  let! '(p, calls') :=
    if 0 <? blen (Wire.web_WatchIds m) then
      let! e := withoutPrev (Wire.web_Event m) in
      let! b := Wire.Event_MarshalVT e in sendEvents p (Wire.web_WatchIds m) (Wire.web_Revision m) b
    else Ok (p, []) in
  Ok (p, calls ++ calls').

(** [UnmarshalVT] of a message that was reset, for which a failure is a panic. *)
Definition mustDecode {A} (r : res (A * option Wire.wireError)) : res A :=
  let! '(a, err) := r in match err with None => Ok a | Some _ => Panic end.

Definition shardRecv (p : P) (data : bytes) (id : Z) : res (P * list hostCall) :=
  if id =? WATCH_ID_ERROR then Ok (p, []) else
  match data with
  | [] => Panic
  | code :: data =>
      let header := mustDecode (Wire.ResponseHeader_UnmarshalVT Wire.ResponseHeader_zero data) in
      if bZ code =? WatchMessageType_INIT then
        let! h := header in
        let! calls := sendResponse (Wire.mkWatchResponse (Some h) (i64 id) true false 0 [] false []) in Ok (p, calls)
      else if bZ code =? WatchMessageType_EVENT_BATCH then
        let! m := mustDecode (Wire.WatchEventBatch_UnmarshalVT Wire.WatchEventBatch_zero data) in sendBatch p (Wire.known m)
      else if bZ code =? WatchMessageType_EVENT_SYNC then
        let! m := mustDecode (Wire.WatchEventSync_UnmarshalVT Wire.WatchEventSync_zero data) in
        syncEvents p (wes_IDs (Wire.known m)) (wes_Revision (Wire.known m))
      else if bZ code =? WatchMessageType_NOTIFY then
        let! h := header in
        let! calls := sendResponse (Wire.mkWatchResponse (Some h) (i64 id) false false 0 [] false []) in Ok (p, calls)
      else if bZ code =? WatchMessageType_CANCELED then
        let! calls := sendResponse (Wire.mkWatchResponse None (i64 id) false true 0 [] false []) in Ok (p, calls)
      else if bZ code =? WatchMessageType_ERR_EXISTS then
        let! calls := sendResponse (Wire.mkWatchResponse None (-1) true true 0 ErrWatcherDuplicateID false []) in Ok (p, calls)
      else if bZ code =? WatchMessageType_ERR_COMPACTED then
        let! h := header in
        let! calls := sendResponse (Wire.mkWatchResponse (Some h) (i64 id) true false 0 [] false []) in
        let! calls' := sendResponse (Wire.mkWatchResponse (Some h) (i64 id) false true (h_Revision (Wire.known h)) [] false []) in
        Ok (p, calls ++ calls')
      else Panic
  end.

(** The messages of a stream, in order. *)
Fixpoint shardRecvs (p : P) (ms : list (Z * bytes)) : res (P * list hostCall) :=
  match ms with
  | [] => Ok (p, [])
  | (id, data) :: ms =>
      let! '(p, calls) := shardRecv p data id in
      let! '(p, calls') := shardRecvs p ms in Ok (p, calls ++ calls')
  end.

Definition watchOpen : list hostCall := [StreamOpen "watch"].
Definition watchRecv (data : bytes) : list hostCall := [StreamSend "watch" data].
Definition watchClose : list hostCall := [].

(** ** main.go: the services, by name *)

Inductive method : Type :=
| Unary (handler : svc -> bytes -> handled)
| ServerStream (open : bytes -> list hostCall) (close : list hostCall)
| BidirectionalStream (open : list hostCall) (recv : bytes -> list hostCall) (close : list hostCall).

(** A handler that keeps nothing. *)
Definition calls (f : bytes -> list hostCall) : method := Unary (fun s in_ => Ok (s, f in_, None)).

Definition services (read : bytes -> bool -> Z * bytes * option goError) : list (string * list (string * method)) := [
  ("etcdserverpb.Cluster", [
     ("MemberAdd", calls clusterMemberAdd); ("MemberRemove", calls clusterMemberRemove); ("MemberUpdate", calls clusterMemberUpdate);
     ("MemberList", Unary (clusterMemberList read)); ("MemberPromote", calls clusterMemberPromote)]);
  ("etcdserverpb.KV", [
     ("Range", Unary kvRange); ("Put", calls kvPut); ("DeleteRange", calls kvDeleteRange); ("Txn", calls kvTxn); ("Compact", calls kvCompact)]);
  ("etcdserverpb.Lease", [
     ("LeaseGrant", calls leaseGrant); ("LeaseRevoke", calls leaseRevoke);
     ("LeaseKeepAlive", BidirectionalStream leaseKeepaliveOpen leaseKeepaliveRecv leaseKeepaliveClose);
     ("LeaseLeases", calls leaseLeases); ("LeaseTimeToLive", calls leaseTimeToLive)]);
  ("etcdserverpb.Maintenance", [
     ("Alarm", Unary (fun s in_ => let! calls := maintenanceAlarm in_ in Ok (s, calls, None))); ("Status", calls maintenanceStatus);
     ("Defragment", calls maintenanceDefragment); ("Hash", calls maintenanceHash); ("HashKV", calls maintenanceHashKV);
     ("Snapshot", ServerStream maintenanceSnapshotOpen maintenanceSnapshotClose);
     ("MoveLeader", calls maintenanceMoveLeader); ("Downgrade", calls maintenanceDowngrade)]);
  ("etcdserverpb.Watch", [("Watch", BidirectionalStream watchOpen watchRecv watchClose)])
]%string.

End Svc.

End Svc.
