(* ===== verification/SvcFacts.v ===== *)
(** * What the gRPC module sends to its watches (src/module/service-grpc/service_watch.go)

    The buffers hold the events of each watch in order; a message adds to them, sends from
    them or both, and loses nothing. *)

From Stdlib Require Import Strings.String.
From S2P Require Import Prelude Types GoBinary Patch Kv Mdb Db Pb GrpcErrors Watch Wire WireFacts SvcGrpc.

Import Svc.

(** The host's buffers: a value that is appended is the last; a reset empties; one
    buffer does not touch another. *)
Class BufferSetOk (P : Type) `{BufferSet P} : Prop := {
  append_here p i b p' : mv_Append p i b = Some p' -> mv_Iter p' i = mv_Iter p i ++ [b];
  append_there p i b p' j : mv_Append p i b = Some p' -> j <> i -> mv_Iter p' j = mv_Iter p j;
  reset_here p i : mv_Iter (mv_Reset p i) i = [];
  reset_there p i j : j <> i -> mv_Iter (mv_Reset p i) j = mv_Iter p j
}.

Section SvcFacts.
Context {L : Wire.WireLib} {LOk : WireLibOk} {P : Type} {B : BufferSet P} {BOk : BufferSetOk P}.

(** ** The buffers *)

(** The events waiting for each watch (by its id as a buffer key), with their revisions. *)
Abbreviation event := (Wire.raw Wire.Event).
Abbreviation queues := (Z -> list (event * Z)).

Definition entryOf (x : event * Z) : bytes := Wire.Event_body x.1 ++ be_put 8 x.2.

Definition holds (p : P) (Q : queues) : Prop :=
  forall i, mv_Iter p i = entryOf <$> Q i /\ Forall (fun x => Event_ok x.1 /\ is_u64 x.2) (Q i).

Definition qset (Q : queues) (i : Z) (l : list (event * Z)) : queues := fun j => if j =? i then l else Q j.

(** An event that fits an empty buffer. *)
Definition roomy (e : event) : Prop :=
  forall p i r, mv_Iter p i = [] -> mv_Append p i (entryOf (e, r)) <> None.

Lemma qset_same Q i l : qset Q i l i = l.
Proof. unfold qset. by rewrite Z.eqb_refl. Qed.

Lemma qset_other Q i l j : j <> i -> qset Q i l j = Q j.
Proof. unfold qset. by destruct (Z.eqb_spec j i). Qed.

Lemma holds_append p Q i e r p' :
  holds p Q -> Event_ok e -> is_u64 r -> mv_Append p i (entryOf (e, r)) = Some p' -> holds p' (qset Q i (Q i ++ [(e, r)])).
Proof.
  intros Hp He Hr Ha j. destruct (decide (j = i)) as [->|Hne].
  - rewrite qset_same, (append_here _ _ _ _ Ha), fmap_app. destruct (Hp i) as [-> Hok]. split; [done|].
    apply Forall_app. split; [done|]. by apply Forall_singleton.
  - rewrite qset_other, (append_there _ _ _ _ j Ha) by done. apply Hp.
Qed.

Lemma holds_reset p Q i : holds p Q -> holds (mv_Reset p i) (qset Q i []).
Proof.
  intros Hp j. destruct (decide (j = i)) as [->|Hne].
  - rewrite qset_same, reset_here. by split.
  - rewrite qset_other, reset_there by done. apply Hp.
Qed.

Lemma slice_front {A} (a b : list A) : slice (a ++ b) 0 (blen (a ++ b) - blen b) = Ok a.
Proof.
  rewrite slice_ok by blia. f_equal. rewrite drop_0.
  replace (Z.to_nat (blen (a ++ b) - blen b - 0)) with (length a) by (rewrite blen_app; unfold blen; lia). apply take_app_length.
Qed.

Lemma slice_back {A} (a b : list A) : slice (a ++ b) (blen (a ++ b) - blen b) (blen (a ++ b)) = Ok b.
Proof.
  rewrite slice_ok by blia. f_equal.
  replace (Z.to_nat (blen (a ++ b) - blen b)) with (length a) by (rewrite blen_app; unfold blen; lia). rewrite drop_app_length.
  apply take_ge. rewrite blen_app. unfold blen. lia.
Qed.

Lemma readEvents_ok l evs r0 :
  Forall (fun x => Event_ok x.1 /\ is_u64 x.2) l ->
  readEvents (entryOf <$> l) evs r0 = Ok (evs ++ l.*1, default r0 (last l.*2)).
Proof.
  intros Hl. revert evs r0. induction Hl as [|[e r] l [He Hr] _ IH]; intros evs r0.
  { cbn. by rewrite app_nil_r. }
  rewrite fmap_cons. cbn [readEvents].
  cbn [fst snd] in He, Hr. change (entryOf (e, r)) with (Wire.Event_body e ++ be_put 8 r). replace 8 with (blen (be_put 8 r)) by (by rewrite blen_be_put).
  rewrite slice_front. cbn [rbind]. rewrite Event_read by done. cbn [rbind]. rewrite slice_back. cbn [rbind].
  unfold Uint64. rewrite blen_be_put. change (Z.of_nat 8 <? 8) with false. cbn [rbind]. rewrite take_ge by (by rewrite be_put_length).
  rewrite be_get_put by exact Hr. cbn [rbind]. rewrite IH, <- app_assoc. cbn [app].
  rewrite !fmap_cons, last_cons. by destruct (last l.*2).
Qed.

(** ** Conservation of events *)

Definition sends (rs : list Wire.WatchResponse) : list hostCall := (fun r => Send (Wire.WatchResponse_body (Wire.msgOf r))) <$> rs.

(** The events a list of responses carries to one watch. *)
Definition sentTo (i : Z) (rs : list Wire.WatchResponse) : list event :=
  concat ((fun r => if u64 (Wire.wr_WatchId r) =? i then Wire.wr_Events r else []) <$> rs).

(** A step returns; it sends well-formed responses; and for each watch, what was sent
    and what is left is what was there and what is new, in order. *)
Definition delivers (r : res (P * list hostCall)) (Q : queues) (new : Z -> list event) (Post : queues -> Prop) : Prop :=
  exists p' rs Q', r = Ok (p', sends rs) /\ holds p' Q' /\ Forall (fun r => WatchResponse_ok (Wire.msgOf r)) rs
    /\ (forall i, sentTo i rs ++ (Q' i).*1 = (Q i).*1 ++ new i) /\ Post Q'.

Abbreviation nothing := (fun _ : Z => @nil event).

Lemma sentTo_app i a b : sentTo i (a ++ b) = sentTo i a ++ sentTo i b.
Proof. unfold sentTo. by rewrite fmap_app, concat_app. Qed.

Lemma delivers_nothing p Q (Post : queues -> Prop) : holds p Q -> Post Q -> delivers (Ok (p, [])) Q nothing Post.
Proof. intros Hp HQ. exists p, [], Q. repeat (split; [done|]). split; [|done]. intros i. by rewrite app_nil_r. Qed.

Lemma delivers_seq r k Q n1 (Post1 : queues -> Prop) n2 Post2 :
  delivers r Q n1 Post1 -> (forall p1 Q1, holds p1 Q1 -> Post1 Q1 -> delivers (k p1) Q1 n2 Post2) ->
  delivers (let! '(p, calls) := r in let! '(p, calls') := k p in Ok (p, calls ++ calls')) Q (fun i => n1 i ++ n2 i) Post2.
Proof.
  intros (p1 & rs1 & Q1 & -> & Hp1 & Hok1 & Hc1 & HQ1) Hk.
  destruct (Hk p1 Q1 Hp1 HQ1) as (p2 & rs2 & Q2 & E2 & Hp2 & Hok2 & Hc2 & HQ2).
  exists p2, (rs1 ++ rs2), Q2. cbn [rbind]. rewrite E2. cbn [rbind]. unfold sends. rewrite fmap_app. split; [done|]. split; [done|].
  split; [by apply Forall_app|]. split; [|done]. intros i. by rewrite sentTo_app, <- app_assoc, Hc2, !app_assoc, Hc1.
Qed.

Lemma delivers_ext r Q n n' (Post Post' : queues -> Prop) :
  (forall i, n i = n' i) -> (forall Q', Post Q' -> Post' Q') -> delivers r Q n Post -> delivers r Q n' Post'.
Proof.
  intros He HP (p' & rs & Q' & E & Hp & Hok & Hc & HQ). exists p', rs, Q'. repeat (split; [done|]). split; [|by apply HP].
  intros i. by rewrite Hc, He.
Qed.

Lemma header_ok rev : ResponseHeader_ok (Wire.msgOf (mkResponseHeader (i64 rev) 0 0 0)).
Proof. split; [|done]. split; [by vm_compute|]. split; [by vm_compute|]. split; [apply i64_range|by vm_compute]. Qed.

Lemma WatchResponse_marshal m : Wire.WatchResponse_MarshalVT m = Ok (Wire.WatchResponse_body m).
Proof. apply marshalVT_exact, WatchResponse_size. Qed.

Lemma Event_marshal e : Wire.Event_MarshalVT (Some e) = Ok (Wire.Event_body e).
Proof. apply marshalVT_exact, Event_size. Qed.

Lemma clearEvents_ok p Q id rev sync :
  holds p Q -> is_i64 id -> delivers (clearEvents p id rev sync) Q nothing (fun Q' => Q' (u64 id) = []).
Proof.
  intros Hp Hid. unfold clearEvents. destruct (Hp (u64 id)) as [-> Hok]. rewrite readEvents_ok by done. cbn [rbind app].
  destruct ((Q (u64 id)).*1) as [|e es] eqn:Ee.
  - apply fmap_nil_inv in Ee. by apply delivers_nothing.
  - unfold sendResponse. rewrite WatchResponse_marshal. cbn [rbind]. set (r := Wire.mkWatchResponse _ _ _ _ _ _ _ _).
    exists (mv_Reset p (u64 id)), [r], (qset Q (u64 id) []). split; [done|]. split; [by apply holds_reset|]. split; [|split].
    + apply Forall_singleton. split; [done|]. split; [intros h [= <-]; apply header_ok|]. split; [done|]. split; [by vm_compute|]. split; [by vm_compute|].
      cbn [r Wire.wr_Events Wire.known Wire.msgOf]. rewrite <- Ee. apply Forall_fmap. eapply Forall_impl; [exact Hok|]. by intros x [? _].
    + intros j. unfold sentTo. cbn [fmap list_fmap concat]. cbn [r Wire.wr_WatchId Wire.wr_Events]. rewrite app_nil_r.
      destruct (Z.eqb_spec (u64 id) j) as [<-|Hne].
      * by rewrite qset_same, Ee, !app_nil_r.
      * rewrite qset_other by done. by rewrite app_nil_r.
    + apply qset_same.
Qed.

Definition only (i : Z) (l : list event) : Z -> list event := fun j => if j =? i then l else [].

Lemma sendEvent_ok p Q id rev e :
  holds p Q -> is_i64 id -> is_u64 rev -> Event_ok e -> roomy e ->
  delivers (sendEvent p id rev (Wire.Event_body e)) Q (only (u64 id) [e]) (fun _ => True).
Proof.
  intros Hp Hid Hr He Hroom. unfold sendEvent. change (AppendUint64 (Wire.Event_body e) rev) with (entryOf (e, rev)).
  assert (Hadd : forall Q0 j, (qset Q0 (u64 id) (Q0 (u64 id) ++ [(e, rev)]) j).*1 = (Q0 j).*1 ++ only (u64 id) [e] j).
  { intros Q0 j. unfold only. destruct (Z.eqb_spec j (u64 id)) as [->|Hne].
    - by rewrite qset_same, fmap_app.
    - by rewrite qset_other, app_nil_r. }
  destruct (mv_Append p (u64 id) (entryOf (e, rev))) as [p1|] eqn:Ea.
  - eexists p1, [], _. split; [done|]. split; [by eapply holds_append|]. split; [done|]. split; [|done]. intros j. apply Hadd.
  - destruct (clearEvents_ok p Q id rev false Hp Hid) as (p1 & rs & Q1 & -> & Hp1 & Hok & Hc & HQ1). cbn [rbind].
    destruct (mv_Append p1 (u64 id) (entryOf (e, rev))) as [p2|] eqn:Ea2.
    + eexists p2, rs, _. split; [done|]. split; [by eapply holds_append|]. split; [done|]. split; [|done].
      intros j. rewrite Hadd, app_assoc, Hc. by rewrite app_nil_r.
    + exfalso. apply (Hroom p1 (u64 id) rev); [|done]. destruct (Hp1 (u64 id)) as [-> _]. by rewrite HQ1.
Qed.

(** What an event adds to the watches it is sent to. *)
Definition eachOf (ids : list Z) (e : event) : Z -> list event :=
  fun i => concat ((fun id => only (u64 id) [e] i) <$> ids).

Lemma sendEvents_ok ids p Q rev e :
  holds p Q -> Forall is_i64 ids -> is_u64 rev -> Event_ok e -> roomy e ->
  delivers (sendEvents p ids rev (Wire.Event_body e)) Q (eachOf ids e) (fun _ => True).
Proof.
  intros Hp Hids Hr He Hroom. revert p Q Hp. induction Hids as [|id ids Hid _ IH]; intros p Q Hp; cbn [sendEvents].
  { by apply delivers_nothing. }
  refine (delivers_seq _ _ _ _ _ _ _ (sendEvent_ok p Q id rev e Hp Hid Hr He Hroom) _). intros p1 Q1 Hp1 _. by apply IH.
Qed.

Lemma delivers_empty r Q Post i : delivers r Q nothing Post -> Q i = [] -> delivers r Q nothing (fun Q' => Post Q' /\ Q' i = []).
Proof.
  intros (p' & rs & Q' & E & Hp & Hok & Hc & HQ) Hi. exists p', rs, Q'. repeat (split; [done|]).
  specialize (Hc i). rewrite Hi in Hc. by apply app_nil, proj2, fmap_nil_inv in Hc.
Qed.

Lemma syncEvents_ok ids p Q rev :
  holds p Q -> Forall is_i64 ids ->
  delivers (syncEvents p ids rev) Q nothing (fun Q' => forall id, id ∈ ids -> Q' (u64 id) = []).
Proof.
  intros Hp Hids. revert p Q Hp. induction Hids as [|id ids Hid _ IH]; intros p Q Hp; cbn [syncEvents].
  { apply delivers_nothing; [done|]. intros id X. inversion X. }
  eapply (delivers_ext _ _ nothing); [done| |].
  2:{ refine (delivers_seq _ _ _ nothing _ nothing _ (clearEvents_ok p Q id rev true Hp Hid) _). intros p1 Q1 Hp1 H1.
      refine (delivers_empty _ _ _ (u64 id) (IH p1 Q1 Hp1) H1). }
  intros Q' [Hall Hhere] id' [->|Hin]%elem_of_cons; [done|by apply Hall].
Qed.

(** ** A batch *)

(** The event as the watches without previous values get it. *)
Definition plain (e : event) : event :=
  Wire.mkRaw (Wire.mkEvent (Wire.Type_ (Wire.known e)) (Wire.Kv (Wire.known e)) None) (Wire.unknownFields e).

Definition batchNew (m : Wire.WatchEventBatch) : Z -> list event := fun i =>
  match Wire.web_Event m with
  | Some e => eachOf (Wire.web_WatchIdsPrev m) e i ++ eachOf (Wire.web_WatchIds m) (plain e) i
  | None => []
  end.

Lemma plain_ok e : Event_ok e -> Event_ok (plain e).
Proof.
  destruct e as [[t k pk] u]. intros (Ht & Hk & _ & Hf & Hu). split; [done|]. split; [done|]. split; [done|]. split; [|done].
  cbn in Hu. subst u. unfold Wire.Event_body, plain in *.
  cbn [Wire.Type_ Wire.Kv Wire.PrevKv Wire.putMessageOpt Wire.known Wire.unknownFields Wire.putUnknown] in *. blia.
Qed.

Lemma eachOf_nil e i : eachOf [] e i = [].
Proof. done. Qed.

Lemma sendBatch_ok p Q m e :
  holds p Q -> WatchEventBatch_ok (Wire.msgOf m) -> Wire.web_Event m = Some e -> roomy e -> roomy (plain e) ->
  delivers (sendBatch p m) Q (batchNew m) (fun _ => True).
Proof.
  intros Hp (_ & He & Hr & [Hi _] & [Hpi _]) Em Hroom Hroom'. specialize (He e Em). unfold sendBatch.
  assert (Hsome : forall ids p Q e, holds p Q -> Forall is_i64 ids -> Event_ok e -> roomy e ->
    delivers (if 0 <? blen ids then let! b := Wire.Event_MarshalVT (Some e) in sendEvents p ids (Wire.web_Revision m) b else Ok (p, []))
      Q (eachOf ids e) (fun _ => True)).
  { intros ids p0 Q0 e0 Hp0 Hids He0 Hr0. destruct (Z.ltb_spec 0 (blen ids)) as [_|Hl].
    - rewrite Event_marshal. cbn [rbind]. by apply sendEvents_ok.
    - destruct ids as [|id ids]; [by apply delivers_nothing|]. rewrite blen_cons in Hl. pose proof (blen_nonneg ids). lia. }
  rewrite Em. eapply (delivers_ext _ _ (fun i => eachOf (Wire.web_WatchIdsPrev m) e i ++ eachOf (Wire.web_WatchIds m) (plain e) i));
    [intros i; unfold batchNew; by rewrite Em|intros Q' X; exact X|].
  refine (delivers_seq _ (fun p => if 0 <? blen (Wire.web_WatchIds m) then _ else _) _ _ _ _ _ (Hsome _ p Q e Hp Hpi He Hroom) _).
  intros p1 Q1 Hp1 _. cbn [withoutPrev rbind]. apply (Hsome _ p1 Q1 (plain e)); [done|done|by apply plain_ok|done].
Qed.

(** ** The messages of a stream *)

(** What the storage module sends on a stream, with the id it sends it under. *)
Inductive streamMsg : Type :=
| SInit (id : Z) (h : ResponseHeader)
| SBatch (id : Z) (m : Wire.WatchEventBatch)
| SSync (id : Z) (m : WatchEventSync)
| SNotify (id : Z) (h : ResponseHeader)
| SCanceled (id : Z)
| SExists (id : Z)
| SCompacted (id : Z) (h : ResponseHeader).

Definition encodeMsg (m : streamMsg) : Z * bytes :=
  match m with
  | SInit id h => (id, Zb WatchMessageType_INIT :: Wire.ResponseHeader_body (Wire.msgOf h))
  | SBatch id m => (id, Zb WatchMessageType_EVENT_BATCH :: Wire.WatchEventBatch_body (Wire.msgOf m))
  | SSync id m => (id, Zb WatchMessageType_EVENT_SYNC :: Wire.WatchEventSync_body (Wire.msgOf m))
  | SNotify id h => (id, Zb WatchMessageType_NOTIFY :: Wire.ResponseHeader_body (Wire.msgOf h))
  | SCanceled id => (id, [Zb WatchMessageType_CANCELED])
  | SExists id => (id, [Zb WatchMessageType_ERR_EXISTS])
  | SCompacted id h => (id, Zb WatchMessageType_ERR_COMPACTED :: Wire.ResponseHeader_body (Wire.msgOf h))
  end.

Definition streamMsg_ok (m : streamMsg) : Prop :=
  (encodeMsg m).1 <> WATCH_ID_ERROR /\
  match m with
  | SInit _ h | SNotify _ h | SCompacted _ h => header_typed h
  | SBatch _ m => WatchEventBatch_ok (Wire.msgOf m) /\ exists e, Wire.web_Event m = Some e /\ roomy e /\ roomy (plain e)
  | SSync _ m => WatchEventSync_ok (Wire.msgOf m)
  | SCanceled _ | SExists _ => True
  end.

(** The events a message adds for each watch, and the watches it synchronises. *)
Definition msgNew (m : streamMsg) : Z -> list event := match m with SBatch _ m => batchNew m | _ => nothing end.
Definition synced (m : streamMsg) : list Z := match m with SSync _ m => wes_IDs m | _ => [] end.

Lemma delivers_sends p Q rs : holds p Q -> Forall (fun r => WatchResponse_ok (Wire.msgOf r) /\ Wire.wr_Events r = []) rs ->
  delivers (Ok (p, sends rs)) Q nothing (fun _ => True).
Proof.
  intros Hp Hrs. exists p, rs, Q. split; [done|]. split; [done|]. split; [eapply Forall_impl; [exact Hrs|by intros r [? _]]|]. split; [|done].
  intros i. rewrite app_nil_r. assert (sentTo i rs = []) as ->; [|done]. unfold sentTo.
  induction Hrs as [|r rs [_ He] _ IH]; [done|]. rewrite fmap_cons. cbn [concat]. rewrite He, IH. by destruct (_ =? _).
Qed.

Lemma response_ok h id cr ca rev why :
  (forall x, h = Some x -> ResponseHeader_ok x) -> is_i64 rev -> blen why < 2 ^ 63 ->
  let r := Wire.mkWatchResponse h (i64 id) cr ca rev why false [] in WatchResponse_ok (Wire.msgOf r) /\ Wire.wr_Events r = [].
Proof. intros Hh Hrev Hw. split; [|done]. split; [done|]. split; [done|]. split; [apply i64_range|]. split; [done|]. split; [done|constructor]. Qed.

Lemma shardRecv_ok p Q m :
  holds p Q -> streamMsg_ok m ->
  delivers (shardRecv p (encodeMsg m).2 (encodeMsg m).1) Q (msgNew m) (fun Q' => forall id, id ∈ synced m -> Q' (u64 id) = []).
Proof.
  intros Hp [Hid Hok]. unfold shardRecv. destruct (Z.eqb_spec (encodeMsg m).1 WATCH_ID_ERROR) as [|_]; [done|].
  assert (Hsome : forall h : ResponseHeader, header_typed h -> forall x, Some (Wire.msgOf h) = Some x -> ResponseHeader_ok x) by (by intros h Hh x [= <-]).
  assert (Hh : forall h, header_typed h ->
    mustDecode (Wire.ResponseHeader_UnmarshalVT Wire.ResponseHeader_zero (Wire.ResponseHeader_body (Wire.msgOf h))) = Ok (Wire.msgOf h))
    by (intros h Hh; unfold mustDecode; by rewrite ResponseHeader_read).
  destruct m as [id h|id m|id m|id h|id|id|id h]; cbn [encodeMsg fst snd synced] in *;
    match goal with |- context [bZ (Zb ?c)] => change (bZ (Zb c)) with c end; cbn [Z.eqb Pos.eqb];
    try (eapply delivers_ext; [intros i; reflexivity|intros Q' _ id' X; solve [inversion X]|]); try (rewrite Hh by done; cbn [rbind]);
    unfold sendResponse; rewrite ?WatchResponse_marshal; cbn [rbind app].
  - apply (delivers_sends p Q [_]); [done|]. apply Forall_singleton, response_ok; [by apply Hsome|done..].
  - destruct Hok as (Hm & e & Ee & Hr1 & Hr2). unfold mustDecode. rewrite WatchEventBatch_read by done. cbn [rbind]. by eapply sendBatch_ok.
  - unfold mustDecode. rewrite WatchEventSync_read by done. cbn [rbind]. apply syncEvents_ok; [done|apply Hok].
  - apply (delivers_sends p Q [_]); [done|]. apply Forall_singleton, response_ok; [by apply Hsome|done..].
  - apply (delivers_sends p Q [_]); [done|]. by apply Forall_singleton, response_ok.
  - apply (delivers_sends p Q [_]); [done|]. by apply Forall_singleton, (response_ok None (2 ^ 64 - 1)).
  - apply (delivers_sends p Q [_; _]); [done|]. constructor; [apply response_ok; [by apply Hsome|done..]|].
    apply Forall_singleton, response_ok; [by apply Hsome|apply Hok|done].
Qed.

(** For each watch, the events sent and those left are the ones that were there and those
    the messages added; a watch is left with none once it was synchronised and nothing
    was added since. *)
Lemma shardRecvs_ok ms p Q :
  holds p Q -> Forall streamMsg_ok ms ->
  delivers (shardRecvs p (encodeMsg <$> ms)) Q (fun i => concat ((fun m => msgNew m i) <$> ms))
    (fun Q' => forall pre m post id, ms = pre ++ m :: post -> id ∈ synced m ->
               concat ((fun m => msgNew m (u64 id)) <$> post) = [] -> Q' (u64 id) = []).
Proof.
  intros Hp Hms. revert p Q Hp. induction Hms as [|m ms Hm _ IH]; intros p Q Hp.
  { apply delivers_nothing; [done|]. intros [|? ?] * X; inversion X. }
  rewrite fmap_cons. cbn [shardRecvs]. rewrite (surjective_pairing (encodeMsg m)).
  destruct (shardRecv_ok p Q m Hp Hm) as (p1 & rs1 & Q1 & -> & Hp1 & Hok1 & Hc1 & HQ1).
  destruct (IH p1 Q1 Hp1) as (p2 & rs2 & Q2 & E2 & Hp2 & Hok2 & Hc2 & HQ2). cbn [rbind]. rewrite E2. cbn [rbind].
  exists p2, (rs1 ++ rs2), Q2. unfold sends. rewrite fmap_app. split; [done|]. split; [done|]. split; [by apply Forall_app|]. split.
  - intros i. rewrite sentTo_app, <- app_assoc, Hc2, !app_assoc, Hc1, <- app_assoc. done.
  - intros pre m' post id Epre Hin Hpost. destruct pre as [|m0 pre]; injection Epre as -> Epre.
    + subst ms. specialize (Hc2 (u64 id)). rewrite (HQ1 id Hin), Hpost in Hc2. cbn [fmap list_fmap app] in Hc2.
      by apply app_nil, proj2, fmap_nil_inv in Hc2.
    + by eapply HQ2.
Qed.

End SvcFacts.
