(* ===== verification/SvcTypes.v ===== *)
(** * The gRPC module's variables keep their types (src/module/service-grpc)

    The module decodes what it receives into messages it keeps. Whatever the bytes, the
    handlers return, and the kept messages hold integers of their fields' types. *)

From Stdlib Require Import Strings.String.
From S2P Require Import Prelude Types GoBinary Patch Kv Mdb Db Pb GrpcErrors Watch Wire WireFacts SvcGrpc SvcFacts.

Import Svc.

(** The runtime's decoded integers, by the result types of its functions. *)
Class WireTypes `{Wire.WireLib} : Prop := {
  varint_u64 d i : is_u64 (Wire.DecodeVarint d i).1;
  int64_i64 d i : is_i64 (Wire.DecodeVarintInt64 d i).1
}.

Section SvcTypes.
Context {L : Wire.WireLib} {LOk : WireLibOk} {LT : WireTypes}.

(** ** Decoding keeps what each field keeps *)

Definition keepsField {A} (I : A -> Prop) (r : res (A * (Wire.wireError + Z))) : Prop := forall m e, r = Ok (m, e) -> I m.

Definition keeps {A} (I : A -> Prop) (field : A -> Z -> Z -> bytes -> Z -> option (res (A * (Wire.wireError + Z)))) : Prop :=
  forall m num wt d i r, I m -> field m num wt d i = Some r -> keepsField I r.

Lemma unmarshal_keeps {A} (I : A -> Prop) name field m d m' e :
  keeps I field -> I (Wire.known m) -> Wire.unmarshalVT name field m d = Ok (m', e) -> I (Wire.known m').
Proof.
  intros Hf. unfold Wire.unmarshalVT. generalize (length d) as n, 0 as i. intros n. revert m.
  induction n as [|n IH]; intros m i Hm; cbn [Wire.unmarshalLoop]; (destruct (i <? blen d); [|by intros [= <- _]]); [done|].
  destruct (Wire.DecodeVarint d i) as [wire [e0|j]]; [by intros [= <- _]|].
  destruct (_ =? 4); [by intros [= <- _]|]. destruct (_ <=? 0); [by intros [= <- _]|].
  destruct (field _ _ _ _ _) as [r|] eqn:Ef.
  - specialize (Hf _ _ _ _ _ _ Hm Ef). destruct r as [[m1 e1]| | |]; try done. specialize (Hf m1 e1 eq_refl). cbn [rbind].
    destruct e1; [by intros [= <- _]|by apply IH].
  - destruct (slice _ _ _); try done. cbn [rbind]. destruct (Wire.Skip _); [by intros [= <- _]|].
    destruct (_ || _); [by intros [= <- _]|]. destruct (_ <? _); [by intros [= <- _]|].
    destruct (slice _ _ _); try done. cbn [rbind]. by apply IH.
Qed.

Section Keeps.
Context {A : Type} (I : A -> Prop) (name : string) (m : A) (wt : Z) (d : bytes) (i : Z) (Hm : I m).

Lemma getVarint_keeps set : (forall v, is_u64 v -> I (set v)) -> keepsField I (Wire.getVarint name m wt d i set).
Proof using LT Hm.
  intros Hs m' e. unfold Wire.getVarint. destruct (negb _); [by intros [= <- _]|]. pose proof (varint_u64 d i) as Hv.
  destruct (Wire.DecodeVarint d i). intros [= <- _]. by apply Hs.
Qed.

Lemma getInt64_keeps set : (forall v, is_i64 v -> I (set v)) -> keepsField I (Wire.getInt64 name m wt d i set).
Proof using LT Hm.
  intros Hs m' e. unfold Wire.getInt64. destruct (negb _); [by intros [= <- _]|]. pose proof (int64_i64 d i) as Hv.
  destruct (Wire.DecodeVarintInt64 d i). intros [= <- _]. by apply Hs.
Qed.

Lemma getBool_keeps set : (forall v, I (set v)) -> keepsField I (Wire.getBool name m wt d i set).
Proof using Hm.
  intros Hs m' e. unfold Wire.getBool. destruct (negb _); [by intros [= <- _]|].
  destruct (Wire.DecodeVarintBool d i) as [v [?|?]]; by intros [= <- _].
Qed.

Lemma getBytes_keeps old set : (forall v, I (set v)) -> keepsField I (Wire.getBytes name m wt d i old set).
Proof using Hm.
  intros Hs m' e. unfold Wire.getBytes. destruct (negb _); [by intros [= <- _]|].
  destruct (Wire.DecodeBytesAppend old d i). by intros [= <- _].
Qed.

End Keeps.

(** ** The kept messages *)

Definition range_typed (r : RangeRequest) : Prop :=
  Forall is_i64 [rr_Limit r; rr_Revision r; rr_MinModRevision r; rr_MaxModRevision r; rr_MinCreateRevision r; rr_MaxCreateRevision r].

Ltac keep_cases :=
  intros m num wt d i r Hm; destruct m; cbn -[Wire.unmarshalVT];
  repeat match goal with
    | |- match ?p with _ => _ end = Some _ -> _ => destruct p; try done
    end; intros [= <-].

Lemma header_keeps : keeps header_typed Wire.ResponseHeader_field.
Proof.
  keep_cases; first [apply getVarint_keeps|apply getInt64_keeps]; try done; unfold header_typed in *; cbn in *; tauto.
Qed.

Lemma range_keeps : keeps range_typed Wire.RangeRequest_field.
Proof.
  keep_cases; first [apply getVarint_keeps|apply getInt64_keeps|apply getBool_keeps|apply getBytes_keeps]; try done;
    unfold range_typed in *; cbn in *; intros v Hv; rewrite !Forall_cons in *; tauto.
Qed.

Lemma header_decode h d : header_typed (Wire.known h) ->
  exists h' e, Wire.ResponseHeader_UnmarshalVT h d = Ok (h', e) /\ header_typed (Wire.known h').
Proof.
  intros Hh. destruct (ResponseHeader_total h d) as [[h' e] E]. exists h', e. split; [exact E|].
  exact (unmarshal_keeps header_typed _ _ h d h' e header_keeps Hh E).
Qed.

Lemma range_decode r d : range_typed (Wire.known r) ->
  exists r' e, Wire.RangeRequest_UnmarshalVT r d = Ok (r', e) /\ range_typed (Wire.known r').
Proof.
  intros Hr. destruct (RangeRequest_total r d) as [[r' e] E]. exists r', e. split; [exact E|].
  exact (unmarshal_keeps range_typed _ _ r d r' e range_keeps Hr E).
Qed.

(** ** The handlers *)

Definition svc_typed (s : svc) : Prop :=
  range_typed (Wire.known (sv_range s))
  /\ (header_typed (Wire.known (Wire.ml_Header (sv_members s))) /\ is_u64 (Wire.ml_MemberID (sv_members s)))
  /\ (header_typed (Wire.known (Wire.st_Header (sv_status s)))
      /\ Forall is_i64 [Wire.st_DbSize (sv_status s); Wire.st_DbSizeInUse (sv_status s)]
      /\ Forall is_u64 [Wire.st_Leader (sv_status s); Wire.st_RaftIndex (sv_status s); Wire.st_RaftTerm (sv_status s); Wire.st_RaftAppliedIndex (sv_status s)]).

Lemma svcInit_typed : svc_typed svcInit.
Proof.
  unfold svc_typed, range_typed, header_typed, is_i64, is_u64, svcInit. cbn. repeat first [split | constructor]; lia.
Qed.

Lemma MemberList_marshal m : exists out, Wire.MemberListResponse_MarshalVT m = Ok out.
Proof.
  eexists. apply marshalVT_exact. by rewrite blen_app, !len_putMessage, ResponseHeader_size, len_putVarint.
Qed.

Lemma Status_marshal m : exists out, Wire.StatusResponse_MarshalVT m = Ok out.
Proof.
  eexists. apply marshalVT_exact. rewrite !blen_app, !len_putMessage, ResponseHeader_size, !len_putVarint, len_putBytes. lia.
Qed.

(** A handler returns, keeps the types, and makes one call unless it returns an error. *)
Definition safe (h : svc -> bytes -> res (svc * list hostCall * option GrpcErrors.goError)) : Prop :=
  forall s in_, svc_typed s -> exists s' calls e, h s in_ = Ok (s', calls, e) /\ svc_typed s' /\ (e = None -> length calls = 1%nat).

(** A range request is asked of the shard with its own bytes, or refused. *)
Lemma kvRange_typed s in_ : svc_typed s ->
  exists s' c e, kvRange s in_ = Ok (s', [c], e) /\ svc_typed s'
    /\ ((exists stale, c = ReadAsync "kvRange" (in_ ++ [Zb QUERY_KV_RANGE]) stale) \/ exists text, c = SendErr GrpcErrors.InvalidArgument text).
Proof.
  intros (Hr & Hm). unfold kvRange. destruct (range_decode (sv_range s) in_ Hr) as (r' & e & -> & Hr'). cbn [rbind].
  destruct e; eexists _, _, _; (split; [reflexivity|]); (split; [by split|]); [right; by eexists|left; by eexists].
Qed.

Lemma statusRecv_typed s val data : svc_typed s ->
  exists s' calls, statusRecv s val data None = Ok (s', calls) /\ svc_typed s' /\ (length calls <= 1)%nat
    /\ (val = 1 -> length calls = 1%nat).
Proof.
  intros (Hr & Hm & Hh & Hi & Hu). unfold statusRecv, grpcError_. destruct (Z.eqb_spec val 1) as [->|Hne]; cbn [negb].
  - destruct (header_decode (Wire.st_Header (sv_status s)) data Hh) as (h' & e & -> & Hh'). cbn [rbind]. destruct e as [e|].
    + eexists _, _. split; [reflexivity|]. split; [|by split; [cbn; lia|]]. by repeat (split; [done|]).
    + edestruct Status_marshal as [out ->]. cbn [rbind]. eexists _, _. split; [reflexivity|]. split; [|by split; [cbn; lia|]].
      split; [done|]. split; [done|]. split; [done|]. split; [done|]. cbn.
      destruct Hh' as (_ & ? & _). rewrite !Forall_cons. repeat (split; [first [done|apply u64_range|by vm_compute]|]). done.
  - destruct (errStringToError _); eexists _, _; (split; [reflexivity|]); (split; [by repeat (split; [done|])|]); (split; [cbn; lia|done]).
Qed.

Lemma memberList_typed read s in_ : svc_typed s ->
  exists s' calls e, clusterMemberList read s in_ = Ok (s', calls, e) /\ svc_typed s'
    /\ (e = None -> length calls = 1%nat) /\ (e <> None -> calls = []).
Proof.
  intros (Hr & (Hh & Hi) & Hst). unfold clusterMemberList. destruct (read _ _) as [[val out] err].
  destruct (grpcError_ val out err) as [out' [e|]].
  { eexists _, _, _. split; [reflexivity|]. split; [by repeat (split; [done|])|done]. }
  destruct (header_decode (Wire.ml_Header (sv_members s)) out' Hh) as (h' & e & -> & Hh'). cbn [rbind]. destruct e as [e|].
  - eexists _, _, _. split; [reflexivity|]. split; [by repeat (split; [done|])|done].
  - edestruct MemberList_marshal as [out2 ->]. cbn [rbind]. eexists _, _, _. split; [reflexivity|]. split; [|done].
    split; [done|]. split; [|done]. split; [done|]. apply Hh'.
Qed.

Lemma Alarm_marshal : exists out, Wire.AlarmResponse_MarshalVT = Ok out.
Proof. eexists. apply marshalVT_exact. by rewrite len_putMessage, ResponseHeader_size. Qed.

(** Every unary handler of every service. *)
Lemma services_safe read service ms name h :
  (service, ms) ∈ services read -> (name, Unary h) ∈ ms -> safe h.
Proof.
  assert (Hc : forall f, (forall in_ : bytes, length (f in_ : list hostCall) = 1%nat) -> safe (fun s in_ => Ok (s, f in_, None))).
  { intros f Hf s in_ Hs. exists s, (f in_), None. split; [done|]. split; [done|]. intros _. apply Hf. }
  assert (Forall (fun sv : string * list (string * method) =>
            Forall (fun nm => match nm.2 with Unary h => safe h | _ => True end) sv.2) (services read)) as Hall.
  { unfold services, calls. repeat (apply Forall_cons; split; [cbn [snd]|]); [..|apply Forall_nil; done].
    all: repeat (apply Forall_cons; split; [cbn [snd]|]); try (apply Forall_nil; exact I); try exact I; try (apply Hc; done).
    - intros s in_ Hs. destruct (memberList_typed read s in_ Hs) as (s' & cs & e & E & Hs' & H1 & _). by exists s', cs, e.
    - intros s in_ Hs. destruct (kvRange_typed s in_ Hs) as (s' & c & e & E & Hs' & _). by exists s', [c], e.
    - intros s in_ Hs. unfold maintenanceAlarm. destruct Alarm_marshal as [out ->]. cbn [rbind]. by exists s, [Send out], None. }
  intros Hs Hm. rewrite Forall_forall in Hall. specialize (Hall _ Hs). rewrite Forall_forall in Hall. exact (Hall _ Hm).
Qed.

End SvcTypes.
