(* ===== verification/SvcCompose.v ===== *)
(** * From a notice to the client (src/module: storage-kv/stream.go, service-grpc/service_watch.go)

    The messages the storage module sends for its notices, received by the gRPC module:
    what each watch is sent in the end. *)

From stdpp Require Import gmap sorting.
From S2P Require Import Prelude Types GoBinary Patch Kv Mdb MdbFacts MdbKeys Db DbFacts DbLease DbKv Frame History DbKvRead DbKvWrite Pb StateMachine Update LeaseOps Events Compact ModStore ModMain ModSlices ModFacts Watch WatchFacts ModStream ModNotice ModWatch Wire WireFacts GrpcErrors SvcGrpc SvcFacts.

Section Compose.
Context (cfg : config) `{DifferOk} `{SnappyOk} `{MdbOk} `{HostSlices} `{Proto} {L : Wire.WireLib} {LOk : WireLibOk}.
Context {P : Type} {B : Svc.BufferSet P} {BOk : BufferSetOk P} {W : Type}.
Context (fuel : nat) (shardID replicaID : Z) (idRange : list Z -> list Z).

(** The storage module marshals with the generated code. *)
Hypothesis wire_batch : forall m, pb_Marshal MWatchEventBatch m = Ok (Wire.WatchEventBatch_body (Wire.ofBatch m)).
Hypothesis wire_sync : forall m, pb_Marshal MWatchEventSync m = Ok (Wire.WatchEventSync_body (Wire.msgOf m)).
Hypothesis wire_header : forall m, pb_Marshal MResponseHeader m = Ok (Wire.ResponseHeader_body (Wire.msgOf m)).

Abbreviation stream := (@modStream W).

(** ** One event *)

Definition curIs (M : history) (e : kvEvent) (cur : kv) : Prop :=
  if keyrev_isdel (ev_rev e) then cur = mkKv (ev_rev e) 0 0 0 0 (ev_key e) None
  else kvOr (ev_key e) (visible (evtUpper e) (M (ev_key e))) cur.

(** A record of the history as the client sees it, if it has a revision. *)
Definition wireKv (key : bytes) (o : option hrec) : option (Wire.raw KeyValue) :=
  match o with
  | Some h =>
      if 0 <? keyrev_upper (h_rev h) then
        Some (Wire.msgOf (mkKeyValue (i64 (h_created h)) (i64 (keyrev_upper (h_rev h))) (i64 (h_version h)) (i64 (h_lease h)) key
                (match h_val h with [] => None | v => Some v end)))
      else None
  | None => None
  end.

(** The event as a watch should get it: the record its revision left, or the revision it
    deleted the key at, and on request the record it replaced. *)
Definition wireEvent (M : history) (withPrev : bool) (e : kvEvent) : Wire.raw Wire.Event :=
  Wire.msgOf (Wire.mkEvent (etypeZ (kvEvent_etype e))
    (if keyrev_isdel (ev_rev e) then
       if 0 <? evtUpper e then Some (Wire.msgOf (mkKeyValue 0 (i64 (evtUpper e)) 0 0 (ev_key e) None)) else None
     else wireKv (ev_key e) (visible (evtUpper e) (M (ev_key e))))
    (if withPrev then wireKv (ev_key e) (prevOf (evtUpper e) (M (ev_key e))) else None)).

Lemma kvOr_wire key o item : kvOr key o item ->
  Wire.ofKv <$> (if 0 <? keyrev_upper (kv_rev item) then Some (kv_ToProto item) else None) = wireKv key o.
Proof.
  destruct o as [h|]; cbn [kvOr wireKv]; [intros [Er Ev Ec El Ek Eval]|by intros ->].
  rewrite Er. destruct (0 <? _); [|done]. cbn [fmap option_fmap option_map]. unfold Wire.ofKv, kv_ToProto. cbn.
  rewrite Er, Ev, Ec, El, Ek, <- Eval. by destruct (kv_val item) as [[|? ?]|].
Qed.

Lemma eventOf_wire M e cur prev withPrev :
  curIs M e cur -> kvOr (ev_key e) (if withPrev : bool then prevOf (evtUpper e) (M (ev_key e)) else None) prev ->
  Wire.ofEvent (eventOf e cur prev) = wireEvent M withPrev e.
Proof.
  intros Hc Hp. unfold wireEvent, Wire.ofEvent, eventOf. cbn [evt_Type evt_Kv evt_PrevKv]. do 2 f_equal.
  - unfold curIs in Hc. destruct (keyrev_isdel (ev_rev e)); [|by apply kvOr_wire]. subst cur. cbn [kv_rev]. fold (evtUpper e).
    by destruct (0 <? evtUpper e).
  - rewrite (kvOr_wire _ _ _ Hp). by destruct withPrev.
Qed.

Lemma plain_wire M b e : plain (wireEvent M b e) = wireEvent M false e.
Proof. done. Qed.

(** The event can be sent: its fields are in range and it fits an empty buffer. *)
Definition sendable (M : history) (e : kvEvent) : Prop :=
  forall withPrev, Event_ok (wireEvent M withPrev e) /\ roomy (P := P) (wireEvent M withPrev e).

(** Ids that are distinct [uint64]s, few enough to be counted. *)
Definition idsOk (ids : list Z) : Prop :=
  NoDup ids /\ Forall is_u64 ids /\ Z.of_nat (length ids) < 2 ^ 59.

Lemma eachOf_ids ids w i :
  NoDup ids -> Forall is_u64 ids -> eachOf (i64 <$> ids) w i = if decide (i ∈ ids) then [w] else [].
Proof.
  intros Hn Hu. unfold eachOf. rewrite <- list_fmap_compose. induction Hn as [|id ids Hni _ IH]; [done|].
  apply Forall_cons in Hu as [Hid Hu]. rewrite fmap_cons. cbn [concat]. rewrite (IH Hu). unfold compose, only. rewrite (u64_i64 id Hid).
  destruct (Z.eqb_spec i id) as [->|Hne].
  - rewrite (decide_False (P := id ∈ ids)) by done. by rewrite decide_True by left.
  - cbn [app]. destruct (decide (i ∈ ids)) as [Hin|Hnin]; [by rewrite decide_True by (by right)|].
    rewrite decide_False; [done|]. intros [->|Hin]%elem_of_cons; done.
Qed.

Lemma packed_small ids : Z.of_nat (length ids) < 2 ^ 59 -> blen (packed ids) < 2 ^ 63.
Proof.
  assert (blen (packed ids) <= 10 * Z.of_nat (length ids)); [|lia].
  induction ids as [|v ids IH]; [by vm_compute|]. unfold packed. rewrite fmap_cons. cbn [concat]. fold (packed ids).
  rewrite blen_app. pose proof (enc_length (u64 v) (u64_range v)). cbn [length]. lia.
Qed.

Lemma ids_i64 ids : Z.of_nat (length ids) < 2 ^ 59 -> ids_ok (i64 <$> ids).
Proof. intros Hl. split; [|apply packed_small; by rewrite length_fmap]. apply Forall_fmap, Forall_true. intros x. apply i64_range. Qed.

(** Whether a watch of a notice with these ids is sent an event. *)
Definition wantsOf (s : stream) (id : Z) (req : WatchCreateRequest) (ids : list Z) (e : kvEvent) : bool :=
  bool_decide (id ∈ ids) && mod_wants req (default 0 (st_revs s !! id)) e.

Lemma addressed_wants (s : stream) id req ids e wp :
  cachedReq s id = Some req ->
  id ∈ filter (fun id => addressed s e wp id = true) ids <-> wantsOf s id req ids e = true /\ wc_PrevKv req = wp.
Proof.
  intros Hc. rewrite list_elem_of_filter. unfold addressed, wantsOf. rewrite Hc, !andb_true_iff, bool_decide_eq_true, Bool.eqb_true_iff. tauto.
Qed.

(** The message of an event, and what it adds for one watch. *)
Lemma batch_message (s : stream) M ids e m id req :
  batchFor s M ids e m -> sendable M e -> idsOk ids -> is_u64 (evtUpper e) -> cachedReq s id = Some req ->
  exists sm, encodeMsg sm = (res_Value m, res_Data m) /\ streamMsg_ok (P := P) sm
    /\ msgNew sm id = wireEvent M (wc_PrevKv req) <$> filter (fun e => wantsOf s id req ids e = true) [e].
Proof.
  intros (cur & prev & withPrev & b & Hcur & Hprev & Hw & Eb & ->) Hs (Hnd & Hu & Hlen) Hup Hc.
  rewrite wire_batch in Eb. injection Eb as <-. match goal with |- context [Wire.ofBatch ?b] => pose (wb := Wire.known (Wire.ofBatch b)) end. exists (SBatch 0 wb). split; [done|].
  pose proof (eventOf_wire M e cur prev withPrev Hcur Hprev) as Ew. destruct (Hs withPrev) as [Hok Hr1]. destruct (Hs false) as [_ Hr2].
  assert (Hsub : forall wp, Z.of_nat (length (filter (fun id => addressed s e wp id = true) ids)) < 2 ^ 59).
  { intros wp. pose proof (length_filter (fun id => addressed s e wp id = true) ids). lia. }
  assert (Hweb : Wire.web_Event wb = Some (wireEvent M withPrev e)) by (cbn [wb Wire.ofBatch Wire.known Wire.msgOf Wire.web_Event Pb.web_Event]; by rewrite Ew).
  split.
  { split; [done|]. split; [|by exists (wireEvent M withPrev e)].
    split; [done|]. split; [intros e0; cbn [Wire.known Wire.msgOf]; rewrite Hweb; by intros [= <-]|]. split; [done|]. split; apply ids_i64, Hsub. }
  unfold msgNew, batchNew. rewrite Hweb. cbn [wb Wire.ofBatch Wire.known Wire.msgOf Wire.web_WatchIdsPrev Wire.web_WatchIds Pb.web_WatchIdsPrev Pb.web_WatchIds].
  assert (Huf : forall wp, Forall is_u64 (filter (fun id => addressed s e wp id = true) ids)).
  { intros wp. apply Forall_forall. intros x [_ Hx]%list_elem_of_filter. rewrite Forall_forall in Hu. by apply Hu. }
  rewrite !eachOf_ids by (try apply NoDup_filter; done).
  pose proof (fun wp => addressed_wants s id req ids e wp Hc) as Ha. rewrite filter_cons, filter_nil, plain_wire.
  destruct (wantsOf s id req ids e).
  - rewrite (decide_True (P := true = true)) by done. destruct (wc_PrevKv req) eqn:Ep.
    + rewrite decide_True by (by apply Ha). rewrite decide_False by (by intros [_ ?]%Ha). rewrite Hw; [done|].
      intros X. apply fmap_nil_inv in X. assert (id ∈ filter (fun id => addressed s e true id = true) ids) as Hy by (by apply Ha).
      rewrite X in Hy. inversion Hy.
    + rewrite decide_False by (by intros [_ ?]%Ha). by rewrite decide_True by (by apply Ha).
  - rewrite (decide_False (P := false = true)) by done. by rewrite !decide_False by (by intros [? _]%Ha).
Qed.

(** ** All messages *)

Abbreviation pairOf := (fun m : Result => (res_Value m, res_Data m)).

(** What a list of messages adds for one watch. *)
Definition adds (id : Z) (sms : list streamMsg) : list (Wire.raw Wire.Event) := concat ((fun m => msgNew m id) <$> sms).

Lemma adds_app id a b : adds id (a ++ b) = adds id a ++ adds id b.
Proof. unfold adds. by rewrite fmap_app, concat_app. Qed.

Lemma event_messages (s : stream) M ids Y ms id req :
  Forall2 (batchFor s M ids) Y ms -> Forall (fun e => sendable M e /\ is_u64 (evtUpper e)) Y -> idsOk ids -> cachedReq s id = Some req ->
  exists sms, encodeMsg <$> sms = pairOf <$> ms /\ Forall (streamMsg_ok (P := P)) sms
    /\ adds id sms = wireEvent M (wc_PrevKv req) <$> filter (fun e => wantsOf s id req ids e = true) Y.
Proof.
  intros Hf HY Hids Hc. induction Hf as [|e m Y ms Hm Hf IH]; [exists []; repeat split; constructor|].
  apply Forall_cons in HY as [[Hs Hup] HY]. destruct (IH HY) as (sms & Es & Hok & Hr).
  destruct (batch_message s M ids e m id req) as (sm & Em & Hokm & Hrm); try done.
  exists (sm :: sms). rewrite !fmap_cons, Em, Es. split; [done|]. split; [by constructor|].
  change (e :: Y) with ([e] ++ Y). rewrite filter_app, fmap_app, <- Hr, <- Hrm. done.
Qed.

Lemma wantsOf_wanted (s : stream) id req ids e :
  cachedReq s id = Some req -> wantsOf s id req ids e = true -> wanted s ids e = true.
Proof.
  intros Hc Hw. unfold wanted. assert (Hin : id ∈ filter (fun id => addressed s e (wc_PrevKv req) id = true) ids) by (by eapply addressed_wants).
  assert (Hpos : 0 < blen (i64 <$> filter (fun id => addressed s e (wc_PrevKv req) id = true) ids)).
  { apply blen_pos. intros X. apply fmap_nil_inv in X. rewrite X in Hin. inversion Hin. }
  destruct (wc_PrevKv req); apply Z.ltb_lt in Hpos; rewrite Hpos; [by rewrite orb_true_r|done].
Qed.

Lemma filter_wanted (s : stream) id req ids (X : list kvEvent) :
  cachedReq s id = Some req ->
  filter (fun e => wantsOf s id req ids e = true) (filter (fun e => wanted s ids e = true) X) = filter (fun e => wantsOf s id req ids e = true) X.
Proof.
  intros Hc. rewrite list_filter_filter. apply filter_agree, Forall_true. intros e. split; [by intros [? _]|].
  intros Hw. split; [done|by eapply wantsOf_wanted].
Qed.

(** The events of the notices a watch wants, in order. *)
Definition wantedEvents (s : stream) (id : Z) (req : WatchCreateRequest) (E : list kvEvent) (notices : list notice) : list kvEvent :=
  concat ((fun n => filter (fun e => wantsOf s id req (n_IDs n) e = true) (filter (fun e => evtUpper e = n_Val n) E)) <$> notices).

Lemma notice_messages (s : stream) M E notices batches id req :
  Forall2 (fun n l => Forall2 (batchFor s M (n_IDs n))
             (filter (fun e => wanted s (n_IDs n) e = true) (filter (fun e => evtUpper e = n_Val n) E)) l) notices batches ->
  Forall (fun e => sendable M e /\ is_u64 (evtUpper e)) E -> Forall (fun n => idsOk (n_IDs n)) notices -> cachedReq s id = Some req ->
  exists sms, encodeMsg <$> sms = pairOf <$> concat batches /\ Forall (streamMsg_ok (P := P)) sms
    /\ adds id sms = wireEvent M (wc_PrevKv req) <$> wantedEvents s id req E notices.
Proof.
  intros Hf HE Hids Hc. unfold wantedEvents. induction Hf as [|n l notices batches Hl Hf IH]; [exists []; repeat split; constructor|].
  apply Forall_cons in Hids as [Hn Hids]. destruct (IH Hids) as (sms & Es & Hok & Hr).
  destruct (event_messages _ _ _ _ _ id req Hl) as (sm & Em & Hokm & Hrm); [|done|done|].
  { rewrite Forall_forall in HE. apply Forall_forall. intros e [_ [_ Hin]%list_elem_of_filter]%list_elem_of_filter. by apply HE. }
  rewrite filter_wanted in Hrm by done.
  exists (sm ++ sms). cbn [concat]. rewrite !fmap_app, Em, Es. split; [done|]. split; [by apply Forall_app|].
  rewrite adds_app, fmap_cons. cbn [concat]. by rewrite fmap_app, Hrm, Hr.
Qed.

(** The sync message and the progress notices of a call. *)
Lemma sync_message ids rev sync :
  syncNote ids rev sync -> Forall is_i64 ids -> Z.of_nat (length ids) < 2 ^ 59 -> is_u64 rev -> ids <> [] ->
  exists m, encodeMsg m = (0, Zb MWatch_EVENT_SYNC :: Wire.WatchEventSync_body (Wire.msgOf (mkWatchEventSync ids rev))) /\ synced m = ids
    /\ streamMsg_ok (P := P) m /\ sync = [mkResult 0 (Zb MWatch_EVENT_SYNC :: Wire.WatchEventSync_body (Wire.msgOf (mkWatchEventSync ids rev)))].
Proof.
  intros Hs Hi Hl Hr Hne. unfold syncNote in Hs. apply blen_pos, Z.ltb_lt in Hne. rewrite Hne in Hs. destruct Hs as (b & Eb & ->).
  rewrite wire_sync in Eb. injection Eb as <-. exists (SSync 0 (mkWatchEventSync ids rev)). split; [done|]. split; [done|]. split; [|done].
  split; [done|]. split; [done|]. split; [|done]. split; [done|by apply packed_small].
Qed.

Lemma note_messages (s : stream) rev notes :
  Forall (progressNote shardID replicaID s rev) notes -> cachedReq s Svc.WATCH_ID_ERROR = None -> is_u64 shardID -> is_u64 replicaID ->
  exists sms, encodeMsg <$> sms = pairOf <$> notes /\ Forall (streamMsg_ok (P := P)) sms /\ forall id, adds id sms = [].
Proof.
  intros Hn He Hs Hr. induction Hn as [|m notes (id & b & Hid & Eb & ->) Hn (sms & Es & Hok & Ha)]; [exists []; repeat split; constructor|].
  rewrite wire_header in Eb. injection Eb as <-. exists (SNotify id (mod_responseHeader shardID replicaID rev) :: sms).
  rewrite !fmap_cons, Es. split; [done|]. split; [|done]. constructor; [|done]. split; [cbn; congruence|].
  split; [done|]. split; [done|]. split; [apply i64_range|done].
Qed.

(** ** A watch that starts *)

(** A watch is settled after messages that add nothing to it or synchronise it last. *)
Definition settled (wid : Z) (sms : list streamMsg) : Prop :=
  adds (u64 wid) sms = [] \/ exists pre m post, sms = pre ++ m :: post /\ wid ∈ synced m /\ adds (u64 wid) post = [].

Lemma settled_app wid a b : settled wid a -> settled wid b -> settled wid (a ++ b).
Proof.
  intros Ha [Hb|(pre & m & post & -> & Hm & Hp)].
  - destruct Ha as [Ha|(pre & m & post & -> & Hm & Hp)].
    + left. by rewrite adds_app, Ha, Hb.
    + right. exists pre, m, (post ++ b). rewrite <- app_assoc. split; [done|]. split; [done|]. by rewrite adds_app, Hp, Hb.
  - right. exists (a ++ pre), m, post. by rewrite <- app_assoc.
Qed.

Lemma ids_one w : is_i64 w -> ids_ok [w].
Proof. intros Hw. split; [by apply Forall_singleton|apply packed_small; cbn; lia]. Qed.

Lemma ids_none : ids_ok [].
Proof. split; [constructor|by vm_compute]. Qed.

(** The batch of one replayed event: the watch is among those without previous values. *)
Lemma start_message req M rev e m :
  startBatch req M rev e m -> sendable M e -> is_i64 (wc_WatchId req) -> u64 (wc_WatchId req) <> Svc.WATCH_ID_ERROR -> is_u64 rev ->
  exists sm, encodeMsg sm = (res_Value m, res_Data m) /\ streamMsg_ok (P := P) sm /\ msgNew sm (u64 (wc_WatchId req)) = [wireEvent M false e].
Proof.
  intros (cur & prev & b & Hcur & Hprev & Eb & ->) Hs Hw He Hr. rewrite wire_batch in Eb. injection Eb as <-.
  pose proof (eventOf_wire M e cur prev (wc_PrevKv req) Hcur Hprev) as Ew. destruct (Hs (wc_PrevKv req)) as [Hok Hr1]. destruct (Hs false) as [_ Hr2].
  unfold Wire.ofBatch. cbn [Pb.web_Event Pb.web_Revision Pb.web_WatchIds Pb.web_WatchIdsPrev]. rewrite Ew.
  exists (SBatch (u64 (wc_WatchId req)) (Wire.mkWatchEventBatch (Some (wireEvent M (wc_PrevKv req) e)) rev [wc_WatchId req] [])).
  split; [done|]. split.
  - split; [done|]. split; [|by exists (wireEvent M (wc_PrevKv req) e)]. split; [done|]. split; [by intros e0 [= <-]|]. split; [done|].
    split; [by apply ids_one|exact ids_none].
  - unfold msgNew, batchNew. cbn [Wire.web_Event Wire.web_WatchIdsPrev Wire.web_WatchIds]. unfold eachOf, only. cbn. by rewrite Z.eqb_refl.
Qed.

Lemma start_messages req M rev X ms :
  Forall2 (startBatch req M rev) X ms -> Forall (sendable M) X -> is_i64 (wc_WatchId req) -> u64 (wc_WatchId req) <> Svc.WATCH_ID_ERROR -> is_u64 rev ->
  exists sms, encodeMsg <$> sms = pairOf <$> ms /\ Forall (streamMsg_ok (P := P)) sms
    /\ adds (u64 (wc_WatchId req)) sms = wireEvent M false <$> X.
Proof.
  intros Hf HX Hw He Hr. induction Hf as [|e m X ms Hm Hf IH]; [exists []; repeat split; constructor|].
  apply Forall_cons in HX as [Hs HX]. destruct (IH HX) as (sms & Es & Hok & Ha).
  destruct (start_message req M rev e m Hm Hs Hw He Hr) as (sm & Em & Hokm & Ham). exists (sm :: sms).
  rewrite !fmap_cons, Em, Es. split; [done|]. split; [by constructor|]. unfold adds in *. rewrite fmap_cons. cbn [concat]. by rewrite Ham, Ha.
Qed.

(** A scan after the INIT message. *)
Lemma scan_messages req M rev X out :
  scanMsgs shardID replicaID req M rev X false out -> Forall (sendable M) X -> is_i64 (wc_WatchId req) ->
  u64 (wc_WatchId req) <> Svc.WATCH_ID_ERROR -> is_u64 rev ->
  exists sms, encodeMsg <$> sms = pairOf <$> out /\ Forall (streamMsg_ok (P := P)) sms
    /\ adds (u64 (wc_WatchId req)) sms = wireEvent M false <$> selected req X /\ settled (wc_WatchId req) sms.
Proof.
  intros (init & ms & sync & -> & Hi & Hf & Hs) HX Hw He Hr. cbn in Hi. subst init. cbn [app].
  destruct (start_messages req M rev _ ms Hf) as (sms & Es & Hok & Ha); [|done..|].
  { apply Forall_forall. intros e [_ Hin]%list_elem_of_filter. rewrite Forall_forall in HX. by apply HX. }
  destruct ms as [|m ms]; cbn in Hs.
  - subst sync. apply fmap_nil_inv in Es. subst sms. exists []. apply Forall2_nil_inv_r in Hf. rewrite Hf. repeat split; [constructor|]. by left.
  - destruct Hs as (b & Eb & ->). rewrite wire_sync in Eb. injection Eb as <-.
    set (sy := SSync 0 (mkWatchEventSync [wc_WatchId req] rev)). exists (sms ++ [sy]). rewrite !fmap_app, Es. split; [done|]. split; [|split].
    + apply Forall_app. split; [done|]. apply Forall_singleton. split; [done|]. split; [done|]. split; [by apply ids_one|done].
    + rewrite adds_app, Ha. apply app_nil_r.
    + right. exists sms, sy, []. split; [done|]. split; [left|done].
Qed.

Lemma header_typed_mod rev : is_u64 shardID -> is_u64 replicaID -> header_typed (mod_responseHeader shardID replicaID rev).
Proof. intros Hs Hr. split; [done|]. split; [done|]. split; [apply i64_range|done]. Qed.

Lemma startNote_messages req rev l :
  startNote shardID replicaID req rev l -> u64 (wc_WatchId req) <> Svc.WATCH_ID_ERROR -> is_u64 shardID -> is_u64 replicaID ->
  exists sms, encodeMsg <$> sms = pairOf <$> l /\ Forall (streamMsg_ok (P := P)) sms /\ adds (u64 (wc_WatchId req)) sms = [].
Proof.
  unfold startNote. intros Hn He Hs Hr. destruct (wc_ProgressNotify req); [|subst l; exists []; repeat split; constructor].
  destruct Hn as (b & Eb & ->). rewrite wire_header in Eb. injection Eb as <-.
  exists [SNotify (u64 (wc_WatchId req)) (mod_responseHeader shardID replicaID rev)]. split; [done|]. split; [|done].
  apply Forall_singleton. split; [done|by apply header_typed_mod].
Qed.

(** The response that tells the client its watch is there. *)
Definition createdResponse (id : Z) (h : ResponseHeader) : Wire.WatchResponse :=
  Wire.mkWatchResponse (Some (Wire.msgOf h)) (i64 id) true false 0 [] false [].

Lemma shardRecvs_init (p : P) id h ms p' rs :
  header_typed h -> id <> Svc.WATCH_ID_ERROR -> Svc.shardRecvs p ms = Ok (p', sends rs) ->
  Svc.shardRecvs p ((id, Zb MWatch_INIT :: Wire.ResponseHeader_body (Wire.msgOf h)) :: ms) = Ok (p', sends (createdResponse id h :: rs)).
Proof.
  intros Hh Hid E. cbn [Svc.shardRecvs]. unfold Svc.shardRecv. destruct (Z.eqb_spec id Svc.WATCH_ID_ERROR); [done|].
  change (bZ (Zb MWatch_INIT)) with 6. cbn [Z.eqb Pos.eqb Svc.WatchMessageType_INIT]. unfold Svc.mustDecode.
  rewrite ResponseHeader_read by done. cbn [rbind]. unfold Svc.sendResponse. rewrite WatchResponse_marshal. cbn [rbind]. by rewrite E.
Qed.

Lemma start_reaches_client {RW : RangeWatch W} n (s : stream) t0 t1 t2 req M1 M2 E1 E2 rev1 rev2 min rw1 rw2 rw3 (p : P) Q :
  let wid := wc_WatchId req in let id := u64 wid in let start := wc_StartRevision req in
  0 < start < 2 ^ 52 -> wid <> 0 -> getRevisionMin t0 = Ok min -> min <= start ->
  rw_Reserve (st_rw s) id = Some rw1 -> rw_Open rw1 id (wc_Key req) (wc_RangeEnd req) = Some rw2 -> rw_Start rw2 id = Some rw3 ->
  (exists b, pb_Marshal MWatchCreateRequest req = Ok b) ->
  Logged cfg fuel t1 M1 E1 rev1 -> Logged cfg fuel t2 M2 E2 rev2 -> allRight t1 M1 (between start rev1 E1) -> allRight t2 M2 (between (rev1 + 1) rev2 E2) -> Forall (sendable M1) E1 -> Forall (sendable M2) E2 ->
  is_i64 wid -> id <> Svc.WATCH_ID_ERROR -> is_u64 shardID -> is_u64 replicaID -> holds p Q -> Q id = [] ->
  exists s' out p' rs, mod_watchStart fuel shardID replicaID n s t0 t1 t2 req = Ok (s', out)
    /\ Svc.shardRecvs p (pairOf <$> out) = Ok (p', sends (createdResponse id (mod_responseHeader shardID replicaID rev1) :: rs))
    /\ Forall (fun r => Wire.WatchResponse_UnmarshalVT Wire.WatchResponse_zero (Wire.WatchResponse_body (Wire.msgOf r)) = Ok (Wire.msgOf r, None)) rs
    /\ sentTo id rs = (wireEvent M1 false <$> selected req (between start rev1 E1)) ++ (wireEvent M2 false <$> selected req (between (rev1 + 1) rev2 E2)).
Proof.
  intros wid id start Hst Hid Hmin Hle Hres Hopen Hstart Hb HL1 HL2 Hnp1 Hnp2 HE1 HE2 Hw He Hs Hr Hp HQ.
  destruct (watchStart_ok cfg fuel shardID replicaID ltac:(eauto) ltac:(eauto) ltac:(eauto) n s t0 t1 t2 req M1 M2 E1 E2 rev1 rev2 min rw1 rw2 rw3)
    as (s' & out1 & out2 & notes & Es & Ho1 & Ho2 & Hn & _); try done.
  pose proof (lg_bound _ _ _ _ _ _ HL1) as Hb1. pose proof (lg_bound _ _ _ _ _ _ HL2) as Hb2.
  assert (Hsub : forall M E a b, Forall (sendable M) E -> Forall (sendable M) (between a b E)).
  { intros M E a b HE. apply Forall_forall. intros e [_ Hin]%list_elem_of_filter. rewrite Forall_forall in HE. by apply HE. }
  destruct Ho1 as (init & ms1 & sync1 & -> & (hb & Eh & ->) & Hf1 & Hs1). rewrite wire_header in Eh. injection Eh as <-.
  destruct (scan_messages req M1 rev1 (between start rev1 E1) (ms1 ++ sync1)) as (sms1 & Es1 & Hok1 & Ha1 & Hset1);
    [by exists [], ms1, sync1|by apply Hsub|done|done|unfold is_u64; lia|].
  destruct (scan_messages req M2 rev2 (between (rev1 + 1) rev2 E2) out2 Ho2) as (sms2 & Es2 & Hok2 & Ha2 & Hset2); [by apply Hsub|done|done|unfold is_u64; lia|].
  destruct (startNote_messages req rev2 notes Hn) as (sms3 & Es3 & Hok3 & Ha3); [done..|].
  set (sms := (sms1 ++ sms2) ++ sms3).
  destruct (shardRecvs_ok sms p Q Hp) as (p' & rs & Q' & Ep & _ & Hokr & Hcons & Hpost); [by repeat (apply Forall_app; split)|].
  assert (Hset : settled wid sms) by (repeat apply settled_app; [done|done|by left]).
  assert (Q' id = []) as HQ'.
  { destruct Hset as [Hnil|(pre & m & post & Em & Hm & Hpo)]; [|by apply (Hpost pre m post)].
    specialize (Hcons id). fold (adds id sms) in Hcons. change (adds id sms = []) in Hnil. rewrite HQ, Hnil in Hcons. cbn in Hcons. by apply app_nil, proj2, fmap_nil_inv in Hcons. }
  eexists s', _, p', rs. split; [exact Es|]. split; [|split].
  - rewrite <- !app_assoc. cbn [app]. rewrite fmap_cons. apply shardRecvs_init; [by apply header_typed_mod|done|]. rewrite <- Ep. f_equal.
    unfold sms. rewrite !fmap_app, Es1, Es2, Es3, !fmap_app, <- !app_assoc. done.
  - eapply Forall_impl; [exact Hokr|]. intros r. apply WatchResponse_read.
  - specialize (Hcons id). rewrite HQ, HQ' in Hcons. cbn [fmap list_fmap app] in Hcons. rewrite app_nil_r in Hcons. rewrite Hcons.
    fold (adds id sms). unfold sms. rewrite !adds_app. unfold id, wid. by rewrite Ha3, app_nil_r, Ha1, Ha2.
Qed.

(** ** Notices reach the client *)
Lemma notices_reach_client t M E rev (s : stream) notices (p : P) Q id req :
  Logged cfg fuel t M E rev ->
  (forall n e, n ∈ notices -> e ∈ E -> evtUpper e = n_Val n -> readsRight t M (ev_key e) (evtUpper e)) ->
  Forall (fun n => Forall (readable s) (n_IDs n)) notices ->
  StronglySorted (fun n m => n_Val n < n_Val m) notices ->
  Forall (fun n => 0 < n_Val n <= rev /\ (exists e, e ∈ E /\ evtUpper e = n_Val n)
                   /\ exists kr, forall e, e ∈ E -> evtUpper e = n_Val n -> ev_rev e = kr) notices ->
  Forall (fun n => idsOk (n_IDs n)) notices -> Z.of_nat (length (allIDs notices)) < 2 ^ 59 ->
  Forall (sendable M) E -> holds p Q -> is_u64 shardID -> is_u64 replicaID -> cachedReq s Svc.WATCH_ID_ERROR = None ->
  cachedReq s id = Some req -> (exists n, n ∈ notices /\ id ∈ n_IDs n) ->
  exists s' out p' rs, mod_rangeWatchRecv fuel shardID replicaID idRange t s notices = Ok (s', out)
    /\ Svc.shardRecvs p (pairOf <$> out) = Ok (p', sends rs)
    /\ Forall (fun r => Wire.WatchResponse_UnmarshalVT Wire.WatchResponse_zero (Wire.WatchResponse_body (Wire.msgOf r)) = Ok (Wire.msgOf r, None)) rs
    /\ sentTo id rs = (Q id).*1 ++ (wireEvent M (wc_PrevKv req) <$> wantedEvents s id req E notices).
Proof.
  intros HL Hnp Hread Hsort Hok Hids Hlen Hsend Hp Hsh Hre Herr Hc (n & Hn & Hidn).
  assert (Hu : is_u64 id).
  { rewrite Forall_forall in Hids. destruct (Hids n Hn) as (_ & Hu & _). rewrite Forall_forall in Hu. by apply Hu. }
  assert (Hne : notices <> []) by (intros ->; inversion Hn).
  destruct (rangeWatchRecv_ok cfg fuel shardID replicaID idRange ltac:(eauto) ltac:(eauto) ltac:(eauto) t M E rev s notices)
    as (s' & batches & sync & notes & lst & Er & Hf & Hlast & Hsync & Hnotes & _); try done.
  pose proof (lg_upto _ _ _ _ _ _ HL) as Hup. pose proof (lg_bound _ _ _ _ _ _ HL) as Hb.
  destruct (notice_messages s M E notices batches id req Hf) as (sms & Es & Hoks & Hr); [|done|done|].
  { rewrite !Forall_forall in *. intros e He. split; [by apply Hsend|]. specialize (Hup e He). cbn in Hup. unfold is_u64. lia. }
  assert (Hin : i64 id ∈ allIDs notices).
  { apply list_elem_of_In, in_concat. exists (i64 <$> n_IDs n). split; apply list_elem_of_In; [by apply (list_elem_of_fmap_2 (fun n => i64 <$> n_IDs n))|by apply list_elem_of_fmap_2]. }
  destruct (sync_message (allIDs notices) lst sync Hsync) as (sy & Esy & Hsy & Hoksy & ->); [..|by intros X; rewrite X in Hin; inversion Hin|].
  { apply Forall_concat, Forall_fmap, Forall_true. intros n'. apply Forall_fmap, Forall_true. intros x. apply i64_range. }
  { done. }
  { apply last_Some_elem_of, list_elem_of_fmap in Hlast as (n' & -> & Hn'). rewrite Forall_forall in Hok.
    destruct (Hok n' Hn') as (? & _). unfold is_u64. lia. }
  destruct (note_messages s lst notes Hnotes Herr Hsh Hre) as (nms & En & Hokn & Hn0).
  destruct (shardRecvs_ok (sms ++ sy :: nms) p Q Hp) as (p' & rs & Q' & Ep & _ & Hokr & Hcons & Hpost).
  { apply Forall_app. split; [done|]. by constructor. }
  eexists s', _, p', rs. split; [exact Er|]. split; [|split].
  - rewrite <- Ep. f_equal. rewrite (fmap_app encodeMsg), fmap_cons, Es, En, Esy, !fmap_app. done.
  - eapply Forall_impl; [exact Hokr|]. intros r. apply WatchResponse_read.
  - specialize (Hcons id). specialize (Hpost sms sy nms (i64 id) eq_refl). rewrite (u64_i64 id Hu), Hsy in Hpost.
    rewrite (Hpost Hin (Hn0 id)), app_nil_r in Hcons. rewrite Hcons, <- Hr. f_equal. fold (adds id (sms ++ sy :: nms)).
    change (sy :: nms) with ([sy] ++ nms). rewrite !adds_app, Hn0, app_nil_r. destruct sy; cbn in Esy; try done. by rewrite app_nil_r.
Qed.

End Compose.
