(* ===== verification/Endpoint.v ===== *)
(** * The HTTP endpoint (src/endpoint_handler.go, src/module/service-grpc/main.go)

    Beside gRPC both programs answer three plain HTTP paths: the native one with a handler
    of net/http, the module with a function its host calls. *)

From Stdlib Require Import Strings.String.
From S2P Require Import Prelude Types GoBinary Patch Kv Mdb Db.

Module Endpoint.

(** What the handlers read of a request. *)
Record Request : Type := mkRequest { ProtoMajor : Z; ContentType : bytes; Path : string }.

(** What a handler does: the calls of a [http.ResponseWriter], or all of it left to the
    gRPC server. *)
Inductive action : Type :=
| ServeGrpc
| Write (body : bytes)
| WriteHeader (code : Z).

Fixpoint HasPrefix (s prefix : bytes) {struct prefix} : bool :=
  match prefix, s with
  | [], _ => true
  | x :: prefix, y :: s => Byte.eqb x y && HasPrefix s prefix
  | _, [] => false
  end.

(** The bodies; [q] is the quotation mark of a string. *)
Definition q (s : string) : bytes := Zb 34 :: str s ++ [Zb 34].
Definition metricsBody : bytes := str "pantopic_power_level 9001".
Definition healthBody : bytes := str "{" ++ q "health" ++ str ":" ++ q "true" ++ str "," ++ q "reason" ++ str ":" ++ q EmptyString ++ str "}".
Definition versionBody : bytes :=
  str "{" ++ q "etcdserver" ++ str ":" ++ q "3.5.25" ++ str "," ++ q "etcdcluster" ++ str ":" ++ q "3.5.0" ++ str "}".

Definition isGrpc (r : Request) : bool := (ProtoMajor r =? 2) && HasPrefix (ContentType r) (str "application/grpc").

Definition ServeHTTP (r : Request) : list action :=
  if isGrpc r then [ServeGrpc]
  else if String.eqb (Path r) "/metrics" then [Write metricsBody]
  else if String.eqb (Path r) "/health" then [Write healthBody]
  else if String.eqb (Path r) "/version" then [Write versionBody]
  else [WriteHeader 405].

(** The module's: a code, 0 unless it is set, and a body. *)
Definition httpHandler (method : bytes) (path : string) (body : bytes) : Z * bytes :=
  if String.eqb path "/metrics" then (0, metricsBody)
  else if String.eqb path "/health" then (0, healthBody)
  else if String.eqb path "/version" then (0, versionBody)
  else (405, []).

(** ** What a client sees *)

(** net/http: a status that is not written before the first byte of the body, or at all,
    is 200; a later one is ignored. *)
Fixpoint response (status : option Z) (body : bytes) (l : list action) : option (Z * bytes) :=
  match l with
  | [] => Some (default 200 status, body)
  | ServeGrpc :: _ => None
  | Write b :: l => response (Some (default 200 status)) (body ++ b) l
  | WriteHeader c :: l => response (Some (default c status)) body l
  end.

(** The module's host turns its code into a status. *)
Class HostStatus : Type := { statusOfCode : Z -> Z }.
Class HostStatusOk `{HostStatus} : Prop := { code_unset : statusOfCode 0 = 200; code_405 : statusOfCode 405 = 405 }.

Definition hostResponse `{HostStatus} (r : Z * bytes) : Z * bytes := (statusOfCode (fst r), snd r).

Lemma HasPrefix_spec s p : HasPrefix s p = true <-> exists t, s = p ++ t.
Proof.
  revert s. induction p as [|x p IH]; intros s; cbn [HasPrefix app].
  { split; [intros _; by exists s|done]. }
  destruct s as [|y s]; [split; [done|intros [t [=]]]|].
  rewrite andb_true_iff, IH. split.
  - intros [Hx [t ->]]. apply Byte.byte_dec_bl in Hx as ->. by exists t.
  - intros [t [= -> ->]]. split; [by apply Byte.byte_dec_lb|by exists t].
Qed.

Lemma ServeHTTP_plain `{HostStatusOk} r :
  isGrpc r = false -> forall method body, response None [] (ServeHTTP r) = Some (hostResponse (httpHandler method (Path r) body)).
Proof.
  intros Hg method body. unfold ServeHTTP, httpHandler, hostResponse. rewrite Hg.
  pose proof code_unset as Hu. pose proof code_405 as Hc.
  repeat case_match; cbn [fst snd response from_option id app]; by rewrite ?Hu, ?Hc.
Qed.

Lemma ServeHTTP_grpc r : response None [] (ServeHTTP r) = None <-> ProtoMajor r = 2 /\ exists t, ContentType r = str "application/grpc" ++ t.
Proof.
  rewrite <- HasPrefix_spec, <- Z.eqb_eq, <- andb_true_iff. fold (isGrpc r). unfold ServeHTTP.
  by repeat case_match.
Qed.

End Endpoint.
