(* ===== verification/WatchRun.v ===== *)
(** * A watch against the writer (src/state_machine.go: watch, Update)

    A run interleaves the segments of one watch with the commits of the writer in any
    order. *)

From stdpp Require Import gmap sorting.
From S2P Require Import Prelude Types GoBinary Patch Kv Mdb MdbFacts Db DbLease DbKv History DbKvRead Pb StateMachine Events Watch WatchFacts.

Lemma Forall2_elem {A B} (P Q : A -> B -> Prop) l k :
  Forall2 P l k -> (forall x y, x ∈ l -> P x y -> Q x y) -> Forall2 Q l k.
Proof.
  induction 1 as [|x y l k Hxy Hf IH]; intros Hi; constructor; [apply Hi; [constructor|done]|].
  apply IH. intros x' y' Hx. apply Hi. by constructor.
Qed.

(** The EVENT messages of a stream of messages. *)
Definition isEvt (m : Result) : bool :=
  match res_Data m with b :: _ => bZ b =? WatchMessageType_EVENT | [] => false end.

Abbreviation events := (filter (fun m => isEvt m = true)).

(** The revision a watch has scanned to. *)
Definition reached (p : phase) : option Z :=
  match p with
  | Scanned _ rev => Some rev
  | Registered _ rev _ => Some rev
  | Syncing w => Some (ws_rev w)
  | Opened _ | Ended => None
  end.

Section WatchRun.
Context (cfg : config) `{DifferOk} `{SnappyOk} `{MdbOk} `{Proto}.
Context (fuel : nat) (shardID replicaID : Z).
Hypothesis marshal_event : forall e, exists b, pb_Marshal MEvent e = Ok b.
Hypothesis marshal_header : forall h, exists b, pb_Marshal MResponseHeader h = Ok b.
Context (req : WatchCreateRequest).
Hypothesis start_range : 0 <= wc_StartRevision req < 2 ^ 52.

(** The committed store: its contents, and the history and log they hold. *)
Record world : Type := mkWorld { w_t : txn; w_M : history; w_E : list kvEvent; w_rev : Z }.

Definition wlogged (w : world) : Prop := Logged cfg fuel (w_t w) (w_M w) (w_E w) (w_rev w).

(** A commit appends events of later revisions. *)
Definition commits (w w' : world) : Prop :=
  wlogged w' /\ w_rev w <= w_rev w'
  /\ exists N, w_E w' = w_E w ++ N /\ Forall (fun e => w_rev w < evtUpper e) N.

Inductive run : world -> phase -> list Result -> Prop :=
| run_start w : wlogged w -> run w (Opened req) []
| run_commit w p out w' (alerted : bool) :
    run w p out -> commits w w' -> run w' (if alerted then pushAlert p (w_rev w') else p) out
| run_watch w p out ms p' :
    run w p out -> watchStep fuel shardID replicaID (w_t w) p = Ok (ms, p') -> run w p' (out ++ ms).

Lemma run_logged w p out : run w p out -> wlogged w.
Proof. induction 1 as [|? ? ? ? ? ? ? [? _]|]; done. Qed.

(** ** One segment *)

Lemma isFor_isEvt e m : isFor req e m -> isEvt m = true.
Proof. by intros (rev & evt & k & b & _ & -> & _). Qed.

Lemma carries_events M rev E ms rest :
  Forall2 (carries req M rev) E ms -> Forall (fun m => isEvt m = false) rest -> events (ms ++ rest) = ms.
Proof.
  intros Hf Hr. rewrite filter_app, (filter_none _ rest), app_nil_r.
  2:{ intros m Hin Hm. rewrite Forall_forall in Hr. by rewrite (Hr m Hin) in Hm. }
  apply filter_all. intros m Hin. apply list_elem_of_lookup in Hin as [i Hi].
  eapply Forall2_lookup_r in Hf as (e & _ & cur & prev & b & _ & _ & _ & ->); [|exact Hi]. done.
Qed.

Lemma syncOf_quiet rev ms sync : syncOf shardID replicaID req rev ms sync -> Forall (fun m => isEvt m = false) sync.
Proof. unfold syncOf. case_decide; [by intros ->|]. intros (b & _ & ->). by repeat constructor. Qed.

(** A scan from [sn] sends the selected events from [sn] to the current revision. *)
Lemma scan_sends w sn :
  wlogged w -> 0 < sn < 2 ^ 52 ->
  exists s, watchScan fuel shardID replicaID (w_t w) req sn = Ok (w_rev w, s) /\ sc_err s = None
    /\ (0 <? sc_sent s) = negb (sc_sent s =? 0)
    /\ Forall2 (isFor req) (selected req (between sn (w_rev w) (w_E w))) (events (sc_out s)).
Proof.
  intros HL Hsn. destruct (watchScan_ok cfg fuel shardID replicaID marshal_event marshal_header _ _ _ _ req sn HL Hsn)
    as (ms & sync & E & Hf & Hs).
  eexists. split; [exact E|]. split; [done|]. cbn [sc_sent sc_out]. split.
  { pose proof (blen_nonneg ms). destruct (Z.ltb_spec 0 (blen ms)), (Z.eqb_spec (blen ms) 0); done || lia. }
  rewrite (carries_events _ _ _ _ _ Hf (syncOf_quiet _ _ _ Hs)).
  eapply Forall2_elem; [exact Hf|].
  intros e m He Hc. eapply carries_isFor; [exact HL| |exact Hc].
  apply list_elem_of_filter in He as [_ He]. by apply list_elem_of_filter in He as [_ He].
Qed.

(** ** The invariant of a run *)

(** [s0] is the revision the watch starts at: the request's, or the one after the first
    scan's when the request names none or a later one. *)
Definition startsAt (s0 r0 : Z) : Prop :=
  s0 = if wc_StartRevision req =? 0 then r0 + 1 else Z.min (wc_StartRevision req) (r0 + 1).

Definition sentUpTo (w : world) (r : Z) (out : list Result) : Prop :=
  0 <= r <= w_rev w /\ exists s0 r0, startsAt s0 r0 /\ r0 <= r
    /\ Forall2 (isFor req) (selected req (between s0 r (w_E w))) (events out).

Definition runInv (w : world) (p : phase) (out : list Result) : Prop :=
  match p with
  | Opened r => r = req /\ out = []
  | Scanned r rev | Registered r rev _ => r = req /\ sentUpTo w rev out
  | Syncing ws => ws_req ws = req /\ sentUpTo w (ws_rev ws) out
  | Ended => False
  end.

Lemma sentUpTo_commit w w' r out : commits w w' -> sentUpTo w r out -> sentUpTo w' r out.
Proof.
  intros (_ & Hle & N & EN & HN) (Hr & s0 & r0 & Hs & Hr0 & Hf). split; [lia|]. exists s0, r0. split; [done|]. split; [done|].
  rewrite EN, between_app_later; [done|]. eapply Forall_impl; [exact HN|]. cbn. lia.
Qed.

(** Scanning on from where the watch is. *)
Lemma sentUpTo_scan w r out ms :
  wlogged w -> sentUpTo w r out ->
  Forall2 (isFor req) (selected req (between (r + 1) (w_rev w) (w_E w))) (events ms) ->
  sentUpTo w (w_rev w) (out ++ ms).
Proof.
  intros HL (Hr & s0 & r0 & Hs & Hr0 & Hf) Hm. split; [lia|]. exists s0, r0. split; [done|]. split; [lia|].
  rewrite filter_app. rewrite (between_split s0 r (w_rev w)); [|eapply EvtRep_order, HL| |lia].
  - rewrite filter_app. by apply Forall2_app.
  - unfold startsAt in Hs. destruct (wc_StartRevision req =? 0); lia.
Qed.

Lemma first_scan w :
  wlogged w ->
  exists s, watchScan fuel shardID replicaID (w_t w) req (u64 (wc_StartRevision req)) = Ok (w_rev w, s)
    /\ sc_err s = None /\ sentUpTo w (w_rev w) (sc_out s).
Proof.
  intros HL. rewrite u64_id by (unfold is_u64; lia). pose proof (lg_bound _ _ _ _ _ _ HL) as Hb.
  destruct (Z.eqb_spec (wc_StartRevision req) 0) as [Ez|Hz].
  - unfold watchScan. rewrite (lg_rev _ _ _ _ _ _ HL), Ez. cbn [Z.eqb]. eexists. split; [done|]. split; [done|].
    split; [lia|]. exists (w_rev w + 1), (w_rev w). split; [unfold startsAt; by rewrite Ez|]. split; [lia|].
    rewrite between_empty by lia. constructor.
  - destruct (scan_sends w (wc_StartRevision req) HL) as (s & E & He & _ & Hf); [lia|]. exists s. split; [done|]. split; [done|].
    split; [lia|]. exists (Z.min (wc_StartRevision req) (w_rev w + 1)), (w_rev w).
    split; [unfold startsAt; by destruct (Z.eqb_spec (wc_StartRevision req) 0)|]. split; [lia|].
    destruct (Z.le_gt_cases (wc_StartRevision req) (w_rev w + 1)); [by rewrite Z.min_l by lia|].
    rewrite between_empty in Hf by lia. rewrite between_empty by lia. done.
Qed.

Lemma later_scan w r out :
  wlogged w -> sentUpTo w r out ->
  exists s, watchScan fuel shardID replicaID (w_t w) req (u64 (r + 1)) = Ok (w_rev w, s)
    /\ sc_err s = None /\ sentUpTo w (w_rev w) (out ++ sc_out s)
    /\ (forall m, isEvt m = false -> sentUpTo w (w_rev w) (out ++ sc_out s ++ [m])).
Proof.
  intros HL Hs. pose proof (lg_bound _ _ _ _ _ _ HL) as Hb. pose proof Hs as [Hr _].
  rewrite u64_id by (unfold is_u64; lia).
  destruct (scan_sends w (r + 1) HL) as (s & E & He & _ & Hf); [lia|]. exists s. split; [done|]. split; [done|].
  split; [by apply (sentUpTo_scan w r)|]. intros m Hm. apply (sentUpTo_scan w r); [done|done|].
  rewrite filter_app, filter_cons_False, filter_nil, app_nil_r by (by rewrite Hm). done.
Qed.

Lemma watchStep_inv w p out :
  wlogged w -> runInv w p out ->
  exists ms p', watchStep fuel shardID replicaID (w_t w) p = Ok (ms, p') /\ runInv w p' (out ++ ms).
Proof.
  intros HL Hi. destruct p as [r|r rev|r rev alerts|[r rev alerts]|]; cbn [watchStep runInv ws_req ws_rev] in *; [..|done].
  - destruct Hi as [-> ->]. destruct (first_scan w HL) as (s & -> & He & Hs). cbn [rbind]. rewrite He. by eexists _, _.
  - destruct Hi as [-> Hs]. eexists _, _. split; [done|]. by rewrite app_nil_r.
  - destruct Hi as [-> Hs]. destruct (later_scan w rev out HL Hs) as (s & -> & He & Hs' & _). cbn [rbind]. rewrite He.
    by eexists _, _.
  - destruct Hi as [-> Hs]. unfold watchWake. cbn [ws_alerts ws_req ws_rev]. destruct (last alerts) as [a|].
    2:{ cbn [rbind]. eexists _, _. split; [done|]. by rewrite app_nil_r. }
    destruct (a <=? rev); [cbn [rbind]; eexists _, _; split; [done|]; by rewrite app_nil_r|].
    destruct (later_scan w rev out HL Hs) as (s & -> & He & Hs' & Hn). cbn [rbind]. rewrite He. cbn [isErr].
    unfold watchNotify. destruct ((sc_sent s =? 0) && wc_ProgressNotify req).
    + unfold watchMessage. destruct (marshal_header (responseHeader shardID replicaID (w_rev w))) as [b ->]. cbn [rbind sc_err isErr].
      eexists _, _. split; [done|]. split; [done|]. cbn [sc_out ws_rev]. by apply Hn.
    + cbn [rbind]. rewrite He. by eexists _, _.
Qed.

Lemma run_inv w p out : run w p out -> runInv w p out.
Proof.
  induction 1 as [w Hw|w p out w' alerted Hr IH Hc|w p out ms p' Hr IH E].
  - by split.
  - destruct p as [r|r rev|r rev alerts|[r rev alerts]|]; destruct alerted; cbn [pushAlert runInv ws_req ws_rev] in *;
      try done; destruct IH as [-> Hs]; split; try done; by eapply sentUpTo_commit.
  - destruct (watchStep_inv w p out (run_logged _ _ _ Hr) IH) as (ms' & p'' & E' & Hi). rewrite E in E'. by simplify_eq.
Qed.

End WatchRun.
