(* ===== verification/Services.v ===== *)
(** * The gRPC services over the shard client (src/service_kv.go, service_lease.go,
    service_cluster.go, service_maintenance.go, util.go)

    A service marshals its request, sends it through the shard client and decodes the
    answer. The client (github.com/logbn/zongzi) is the interface [ShardClient]:
    [cl_Apply] proposes a command to the shard, [cl_Read] queries a replica ([stale]:
    without waiting for the leader), [cl_Leader] names the leader and the term. *)

From Stdlib Require Import Strings.String.
From S2P Require Import Prelude Types GoBinary Patch Kv Mdb Db Pb StateMachine.

(** An error of the client, a gRPC status, or the text of the answer. *)
Inductive rpcError : Type :=
| RpcClient (code : Z)
| RpcStatus (e : error)
| RpcText (text : bytes)
| RpcDecode
| RpcSend (code : Z).

Class ShardClient (C : Type) : Type := {
  cl_Apply : C -> bytes -> C * ((Z * bytes) + Z);
  cl_Read : C -> bytes -> bool -> (Z * bytes) + Z;
  cl_Leader : C -> Z * Z
}.

(** What a message holds after [proto.Unmarshal] failed on its bytes. *)
Class ProtoPartial : Type := { pb_Partial : forall {A}, msg A -> bytes -> A }.

Section Services.
Context (cfg : config) `{Proto} `{ProtoPartial} `{ErrLib} {C : Type} `{ShardClient C}.

(** What an rpc returns: the client's new state and a response or an error; [Panic]
    where the handler dereferences a nil header or indexes out of range. *)
Abbreviation rpc A := (res (C * (A + rpcError))).

(** [proto.Unmarshal(data, res)]: the message and whether it could be decoded. *)
Definition decode {A} (m : msg A) (data : bytes) : A * bool :=
  match pb_Unmarshal m data with
  | Some a => (a, true)
  | None => (pb_Partial m data, false)
  end.

(** [addTerm(header)] writes through the pointer. *)
Definition addTerm (c : C) (h : option ResponseHeader) : res (option ResponseHeader) :=
  match h with
  | None => Panic
  | Some h => Ok (Some (mkResponseHeader (h_Revision h) (h_ClusterId h) (h_MemberId h) (snd (cl_Leader c))))
  end.

(** The end of a handler: decode the data, add the term, return message and error. *)
Definition finish {A} (c : C) (m : msg A) (data : bytes)
    (header : A -> option ResponseHeader) (withHeader : A -> option ResponseHeader -> A) : rpc A :=
  let '(r, ok) := decode m data in
  let! h := addTerm c (header r) in
  Ok (c, if ok then inl (withHeader r h) else inr RpcDecode).

(** The start of a handler: marshal, append the command number, apply. *)
Definition applyCmd {A} (c : C) (m : msg A) (req : A) (op : Z) : res (C * ((Z * bytes) + rpcError)) :=
  match pb_Marshal m req with
  | Ok b =>
      let '(c, r) := cl_Apply c (b ++ [Zb op]) in
      Ok (c, match r with inl p => inl p | inr e => inr (RpcClient e) end)
  | Err _ => Ok (c, inr RpcDecode)
  | Panic => Panic
  | NoFuel => NoFuel
  end.

(** ** service_kv.go *)

Definition withPutHeader (r : PutResponse) h := mkPutResponse h (pres_PrevKv r).
Definition withRangeHeader (r : RangeResponse) h := mkRangeResponse h (rres_Kvs r) (rres_More r) (rres_Count r).
Definition withDeleteHeader (r : DeleteRangeResponse) h := mkDeleteRangeResponse h (dres_Deleted r) (dres_PrevKvs r).
Definition withTxnHeader (r : TxnResponse) h := mkTxnResponse h (tres_Succeeded r) (tres_Responses r).
Definition withHeader (r : HeaderResponse) h := mkHeaderResponse h.

(** The texts [Put] turns back into statuses; any other text stays a text. *)
Definition putError (data : bytes) : rpcError :=
  if beqb data (errText ErrGRPCLeaseProvided) then RpcStatus ErrGRPCLeaseProvided
  else if beqb data (errText ErrGRPCValueProvided) then RpcStatus ErrGRPCValueProvided
  else if beqb data (errText ErrGRPCKeyTooLong) then RpcStatus ErrGRPCKeyTooLong
  else if beqb data (errText ErrGRPCEmptyKey) then RpcStatus ErrGRPCEmptyKey
  else RpcText data.

Definition kvService_Put (c : C) (req : PutRequest) : rpc PutResponse :=
  let! '(c, r) := applyCmd c MPutRequest req CMD_KV_PUT in
  match r with
  | inr e => Ok (c, inr e)
  | inl (val, data) =>
      if negb (val =? 1) then Ok (c, inr (putError data))
      else finish c MPutResponse data pres_Header withPutHeader
  end.

(** The request is marshalled before [Serializable] is set, so only the choice of
    replica follows the local revision. *)
Definition kvService_Range (c : C) (localRevision : Z) (req : RangeRequest) : rpc RangeResponse :=
  match pb_Marshal MRangeRequest req with
  | Ok b =>
      let serializable :=
        if negb (rr_Serializable req) && PCB_READ_LOCAL cfg && (0 <? rr_Revision req)
           && (rr_Revision req <=? i64 localRevision)
        then true else rr_Serializable req in
      match cl_Read c (b ++ [Zb QUERY_KV_RANGE]) serializable with
      | inr e => Ok (c, inr (RpcClient e))
      | inl (val, data) =>
          if negb (val =? 1) then Ok (c, inr (RpcText data))
          else finish c MRangeResponse data rres_Header withRangeHeader
      end
  | Err _ => Ok (c, inr RpcDecode)
  | Panic => Panic
  | NoFuel => NoFuel
  end.

Definition kvService_DeleteRange (c : C) (req : DeleteRangeRequest) : rpc DeleteRangeResponse :=
  let! '(c, r) := applyCmd c MDeleteRangeRequest req CMD_KV_DELETE_RANGE in
  match r with
  | inr e => Ok (c, inr e)
  | inl (val, data) =>
      if negb (val =? 1) then Ok (c, inr (RpcText data))
      else finish c MDeleteRangeResponse data dres_Header withDeleteHeader
  end.

Definition kvService_Compact (c : C) (req : CompactionRequest) : rpc HeaderResponse :=
  let! '(c, r) := applyCmd c MCompactionRequest req CMD_KV_COMPACT in
  match r with
  | inr e => Ok (c, inr e)
  | inl (val, data) =>
      if negb (val =? 1) then Ok (c, inr (RpcText data))
      else finish c MCompactionResponse data hres_Header withHeader
  end.

Definition kvService_Txn (c : C) (req : TxnRequest) : rpc TxnResponse :=
  let! '(c, r) := applyCmd c MTxnRequest req CMD_KV_TXN in
  match r with
  | inr e => Ok (c, inr e)
  | inl (val, data) =>
      if negb (val =? 1) then Ok (c, inr (RpcText data))
      else finish c MTxnResponse data tres_Header withTxnHeader
  end.

(** ** service_lease.go *)

Definition withGrantHeader (r : LeaseGrantResponse) h :=
  mkLeaseGrantResponse h (lgres_ID r) (lgres_TTL r) (lgres_Error r).
Definition withKeepAliveHeader (r : LeaseKeepAliveResponse) h :=
  mkLeaseKeepAliveResponse h (lkres_ID r) (lkres_TTL r).
Definition withLeasesHeader (r : LeaseLeasesResponse) h := mkLeaseLeasesResponse h (llres_Leases r).
Definition withTtlHeader (r : LeaseTimeToLiveResponse) h := mkLeaseTimeToLiveResponse h (ltres_TTL r).

Definition serviceLease_LeaseGrant (c : C) (req : LeaseGrantRequest) : rpc LeaseGrantResponse :=
  let! '(c, r) := applyCmd c MLeaseGrantRequest req CMD_LEASE_GRANT in
  match r with
  | inr e => Ok (c, inr e)
  | inl (val, data) =>
      if negb (val =? 1) then Ok (c, inr (RpcText data)) else
      let '(r, ok) := decode MLeaseGrantResponse data in
      if (0 <? blen (lgres_Error r)) && beqb (lgres_Error r) (errText ErrGRPCDuplicateKey)
      then Ok (c, inr (RpcStatus ErrGRPCDuplicateKey))
      else
        let! h := addTerm c (lgres_Header r) in
        Ok (c, if ok then inl (withGrantHeader r h) else inr RpcDecode)
  end.

(** Only the not-found value is looked at. *)
Definition serviceLease_LeaseRevoke (c : C) (req : LeaseRevokeRequest) : rpc HeaderResponse :=
  let! '(c, r) := applyCmd c MLeaseRevokeRequest req CMD_LEASE_REVOKE in
  match r with
  | inr e => Ok (c, inr e)
  | inl (val, data) =>
      if val =? codes_NotFound then Ok (c, inr (RpcStatus ErrGRPCLeaseNotFound))
      else finish c MLeaseRevokeResponse data hres_Header withHeader
  end.

Definition serviceLease_LeaseLeases (c : C) : rpc LeaseLeasesResponse :=
  match cl_Read c [Zb QUERY_LEASE_LEASES] true with
  | inr e => Ok (c, inr (RpcClient e))
  | inl (val, data) =>
      if negb (val =? 1) then Ok (c, inr (RpcText data))
      else finish c MLeaseLeasesResponse data llres_Header withLeasesHeader
  end.

Definition serviceLease_LeaseTimeToLive (c : C) (req : LeaseTimeToLiveRequest) : rpc LeaseTimeToLiveResponse :=
  match pb_Marshal MLeaseTimeToLiveRequest req with
  | Ok b =>
      match cl_Read c (b ++ [Zb QUERY_LEASE_TIME_TO_LIVE]) true with
      | inr e => Ok (c, inr (RpcClient e))
      | inl (val, data) =>
          if negb (val =? 1) then Ok (c, inr (RpcText data))
          else finish c MLeaseTimeToLiveResponse data ltres_Header withTtlHeader
      end
  | Err _ => Ok (c, inr RpcDecode)
  | Panic => Panic
  | NoFuel => NoFuel
  end.

Definition errRepeat (n : nat) (e : rpcError) : list (option rpcError) := replicate n (Some e).

(** The loop that answers each item of a batch; [send] is the stream's [Send] with the
    responses sent so far, [ttls[i]] panics past the end. *)
Fixpoint answerBatch (send : LeaseKeepAliveResponse -> option Z) (ids ttls : list Z)
  : res (list LeaseKeepAliveResponse * list (option rpcError)) :=
  match ids with
  | [] => Ok ([], [])
  | id :: ids =>
      match ttls with
      | [] => Panic
      | ttl :: ttls =>
          let r := mkLeaseKeepAliveResponse None id ttl in
          let! '(out, errs) := answerBatch send ids ttls in
          Ok (r :: out, match send r with Some e => Some (RpcSend e) | None => None end :: errs)
      end
  end.

(** The function given to the batcher: renew a batch of leases in one command. The
    responses it sends and one error per item; a request that cannot be marshalled
    panics. *)
Definition keepAliveBatch (send : LeaseKeepAliveResponse -> option Z) (c : C) (ids : list Z)
  : res (C * list LeaseKeepAliveResponse * list (option rpcError)) :=
  match pb_Marshal MLeaseKeepAliveBatchRequest (mkLeaseKeepAliveBatchRequest ids) with
  | Ok b =>
      let '(c, r) := cl_Apply c (b ++ [Zb CMD_LEASE_KEEP_ALIVE_BATCH]) in
      match r with
      | inr e => Ok (c, [], errRepeat (length ids) (RpcClient e))
      | inl (val, data) =>
          if negb (val =? 1) then Ok (c, [], errRepeat (length ids) (RpcText data)) else
          match pb_Unmarshal MLeaseKeepAliveBatchResponse data with
          | None => Ok (c, [], errRepeat (length ids) RpcDecode)
          | Some r =>
              let! h := addTerm c (lkbres_Header r) in
              let! '(out, errs) := answerBatch send ids (lkbres_TTLs r) in
              Ok (c, out, errs)
          end
      end
  | Err _ => Panic
  | Panic => Panic
  | NoFuel => NoFuel
  end.

(** A batch of the stream: [Add] returns an item's error once its batch ran, and any
    error panics. *)
Definition keepAliveAdd (send : LeaseKeepAliveResponse -> option Z) (c : C) (ids : list Z)
  : res (C * list LeaseKeepAliveResponse) :=
  let! '(c, out, errs) := keepAliveBatch send c ids in
  if existsb (fun e => match e with Some _ => true | None => false end) errs then Panic
  else Ok (c, out).

(** One request of the stream without batching: the response sent, or the error the
    stream ends with. *)
Definition keepAliveOne (send : LeaseKeepAliveResponse -> option Z) (c : C) (req : LeaseKeepAliveRequest)
  : rpc LeaseKeepAliveResponse :=
  let! '(c, r) := applyCmd c MLeaseKeepAliveRequest req CMD_LEASE_KEEP_ALIVE in
  match r with
  | inr e => Ok (c, inr e)
  | inl (val, data) =>
      if negb (val =? 1) then Ok (c, inr (RpcText data)) else
      match pb_Unmarshal MLeaseKeepAliveResponse data with
      | None => Ok (c, inr RpcDecode)
      | Some r =>
          let! h := addTerm c (lkres_Header r) in
          let r := withKeepAliveHeader r h in
          Ok (c, match send r with Some e => inr (RpcSend e) | None => inl r end)
      end
  end.

(** The batches one after the other. *)
Fixpoint keepAliveBatches (send : LeaseKeepAliveResponse -> option Z) (c : C)
    (batches : list (list Z)) (out : list LeaseKeepAliveResponse)
  : res (C * list LeaseKeepAliveResponse * option rpcError) :=
  match batches with
  | [] => Ok (c, out, None)
  | ids :: batches =>
      let! '(c, rs) := keepAliveAdd send c ids in keepAliveBatches send c batches (out ++ rs)
  end.

Fixpoint keepAliveEach (send : LeaseKeepAliveResponse -> option Z) (c : C)
    (reqs : list LeaseKeepAliveRequest) (out : list LeaseKeepAliveResponse)
  : res (C * list LeaseKeepAliveResponse * option rpcError) :=
  match reqs with
  | [] => Ok (c, out, None)
  | req :: reqs =>
      let! '(c, r) := keepAliveOne send c req in
      match r with
      | inl r => keepAliveEach send c reqs (out ++ [r])
      | inr e => Ok (c, out, Some e)
      end
  end.

(** The stream: the requests received until [Recv] fails, which ends it without an
    error. [batching] is the batcher (github.com/kevburnsjr/batchy): it cuts the sequence of
    items into the batches it hands over. *)
Definition serviceLease_LeaseKeepAlive (batching : list Z -> list (list Z))
    (send : LeaseKeepAliveResponse -> option Z) (c : C) (reqs : list LeaseKeepAliveRequest)
  : res (C * list LeaseKeepAliveResponse * option rpcError) :=
  if PCB_BATCH_LEASE_RENEWAL cfg then keepAliveBatches send c (batching (lk_ID <$> reqs)) []
  else keepAliveEach send c reqs [].

(** ** service_cluster.go, service_maintenance.go *)

Record MemberListResponse : Type := mkMemberListResponse {
  ml_Header : ResponseHeader; ml_Members : list Z
}.

Definition serviceCluster_MemberList (c : C) : MemberListResponse :=
  let '(leader, term) := cl_Leader c in
  mkMemberListResponse (mkResponseHeader 0 0 0 term) [leader].

Record StatusResponse : Type := mkStatusResponse {
  sr_Header : ResponseHeader; sr_Version : string; sr_DbSize : Z; sr_DbSizeInUse : Z; sr_IsLearner : bool;
  sr_Leader : Z; sr_RaftIndex : Z; sr_RaftTerm : Z; sr_RaftAppliedIndex : Z
}.

(** The leader and the indexes are those of the empty header. *)
Definition serviceMaintenance_Status (c : C) : StatusResponse :=
  let h := mkResponseHeader 0 0 0 (snd (cl_Leader c)) in
  mkStatusResponse h "3.6.5" 28672 28672 false
    (h_MemberId h) (u64 (h_Revision h)) (h_RaftTerm h) (u64 (h_Revision h)).

End Services.
