(* ===== verification/ShardSm.v ===== *)
(** * A shard of one replica behind the services

    The shard client of the services hands a command to the log and answers with the
    result of applying it. Here the log is the state machine itself: a command becomes
    one entry of [Update], a query goes to [Query]. *)

From Stdlib Require Import Strings.String.
From stdpp Require Import gmap.
From S2P Require Import Prelude Types GoBinary Patch Kv Mdb MdbFacts Db DbFacts DbLease DbKv Frame LeaseFacts History DbKvRead DbKvWrite DbKvRange DbKvDelete Pb StateMachine Update SmFrame SmMeta LeaseOps LeaseInv SmOps Services.

Section Shard.
Context (cfg : config) `{DifferOk} `{SnappyOk} `{MdbOk} `{Proto} `{ProtoPartial} `{ErrLib}.
Context (fuel : nat) (mapRange : list (bytes * Z) -> list (bytes * Z)) (shardID replicaID : Z).

Record shard : Type := mkShard { sh_sm : stateMachine; sh_index : Z; sh_leader : Z * Z }.

(** [codes.Unavailable]: the replica went down. *)
Definition shardDown : Z := 14.

#[global] Instance shardClient : ShardClient shard := {|
  cl_Apply c cmd :=
    let index := sh_index c + 1 in
    match Update cfg fuel mapRange shardID replicaID (fun _ => @nil unit) (sh_sm c) [mkEntry index cmd Result_zero] with
    | Ok (sm, [ent], _) => (mkShard sm index (sh_leader c), inl (res_Value (ent_Result ent), res_Data (ent_Result ent)))
    | _ => (c, inr shardDown)
    end;
  cl_Read c q _ :=
    match Query cfg fuel shardID replicaID (sh_sm c) q with
    | Ok (Some r) => inl (res_Value r, res_Data r)
    | _ => inr shardDown
    end;
  cl_Leader := sh_leader
|}.

(** The state of a shard: its metadata, and keys at the stored revision. *)
Record ShardAt (c : shard) (m : metadata) (M : history) (A : list (Z * bytes)) : Prop := {
  sh_meta : MetaRep (sm_env (sh_sm c)) m;
  sh_store : StoreAt cfg (mkUpd (sm_env (sh_sm c)) (m_epoch m) (m_rev m) []) M A
}.

Definition withApplied (m : metadata) (index rev : Z) : metadata :=
  mkMeta (m_epoch m) index (m_leaseID m) rev (m_revCompacted m) (m_revMin m) (m_term m).

(** Committing a batch of one entry that advanced the revision. *)
Lemma commit_ok t m index rev :
  MetaRep t m -> is_u64 index -> is_u64 rev ->
  exists t1 t2, setIndex t index = Ok t1 /\ setRevision t1 rev = Ok t2
    /\ MetaRep t2 (withApplied m index rev) /\ forall d, d <> DbiMeta -> view t2 d = view t d.
Proof.
  intros HM Hi Hr.
  destruct (putUint64_has t metaKeyIndex index) as (t1 & E1 & _ & _ & Hf1); [by vm_compute|done|].
  destruct (putUint64_has t1 metaKeyRevision rev) as (t2 & E2 & _ & _ & Hf2); [by vm_compute|done|].
  exists t1, t2. split; [exact E1|]. split; [exact E2|].
  pose proof (setIndex_rep t m index t1 HM Hi E1) as HM1. pose proof (setRevision_rep t1 _ rev t2 HM1 Hr E2) as HM2.
  split; [exact HM2|]. intros d Hd. by rewrite Hf2, Hf1.
Qed.

Lemma updateEntry_put s index b r :
  updateEntry cfg fuel mapRange shardID replicaID s (mkEntry index (b ++ [Zb CMD_KV_PUT]) r)
  = handlePut cfg shardID replicaID s b r.
Proof.
  unfold updateEntry. cbn [ent_Cmd ent_Result ent_Index]. rewrite last_snoc, length_app, Nat.add_sub, take_app_length. done.
Qed.

(** A batch of one put. *)
Lemma updateTxn_put t m M A req b index :
  MetaRep t m -> StoreAt cfg (mkUpd t (m_epoch m) (m_rev m) []) M A -> pb_Unmarshal MPutRequest b = Some req ->
  putAllowed (mkUpd t (m_epoch m) (m_rev m) []) req ->
  put_args (m_rev m + 1) 0 (u64 (pr_Lease req)) (pr_Key req) (pr_Value req) (pr_IgnoreValue req) ->
  pr_IgnoreLease req = false -> 0 <= pr_Lease req < 2 ^ 63 ->
  (forall a, exists d, pb_Marshal MPutResponse a = Ok d) ->
  is_u64 index -> m_rev m + 1 < 2 ^ 52 - 1 ->
  let M' := hset M (pr_Key req) (putRec (m_rev m + 1) 0 (pr_Lease req) (pr_Value req) (pr_IgnoreValue req) false
                                   (M (pr_Key req)) :: M (pr_Key req)) in
  exists t' A' prev data,
    updateTxn cfg fuel mapRange shardID replicaID t [mkEntry index (b ++ [Zb CMD_KV_PUT]) Result_zero]
      = Ok (t', (m_rev m, m_rev m + 1, [pr_Key req], [mkEntry index (b ++ [Zb CMD_KV_PUT]) (mkResult 1 data)]))
    /\ pb_Marshal MPutResponse (mkPutResponse (Some (responseHeader shardID replicaID (m_rev m + 1)))
         (if pr_PrevKv req then Some (kv_ToProto prev) else None)) = Ok data
    /\ kvOr (pr_Key req) (visible 0 (M (pr_Key req))) prev
    /\ MetaRep t' (withApplied m index (m_rev m + 1)) /\ StoreAt cfg (mkUpd t' (m_epoch m) (m_rev m + 1) []) M' A'.
Proof.
  intros HM HS Hdec Hal Hargs Hig Hl Hm Hi Hb M'.
  destruct (handlePut_ok cfg shardID replicaID _ M A b Result_zero req HS Hdec Hal Hargs Hig Hl Hm)
    as (t1 & A' & prev & data & E & Ed & Hp & HR & HA & HI & Hup). cbn [u_newRev u_epoch u_keys app] in *.
  pose proof (sa_rev _ _ _ _ HS) as Hr. cbn [u_newRev] in Hr.
  assert (MetaRep t1 m) as HM1.
  { eapply MetaRep_view; [|exact HM]. unfold handlePut in E. rewrite Hdec in E.
    go_inv; match goal with X : cmdPut _ _ _ _ _ _ = Ok _ |- _ => apply (cmdPut_only cfg) in X; apply (only_meta putTables _ _ meta_put X) end. }
  destruct (commit_ok t1 m index (m_rev m + 1) HM1 Hi) as (t2 & t3 & E2 & E3 & HM3 & Hf); [unfold is_u64; lia|].
  exists t3, A', prev, data. split; [|split; [exact Ed|split; [done|split; [exact HM3|]]]].
  - unfold updateTxn.
    rewrite (getEpoch_rep _ _ HM), (getRevision_rep _ _ HM). cbn [rbind updateLoop]. rewrite updateEntry_put, E. cbn [rbind last ent_Index u_txn].
    rewrite E2. cbn [rbind u_newRev]. destruct (Z.ltb_spec (m_rev m) (m_rev m + 1)); [|lia]. rewrite E3. reflexivity.
  - split; cbn [u_txn u_newRev]; [eapply Rep_view; [..|exact HR]; by apply Hf|eapply AttRep_view; [|exact HA]; by apply Hf|done|done|lia].
Qed.

(** Applying a put through the client. *)
Lemma apply_put c m M A req b :
  ShardAt c m M A -> pb_Unmarshal MPutRequest b = Some req ->
  putAllowed (mkUpd (sm_env (sh_sm c)) (m_epoch m) (m_rev m) []) req ->
  put_args (m_rev m + 1) 0 (u64 (pr_Lease req)) (pr_Key req) (pr_Value req) (pr_IgnoreValue req) ->
  pr_IgnoreLease req = false -> 0 <= pr_Lease req < 2 ^ 63 ->
  (forall a, exists d, pb_Marshal MPutResponse a = Ok d) ->
  is_u64 (sh_index c + 1) -> m_rev m + 1 < 2 ^ 52 - 1 ->
  let M' := hset M (pr_Key req) (putRec (m_rev m + 1) 0 (pr_Lease req) (pr_Value req) (pr_IgnoreValue req) false
                                   (M (pr_Key req)) :: M (pr_Key req)) in
  exists c' A' prev data,
    cl_Apply c (b ++ [Zb CMD_KV_PUT]) = (c', inl (1, data))
    /\ pb_Marshal MPutResponse (mkPutResponse (Some (responseHeader shardID replicaID (m_rev m + 1)))
         (if pr_PrevKv req then Some (kv_ToProto prev) else None)) = Ok data
    /\ kvOr (pr_Key req) (visible 0 (M (pr_Key req))) prev
    /\ sh_leader c' = sh_leader c
    /\ ShardAt c' (withApplied m (sh_index c + 1) (m_rev m + 1)) M' A'.
Proof.
  intros [HM HS] Hdec Hal Hargs Hig Hl Hm Hi Hb M'.
  destruct (updateTxn_put (sm_env (sh_sm c)) m M A req b (sh_index c + 1)) as (t' & A' & prev & data & E & Ed & Hp & HM' & HS'); try done.
  eexists (mkShard (mkSm t' _) (sh_index c + 1) (sh_leader c)), A', prev, data.
  split; [|split; [exact Ed|split; [done|split; [done|by split]]]].
  cbn [cl_Apply shardClient]. unfold Update. rewrite E. reflexivity.
Qed.

End Shard.
