(* ===== verification/Controller.v ===== *)
(** * The controller (src/controller.go)

    The controller of a replica sends the shard its ticks, one a second while the
    replica leads, and a notice of each new term. Both go through the shard client. *)

From stdpp Require Import gmap.
From S2P Require Import Prelude Types GoBinary Patch Kv Mdb Db Pb StateMachine Services.

Section Controller.
Context `{Proto} {C : Type} `{ShardClient C}.

(** [ct_shard] is [c.shard.ID]: 0 until [Start]; [ct_running]: the ticker's goroutine
    has not been cancelled. *)
Record controller : Type := mkController {
  ct_index : Z; ct_isLeader : gmap Z bool; ct_shard : Z; ct_term : Z; ct_termSet : bool;
  ct_running : bool
}.

Definition NewController : controller := mkController 0 ∅ 0 0 false false.

(** [c.isLeader[id]]: false for a missing key. *)
Definition isLeader (ct : controller) (id : Z) : bool := default false (ct_isLeader ct !! id).

Definition Start (ct : controller) (shard : Z) : controller :=
  mkController (ct_index ct) (ct_isLeader ct) shard (ct_term ct) (ct_termSet ct) true.

(** [cmd, _ := proto.Marshal(...)]: a failed marshalling leaves no bytes and goes on. *)
Definition marshalled {A} (m : msg A) (a : A) : bytes :=
  match pb_Marshal m a with Ok b => b | _ => [] end.

Definition applyTerm (c : C) (term : Z) : C :=
  fst (cl_Apply c (marshalled MTermRequest (mkTermRequest term) ++ [Zb CMD_INTERNAL_TERM])).

Definition tick (c : C) (ct : controller) : C * controller :=
  if isLeader ct (ct_shard ct) then
    let '(c, termSet) :=
      if negb (ct_termSet ct) && (0 <? ct_term ct) then (applyTerm c (ct_term ct), true)
      else (c, ct_termSet ct) in
    let '(c, r) := cl_Apply c (marshalled MTickRequest (mkTickRequest (ct_term ct)) ++ [Zb CMD_INTERNAL_TICK]) in
    let index := match r with
                 | inl (index, _) => if ct_index ct <? index then index else ct_index ct
                 | inr _ => ct_index ct
                 end in
    (c, mkController index (ct_isLeader ct) (ct_shard ct) (ct_term ct) termSet (ct_running ct))
  else (c, ct).

(** zongzi.LeaderInfo *)
Record LeaderInfo : Type := mkLeaderInfo { li_ShardID : Z; li_ReplicaID : Z; li_LeaderID : Z; li_Term : Z }.

Definition LeaderUpdated (c : C) (ct : controller) (info : LeaderInfo) : C * controller :=
  let leads := <[li_ShardID info := li_LeaderID info =? li_ReplicaID info]> (ct_isLeader ct) in
  let '(c, termSet) :=
    if negb (ct_shard ct =? 0) && default false (leads !! ct_shard ct) && negb (ct_term ct =? li_Term info)
    then (applyTerm c (li_Term info), true)
    else (c, ct_termSet ct) in
  (c, mkController (ct_index ct) leads (ct_shard ct) (li_Term info) termSet (ct_running ct)).

Definition Stop (ct : controller) : controller :=
  mkController 0 (ct_isLeader ct) (ct_shard ct) (ct_term ct) (ct_termSet ct) false.

(** ** What may happen to a controller: its ticker fires while it runs, raft reports a
    leader, the host starts or stops it. *)

Inductive event : Type :=
| EvStart (shard : Z) | EvTick | EvLeader (info : LeaderInfo) | EvStop.

Definition react (s : C * controller) (e : event) : C * controller :=
  let '(c, ct) := s in
  match e with
  | EvStart shard => (c, Start ct shard)
  | EvTick => if ct_running ct then tick c ct else s
  | EvLeader info => LeaderUpdated c ct info
  | EvStop => (c, Stop ct)
  end.

End Controller.
