(* ===== verification/ServiceWatch.v ===== *)
(** * The watch service (src/service_watch.go)

    One goroutine per watch turns the state machine's messages into responses
    ([forward]); the loop over the client's requests keeps the table of watches. *)

From stdpp Require Import gmap.
From Stdlib Require Import Strings.String.
From S2P Require Import Prelude Types GoBinary Patch Kv Mdb Db DbLease DbKv Pb StateMachine Watch Services.

Definition sizeMetaKeyValue : Z := 256.
Definition sizeMetaEvent : Z := 256.
Definition sizeMetaHeader : Z := 256.
Definition sizeMetaWatchResponse : Z := 256.

Record WatchResponse : Type := mkWatchResponse {
  wr_Header : option ResponseHeader; wr_WatchId : Z; wr_Created : bool; wr_Canceled : bool;
  wr_CompactRevision : Z; wr_CancelReason : bytes; wr_Fragment : bool; wr_Events : list Event
}.

Definition WatchResponse_zero : WatchResponse := mkWatchResponse None 0 false false 0 [] false [].

Definition ErrWatcherDuplicateID : string := "mvcc: duplicate watch ID provided on the WatchStream".

Section ServiceWatch.
Context (cfg : config) `{Proto} {C : Type} `{ShardClient C}.

Definition header_zero : ResponseHeader := mkResponseHeader 0 0 0 0.

(** [watchResp]: what [server.Send] is given. *)
Definition watchResp (c : C) (r : WatchResponse) : WatchResponse :=
  let h := default header_zero (wr_Header r) in
  mkWatchResponse (Some (mkResponseHeader (h_Revision h) (h_ClusterId h) (h_MemberId h) (snd (cl_Leader c))))
    (wr_WatchId r) (wr_Created r) (wr_Canceled r) (wr_CompactRevision r) (wr_CancelReason r)
    (wr_Fragment r) (wr_Events r).

(** ** The goroutine that forwards the messages of one watch

    [fw_header], [fw_events], [fw_frag] and [fw_respId] are the fields of the response
    being collected, [fw_id] the variable [id] shared with the caller. *)
Record fwState : Type := mkFw {
  fw_id : Z; fw_cluster : Z; fw_member : Z; fw_size : Z;
  fw_header : ResponseHeader; fw_respId : Z; fw_frag : bool; fw_events : list Event
}.

Definition fwInit : fwState := mkFw 0 0 0 0 header_zero 0 false [].

Definition kvSize (k : KeyValue) : Z := blen (Key k) + blen (sbytes (Value k)) + sizeMetaKeyValue.

Definition eventSize (e : Event) (k : KeyValue) : Z :=
  kvSize k + sizeMetaEvent + match evt_PrevKv e with Some p => kvSize p | None => 0 end.

Definition withRevision (h : ResponseHeader) (rev : Z) : ResponseHeader :=
  mkResponseHeader rev (h_ClusterId h) (h_MemberId h) (h_RaftTerm h).

(** The response collected so far. *)
Definition pending (s : fwState) : WatchResponse :=
  mkWatchResponse (Some (fw_header s)) (fw_respId s) false false 0 [] (fw_frag s) (fw_events s).

(** A fresh response for the watch. *)
Definition fwReset (s : fwState) (size : Z) : fwState :=
  mkFw (fw_id s) (fw_cluster s) (fw_member s) size
    (mkResponseHeader 0 (fw_cluster s) (fw_member s) 0) (fw_id s) false [].

(** [resp.Header.Revision = ...; resp.Events = append(resp.Events, evt)] *)
Definition fwAppend (s : fwState) (e : Event) (k : KeyValue) (size : Z) : fwState :=
  mkFw (fw_id s) (fw_cluster s) (fw_member s) size (withRevision (fw_header s) (ModRevision k))
    (fw_respId s) (fw_frag s) (fw_events s ++ [e]).

(** An EVENT message: collect it, or send what is collected and start again with it.
    An event without a key-value is dereferenced. *)
Definition forwardEvent (c : C) (s : fwState) (data : bytes) : res (option fwState * list WatchResponse) :=
  let! body := slice data 9 (blen data) in
  match pb_Unmarshal MEvent body with
  | None => Ok (None, [])
  | Some evt =>
      match evt_Kv evt with
      | None => Panic
      | Some k =>
          let sz := eventSize evt k in
          if fw_size s + sz <? PCB_RESPONSE_SIZE_MAX cfg
          then Ok (Some (fwAppend s evt k (fw_size s + sz)), [])
          else
            let! hd := slice data 1 9 in
            let! rev := Uint64 hd in
            let frag := if h_Revision (fw_header s) =? ModRevision k then true else fw_frag s in
            let s := mkFw (fw_id s) (fw_cluster s) (fw_member s) (fw_size s)
                       (withRevision (fw_header s) (i64 rev)) (fw_respId s) frag (fw_events s) in
            Ok (Some (fwAppend (fwReset s 0) evt k (sz + sizeMetaWatchResponse + sizeMetaHeader)),
                [watchResp c (pending s)])
      end
  end.

(** One message. [newID] is what [idFunc] would return; the new state ([None]: the
    goroutine returned), the responses, whether [idFunc] and [done] were called. The
    stream accepts every response: a failing [Send] ends the goroutine. *)
Record forwarded : Type := mkForwarded {
  f_state : option fwState; f_out : list WatchResponse; f_named : bool; f_done : bool
}.

Definition forward (c : C) (newID : Z) (s : fwState) (m : Result) : res forwarded :=
  let body := drop 1 (res_Data m) in
  match res_Data m with
  | [] => Panic
  | typ :: _ =>
      if bZ typ =? WatchMessageType_INIT then
        match pb_Unmarshal MResponseHeader body with
        | None => Ok (mkForwarded None [] false false)
        | Some h =>
            Ok (mkForwarded
                  (Some (mkFw newID (h_ClusterId h) (h_MemberId h) (fw_size s)
                           (mkResponseHeader (h_Revision h) (h_ClusterId h) (h_MemberId h) (snd (cl_Leader c)))
                           newID (fw_frag s) (fw_events s)))
                  [watchResp c (mkWatchResponse (Some h) newID true false 0 [] false [])] true false)
        end
      else if bZ typ =? WatchMessageType_EVENT then
        let! '(s, out) := forwardEvent c s (res_Data m) in Ok (mkForwarded s out false false)
      else if bZ typ =? WatchMessageType_SYNC then
        match pb_Unmarshal MResponseHeader body with
        | None => Ok (mkForwarded None [] false false)
        | Some h =>
            let s := mkFw (fw_id s) (fw_cluster s) (fw_member s) (fw_size s) h (fw_respId s)
                       (fw_frag s) (fw_events s) in
            if 0 <? blen (fw_events s)
            then Ok (mkForwarded (Some (fwReset s (fw_size s))) [watchResp c (pending s)] false false)
            else Ok (mkForwarded (Some s) [] false false)
        end
      else if bZ typ =? WatchMessageType_NOTIFY then
        match pb_Unmarshal MResponseHeader body with
        | None => Ok (mkForwarded None [] false false)
        | Some h =>
            Ok (mkForwarded (Some s)
                  [watchResp c (mkWatchResponse (Some h) (fw_id s) false false 0 [] false [])] false false)
        end
      else if bZ typ =? WatchMessageType_ERR_COMPACTED then
        match pb_Unmarshal MResponseHeader body with
        | None => Ok (mkForwarded None [] false false)
        | Some h =>
            Ok (mkForwarded
                  (Some (mkFw newID (fw_cluster s) (fw_member s) (fw_size s) (fw_header s) (fw_respId s)
                           (fw_frag s) (fw_events s)))
                  [watchResp c (mkWatchResponse None newID true false 0 [] false []);
                   watchResp c (mkWatchResponse None newID false true (h_Revision h) [] false [])] true true)
        end
      else Ok (mkForwarded (Some s) [] false false)
  end.

(** The messages of a scan one after the other, after INIT. *)
Fixpoint forwardAll (c : C) (s : fwState) (ms : list Result) : res (option fwState * list WatchResponse) :=
  match ms with
  | [] => Ok (Some s, [])
  | m :: ms =>
      let! f := forward c 0 s m in
      match f_state f with
      | None => Ok (None, f_out f)
      | Some s => let! '(s, out) := forwardAll c s ms in Ok (s, f_out f ++ out)
      end
  end.

(** ** The loop over the requests of a client

    [sw_watches] maps an id to the watch entered under it, by the number of its create
    request; [sw_watchId] is the next id given out. *)
Record svcState : Type := mkSvc { sw_watchId : Z; sw_watches : gmap Z nat; sw_open : gset nat }.

Definition svcInit : svcState := mkSvc (if PCB_WATCH_ID_ZERO_INDEX cfg then 0 else 1) ∅ ∅.

(** What a create request leads to: refused, or a watch is started. *)
Definition svcCreate (c : C) (s : svcState) (n : nat) (req : WatchCreateRequest)
  : svcState * list WatchResponse :=
  if (0 <? wc_WatchId req) && match sw_watches s !! wc_WatchId req with Some _ => true | None => false end
  then (s, [watchResp c (mkWatchResponse None (-1) true true 0 (str ErrWatcherDuplicateID) false [])])
  else (mkSvc (sw_watchId s) (sw_watches s) ({[n]} ∪ sw_open s), []).

(** [idFunc] of watch [n], whose request asked for [reqId]: the first call names the
    watch, every call enters it in the table. (The caller's assignment of [w] is taken
    to precede the first message.) *)
Definition idFunc (s : svcState) (n : nat) (reqId : Z) : Z * svcState :=
  let '(id, next) := if reqId =? 0 then (sw_watchId s, i64 (sw_watchId s + 1)) else (reqId, sw_watchId s) in
  (id, mkSvc next (<[id := n]> (sw_watches s)) (sw_open s)).

(** [done] of a watch named [id]. *)
Definition svcDone (s : svcState) (n : nat) (id : Z) : svcState :=
  mkSvc (sw_watchId s) (delete id (sw_watches s)) (sw_open s ∖ {[n]}).

(** A cancel request: [Close] waits for the watch to end, then the client is told. The
    id leaves the table when the watch calls [done]. *)
Definition svcCancel (c : C) (s : svcState) (id : Z) : svcState * list WatchResponse :=
  match sw_watches s !! id with
  | None => (s, [])
  | Some n => (mkSvc (sw_watchId s) (sw_watches s) (sw_open s ∖ {[n]}),
               [watchResp c (mkWatchResponse None id false true 0 [] false [])])
  end.

Definition svcProgress (c : C) (s : svcState) : list WatchResponse :=
  match cl_Read c [Zb QUERY_WATCH_PROGRESS] true with
  | inr _ => []
  | inl (_, data) =>
      match pb_Unmarshal MResponseHeader data with
      | None => []
      | Some h => [watchResp c (mkWatchResponse (Some h) (watchesMin (sw_watches s)) false false 0 [] false [])]
      end
  end.

(** One request of the client; [n] numbers the requests. *)
Definition svcRecv (c : C) (s : svcState) (n : nat) (req : WatchRequest) : svcState * list WatchResponse :=
  match req with
  | WatchCreate r => svcCreate c s n r
  | WatchCancel id => svcCancel c s id
  | WatchProgress => (s, svcProgress c s)
  | WatchOther => (s, [])
  end.

End ServiceWatch.
