(* ===== verification/KvProps.v ===== *)
(** * Encodings: properties (src/kv.go, src/crc.go, src/internal/patch) *)

From Stdlib Require Import Strings.String.
From stdpp Require Import gmap.
From S2P Require Import Prelude Types GoBinary Patch Lcs LcsFacts LcsTwoSided Kv Mdb Db DbKv History DbKvWrite Pb Instances.

Section Codecs.
Context (cfg : config) `{DifferOk} `{SnappyOk}.

(** A key revision holds its parts: within its bounds (52 bits of revision, 1024
    sub-revisions) the revision, the sub-revision and the tombstone bit are read back,
    and key revisions order by revision, then sub-revision, then live before deleted. *)
Theorem keyrev_fields u l d u' l' d' :
  keyrev_ok u l -> keyrev_ok u' l' ->
  keyrev_upper (newkeyrev u l d) = u /\ keyrev_lower (newkeyrev u l d) = l
  /\ keyrev_isdel (newkeyrev u l d) = d
  /\ (newkeyrev u l d < newkeyrev u' l' d'
      <-> u < u' \/ (u = u' /\ (l < l' \/ (l = l' /\ d = false /\ d' = true)))).
Proof.
  intros Hk Hk'. split; [by apply keyrev_upper_new|]. split; [by apply keyrev_lower_new|].
  split; [by apply keyrev_isdel_new|]. rewrite !newkeyrev_eq by done.
  unfold keyrev_ok, PCB_TXN_OPS_LIMIT in *.
  assert (forall b : bool, b = true \/ b = false) as Hb by (intros []; auto).
  destruct d, d'; intuition (try lia; try congruence).
Qed.

(** An index record reads back: key, revision and (unless it is a tombstone) lease. *)
Theorem keyrecord_read_back recv key rev lease :
  is_u64 rev -> is_u64 lease ->
  keyrecord_FromBytes recv key (keyrecord_Bytes (mkKeyrecord key rev lease) [])
  = Ok (mkKeyrecord key rev (if keyrev_isdel rev then kr_lease recv else lease)).
Proof. intros. by apply (keyrecord_roundtrip recv (mkKeyrecord key rev lease)). Qed.

(** The records of a key sort newest first in the engine's byte order, whatever
    their leases and checksums, because the revision is stored inverted. *)
Theorem records_newest_first key rev rev' lease lease' :
  is_u64 rev -> is_u64 rev' ->
  blt (keyrecord_Bytes (mkKeyrecord key rev lease) []) (keyrecord_Bytes (mkKeyrecord key rev' lease') [])
  <-> rev' < rev \/ (rev' = rev /\ blt (keyrecord_Bytes (mkKeyrecord key rev lease) [])
                                       (keyrecord_Bytes (mkKeyrecord key rev lease') [])).
Proof.
  intros Hr Hr'. destruct (Z.lt_trichotomy rev' rev) as [Hlt|[->|Hlt]].
  - split; [auto|]. intros _. by apply keyrecord_Bytes_lt.
  - split; [auto|]. intros [?|[_ ?]]; [lia|done].
  - split; [|intros [?|[? _]]; lia]. intros Hb. exfalso.
    assert (blt (keyrecord_Bytes (mkKeyrecord key rev' lease') []) (keyrecord_Bytes (mkKeyrecord key rev lease) []))
      as Hb' by by apply keyrecord_Bytes_lt.
    exact (blt_irrefl _ (blt_trans _ _ _ Hb Hb')).
Qed.

(** C33: a stored value reads back, however [Bytes] chose to store it (as it is, as a
    patch against the next newer value, compressed, or both), given that newer value
    and a stored form of at least eleven bytes. *)
Theorem kv_store_read recv k next b :
  kv_wf k -> small (sbytes next) -> keyrev_isdel (kv_rev k) = false ->
  kv_Bytes cfg k next [] = Ok b -> 11 <= blen b ->
  exists item, kv_FromBytes recv (keyrev_key (kv_rev k)) b next false = Ok (item, None)
    /\ kvIs (kv_key k) (mkHrec (kv_rev k) 0 (kv_version k) (kv_created k) (kv_lease k) (sbytes (kv_val k))) item.
Proof.
  intros Hw Hn Hd Hb Hlen.
  destruct (kv_read_back cfg recv k next next b false) as (fl & v & E & Ev); auto.
  eexists. split; [exact E|]. by split.
Qed.

(** C39: a record that does not carry the checksum of its key and contents is never
    accepted: whatever [FromBytes] accepts is a body followed by its CRC. *)
Theorem keyrecord_integrity recv key buf kr :
  keyrecord_FromBytes recv key buf = Ok kr ->
  exists body, buf = body ++ be_put 4 (crc key body).
Proof.
  unfold keyrecord_FromBytes. destruct (Z.ltb_spec (blen buf) 11) as [|Hl]; [done|].
  destruct (sumOk key buf) as [good| | |] eqn:E; cbn [rbind]; try done.
  destruct good; [|done]. intros _. apply sumOk_inv; [lia|done].
Qed.

End Codecs.

(** C37: the search for a common subsequence always ends, whatever labels earlier searches
    left in its pool, and the edits it returns turn the first value into the second:
    copying the first value and performing the replacements in order yields the second. *)
Theorem diff_edits pf pb a b :
  exists ds, Lcs.DiffBytes pf pb a b = Ok ds /\ edits a b 0 0 ds.
Proof.
  destruct (DiffBytes_spec pf pb a b) as (ds & l & E & -> & Hc).
  eexists. split; [exact E|]. by apply toDiffsLoop_edits.
Qed.

(** C38: a patch turns the old value into the new one: applying what [Generate] made
    of [a] and [b] to [a] gives [b]. *)
Theorem patch_round_trip pf pb a b :
  small a -> small b ->
  exists p s, @Generate (lcsDiffer pf pb) a b [] = Ok p /\ Apply a p None = Ok (s, None) /\ sbytes s = b.
Proof.
  intros Ha Hb. pose proof (lcsDiffer_ok pf pb) as Hd.
  pose proof (@Generate_bytes (lcsDiffer pf pb) Hd a b Ha Hb) as Eg.
  destruct (@Apply_Generate (lcsDiffer pf pb) Hd a b _ Ha Hb Eg) as (s & E & Es).
  eexists _, s. split; [exact Eg|]. by split.
Qed.

(** C40: the limit on key length keeps every entry within the engine's limits: the
    record, the value and the event of a key of at most 480 bytes are accepted
    (511 bytes per key, and per value in the tables with duplicates). *)
Theorem entries_fit key rev lease epoch kr b :
  0 < blen key <= PCB_LIMIT_KEY_LENGTH ->
  entryFits DbiRev key (keyrecord_Bytes (mkKeyrecord key rev lease) [])
  /\ entryFits DbiVal (keyrev_key kr) b
  /\ entryFits DbiEvt (keyrev_key kr) (evtBytes kr epoch key).
Proof.
  intros Hk. unfold PCB_LIMIT_KEY_LENGTH in Hk. split; [|split].
  - split; [unfold keyFits, maxKeySize; lia|]. intros _. unfold maxKeySize.
    pose proof (keyrecord_Bytes_blen (mkKeyrecord key rev lease)). lia.
  - auto with go.
  - split; [auto with go|]. intros _. unfold evtBytes, addChecksum, AppendUint32, AppendUvarint, maxKeySize.
    rewrite !blen_app, blen_be_put, blen_nil. pose proof (uvarint_length epoch). lia.
Qed.

(** the sub-revision field has room for 1024 operations only: operation number
    1024 of one revision gets the key revision of the first operation of the next, so
    without the limit on operations two writes share a key revision. *)
Theorem subrev_overflow u d :
  0 <= u < 2 ^ 52 - 1 -> newkeyrev u PCB_TXN_OPS_LIMIT d = newkeyrev (u + 1) 0 d.
Proof.
  intros Hu. unfold newkeyrev, PCB_TXN_OPS_LIMIT. rewrite !Z.shiftl_mul_pow2 by lia.
  change (2 ^ 12) with 4096. change (2 ^ 2) with 4.
  rewrite (u64_id (u * 4096)), (u64_id (1024 * 4)), (u64_id ((u + 1) * 4096)), (u64_id (0 * 4)) by (unfold is_u64; lia).
  replace (u * 4096 + 1024 * 4) with ((u + 1) * 4096 + 0 * 4) by lia. done.
Qed.

(** the entry of a one-byte key with an empty value is ten bytes long, one less
    than [FromBytes] accepts: what [put] stored is reported as having no checksum, and
    the next put of the same key fails. *)
Theorem one_byte_key_unreadable :
  let k := str "k" in
  exists (t' : @txn refMdb) out b,
    dbKv_put defaultConfig (refEmpty : @txn refMdb) 2 0 0 0 k None false false = Ok (t', out)
    /\ mdb_get t' DbiVal (keyrev_key (newkeyrev 2 0 false)) = Ok b /\ blen b = 10
    /\ kv_FromBytes kv_zero (keyrev_key (newkeyrev 2 0 false)) b None false
       = Ok (kv_zero, Some ErrChecksumMissing)
    /\ dbKv_put defaultConfig t' 3 0 0 0 k None false false = Err ErrChecksumMissing.
Proof. eexists _, _, _. repeat split; vm_compute; reflexivity. Qed.

(** ** Witnesses *)

Definition exKv : kv := mkKv (newkeyrev 2 0 false) 1 2 0 0 (str "key") (Some (str "some value here")).

Lemma keyrev_fields_witness :
  newkeyrev 5 3 false < newkeyrev 5 3 true /\ keyrev_upper (newkeyrev 5 3 false) = 5.
Proof.
  destruct (keyrev_fields 5 3 false 5 3 true) as (Hu & _ & _ & Hlt);
    [by vm_compute|by vm_compute|]. split; [|exact Hu]. apply Hlt. right. split; [done|]. right. by split.
Defined.

Lemma keyrecord_read_back_witness :
  keyrecord_FromBytes keyrecord_zero (str "key") (keyrecord_Bytes (mkKeyrecord (str "key") 8192 7) [])
  = Ok (mkKeyrecord (str "key") 8192 7).
Proof. apply (keyrecord_read_back keyrecord_zero (str "key") 8192 7); by vm_compute. Defined.

Lemma records_newest_first_witness :
  blt (keyrecord_Bytes (mkKeyrecord (str "key") 12288 0) []) (keyrecord_Bytes (mkKeyrecord (str "key") 8192 9) []).
Proof. apply (records_newest_first (str "key") 12288 8192 0 9); [by vm_compute..|left; lia]. Defined.

Lemma kv_store_read_witness : exists b item,
  kv_Bytes defaultConfig exKv (Some (str "some value there")) [] = Ok b
  /\ kv_FromBytes kv_zero (keyrev_key (kv_rev exKv)) b (Some (str "some value there")) false = Ok (item, None).
Proof.
  assert (W : kv_wf exKv) by (by split; vm_compute).
  assert (Sm : small (sbytes (Some (str "some value there")))) by by vm_compute.
  assert (Hd : keyrev_isdel (kv_rev exKv) = false) by by vm_compute.
  assert (Hb : exists b, kv_Bytes defaultConfig exKv (Some (str "some value there")) [] = Ok b /\ 11 <= blen b)
    by (eexists; split; vm_compute; [reflexivity|discriminate]).
  destruct Hb as (b & E & Hl).
  destruct (kv_store_read defaultConfig kv_zero exKv (Some (str "some value there")) b W Sm Hd E Hl) as (item & Ei & _).
  exists b, item. exact (conj E Ei).
Defined.

Lemma patch_round_trip_witness : exists p s,
  Generate (str "abcdef") (str "abcxyz") [] = Ok p /\ Apply (str "abcdef") p None = Ok (s, None).
Proof.
  destruct (patch_round_trip (fun _ _ => ∅) (fun _ _ => ∅) (str "abcdef") (str "abcxyz")) as (p & s & E & Ea & _); [by vm_compute..|].
  exists p, s. by split.
Defined.

Lemma keyrecord_integrity_witness : exists body,
  keyrecord_Bytes (mkKeyrecord (str "key") 8192 7) [] = body ++ be_put 4 (crc (str "key") body).
Proof.
  apply (keyrecord_integrity keyrecord_zero (str "key") _ (mkKeyrecord (str "key") 8192 7)).
  vm_compute. reflexivity.
Defined.

Lemma entries_fit_witness : entryFits DbiEvt (keyrev_key 8192) (evtBytes 8192 77 (str "key")).
Proof. apply (entries_fit (str "key") 0 0 77 8192 []). by vm_compute. Defined.

Lemma subrev_overflow_witness : newkeyrev 7 1024 false = newkeyrev 8 0 false.
Proof. apply (subrev_overflow 7 false). lia. Defined.
