(* ===== verification/StoreProps.v ===== *)
(** * The revisioned store implements histories: properties

    What a client of src/db_kv.go relies on, for every engine, differ and compressor
    that keep their documented behaviour. *)

From Stdlib Require Import Strings.String.
From stdpp Require Import sorting.
From S2P Require Import Prelude Types GoBinary Patch Kv Mdb MdbFacts MdbKeys Db DbKv History DbKvRead DbKvWrite DbKvRange DbKvDelete Pb Instances.

(** Two reads that return the same record (the storage flags and the difference
    between a nil and an empty value apart). *)
Definition sameKv (a b : kv) : Prop :=
  kv_rev a = kv_rev b /\ kv_version a = kv_version b /\ kv_created a = kv_created b
  /\ kv_lease a = kv_lease b /\ kv_key a = kv_key b /\ sbytes (kv_val a) = sbytes (kv_val b).

Lemma kvOr_same key o a b : kvOr key o a -> kvOr key o b -> sameKv a b.
Proof.
  unfold sameKv. destruct o as [h|]; cbn; [intros [] []; repeat split; congruence|].
  intros -> ->. by repeat split.
Qed.

Section Store.
Context (cfg : config) `{DifferOk} `{SnappyOk} `{MdbOk}.

(** C1: [put] refines the abstract write. On a store that holds history [M], a put of
    a valid key at a new revision succeeds and leaves a store that holds [M] with one
    record added on top of the key: version 1 and this creation revision if the key
    was absent or deleted, else the next version with the old creation revision (and
    the old value or lease where the request keeps them). It returns the replaced
    record and the new one, rewrites the replaced value as a patch only in a way that
    reads back, logs one event and touches no other table. *)
Theorem put_refines t M rev subrev lease epoch key val iv il :
  Rep cfg t M -> fresh M rev subrev -> put_args rev subrev lease key val iv ->
  (forall h, head (M key) = Some h -> isLive h = true ->
     keyrev_upper (h_rev h) <> rev \/ PCB_TXN_MULTI_WRITE_ENABLED cfg = true) ->
  exists t' prev next patched,
    dbKv_put cfg t rev subrev lease epoch key val iv il = Ok (t', (prev, next, patched))
    /\ Rep cfg t' (hset M key (putRec rev subrev lease val iv il (M key) :: M key))
    /\ kvOr key (visible 0 (M key)) prev
    /\ kvIs key (putRec rev subrev lease val iv il (M key)) next
    /\ others t t' (newkeyrev rev subrev false) epoch key.
Proof. intros. by apply put_ok. Qed.

(** C2: [getRev] refines the abstract read, with enough fuel for the records of the key:
    it returns the record visible at the revision (the newest one for revision 0) and,
    when asked, the live record it replaced; a key that is absent, deleted or newer
    gives the zero value and no error. *)
Theorem getRev_refines fuel t M key revision withPrev :
  Rep cfg t M -> key <> [] -> (length (M key) <= fuel)%nat ->
  exists item prev, dbKv_getRev fuel t key revision withPrev = Ok (item, prev, None)
    /\ kvOr key (visible revision (M key)) item
    /\ kvOr key (if withPrev then prevOf revision (M key) else None) prev.
Proof. intros. by apply (getRev_ok cfg). Qed.

(** C3: an unlimited range read returns exactly the answer: the selected record of
    every key of the range, in key order, with its count and nothing left over. *)
Theorem getRange_answer fuel L t M ks rq :
  Rep cfg t M -> rq_key rq <> [] -> StronglySorted blt ks -> (forall k, k ∈ ks <-> M k <> []) ->
  (forall k, (length (M k) <= L)%nat) -> (length ks + L < fuel)%nat -> rq_limit rq <= 0 ->
  exists items, dbKv_getRange cfg fuel t rq false = Ok (items, blen (answer rq M ks), false)
    /\ Forall2 (rangeItem (rq_keysOnly rq)) (answer rq M ks) items.
Proof.
  intros HR Hk Hs Hks HL Hf Hlim.
  destruct (getRange_ok cfg fuel L t M ks rq false) as (items & E & Hi); auto.
  rewrite rangeSpec_answer, rangeFold_unlimited in E, Hi by done. cbn in E, Hi. eauto.
Qed.

(** C28: a limited range read is a page of the answer: it returns its first [limit]
    records, the count of all of them, and [more] whenever some were left out. *)
Theorem getRange_page fuel L t M ks rq :
  Rep cfg t M -> rq_key rq <> [] -> StronglySorted blt ks -> (forall k, k ∈ ks <-> M k <> []) ->
  (forall k, (length (M k) <= L)%nat) -> (length ks + L < fuel)%nat ->
  PCB_RANGE_COUNT_FULL cfg = true -> PCB_RANGE_COUNT_FAKE cfg = false ->
  rq_minCreated rq = 0 -> rq_maxCreated rq = 0 -> 0 < rq_limit rq < 2 ^ 63 ->
  exists items more,
    dbKv_getRange cfg fuel t rq false = Ok (items, blen (answer rq M ks), more)
    /\ Forall2 (rangeItem (rq_keysOnly rq)) (take (Z.to_nat (rq_limit rq)) (answer rq M ks)) items
    /\ (rq_limit rq < blen (answer rq M ks) -> more = true).
Proof.
  intros HR Hk Hs Hks HL Hf Hfull Hfake Hmin Hmax Hlim.
  destruct (getRange_ok cfg fuel L t M ks rq false) as (items & E & Hi); auto.
  rewrite rangeSpec_answer in E, Hi by done.
  destruct (rangeFold_limited cfg rq M (rangeKeys rq ks) (mkRangeAcc [] 0 false false))
    as (more & co & Ef & Hm); auto; [cbn [ra_items]; rewrite blen_nil; lia|].
  rewrite Ef in E, Hi. exists items, more. split; [exact E|]. split; [exact Hi|exact Hm].
Qed.

(** C4: [deleteRange] refines the abstract delete: every live key from [key] through the
    range end gets a tombstone (the key alone without an end), dead and other keys keep
    their histories, and the records removed are returned in key order with their
    number. The stored values and all tables but records and events are untouched. *)
Theorem deleteRange_refines fuel t M ks rev subrev epoch key end_ :
  Rep cfg t M -> key <> [] -> StronglySorted blt ks -> (forall k, k ∈ ks <-> M k <> []) ->
  keyrev_ok rev subrev -> 0 < rev -> fresh M rev subrev ->
  noDuplicate cfg rev (delKeys key end_ ks) M -> (length ks < fuel)%nat ->
  exists t', dbKv_deleteRange cfg fuel t rev subrev epoch key end_
      = Ok (t', (omap (liveRec M) (delKeys key end_ ks),
                 blen (omap (liveRec M) (delKeys key end_ ks))))
    /\ Rep cfg t' (deleteKeys rev subrev (delKeys key end_ ks) M) /\ delFrame t t'.
Proof. intros. by apply deleteRange_ok. Qed.

(** A write never changes the past: after a put at revision [rev], every read at an
    earlier revision, of any key, returns the record it returned before. *)
Theorem put_keeps_past t M rev subrev lease epoch key val iv il :
  Rep cfg t M -> fresh M rev subrev -> put_args rev subrev lease key val iv ->
  (forall h, head (M key) = Some h -> isLive h = true ->
     keyrev_upper (h_rev h) <> rev \/ PCB_TXN_MULTI_WRITE_ENABLED cfg = true) ->
  exists t' out, dbKv_put cfg t rev subrev lease epoch key val iv il = Ok (t', out) /\
    forall k r fuel, k <> [] -> 0 < r < rev -> (length (M k) < fuel)%nat ->
      exists a b, dbKv_getRev fuel t k r false = Ok (a, kv_zero, None)
        /\ dbKv_getRev fuel t' k r false = Ok (b, kv_zero, None) /\ sameKv a b.
Proof.
  intros HR Hfr Ha Hdup. destruct (put_ok cfg t M rev subrev lease epoch key val iv il)
    as (t' & prev & next & patched & E & HR' & _); auto.
  exists t', (prev, next, patched). split; [done|]. intros k r fuel Hk Hr Hf.
  set (M' := hset M key _) in HR'.
  assert (length (M' k) <= fuel)%nat as Hf'.
  { unfold M', hset. case_decide; [subst; cbn; lia|lia]. }
  destruct (getRev_ok cfg fuel t M k r false HR Hk) as (a & p & Ea & Va & ->); [lia|].
  destruct (getRev_ok cfg fuel t' M' k r false HR' Hk Hf') as (b & p' & Eb & Vb & ->).
  exists a, b. split; [done|]. split; [done|]. eapply kvOr_same; [exact Va|].
  unfold M', hset in Vb. case_decide; [|done]. subst k.
  rewrite (visible_push r rev subrev false) in Vb; [done|apply Ha|done|].
  by apply (putRec_ok rev subrev lease key val iv il (M key) Ha (rep_ok _ _ _ HR key)).
Qed.

(** Deletes never change the past either: after a [deleteRange] at revision [rev],
    every read at an earlier revision returns the record it returned before. *)
Theorem deleteRange_keeps_past fuel t M ks rev subrev epoch key end_ :
  Rep cfg t M -> key <> [] -> StronglySorted blt ks -> (forall k, k ∈ ks <-> M k <> []) ->
  keyrev_ok rev subrev -> 0 < rev -> fresh M rev subrev ->
  noDuplicate cfg rev (delKeys key end_ ks) M -> (length ks < fuel)%nat ->
  exists t' out, dbKv_deleteRange cfg fuel t rev subrev epoch key end_ = Ok (t', out) /\
    forall k r fuel', k <> [] -> 0 < r < rev -> (length (M k) < fuel')%nat ->
      exists a b, dbKv_getRev fuel' t k r false = Ok (a, kv_zero, None)
        /\ dbKv_getRev fuel' t' k r false = Ok (b, kv_zero, None) /\ sameKv a b.
Proof.
  intros HR Hk Hs Hks Hr Hpos Hfr Hdup Hf.
  destruct (deleteRange_ok cfg fuel t M ks rev subrev epoch key end_) as (t' & E & HR' & _); auto.
  eexists t', _. split; [exact E|]. intros k r fuel' Hk' Hrr Hf'.
  set (M' := deleteKeys _ _ _ M) in HR'.
  assert (visible r (M' k) = visible r (M k) /\ (length (M' k) <= fuel')%nat) as [Ev Hl].
  { unfold M', deleteKeys. case_decide; [|split; [done|lia]]. split; [by apply visible_delRecs|].
    unfold delRecs. destruct (M k) as [|h hs]; cbn in *; [lia|]. destruct (isLive h); cbn; lia. }
  destruct (getRev_ok cfg fuel' t M k r false HR Hk') as (a & p & Ea & Va & ->); [lia|].
  destruct (getRev_ok cfg fuel' t' M' k r false HR' Hk' Hl) as (b & p' & Eb & Vb & ->).
  exists a, b. split; [done|]. split; [done|]. rewrite Ev in Vb. by eapply kvOr_same.
Qed.

End Store.

(** ** Witnesses: a key written twice, in an engine of sorted lists *)

Ltac evalZ := vm_compute; repeat split; first [discriminate | reflexivity | done].

Definition exKey : bytes := str "ab".
Definition exVal1 : bytes := str "a first value".
Definition exVal2 : bytes := str "a first value, revised".
Definition exM0 : history := fun _ => [].
Definition exM1 : history := hset exM0 exKey (putRec 2 0 0 (Some exVal1) false false (exM0 exKey) :: exM0 exKey).
Definition exM2 : history := hset exM1 exKey (putRec 3 0 0 (Some exVal2) false false (exM1 exKey) :: exM1 exKey).

Lemma exArgs1 : put_args 2 0 0 exKey (Some exVal1) false.
Proof. split; try done; evalZ. Qed.

Lemma exArgs2 : put_args 3 0 0 exKey (Some exVal2) false.
Proof. split; try done; evalZ. Qed.

Lemma exFresh0 : fresh exM0 2 0.
Proof. intros k h X. inversion X. Qed.

Lemma exM1_other k : k <> exKey -> exM1 k = [].
Proof. intros. unfold exM1. by rewrite hset_other. Qed.

Lemma exM2_other k : k <> exKey -> exM2 k = [].
Proof. intros. unfold exM2. rewrite hset_other by done. by apply exM1_other. Qed.

Lemma exFresh1 : fresh exM1 3 0.
Proof.
  intros k h. destruct (decide (k = exKey)) as [->|Hne]; [|rewrite exM1_other by done; intros X; inversion X].
  unfold exM1. rewrite hset_same. intros [->|X]%elem_of_cons; [evalZ|inversion X].
Qed.

Lemma exNoDup1 h : head (exM1 exKey) = Some h -> isLive h = true ->
  keyrev_upper (h_rev h) <> 3 \/ PCB_TXN_MULTI_WRITE_ENABLED defaultConfig = true.
Proof. intros E _. left. vm_compute in E. injection E as <-. by vm_compute. Qed.

Lemma exStore1 : exists t : @txn refMdb, Rep defaultConfig t exM1.
Proof.
  destruct (put_ok defaultConfig (refEmpty : @txn refMdb) exM0 2 0 0 0 exKey (Some exVal1) false false)
    as (t & ? & ? & ? & _ & HR & _); [apply Rep_empty|apply exFresh0|apply exArgs1|done|].
  by exists t.
Qed.

Lemma exStore2 : exists t : @txn refMdb, Rep defaultConfig t exM2.
Proof.
  destruct exStore1 as [t1 HR1].
  destruct (put_ok defaultConfig t1 exM1 3 0 0 0 exKey (Some exVal2) false false)
    as (t & ? & ? & ? & _ & HR & _); [done|apply exFresh1|apply exArgs2|apply exNoDup1|].
  by exists t.
Qed.

Lemma exM2_keys k : k ∈ [exKey] <-> exM2 k <> [].
Proof.
  rewrite list_elem_of_singleton. destruct (decide (k = exKey)) as [->|Hne].
  - unfold exM2. by rewrite hset_same.
  - by rewrite exM2_other.
Qed.

Lemma exM2_len k : (length (exM2 k) <= 2)%nat.
Proof.
  destruct (decide (k = exKey)) as [->|Hne]; [by vm_compute; lia|]. rewrite exM2_other by done. cbn. lia.
Qed.

Lemma exFresh2 : fresh exM2 4 0.
Proof.
  intros k h. destruct (decide (k = exKey)) as [->|Hne]; [|rewrite exM2_other by done; intros X; inversion X].
  unfold exM2, exM1. rewrite !hset_same.
  intros [->|[->|X]%elem_of_cons]%elem_of_cons; [evalZ|evalZ|inversion X].
Qed.

Lemma exNoDup2 : noDuplicate defaultConfig 4 (delKeys exKey [] [exKey]) exM2.
Proof.
  intros k h Hk E _. left. unfold delKeys in Hk. apply list_elem_of_filter in Hk as [_ Hk].
  apply list_elem_of_filter in Hk as [_ ->%list_elem_of_singleton].
  vm_compute in E. injection E as <-. by vm_compute.
Qed.

Definition exRange : rangeReq := mkRangeReq exKey (str "b") 2 0 0 0 0 0 false.
Definition exPage : rangeReq := mkRangeReq exKey (str "b") 0 0 0 0 0 1 false.

Lemma exSorted : StronglySorted blt [exKey].
Proof. repeat constructor. Qed.

(** Overwriting the first value of the example key. *)
Lemma put_refines_witness : exists (t t' : @txn refMdb) out,
  dbKv_put defaultConfig t 3 0 0 0 exKey (Some exVal2) false false = Ok (t', out).
Proof.
  destruct exStore1 as [t HR].
  destruct (put_refines defaultConfig t exM1 3 0 0 0 exKey (Some exVal2) false false HR exFresh1 exArgs2 exNoDup1)
    as (t' & prev & next & patched & E & _).
  exists t, t', (prev, next, patched). exact E.
Defined.

(** The first value is still read at revision 2. *)
Lemma getRev_refines_witness : exists (t : @txn refMdb) item prev,
  dbKv_getRev 5 t exKey 2 true = Ok (item, prev, None) /\ sbytes (kv_val item) = exVal1.
Proof.
  destruct exStore2 as [t HR].
  destruct (getRev_refines defaultConfig 5 t exM2 exKey 2 true HR) as (item & prev & E & Hi & _);
    [by vm_compute|by vm_compute; lia|].
  exists t, item, prev. split; [exact E|]. exact (is_val _ _ _ Hi).
Defined.

Lemma getRange_answer_witness : exists (t : @txn refMdb) items,
  dbKv_getRange defaultConfig 10 t exRange false = Ok (items, 1, false) /\ length items = 1%nat.
Proof.
  destruct exStore2 as [t HR].
  destruct (getRange_answer defaultConfig 10 2 t exM2 [exKey] exRange HR) as (items & E & Hi);
    [done|apply exSorted|apply exM2_keys|apply exM2_len|cbn; lia|done|].
  exists t, items. split; [exact E|]. by apply Forall2_length in Hi.
Defined.

Lemma getRange_page_witness : exists (t : @txn refMdb) items more,
  dbKv_getRange defaultConfig 10 t exPage false = Ok (items, 1, more) /\ length items = 1%nat.
Proof.
  destruct exStore2 as [t HR].
  destruct (getRange_page defaultConfig 10 2 t exM2 [exKey] exPage HR) as (items & more & E & Hi & _);
    [done|apply exSorted|apply exM2_keys|apply exM2_len|cbn; lia|done|done|done|done|cbn; lia|].
  exists t, items, more. split; [exact E|]. by apply Forall2_length in Hi.
Defined.

Lemma deleteRange_refines_witness : exists (t t' : @txn refMdb) items,
  dbKv_deleteRange defaultConfig 5 t 4 0 0 exKey [] = Ok (t', (items, 1)).
Proof.
  destruct exStore2 as [t HR].
  destruct (deleteRange_refines defaultConfig 5 t exM2 [exKey] 4 0 0 exKey [] HR) as (t' & E & _);
    [done|apply exSorted|apply exM2_keys|evalZ|done|apply exFresh2|apply exNoDup2|cbn; lia|].
  eexists t, t', _. exact E.
Defined.

Lemma put_keeps_past_witness : exists (t t' : @txn refMdb) out,
  dbKv_put defaultConfig t 3 0 0 0 exKey (Some exVal2) false false = Ok (t', out).
Proof.
  destruct exStore1 as [t HR].
  destruct (put_keeps_past defaultConfig t exM1 3 0 0 0 exKey (Some exVal2) false false HR exFresh1 exArgs2 exNoDup1)
    as (t' & out & E & _).
  exists t, t', out. exact E.
Defined.

Lemma deleteRange_keeps_past_witness : exists (t t' : @txn refMdb) out,
  dbKv_deleteRange defaultConfig 5 t 4 0 0 exKey [] = Ok (t', out).
Proof.
  destruct exStore2 as [t HR].
  destruct (deleteRange_keeps_past defaultConfig 5 t exM2 [exKey] 4 0 0 exKey [] HR) as (t' & out & E & _);
    [done|apply exSorted|apply exM2_keys|evalZ|done|apply exFresh2|apply exNoDup2|cbn; lia|].
  exists t, t', out. exact E.
Defined.
