(* ===== verification/LeaseProps.v ===== *)
(** * Leases: properties (src/state_machine.go, src/db_lease.go, src/db_lease_exp.go, src/db_lease_key.go)

    What the lease commands promise their clients. *)

From Stdlib Require Import Strings.String.
From stdpp Require Import gmap.
From S2P Require Import Prelude Types GoBinary Patch Lcs LcsTwoSided Kv Mdb MdbFacts Db DbFacts DbLease DbKv Frame LeaseFacts History DbKvRead DbKvWrite DbKvRange DbKvDelete Pb StateMachine Update SmFrame LeaseOps LeaseInv LeaseGrant Instances StoreProps.

(** A store whose keys and attachments agree. *)
Record Consistent (cfg : config) `{Differ} `{Snappy} `{MdbOk} (t : txn) (M : history) (A : list (Z * bytes)) : Prop := {
  co_rep : Rep cfg t M; co_att : AttRep t A; co_agree : Attached M A
}.

(** What a client sees of a history. *)
Definition valueOf (M : history) (k : bytes) : option hrec := visible 0 (M k).

Section Leases.
Context (cfg : config) `{DifferOk} `{SnappyOk} `{MdbOk} `{ErrLib}.

(** C21: a put command moves the key to the request's lease. On a consistent store, a valid
    put that does not keep the old lease succeeds, answers with the replaced value when
    asked, adds its record on top of the key's history and leaves the attachment index
    consistent: the key is attached to the new lease alone and to no lease if it is 0. *)
Theorem put_moves_lease t M A rev subrev epoch req :
  Consistent cfg t M A -> fresh M rev subrev ->
  put_args rev subrev (u64 (pr_Lease req)) (pr_Key req) (pr_Value req) (pr_IgnoreValue req) ->
  (forall h, head (M (pr_Key req)) = Some h -> isLive h = true ->
     keyrev_upper (h_rev h) <> rev \/ PCB_TXN_MULTI_WRITE_ENABLED cfg = true) ->
  pr_IgnoreLease req = false -> 0 <= pr_Lease req < 2 ^ 63 ->
  let new := putRec rev subrev (pr_Lease req) (pr_Value req) (pr_IgnoreValue req) false (M (pr_Key req)) in
  let M' := hset M (pr_Key req) (new :: M (pr_Key req)) in
  exists t' A' prev,
    cmdPut cfg t rev subrev epoch req
      = Ok (t', (mkPutResponse None (if pr_PrevKv req then Some (kv_ToProto prev) else None), 1, [pr_Key req]))
    /\ kvOr (pr_Key req) (valueOf M (pr_Key req)) prev
    /\ Consistent cfg t' M' A'
    /\ forall id, (id, pr_Key req) ∈ A' <-> id <> 0 /\ id = pr_Lease req.
Proof.
  intros [HR HA HI] Hfr Ha Hdup Hig Hl new M'.
  destruct (cmdPut_ok cfg t M A rev subrev epoch req) as (t' & A' & prev & E & Hp & HR' & HA' & HI'); try done.
  exists t', A', prev. split; [done|]. split; [done|]. split; [by split|].
  destruct (putRec_ok rev subrev (pr_Lease req) (pr_Key req) (pr_Value req) (pr_IgnoreValue req) false (M (pr_Key req)))
    as (_ & _ & Hlive).
  { rewrite u64_id in Ha by (unfold is_u64; lia). exact Ha. } { apply (rep_ok _ _ _ HR). }
  intros id. rewrite (at_iff _ _ HI'), hset_same, visible_now, Hlive.
  assert (h_lease (putRec rev subrev (pr_Lease req) (pr_Value req) (pr_IgnoreValue req) false (M (pr_Key req))) = pr_Lease req) as El.
  { unfold putRec. destruct (M (pr_Key req)); [|destruct (isLive h)]; done. }
  split; [by intros (? & ? & [= <-] & <-)|]. intros [? ->]. eauto.
Qed.

(** A delete command removes the live keys of its range, and their attachments. On a
    consistent store it succeeds with the number of live keys it deleted, their old values
    when asked for, and leaves the store consistent; the keys it reports for
    notification are the deleted ones after as many empty ones. *)
Theorem delete_detaches fuel shardID replicaID t M A ks rev subrev epoch req :
  Consistent cfg t M A -> dr_Key req <> [] ->
  StronglySorted blt ks -> (forall k, k ∈ ks <-> M k <> []) ->
  keyrev_ok rev subrev -> 0 < rev -> fresh M rev subrev ->
  (forall k h, k ∈ delKeys (dr_Key req) (dr_RangeEnd req) ks -> visible 0 (M k) = Some h -> keyrev_upper (h_rev h) <> rev) ->
  (length ks < fuel)%nat -> (forall k, (length (M k) < fuel)%nat) ->
  let dead := delKeys (dr_Key req) (dr_RangeEnd req) ks in
  let live := liveKeys M dead in
  exists t' A' kvs,
    cmdDeleteRange cfg fuel shardID replicaID t rev subrev epoch req
      = Ok (t', (mkDeleteRangeResponse (Some (responseHeader shardID replicaID rev)) (blen live) kvs,
                 replicate (length live) [] ++ live))
    /\ Consistent cfg t' (deleteKeys rev subrev dead M) A'
    /\ (forall k, k ∈ dead -> valueOf (deleteKeys rev subrev dead M) k = None /\ forall id, (id, k) ∉ A')
    /\ if dr_PrevKv req then Forall2 (oldValue M) live kvs else kvs = [].
Proof.
  intros [HR HA HI] Hk Hs Hks Hr Hpos Hfr Hup Hf Hf2 dead live.
  destruct (cmdDeleteRange_ok cfg fuel shardID replicaID t M A ks rev subrev epoch req)
    as (t' & A' & kvs & E & HR' & HA' & HI' & Hkvs); try done.
  exists t', A', kvs. split; [done|]. split; [by split|]. split; [|done]. intros k Hin.
  assert (valueOf (deleteKeys rev subrev dead M) k = None) as Hn.
  { unfold valueOf. by rewrite visible_deleteKeys, decide_True. }
  split; [done|]. intros id X. apply (at_iff _ _ HI') in X as (_ & h & Hh & _). unfold valueOf, dead in Hn. congruence.
Qed.

(** C20: revoking a lease deletes exactly the keys whose value carries it. With fuel for
    its attachments the command succeeds and reports those keys; each gets a tombstone
    on top of its records and every other history is left as it is, so the keys are gone
    and all others read as before. The lease is removed and the other leases stay; the
    attachments of the lease go and those of other leases stay; of the expiry index just
    the entry of the lease's current expiry goes (entries of earlier expiries that
    renewals left behind stay); the stored values and the metadata are not touched, the
    events added to the log are not described here, and the store is still consistent.
    *)
Theorem revoke_deletes_attached fuel t M A rev epoch it :
  Consistent cfg t M A -> leaseHeld t it -> l_id it <> 0 ->
  keyrev_ok rev 0 -> 0 < rev -> fresh M rev 0 -> (length (attKeys (l_id it) A) < fuel)%nat ->
  exists t' M' A' keys,
    cmdLeaseRevoke fuel t rev epoch (l_id it) = Ok (t', (keys, 1))
    /\ Consistent cfg t' M' A'
    /\ (forall k, k ∈ keys <-> exists h, valueOf M k = Some h /\ h_lease h = l_id it)
    /\ (forall k, M' k = if decide (k ∈ keys) then tombstoneRec (newkeyrev rev 0 true) :: M k else M k)
    /\ (forall k, valueOf M' k = match valueOf M k with
                                 | Some h => if decide (h_lease h = l_id it) then None else Some h
                                 | None => None end)
    /\ leaseStored t' (l_id it) None
    /\ (forall id o, is_u64 id -> id <> l_id it -> leaseStored t id o -> leaseStored t' id o)
    /\ (forall id k, (id, k) ∈ A' <-> (id, k) ∈ A /\ id <> l_id it)
    /\ view t' DbiLeaseExp = vdelkey (leaseExpKey it) (view t DbiLeaseExp)
    /\ view t' DbiVal = view t DbiVal /\ view t' DbiMeta = view t DbiMeta.
Proof.
  intros [HR HA HI] Hh Hz Hr Hpos Hfr Hf.
  destruct (cmdLeaseRevoke_ok cfg fuel t M A rev epoch it) as (t' & A' & E & HR' & HA' & HI' & Hn & Ho & Hx & Hv); try done.
  assert (Hin : forall k, k ∈ attKeys (l_id it) A <-> exists h, valueOf M k = Some h /\ h_lease h = l_id it).
  { intros k. rewrite elem_of_attKeys, (at_iff _ _ HI). unfold valueOf. split; [by intros [_ ?]|by split]. }
  assert (Hval : forall k, valueOf (deleteKeys rev 0 (attKeys (l_id it) A) M) k
    = match valueOf M k with Some h => if decide (h_lease h = l_id it) then None else Some h | None => None end).
  { intros k. unfold valueOf at 1. rewrite visible_deleteKeys by done. destruct (decide (k ∈ attKeys (l_id it) A)) as [Hk|Hk].
    - apply Hin in Hk as (h & -> & El). by rewrite decide_True.
    - unfold valueOf. destruct (visible 0 (M k)) as [h|] eqn:Ev; [|done]. rewrite decide_False; [done|].
      intros El. apply Hk, Hin. by exists h. }
  pose proof (cmdLeaseRevoke_only _ _ _ _ _ _ _ E) as Hfr'.
  exists t', (deleteKeys rev 0 (attKeys (l_id it) A) M), A', (attKeys (l_id it) A).
  split; [done|]. split; [by split|]. split; [done|]. split.
  { intros k. unfold deleteKeys. destruct (decide (k ∈ attKeys (l_id it) A)) as [Hk|Hk]; [|done].
    apply Hin in Hk as (h & Hk & _). unfold valueOf in Hk. rewrite visible_now in Hk. unfold delRecs.
    destruct (M k) as [|h0 hs]; [done|]. by destruct (isLive h0). }
  split; [done|]. split; [done|]. split; [done|]. split.
  { intros id k. rewrite (at_iff _ _ HI), (at_iff _ _ HI'). unfold valueOf in Hval. split.
    - intros (Hid & h & Hk & <-). rewrite Hval in Hk. destruct (visible 0 (M k)) as [h'|]; [|done].
      destruct (decide (h_lease h' = l_id it)); [done|]. injection Hk as ->. split; [|done]. split; [done|]. by exists h.
    - intros ((Hid & h & Hk & <-) & Hne). split; [done|]. exists h. rewrite Hval, Hk. by destruct (decide (h_lease h = l_id it)). }
  split; [done|]. split; [done|]. by apply (only_meta leaseTables); [apply meta_lease|].
Qed.

(** revoking a lease that is not there changes nothing and answers NotFound. *)
Theorem revoke_unknown fuel t rev epoch id :
  leaseStored t id None -> cmdLeaseRevoke fuel t rev epoch id = Ok (t, ([], codes_NotFound)).
Proof. intros Hs. unfold cmdLeaseRevoke. by rewrite (lease_get_ok t id None Hs). Qed.

(** C22: a grant without an id picks a fresh one. With fuel for one more round than there
    are leases, the command succeeds with an id above the stored counter that no lease
    has, stores the lease with its expiry [epoch + TTL], indexes the expiry and moves
    the counter to that id. *)
Theorem grant_picks_fresh_id fuel t L m epoch req :
  LeaseRep t L -> MetaRep t m -> is_u64 epoch -> u64 (lg_ID req) = 0 ->
  (size L < fuel)%nat -> m_leaseID m + Z.of_nat (S (size L)) < 2 ^ 64 ->
  exists id t' out, cmdLeaseGrant fuel t epoch req = Ok (t', out)
    /\ granted t t' L epoch req id out
    /\ m_leaseID m < id <= m_leaseID m + Z.of_nat (S (size L)) /\ L !! id = None
    /\ getLeaseID t' = Ok id.
Proof. apply grant_auto. Qed.

(** A grant with an id: it is stored if the id is free; if a lease with that id is held
    the store is left alone and the answer carries the error. *)
Theorem grant_with_id fuel t L epoch req :
  LeaseRep t L -> is_u64 epoch -> u64 (lg_ID req) <> 0 ->
  match L !! u64 (lg_ID req) with
  | None => exists t' out, cmdLeaseGrant fuel t epoch req = Ok (t', out)
              /\ granted t t' L epoch req (u64 (lg_ID req)) out
  | Some it => 0 < l_expires it ->
      cmdLeaseGrant fuel t epoch req = Ok (t, (mkLeaseGrantResponse None 0 0 (errText ErrGRPCLeaseExist), 0))
  end.
Proof.
  intros HL He Hz. destruct (L !! u64 (lg_ID req)) as [it|] eqn:E; [|by apply grant_given].
  intros Hp. by eapply grant_taken.
Qed.

(** C23: a keep-alive renews the lease for its granted time. A lease granted (or last renewed)
    at [e0] for [ttl] seconds and kept alive at [epoch] answers [ttl], is stored as
    renewed now and expiring [ttl] later, and its new expiry is indexed; no key and no
    other lease changes. *)
Theorem keepalive_renews t L e0 ttl epoch req :
  let id := u64 (lk_ID req) in
  LeaseRep t L -> is_u64 e0 -> is_u64 epoch -> is_i64 ttl -> id <> 0 ->
  L !! id = Some (mkLease id (u64 (e0 + u64 ttl)) e0) ->
  let it' := mkLease id (u64 (epoch + u64 ttl)) epoch in
  exists t', cmdLeaseKeepAlive t epoch req = Ok (t', (mkLeaseKeepAliveResponse None (lk_ID req) ttl, 1))
    /\ LeaseRep t' (<[id := it']> L) /\ leaseHeld t' it'
    /\ forall d, d <> DbiLease -> d <> DbiLeaseExp -> view t' d = view t d.
Proof.
  intros id HL H0' He Ht Hz Hit it'. unfold cmdLeaseKeepAlive. fold id.
  pose proof (u64_range (lk_ID req)) as Hid. fold id in Hid.
  rewrite (LeaseRep_get t L id _ HL Hid Hit). cbn [rbind l_id].
  destruct (Z.eqb_spec id 0); [done|].
  destruct (renew_ok t L epoch (mkLease id (u64 (e0 + u64 ttl)) e0)) as (t' & E & HL' & Hh & Hf & _); [done|done|done| |].
  { by destruct (LeaseRep_id t L id _ HL Hid Hit). }
  rewrite E. cbn [rbind l_expires l_renewed l_id] in *.
  assert (i64 (u64 (e0 + u64 ttl) - e0) = ttl) as Ett.
  { rewrite <- (i64_u64 ttl Ht) at 2. unfold i64, u64.
    set (x := ttl mod 2 ^ 64). rewrite (Z.mod_eq (e0 + x)) by lia.
    replace (e0 + x - 2 ^ 64 * ((e0 + x) / 2 ^ 64) - e0 + 2 ^ 63)
      with (x + 2 ^ 63 + - ((e0 + x) / 2 ^ 64) * 2 ^ 64) by lia.
    by rewrite Z.mod_add. }
  rewrite Ett in *. exists t'. split; [done|]. by split.
Qed.

(** The keep-alives of a list of leases, one command after the other. *)
Fixpoint keepAliveSeq (t : txn) (epoch : Z) (ids : list Z) : res (txn * list Z) :=
  match ids with
  | [] => Ok (t, [])
  | id :: ids =>
      let! '(t, (r, _)) := cmdLeaseKeepAlive t epoch (mkLeaseKeepAliveRequest id) in
      let! '(t, ttls) := keepAliveSeq t epoch ids in Ok (t, lkres_TTL r :: ttls)
  end.

Lemma keepAliveBatchLoop_seq ids t epoch ttls :
  keepAliveBatchLoop t epoch ids ttls = let! '(t, rest) := keepAliveSeq t epoch ids in Ok (t, ttls ++ rest).
Proof.
  revert t ttls. induction ids as [|id ids IH]; intros t ttls; cbn [keepAliveBatchLoop keepAliveSeq rbind].
  { by rewrite app_nil_r. }
  unfold cmdLeaseKeepAlive. cbn [lk_ID]. destruct (dbLease_get t (u64 id)) as [item| | |]; cbn [rbind]; try done.
  destruct (l_id item =? 0); cbn [rbind lkres_TTL].
  - rewrite IH. destruct (keepAliveSeq t epoch ids) as [[t' rest]| | |]; cbn [rbind]; try done. by rewrite <- app_assoc.
  - destruct (renewLease t epoch item) as [[t1 ttl]| | |]; cbn [rbind lkres_TTL]; try done. rewrite IH.
    destruct (keepAliveSeq t1 epoch ids) as [[t' rest]| | |]; cbn [rbind]; try done. by rewrite <- app_assoc.
Qed.

(** C24: the batched keep-alive is the single ones in a row: on any store it leaves the same
    contents, answers the same times in the same order, and fails where and as the
    first failing single command would. *)
Theorem keepalive_batch_equiv t epoch req :
  cmdLeaseKeepAliveBatch t epoch req
  = let! '(t', ttls) := keepAliveSeq t epoch (lkb_IDs req) in Ok (t', (mkLeaseKeepAliveBatchResponse None ttls, 1)).
Proof.
  unfold cmdLeaseKeepAliveBatch. rewrite keepAliveBatchLoop_seq.
  by destruct (keepAliveSeq t epoch (lkb_IDs req)) as [[t' rest]| | |].
Qed.

End Leases.

(** ** Witnesses: a lease and a key on the empty store *)

Definition exLeaseKey : bytes := str "job/1".
Definition exPut (lease : Z) (ignoreLease : bool) : PutRequest :=
  mkPutRequest exLeaseKey (Some (str "running")) lease false false ignoreLease.

Lemma exEmpty : Consistent defaultConfig (refEmpty : @txn refMdb) exM0 [].
Proof.
  split; [apply Rep_empty|by split; [|constructor]|]. split; [|done].
  intros id key. split; [intros X; inversion X|]. by intros (_ & h & ? & _).
Qed.

Lemma exNoLeases : LeaseRep (refEmpty : @txn refMdb) ∅.
Proof. intros id _. by split. Qed.

Lemma exLeaseArgs lease : is_u64 lease -> put_args 2 0 lease exLeaseKey (Some (str "running")) false.
Proof. intros. split; try done; evalZ. Qed.

Lemma put_moves_lease_witness : exists t' (A' : list (Z * bytes)) out,
  cmdPut defaultConfig (refEmpty : @txn refMdb) 2 0 0 (exPut 7 false) = Ok (t', out) /\ (7, exLeaseKey) ∈ A'.
Proof.
  destruct (put_moves_lease defaultConfig (refEmpty : @txn refMdb) exM0 [] 2 0 0 (exPut 7 false) exEmpty exFresh0)
    as (t' & A' & prev & E & _ & _ & Hin); [by apply exLeaseArgs; evalZ|done|done|cbn; lia|].
  eexists t', A', _. split; [exact E|]. by apply Hin.
Defined.

(** Lease 7 with one key. *)
Definition exHeld : lease := mkLease 7 60 0.
Definition exLM : history :=
  hset exM0 exLeaseKey [putRec 2 0 7 (Some (str "running")) false false (exM0 exLeaseKey)].

Lemma exLeased : exists (t : @txn refMdb) A,
  Consistent defaultConfig t exLM A /\ leaseHeld t exHeld /\ LeaseRep t {[ 7 := exHeld ]}.
Proof.
  destruct (grant_given 5 (refEmpty : @txn refMdb) ∅ 0 (mkLeaseGrantRequest 60 7) exNoLeases)
    as (t1 & out & _ & _ & HL & Hh & Hf); [evalZ|done|done|].
  assert (Consistent defaultConfig t1 exM0 []) as HC.
  { destruct exEmpty as [HR HA HI]. split; [|eapply AttRep_view; [|exact HA]; by apply Hf|done].
    eapply Rep_view; [..|exact HR]; by apply Hf. }
  destruct (put_moves_lease defaultConfig t1 exM0 [] 2 0 0 (exPut 7 false) HC exFresh0)
    as (t' & A' & prev & E & _ & HC' & _); [by apply exLeaseArgs; evalZ|done|done|cbn; lia|].
  pose proof (cmdPut_only defaultConfig t1 2 0 0 (exPut 7 false) t' _ E) as Hpo. exists t', A'. split; [exact HC'|].
  assert (forall d, d = DbiLease \/ d = DbiLeaseExp -> view t' d = view t1 d) as Hv.
  { intros d Hd. apply Hpo. unfold putTables. rewrite !elem_of_cons, elem_of_nil. destruct Hd; subst; intros [?|[?|[?|[?|[]]]]]; discriminate. }
  split; [|eapply LeaseRep_view; [|exact HL]; apply Hv; auto].
  destruct Hh as [Hs Hx]. split; [eapply leaseStored_view; [|exact Hs]; apply Hv; auto|].
  rewrite (Hv DbiLeaseExp) by auto. exact Hx.
Qed.

Lemma exLM_other k : k <> exLeaseKey -> exLM k = [].
Proof. intros. unfold exLM. by rewrite hset_other. Qed.

Lemma exLM_keys k : k ∈ [exLeaseKey] <-> exLM k <> [].
Proof.
  rewrite list_elem_of_singleton. destruct (decide (k = exLeaseKey)) as [->|Hne].
  - unfold exLM. by rewrite hset_same.
  - by rewrite exLM_other.
Qed.

Lemma exLFresh : fresh exLM 3 0.
Proof.
  intros k h. destruct (decide (k = exLeaseKey)) as [->|Hne]; [|rewrite exLM_other by done; intros X; inversion X].
  unfold exLM. rewrite hset_same. intros [->|X]%elem_of_cons; [evalZ|inversion X].
Qed.

Lemma delete_detaches_witness : exists (t t' : @txn refMdb) out,
  cmdDeleteRange defaultConfig 5 1 1 t 3 0 0 (mkDeleteRangeRequest exLeaseKey [] true) = Ok (t', out)
  /\ dres_Deleted out.1 = 1.
Proof.
  destruct exLeased as (t & A & HC & _).
  destruct (delete_detaches defaultConfig 5 1 1 t exLM A [exLeaseKey] 3 0 0 (mkDeleteRangeRequest exLeaseKey [] true))
    as (t' & A' & kvs & E & _); [done|done|repeat constructor|apply exLM_keys|evalZ|lia|apply exLFresh| |cbn; lia| |].
  - intros k h Hin. unfold delKeys in Hin. apply list_elem_of_filter in Hin as [_ Hin].
    apply list_elem_of_filter in Hin as [_ ->%list_elem_of_singleton]. vm_compute. by intros [= <-].
  - intros k. destruct (decide (k = exLeaseKey)) as [->|Hne]; [by vm_compute; lia|]. rewrite exLM_other by done. cbn. lia.
  - eexists t, t', _. split; [exact E|]. by vm_compute.
Defined.

Lemma revoke_deletes_attached_witness : exists (t t' : @txn refMdb) fuel keys,
  cmdLeaseRevoke fuel t 3 0 7 = Ok (t', (keys, 1)) /\ exLeaseKey ∈ keys.
Proof.
  destruct exLeased as (t & A & HC & Hh & _).
  destruct (revoke_deletes_attached defaultConfig (S (length (attKeys 7 A))) t exLM A 3 0 exHeld HC Hh)
    as (t' & M' & A' & keys & E & _ & Hk & _); [done|evalZ|lia|apply exLFresh|cbn; lia|].
  eexists t, t', _, keys. split; [exact E|]. apply Hk.
  exists (putRec 2 0 7 (Some (str "running")) false false []). by vm_compute.
Defined.

Lemma revoke_unknown_witness : leaseStored (refEmpty : @txn refMdb) 9 None
  /\ cmdLeaseRevoke 5 (refEmpty : @txn refMdb) 2 0 9 = Ok (refEmpty : @txn refMdb, ([], codes_NotFound)).
Proof.
  assert (leaseStored (refEmpty : @txn refMdb) 9 None) as Hs by (by split).
  split; [exact Hs|]. exact (revoke_unknown 5 (refEmpty : @txn refMdb) 2 0 9 Hs).
Defined.

Lemma exMeta : exists t : @txn refMdb, MetaRep t (mkMeta 0 0 0 1 0 1 0) /\ LeaseRep t ∅.
Proof.
  destruct (newDbMeta_ok (refEmpty : @txn refMdb)) as (t & index & _ & _ & Hm & Hf).
  { apply Forall_forall. intros k _. by left. }
  exists t. split; [|eapply LeaseRep_view; [|exact exNoLeases]; by apply Hf].
  split; (match goal with |- metaHas t ?k _ => assert (k ∈ metaKeys0 ++ metaKeys1) as Hin by (by apply (bool_decide_unpack _); vm_compute) end;
    destruct (Hm _ Hin) as [Hd _]; exact (Hd eq_refl)).
Qed.

Lemma grant_picks_fresh_id_witness : exists (t t' : @txn refMdb) out,
  cmdLeaseGrant 1 t 0 (mkLeaseGrantRequest 60 0) = Ok (t', out).
Proof.
  destruct exMeta as (t & HM & HL).
  destruct (grant_picks_fresh_id 1 t ∅ (mkMeta 0 0 0 1 0 1 0) 0 (mkLeaseGrantRequest 60 0) HL HM)
    as (id & t' & out & E & _); [evalZ|done|by vm_compute; lia|by vm_compute|].
  by exists t, t', out.
Defined.

Lemma grant_with_id_witness : exists t' out,
  cmdLeaseGrant 1 (refEmpty : @txn refMdb) 0 (mkLeaseGrantRequest 60 7) = Ok (t', out).
Proof.
  destruct (grant_with_id 1 (refEmpty : @txn refMdb) ∅ 0 (mkLeaseGrantRequest 60 7) exNoLeases) as (t' & out & E & _);
    [evalZ|done|]. by exists t', out.
Defined.

Lemma keepalive_renews_witness : exists t t' : @txn refMdb,
  cmdLeaseKeepAlive t 10 (mkLeaseKeepAliveRequest 7) = Ok (t', (mkLeaseKeepAliveResponse None 7 60, 1)).
Proof.
  destruct exLeased as (t & A & _ & _ & HL).
  destruct (keepalive_renews t {[ 7 := exHeld ]} 0 60 10 (mkLeaseKeepAliveRequest 7) HL) as (t' & E & _);
    [evalZ|evalZ|evalZ|done|by vm_compute|]. by exists t, t'.
Defined.
