(* ===== verification/SmProps.v ===== *)
(** * The replicated state machine: properties (src/state_machine.go, src/db_meta.go) *)

From Stdlib Require Import Strings.String.
From stdpp Require Import gmap.
From S2P Require Import Prelude Types GoBinary Patch Lcs LcsTwoSided Kv Mdb MdbFacts Db DbFacts DbLease DbKv Frame LeaseFacts History DbKvRead DbKvWrite DbKvRange DbKvDelete Pb StateMachine RangeQuery Update SmFrame SmMeta LeaseOps LeaseInv LeaseGrant SmOps TxnRun LeaseExpire Instances StoreProps LeaseProps.

Section Sm.
Context (cfg : config) `{DifferOk} `{SnappyOk} `{MdbOk} `{Proto} `{!ProtoTyped} `{ErrLib}.
Context (fuel : nat) (mapRange : list (bytes * Z) -> list (bytes * Z)) (shardID replicaID : Z).

(** C18: a batch moves the metadata forward. When [Update]'s transaction commits, the applied
    index is that of the last entry, the stored revision is the one it reports and not
    below the old one, the term never goes back and the epoch grows by at most one per
    entry; the entries come back in order. *)
Theorem batch_metadata t m entries t' rev newRev keys done_ :
  MetaRep t m -> Forall (fun e => is_u64 (ent_Index e)) entries ->
  m_rev m + batchBound fuel entries < 2 ^ 64 -> m_epoch m + blen entries < 2 ^ 64 ->
  updateTxn cfg fuel mapRange shardID replicaID t entries = Ok (t', (rev, newRev, keys, done_)) ->
  rev = m_rev m /\ rev <= newRev
  /\ ent_Index <$> done_ = ent_Index <$> entries
  /\ exists ent m', last entries = Some ent /\ MetaRep t' m'
       /\ m_index m' = ent_Index ent /\ m_rev m' = newRev
       /\ m_term m <= m_term m' /\ m_epoch m <= m_epoch m' <= m_epoch m + blen entries.
Proof.
  intros HM Hi Hb1 Hb2 E.
  destruct (updateTxn_meta cfg fuel mapRange shardID replicaID t m entries t' rev newRev keys done_ HM Hi Hb1 Hb2 E)
    as (? & [? _] & ? & ?). done.
Qed.

(** Commands of a deposed leader are refused. A tick or a term notice whose term is below
    the stored one changes neither the store nor the epoch or revision, and its result
    carries the error's text. *)
Theorem stale_term_refused s m index cmd r :
  MetaRep (u_txn s) m ->
  (forall req, pb_Unmarshal MTickRequest cmd = Some req -> tick_Term req < m_term m ->
     handleTick fuel s index cmd r = Ok (s, mkResult (res_Value r) (errText ErrTermExpired)))
  /\ (forall req, pb_Unmarshal MTermRequest cmd = Some req -> term_Term req < m_term m ->
     handleTerm s index cmd r = Ok (s, mkResult (res_Value r) (errText ErrTermExpired))).
Proof.
  intros HM. split; intros req Hreq Hlt; [unfold handleTick|unfold handleTerm];
    rewrite Hreq, (getTerm_rep _ _ HM); cbn [rbind]; [destruct (Z.ltb_spec (tick_Term req) (m_term m))
    |destruct (Z.ltb_spec (term_Term req) (m_term m))]; done || lia.
Qed.

(** C14: a put entry advances the store by one revision. On a store at revision [rev],
    an accepted put that does not keep its lease ([ignore_lease]) succeeds, its response
    carries revision [rev + 1] and the replaced value when asked, the record of that
    revision is on top of the key's history, and the invariant of the store (records,
    attachments, revisions) holds at [rev + 1]. *)
Theorem put_entry_refines s M A cmd r req :
  StoreAt cfg s M A -> pb_Unmarshal MPutRequest cmd = Some req -> putAllowed s req ->
  put_args (u_newRev s + 1) 0 (u64 (pr_Lease req)) (pr_Key req) (pr_Value req) (pr_IgnoreValue req) ->
  pr_IgnoreLease req = false -> 0 <= pr_Lease req < 2 ^ 63 ->
  (forall a, exists b, pb_Marshal MPutResponse a = Ok b) -> u_newRev s + 1 < 2 ^ 52 - 1 ->
  let M' := hset M (pr_Key req) (putRec (u_newRev s + 1) 0 (pr_Lease req) (pr_Value req) (pr_IgnoreValue req) false
                                   (M (pr_Key req)) :: M (pr_Key req)) in
  exists s' A' prev data,
    handlePut cfg shardID replicaID s cmd r = Ok (s', mkResult 1 data)
    /\ pb_Marshal MPutResponse (mkPutResponse (Some (responseHeader shardID replicaID (u_newRev s'))) prev) = Ok data
    /\ (if pr_PrevKv req then exists item, prev = Some (kv_ToProto item) /\ kvOr (pr_Key req) (visible 0 (M (pr_Key req))) item
        else prev = None)
    /\ u_newRev s' = u_newRev s + 1 /\ u_epoch s' = u_epoch s
    /\ StoreAt cfg s' M' A'.
Proof.
  intros HS Hcmd Hal Hargs Hig Hl Hm Hb M'.
  destruct (handlePut_ok cfg shardID replicaID s M A cmd r req) as (t' & A' & prev & data & E & Ed & Hp & HR & HA & HI & Hup); try done.
  eexists _, A', _, data. split; [exact E|]. split; [exact Ed|]. split; [|split; [done|split; [done|]]].
  - destruct (pr_PrevKv req); [by exists prev|done].
  - split; try done. cbn [u_newRev]. destruct (sa_rev _ _ _ _ HS). lia.
Qed.

(** C15: a delete entry advances the store by one revision exactly when it deletes something.
    Its response counts the live keys of the range and carries their values when asked;
    afterwards none of the covered keys is visible and the invariant of the store holds. *)
Theorem delete_entry_refines s M A ks cmd r req :
  StoreAt cfg s M A -> pb_Unmarshal MDeleteRangeRequest cmd = Some req -> dr_Key req <> [] ->
  StronglySorted blt ks -> (forall k, k ∈ ks <-> M k <> []) ->
  (length ks < fuel)%nat -> (forall k, (length (M k) < fuel)%nat) ->
  (forall a, exists b, pb_Marshal MDeleteRangeResponse a = Ok b) -> u_newRev s + 1 < 2 ^ 52 - 1 ->
  let dead := delKeys (dr_Key req) (dr_RangeEnd req) ks in
  let live := liveKeys M dead in
  let M' := deleteKeys (u_newRev s + 1) 0 dead M in
  exists s' A' kvs data,
    handleDeleteRange cfg fuel shardID replicaID s cmd r = Ok (s', mkResult 1 data)
    /\ pb_Marshal MDeleteRangeResponse
         (mkDeleteRangeResponse (Some (responseHeader shardID replicaID (u_newRev s'))) (blen live) kvs) = Ok data
    /\ (if dr_PrevKv req then Forall2 (oldValue M) live kvs else kvs = [])
    /\ u_newRev s' = (if decide (live = []) then u_newRev s else u_newRev s + 1)
    /\ (forall k, k ∈ dead -> visible 0 (M' k) = None)
    /\ StoreAt cfg s' M' A'.
Proof.
  intros HS Hcmd Hk Hs Hks Hf Hf2 Hm Hb dead live M'. destruct (sa_rev _ _ _ _ HS) as [Hb0 Hb1].
  destruct (handleDeleteRange_ok cfg fuel shardID replicaID s M A ks cmd r req)
    as (t' & A' & kvs & data & keys & E & Ed & Hkvs & _ & HR & HA & HI & Hup); try done.
  eexists _, A', kvs, data. split; [exact E|]. split; [exact Ed|]. split; [done|]. split; [done|]. split.
  - intros k Hin. unfold M'. rewrite visible_deleteKeys, decide_True by (try done; by apply (next_keyrev (u_newRev s))). done.
  - split; try done. cbn [u_newRev]. case_decide; lia.
Qed.

(** C17: a transaction entry is all or nothing. Its comparisons choose the operations, which
    run one by one in a transaction nested in the batch's. If none fails, the store has
    the contents the last one left, their keys are added to those to notify and their
    answers are the response. If one is refused (a key written twice, a key that is empty
    or too long), the store has the contents it had before the entry, whatever the earlier
    operations wrote, no key is added and the result carries the error's text; the batch's
    revision still moves on when the earlier operations reported keys. *)
Theorem txn_all_or_nothing s cmd r req s' r' :
  handleTxn cfg fuel shardID replicaID s cmd r = Ok (s', r') -> pb_Unmarshal MTxnRequest cmd = Some req ->
  exists success start, txnCompare fuel (u_txn s) (tr_Compare req) = Ok success
    /\ (forall d, view start d = view (u_txn s) d)
    /\ let ops := if success then tr_Success req else tr_Failure req in
       let rev := u64 (u_newRev s + 1) in
       u_epoch s' = u_epoch s
       /\ ((exists t rs keys, opsRun cfg fuel shardID replicaID rev (u_epoch s) 0 start ops t rs keys
               /\ (forall d, view (u_txn s') d = view t d)
               /\ u_keys s' = u_keys s ++ keys /\ u_newRev s' = bump (u_newRev s) keys /\ res_Value r' = 1
               /\ forall data, pb_Marshal MTxnResponse (mkTxnResponse (Some (responseHeader shardID replicaID (u_newRev s'))) success rs) = Ok data ->
                    res_Data r' = data)
           \/ (exists e rs keys, opsFail cfg fuel shardID replicaID rev (u_epoch s) 0 start ops e rs keys
               /\ e ∈ [ErrGRPCDuplicateKey; ErrGRPCKeyTooLong; ErrGRPCEmptyKey]
               /\ (forall d, view (u_txn s') d = view (u_txn s) d)
               /\ u_keys s' = u_keys s /\ u_newRev s' = bump (u_newRev s) keys
               /\ r' = mkResult (res_Value r) (errText e))).
Proof.
  intros E Hreq. unfold handleTxn in E. rewrite Hreq in E.
  apply rbind_ok in E as (success & Hc & E). apply rbind_ok in E as ([[[t rs] keys] err] & Eo & E).
  destruct (txnOps_steps _ _ _ _ _ _ _ _ _ _ _ _ Eo) as (start & t1 & Hs & Ht & Hrun). exists success, start. split; [done|]. split; [done|].
  destruct err as [e|].
  - assert (e ∈ [ErrGRPCDuplicateKey; ErrGRPCKeyTooLong; ErrGRPCEmptyKey]
      /\ E = E) as [He _]. { split; [|done]. destruct e; try discriminate E; set_solver. }
    assert (mkUpd t (u_epoch s) (bump (u_newRev s) keys) (u_keys s) = s' /\ mkResult (res_Value r) (errText e) = r') as [<- <-]
      by (destruct e; try discriminate E; by injection E as <- <-).
    split; [done|]. right. by exists e, rs, keys.
  - apply rbind_ok in E as (data & Ed & E). injection E as <- <-. split; [done|]. left. exists t1, rs, keys.
    split_and!; try done. intros data' Hd. cbn [u_newRev] in Hd. rewrite Hd in Ed. by injection Ed as ->.
Qed.


(** C19: a tick expires leases. On a store in which every lease is in the expiry index, a tick
    of the current term succeeds and moves the epoch on by one. The leases it revokes are
    those with an entry of the index up to the new epoch: they are removed, the keys whose
    value carries one are gone and reported, every other key reads as before, and so do
    all keys at the earlier revisions. No lease is left whose time has come, and the
    store, the leases and the index are consistent again. *)
Theorem tick_expires_leases s m M A L E index cmd r req :
  LeaseStore cfg s M A L E -> MetaRep (u_txn s) m -> u_epoch s = m_epoch m -> u_epoch s + 1 < 2 ^ 64 ->
  pb_Unmarshal MTickRequest cmd = Some req -> m_term m <= tick_Term req -> (forall a, exists b, pb_Marshal MTickResponse a = Ok b) ->
  (length E < fuel)%nat -> (forall id, (length (attKeys id A) < fuel)%nat) -> u_newRev s + blen E < 2 ^ 52 - 1 ->
  let epoch := u_epoch s + 1 in
  exists s' M' A' L' E' (ids : list Z) keys data,
    handleTick fuel s index cmd r = Ok (s', mkResult index data) /\ u_epoch s' = epoch
    /\ (forall id, id ∈ ids <-> (exists e, e <= epoch /\ (e, id) ∈ E) /\ is_Some (L !! id))
    /\ (forall id, L' !! id = if decide (id ∈ ids) then None else L !! id)
    /\ (forall k, valueOf M' k = match valueOf M k with
                                 | Some h => if decide (h_lease h ∈ ids) then None else Some h
                                 | None => None end)
    /\ (forall k rev, 0 < rev <= u_newRev s -> visible rev (M' k) = visible rev (M k))
    /\ u_keys s' = u_keys s ++ keys /\ (forall k, k ∈ keys <-> exists h, valueOf M k = Some h /\ h_lease h ∈ ids)
    /\ (forall id it, is_u64 id -> L' !! id = Some it -> epoch < l_expires it)
    /\ u_newRev s <= u_newRev s' <= u_newRev s + blen E
    /\ LeaseStore cfg s' M' A' L' E'.
Proof.
  intros HS HM Hep Hb Hcmd Hterm Hm Hn Hf Hrev epoch.
  destruct (handleTick_ok cfg fuel s m M A L E index cmd r req) as (s' & M' & A' & L' & E' & ids & keys & data & Et & _ & He & Hk & Hr & HS' & Hw & [Hnow Hpast] & Hc & _); try done.
  exists s', M', A', L', E', ids, keys, data. split; [exact Et|]. split; [exact He|].
  split; [intros id; rewrite (wk_ids _ _ _ _ _ _ _ Hw), elem_of_due; done|]. split; [apply Hw|].
  repeat (split; [done|]). split; [|by split]. intros id it. by apply (walked_none_due cfg s M A L E epoch L' E' ids).
Qed.

(** Opening the environment seeds the metadata once: a fresh environment gets epoch,
    index, lease counter, compaction cursor and term 0 and revisions 1; one that was
    opened before keeps every value, and the index it reports is the stored one. *)
Theorem open_metadata env :
  (view env DbiMeta = [] ->
     exists env', Open env = Ok (env', 0) /\ MetaRep env' (mkMeta 0 0 0 1 0 1 0)
       /\ forall d, d <> DbiMeta -> view env' d = view env d)
  /\ (forall m, MetaRep env m -> exists env', Open env = Ok (env', m_index m) /\ MetaRep env' m
       /\ forall d, d <> DbiMeta -> view env' d = view env d).
Proof.
  unfold Open. split.
  - intros Hv. destruct (newDbMeta_ok env) as (t & index & E & Hi & Hm & Hf).
    { apply Forall_forall. intros k _. left. by rewrite Hv. }
    assert (MetaRep t (mkMeta 0 0 0 1 0 1 0)) as HM by (apply (seeded env); [done|by intros k Hk; apply Hm]).
    exists t. split; [|by split]. by rewrite E, (index_is t _ index HM Hi).
  - intros m HM. destruct (newDbMeta_ok env) as (t & index & E & Hi & Hm & Hf).
    { by apply (kept_stored env m). }
    assert (MetaRep t m) as HM' by (apply (kept env t m HM); intros k v Hk; by apply Hm).
    exists t. split; [|by split]. by rewrite E, (index_is t m index HM' Hi).
Qed.

End Sm.

(** ** Witnesses: a shard with one key *)

Definition exDecode (A : Type) (m : msg A) : option A :=
  match m in msg A return option A with
  | MPutRequest => Some (exPut 0 false)
  | MDeleteRangeRequest => Some (mkDeleteRangeRequest exLeaseKey [] true)
  | MTxnRequest => Some (mkTxnRequest [] [RequestPut (exPut 0 false); RequestPut (mkPutRequest [] None 0 false false false)] [])
  | MCompactionRequest => Some (mkCompactionRequest 9 false)
  | MTickRequest => Some (mkTickRequest 1)
  | MTermRequest => Some (mkTermRequest 1)
  | _ => None
  end.

#[global] Instance exProto : Proto := scriptProto exDecode.

#[global] Instance exTyped : ProtoTyped.
Proof. split. intros A m b a E. destruct m; cbn in E; try done; injection E as <-; evalZ. Qed.

(** The environment as [Open] leaves it. *)
Definition exEnv : @txn refMdb := match Open refEmpty with Ok (t, _) => t | _ => refEmpty end.

Lemma exEnv_ok : MetaRep exEnv (mkMeta 0 0 0 1 0 1 0) /\ StoreAt defaultConfig (mkUpd exEnv 0 1 []) exM0 [].
Proof.
  destruct (newDbMeta_ok (refEmpty : @txn refMdb)) as (t & index & E & _ & Hm & Hf).
  { apply Forall_forall. intros k _. by left. }
  assert (exEnv = t) as -> by (unfold exEnv, Open; by rewrite E).
  split; [apply (seeded (refEmpty : @txn refMdb)); [done|by intros k Hk; apply Hm]|].
  destruct exEmpty as [HR HA HI]. split; cbn [u_txn u_newRev].
  - eapply Rep_view; [..|exact HR]; by apply Hf.
  - eapply AttRep_view; [|exact HA]. by apply Hf.
  - done.
  - intros k h X. inversion X.
  - lia.
Qed.

(** One tick and one put, as they come off the log. *)
Definition exEntries : list Entry :=
  [mkEntry 5 [Zb CMD_INTERNAL_TICK] Result_zero; mkEntry 6 [Zb CMD_KV_PUT] Result_zero].

Lemma exBatch : exists t' out, updateTxn defaultConfig 9 (fun l => l) 1 1 exEnv exEntries = Ok (t', out).
Proof.
  destruct (returns_ok (updateTxn defaultConfig 9 (fun l => l) 1 1 exEnv exEntries)) as [[t' out] E].
  { by vm_compute. }
  exists t', out. exact E.
Qed.

Lemma batch_metadata_witness : exists t' m', MetaRep t' m' /\ m_index m' = 6 /\ 1 <= m_rev m'.
Proof.
  destruct exBatch as (t' & [[[rev newRev] keys] done_] & E).
  destruct (batch_metadata defaultConfig 9 (fun l => l) 1 1 exEnv _ exEntries t' rev newRev keys done_ (proj1 exEnv_ok))
    as (-> & Hle & _ & ent & m' & El & HM & Hi & Hr & _); [repeat constructor; evalZ|evalZ|evalZ|exact E|].
  exists t', m'. split; [exact HM|]. cbn in El. injection El as <-. split; [exact Hi|]. rewrite Hr. exact Hle.
Defined.

(** A tick of term 1 when term 4 is stored. *)
Lemma exTerm : exists t : @txn refMdb, MetaRep t (mkMeta 0 0 0 1 0 1 4).
Proof.
  destruct (putUint64_has exEnv metaKeyTerm 4) as (t & E & _ & _); [by vm_compute|evalZ|].
  exists t. pose proof (proj1 exEnv_ok) as HM.
  by apply (setTerm_rep exEnv (mkMeta 0 0 0 1 0 1 0) 4 t HM) in E.
Qed.

Lemma stale_term_refused_witness : exists t : @txn refMdb,
  handleTick 9 (mkUpd t 0 1 []) 8 [] Result_zero
  = Ok (mkUpd t 0 1 [], mkResult 0 (errText ErrTermExpired)).
Proof.
  destruct exTerm as [t HM]. exists t.
  apply (proj1 (stale_term_refused 9 (mkUpd t 0 1 []) (mkMeta 0 0 0 1 0 1 4) 8 [] Result_zero HM) (mkTickRequest 1)); evalZ.
Defined.

Lemma put_entry_refines_witness : exists s' A' data,
  handlePut defaultConfig 1 1 (mkUpd exEnv 0 1 []) [] Result_zero = Ok (s', mkResult 1 data)
  /\ u_newRev s' = 2
  /\ StoreAt defaultConfig s' (hset exM0 exLeaseKey [putRec 2 0 0 (Some (str "running")) false false []]) A'.
Proof.
  destruct (put_entry_refines defaultConfig 1 1 (mkUpd exEnv 0 1 []) exM0 [] [] Result_zero (exPut 0 false) (proj2 exEnv_ok))
    as (s' & A' & prev & data & E & _ & _ & Er & _ & HS);
    [done|split; [done|split; [done|by intros []]]|by apply exLeaseArgs; evalZ|done|cbn; lia|by eexists|cbn; lia|].
  exists s', A', data. split; [exact E|]. split; [exact Er|exact HS].
Defined.

Lemma delete_entry_refines_witness : exists (s s' : updState) data,
  handleDeleteRange defaultConfig 9 1 1 s [] Result_zero = Ok (s', mkResult 1 data) /\ u_newRev s' = 3.
Proof.
  destruct exLeased as (t & A & [HR HA HI] & _).
  assert (StoreAt defaultConfig (mkUpd t 0 2 []) exLM A) as HS.
  { split; try done. intros k h. destruct (decide (k = exLeaseKey)) as [->|Hne].
    - unfold exLM. rewrite hset_same. intros [->|X]%elem_of_cons; [evalZ|inversion X].
    - rewrite exLM_other by done. intros X. inversion X. }
  destruct (delete_entry_refines defaultConfig 9 1 1 (mkUpd t 0 2 []) exLM A [exLeaseKey] [] Result_zero
              (mkDeleteRangeRequest exLeaseKey [] true) HS)
    as (s' & A' & kvs & data & E & _ & _ & Er & _);
    [done|done|repeat constructor|apply exLM_keys|cbn; lia| |by eexists|cbn; lia|].
  - intros k. destruct (decide (k = exLeaseKey)) as [->|Hne]; [by vm_compute; lia|]. rewrite exLM_other by done. cbn. lia.
  - eexists _, s', data. split; [exact E|]. rewrite Er. by vm_compute.
Defined.

(** The first put of the transaction runs, the second is refused for its empty key. *)
Lemma txn_all_or_nothing_witness : exists s' r',
  handleTxn defaultConfig 9 1 1 (mkUpd exEnv 0 1 []) [] Result_zero = Ok (s', r')
  /\ (forall d, view (u_txn s') d = view exEnv d) /\ u_keys s' = [] /\ res_Data r' = errText ErrGRPCEmptyKey.
Proof.
  destruct (returns_ok (handleTxn defaultConfig 9 1 1 (mkUpd exEnv 0 1 []) [] Result_zero)) as [[s' r'] E].
  { by vm_compute. }
  exists s', r'. split; [exact E|].
  assert (rmap (fun x => (res_Value x.2, res_Data x.2)) (handleTxn defaultConfig 9 1 1 (mkUpd exEnv 0 1 []) [] Result_zero)
    = Ok (0, errText ErrGRPCEmptyKey)) as Hz by (by vm_compute).
  rewrite E in Hz. cbn in Hz. injection Hz as Hz Hd.
  assert (exists req, pb_Unmarshal MTxnRequest [] = Some req) as [req Hreq] by (by eexists).
  destruct (txn_all_or_nothing defaultConfig 9 1 1 (mkUpd exEnv 0 1 []) [] Result_zero req s' r' E Hreq)
    as (success & start & _ & _ & _ & [(t & rs & keys & _ & _ & _ & _ & Hv & _)|(e & rs & keys & _ & _ & Ht & Hk & _ & _)]);
    [congruence|].
  split; [exact Ht|]. split; [exact Hk|exact Hd].
Defined.







(** Lease 7, granted for one second at epoch 0. *)
Definition exBrief : lease := mkLease 7 1 0.
Definition exBriefEnv : @txn refMdb :=
  match (let! t := dbLease_put exEnv exBrief in dbLeaseExp_put t exBrief) with Ok t => t | _ => exEnv end.

Lemma exBrief_store : LeaseStore defaultConfig (mkUpd exBriefEnv 0 1 []) exM0 [] {[7 := exBrief]} [(1, 7)] /\ MetaRep exBriefEnv (mkMeta 0 0 0 1 0 1 0).
Proof.
  destruct exEnv_ok as [HM [HR HA HI Hup Hrev]].
  destruct (storeLease_ok exEnv ∅ exBrief) as (t1 & t & E1 & E2 & HL & _ & Hf & _).
  { intros id Hid. rewrite lookup_empty. split; [|done]. assert (view exEnv DbiLease = []) as -> by reflexivity. reflexivity. }
  { split; evalZ. }
  assert (exBriefEnv = t) as Et by (unfold exBriefEnv; rewrite E1; cbn [rbind]; by rewrite E2).
  assert (view exBriefEnv DbiLeaseExp = expEntry <$> [(1, 7)]) as Ev by (vm_compute; reflexivity).
  rewrite Et in *. split; [|eapply MetaRep_view; [|exact HM]; by apply Hf].
  split; [split; cbn [u_txn u_newRev]|..]; cbn [u_txn]; try done.
  - eapply Rep_view; [..|exact HR]; by apply Hf.
  - eapply AttRep_view; [|exact HA]. by apply Hf.
  - split; [exact Ev|]. repeat constructor; evalZ.
  - intros id it _ [<- <-]%lookup_singleton_Some. constructor.
Qed.

(** The first tick. *)
Lemma tick_expires_leases_witness : exists s' (L' : gmap Z lease) data,
  handleTick 9 (mkUpd exBriefEnv 0 1 []) 8 [] Result_zero = Ok (s', mkResult 8 data)
  /\ u_epoch s' = 1 /\ L' !! 7 = None.
Proof.
  destruct exBrief_store as [HS HM].
  destruct (tick_expires_leases defaultConfig 9 (mkUpd exBriefEnv 0 1 []) (mkMeta 0 0 0 1 0 1 0) exM0 [] {[7 := exBrief]} [(1, 7)] 8 [] Result_zero
              (mkTickRequest 1) HS HM) as (s' & M' & A' & L' & E' & ids & keys & data & E & Ee & Hids & HL & _);
    [reflexivity|evalZ|reflexivity|cbn; lia|by eexists|cbn; lia|cbn; lia|evalZ|].
  exists s', L', data. split; [exact E|]. split; [exact Ee|]. rewrite HL, decide_True; [reflexivity|].
  apply Hids. split; [exists 1; split; [cbn; lia|constructor]|]. by exists exBrief.
Defined.
