(* ===== verification/WatchProps.v ===== *)
(** * Watches: properties (src/state_machine.go: watch, Stream; src/service_watch.go) *)

From Stdlib Require Import Strings.String.
From stdpp Require Import gmap sorting.
From S2P Require Import Prelude Types GoBinary Patch Lcs LcsTwoSided Kv Mdb MdbFacts Db DbFacts DbLease DbKv Frame History DbKvRead DbKvWrite DbKvDelete Pb StateMachine Update LeaseOps LeaseGrant SmOps Events Watch WatchFacts WatchRun Services ServiceWatch Instances StoreProps LeaseProps SmProps.

Section Watch.
Context (cfg : config) `{DifferOk} `{SnappyOk} `{MdbOk} `{Proto}.
Context (fuel : nat) (shardID replicaID : Z).
Context (marshal_event : forall e, exists b, pb_Marshal MEvent e = Ok b).
Context (marshal_header : forall h, exists b, pb_Marshal MResponseHeader h = Ok b).

(** One event scan is exact. On a store whose log agrees with its history, with fuel for
    the log, the scan from revision [sn] sends one message for each event from [sn] to the
    current revision that the watch selects, in order, carrying the value written by that
    event and, when asked, the value it replaced; a SYNC message follows if there was any. *)
Theorem scan_exact t M E rev req sn :
  Logged cfg fuel t M E rev -> 0 < sn < 2 ^ 52 ->
  exists ms sync, watchScan fuel shardID replicaID t req sn = Ok (rev, mkScan (ms ++ sync) (blen ms) None)
    /\ Forall2 (carries req M rev) (selected req (between sn rev E)) ms
    /\ syncOf shardID replicaID req rev ms sync.
Proof. by apply watchScan_ok. Qed.

(** C6: a watch delivers every selected event once and in order, however its segments
    interleave with commits (and whether or not a commit alerts it): at any point of a
    run, the EVENT messages sent so far are those of the selected events from its start
    up to the revision it has scanned to. It never ends on its own and its next segment
    always returns. The start is the request's revision, or the first revision after
    the first scan when the request names none or a later one. *)
Theorem watch_exactly_once req w p out :
  0 <= wc_StartRevision req < 2 ^ 52 -> run cfg fuel shardID replicaID req w p out ->
  p <> Ended
  /\ (exists ms p', watchStep fuel shardID replicaID (w_t w) p = Ok (ms, p'))
  /\ forall r, reached p = Some r -> exists s0 r0,
       r0 <= r <= w_rev w
       /\ s0 = (if wc_StartRevision req =? 0 then r0 + 1 else Z.min (wc_StartRevision req) (r0 + 1))
       /\ Forall2 (isFor req) (selected req (between s0 r (w_E w))) (events out).
Proof.
  intros Hs Hr. pose proof (run_inv cfg fuel shardID replicaID marshal_event marshal_header req Hs _ _ _ Hr) as Hi.
  pose proof (run_logged cfg fuel shardID replicaID req _ _ _ Hr) as HL. split; [by intros ->|]. split.
  { destruct (watchStep_inv cfg fuel shardID replicaID marshal_event marshal_header req Hs _ _ _ HL Hi) as (ms & p' & E & _). by exists ms, p'. }
  intros r Ep. destruct p as [q|q v|q v al|ws|]; cbn in Ep, Hi; try done; injection Ep as <-;
    destruct Hi as [_ (Hb & s0 & r0 & Hst & Hr0 & Hf)]; exists s0, r0; (split; [lia|]); by split.
Qed.

(** C29: an alert brings a watch up to date: when a watch in its sync loop has an alert for a
    revision it has not scanned, its next turn scans to the revision of the store. *)
Theorem alert_catches_up req w ws out a :
  0 <= wc_StartRevision req < 2 ^ 52 -> run cfg fuel shardID replicaID req w (Syncing ws) out ->
  last (ws_alerts ws) = Some a -> ws_rev ws < a ->
  exists ms, watchStep fuel shardID replicaID (w_t w) (Syncing ws) = Ok (ms, Syncing (mkWatch req (w_rev w) [])).
Proof.
  intros Hs Hr Hl Ha. pose proof (run_inv cfg fuel shardID replicaID marshal_event marshal_header req Hs _ _ _ Hr) as [Hq Hi].
  pose proof (run_logged cfg fuel shardID replicaID req _ _ _ Hr) as HL. cbn [watchStep]. unfold watchWake. rewrite Hl, Hq.
  destruct (Z.leb_spec a (ws_rev ws)); [lia|].
  destruct (later_scan cfg fuel shardID replicaID marshal_event marshal_header req w (ws_rev ws) out HL Hi) as (s & -> & He & _). cbn [rbind].
  rewrite He. cbn [isErr]. unfold watchNotify. destruct ((sc_sent s =? 0) && wc_ProgressNotify req).
  - unfold watchMessage. destruct (marshal_header (responseHeader shardID replicaID (w_rev w))) as [b ->]. cbn [rbind sc_err isErr].
    by eexists.
  - cbn [rbind]. rewrite He. by eexists.
Qed.

End Watch.

(** ** Ids of watches on a stream *)

Lemma nextIdLoop_ok n (watches : gmap Z nat) id :
  - 2 ^ 63 <= id -> (exists j, 0 < j <= Z.of_nat n /\ id + j < 2 ^ 63 /\ watches !! (id + j) = None) ->
  exists j, nextIdLoop n watches id = Ok (id + j) /\ 0 < j <= Z.of_nat n /\ watches !! (id + j) = None.
Proof.
  revert id. induction n as [|n IH]; intros id Hid (j & Hj & Hb & Hn); [lia|]. cbn [nextIdLoop].
  rewrite i64_id by (unfold is_i64; lia). destruct (watches !! (id + 1)) as [h|] eqn:E.
  - assert (j <> 1) by (intros ->; congruence).
    destruct (IH (id + 1)) as (j' & -> & Hj' & Hn'); [lia|exists (j - 1)|].
    { split; [lia|]. split; [lia|]. by replace (id + 1 + (j - 1)) with (id + j) by lia. }
    exists (j' + 1). replace (id + (j' + 1)) with (id + 1 + j') by lia. split; [done|]. split; [lia|done].
  - exists 1. split; [done|]. split; [lia|done].
Qed.

(** The stream's id allocator terminates with an unused id: one turn more than there are
    watches is enough, the id is above the last one given out and no watch has it. *)
Theorem next_watch_id_fresh s :
  - 2 ^ 63 <= st_watchID s -> st_watchID s + Z.of_nat (S (size (st_watches s))) < 2 ^ 63 ->
  exists id s', nextWatchID s = Ok (id, s') /\ st_watchID s < id /\ st_watches s !! id = None
    /\ st_watchID s' = id /\ st_watches s' = st_watches s.
Proof.
  intros Hlo Hhi. unfold nextWatchID.
  destruct (free_id (st_watches s) (st_watchID s)) as (j & Hj & Hn).
  destruct (nextIdLoop_ok (S (size (st_watches s))) (st_watches s) (st_watchID s) Hlo) as (k & -> & Hk & Hn').
  { exists j. split; [done|]. split; [lia|done]. }
  cbn [rbind]. eexists _, _. split; [done|]. split; [lia|]. by split.
Qed.

(** ** The forwarding goroutine *)

Section Forward.
Context (cfg : config) `{Proto} {C : Type} `{ShardClient C}.

(** The event of an EVENT message. *)
Definition messageEvent (m : Result) : list Event :=
  if isEvt m then match pb_Unmarshal MEvent (drop 9 (res_Data m)) with Some e => [e] | None => [] end else [].

Lemma forward_events (c : C) id s m f :
  forward cfg c id s m = Ok f ->
  match f_state f with
  | Some s' => concat (wr_Events <$> f_out f) ++ fw_events s' = fw_events s ++ messageEvent m
  | None => True
  end.
Proof.
  unfold forward, messageEvent, isEvt. destruct (res_Data m) as [|typ body] eqn:Ed; [done|].
  destruct (bZ typ =? WatchMessageType_INIT) eqn:E1.
  { apply Z.eqb_eq in E1. rewrite E1. cbn [Z.eqb]. change (WatchMessageType_INIT =? WatchMessageType_EVENT) with false. cbn iota.
    intros E. go_inv; cbn; by rewrite ?app_nil_r. }
  destruct (bZ typ =? WatchMessageType_EVENT) eqn:E2.
  { intros E. apply rbind_ok in E as ([s' out] & E & Ef). apply Ok_inj in Ef. subst f. cbn [f_state f_out].
    unfold forwardEvent in E. apply rbind_ok in E as (b & Eb & E). unfold slice in Eb.
    destruct (_ && _) in Eb; [|done]. apply Ok_inj in Eb.
    assert (b = drop 9 (typ :: body)) as ->.
    { rewrite <- Eb. rewrite take_ge; [done|]. rewrite length_drop. unfold blen. lia. }
    go_inv; try done; cbn [fmap list_fmap concat wr_Events watchResp pending fwAppend fwReset fw_events app]; by rewrite ?app_nil_r. }
  intros E. go_inv; cbn [f_state f_out fmap list_fmap concat wr_Events watchResp pending fwReset fw_events app]; by rewrite ?app_nil_r.
Qed.

(** C30: the forwarding goroutine loses, repeats and reorders nothing: while it runs, the
    events of the responses it has sent followed by those it still collects are the events
    of the messages it received, in order, wherever the size limit splits the responses. *)
Theorem forward_keeps_events (c : C) s ms s' out :
  forwardAll cfg c s ms = Ok (Some s', out) ->
  concat (wr_Events <$> out) ++ fw_events s' = fw_events s ++ concat (messageEvent <$> ms).
Proof.
  revert s out. induction ms as [|m ms IH]; intros s out E; cbn [forwardAll] in E.
  { go_inv. by rewrite app_nil_r. }
  apply rbind_ok in E as (f & Ef & E). apply forward_events in Ef.
  destruct (f_state f) as [s1|]; [|go_inv]. apply rbind_ok in E as ([s2 out2] & E2 & E). go_inv.
  apply IH in E2. rewrite fmap_app, concat_app, fmap_cons. cbn [concat]. rewrite <- app_assoc, E2, !app_assoc. by f_equal.
Qed.

End Forward.

(** ** Witnesses: a store at revision 2 with one event *)

Definition exEvt : kvEvent := mkKvEvent 0 exKey (newkeyrev 2 0 false).

Definition exEvt2 : kvEvent := mkKvEvent 0 exKey (newkeyrev 3 0 false).

(** The stores after the first and the second put, written as two commits. *)
Definition exCommit (t : @txn refMdb) (rev : Z) (val : bytes) : @txn refMdb :=
  match dbKv_put defaultConfig t rev 0 0 0 exKey (Some val) false false with
  | Ok (t1, _) => match setRevision t1 rev with Ok t' => t' | _ => t end
  | _ => t
  end.

Definition exStore1 : @txn refMdb := exCommit exEnv 2 exVal1.
Definition exStore2 : @txn refMdb := exCommit exStore1 3 exVal2.

Lemma exLogged0 : Logged defaultConfig 9 exEnv exM0 [] 1.
Proof.
  destruct (newDbMeta_ok (refEmpty : @txn refMdb)) as (t & index & E & _ & Hm & Hf).
  { apply Forall_forall. intros k _. by left. }
  assert (exEnv = t) as -> by (unfold exEnv, Open; by rewrite E).
  assert (MetaRep t (mkMeta 0 0 0 1 0 1 0)) as HM
    by (apply (seeded (refEmpty : @txn refMdb)); [done|by intros k Hk; apply Hm]).
  clear Hm. split.
  - eapply Rep_view; [..|apply Rep_empty]; by rewrite Hf.
  - split; [by rewrite Hf|constructor].
  - exact (getRevision_rep _ _ HM).
  - lia.
  - constructor.
  - intros k h X. inversion X.
  - intros e X. inversion X.
  - intros e X. inversion X.
  - cbn. lia.
Qed.

Lemma exLoggedOne : Logged defaultConfig 9 exStore1 exM1 [exEvt] 2.
Proof.
  destruct (Logged_put defaultConfig 9 exEnv exM0 [] 1 0 0 exKey (Some exVal1) false false exLogged0)
    as (t1 & out & t & E1 & E2 & HL'); [apply exArgs1|evalZ|lia|cbn; lia|vm_compute; lia|].
  assert (exStore1 = t) as ->; [|exact HL']. unfold exStore1, exCommit. change (1 + 1) with 2 in E1, E2. rewrite E1. by rewrite E2.
Qed.

Lemma exLoggedTwo : Logged defaultConfig 9 exStore2 exM2 [exEvt; exEvt2] 3.
Proof.
  destruct (Logged_put defaultConfig 9 exStore1 exM1 [exEvt] 2 0 0 exKey (Some exVal2) false false exLoggedOne)
    as (t1 & out & t & E1 & E2 & HL'); [apply exArgs2|evalZ|lia|cbn; lia|vm_compute; lia|].
  assert (exStore2 = t) as ->; [|exact HL']. unfold exStore2, exCommit. change (2 + 1) with 3 in E1, E2. rewrite E1. by rewrite E2.
Qed.

Lemma exLogged : exists t : @txn refMdb, Logged defaultConfig 9 t exM1 [exEvt] 2.
Proof. exists exStore1. exact exLoggedOne. Qed.

Lemma exLogged2 : exists t : @txn refMdb, Logged defaultConfig 9 t exM2 [exEvt; exEvt2] 3.
Proof. exists exStore2. exact exLoggedTwo. Qed.

Definition exWatch (start : Z) : WatchCreateRequest := mkWatchCreateRequest exKey [] start false [] false 4.

Lemma exMarshalEvent (e : Event) : exists b, pb_Marshal MEvent e = Ok b.
Proof. by exists []. Qed.
Lemma exMarshalHeader (h : ResponseHeader) : exists b, pb_Marshal MResponseHeader h = Ok b.
Proof. by exists []. Qed.

Lemma scan_exact_witness : exists (t : @txn refMdb) ms sync,
  watchScan 9 1 1 t (exWatch 1) 1 = Ok (2, mkScan (ms ++ sync) (blen ms) None) /\ length ms = 1%nat.
Proof.
  destruct exLogged as [t HL].
  destruct (scan_exact defaultConfig 9 1 1 exMarshalEvent exMarshalHeader t exM1 [exEvt] 2 (exWatch 1) 1 HL)
    as (ms & sync & E & Hf & _); [lia|].
  exists t, ms, sync. split; [exact E|]. apply Forall2_length in Hf. by rewrite <- Hf.
Defined.

(** The watch after its first scan. *)
Lemma watch_exactly_once_witness : exists (t : @txn refMdb) ms,
  watchStep 9 1 1 t (Opened (exWatch 1)) = Ok (ms, Scanned (exWatch 1) 2)
  /\ Forall2 (isFor (exWatch 1)) [exEvt] (events ms).
Proof.
  destruct exLogged as [t HL]. set (w := mkWorld t exM1 [exEvt] 2).
  assert (Hr0 : run defaultConfig 9 1 1 (exWatch 1) w (Opened (exWatch 1)) []) by (apply run_start; exact HL).
  destruct (watchScan_ok defaultConfig 9 1 1 exMarshalEvent exMarshalHeader t exM1 [exEvt] 2 (exWatch 1) 1 HL)
    as (ms & sync & E & _); [lia|].
  assert (Es : watchStep 9 1 1 t (Opened (exWatch 1)) = Ok (ms ++ sync, Scanned (exWatch 1) 2)).
  { cbn [watchStep]. change (u64 (wc_StartRevision (exWatch 1))) with 1. rewrite E. reflexivity. }
  pose proof (run_watch defaultConfig 9 1 1 (exWatch 1) w _ _ _ _ Hr0 Es) as Hr.
  exists t, (ms ++ sync). split; [exact Es|].
  destruct (watch_exactly_once defaultConfig 9 1 1 exMarshalEvent exMarshalHeader (exWatch 1) w _ _ ltac:(cbn; lia) Hr)
    as (_ & _ & Hd). destruct (Hd 2 eq_refl) as (s0 & r0 & Hb & Hs & Hf). cbn [w_rev w w_E] in *.
  assert (selected (exWatch 1) (between s0 2 [exEvt]) = [exEvt]) as Esel.
  { unfold between. rewrite filter_cons_True; [by vm_compute|]. change (evtUpper exEvt) with 2. cbn in Hs. lia. }
  rewrite Esel in Hf. exact Hf.
Defined.

(** The watch reaches its sync loop at revision 2; a commit of revision 3 alerts it. *)
Lemma alert_catches_up_witness : exists (t : @txn refMdb) ws ms,
  ws_rev ws = 2 /\ watchStep 9 1 1 t (Syncing ws) = Ok (ms, Syncing (mkWatch (exWatch 0) 3 [])).
Proof.
  destruct exLogged as [t HL]. set (w := mkWorld t exM1 [exEvt] 2).
  destruct exLogged2 as [t2 HL2]. set (w2 := mkWorld t2 exM2 [exEvt; exEvt2] 3).
  assert (Hr0 : run defaultConfig 9 1 1 (exWatch 0) w (Opened (exWatch 0)) []) by (apply run_start; exact HL).
  assert (E1 : watchStep 9 1 1 t (Opened (exWatch 0)) = Ok ([], Scanned (exWatch 0) 2)).
  { cbn [watchStep]. unfold watchScan. rewrite (lg_rev _ _ _ _ _ _ HL). reflexivity. }
  pose proof (run_watch defaultConfig 9 1 1 (exWatch 0) w _ _ _ _ Hr0 E1) as Hr1.
  pose proof (run_watch defaultConfig 9 1 1 (exWatch 0) w _ _ _ _ Hr1 eq_refl) as Hr2.
  destruct (watchScan_ok defaultConfig 9 1 1 exMarshalEvent exMarshalHeader t exM1 [exEvt] 2 (exWatch 0) 3 HL)
    as (ms & sync & E3 & _); [lia|].
  assert (Es : watchStep 9 1 1 t (Registered (exWatch 0) 2 []) = Ok (ms ++ sync, Syncing (mkWatch (exWatch 0) 2 []))).
  { cbn [watchStep]. change (u64 (2 + 1)) with 3. rewrite E3. reflexivity. }
  pose proof (run_watch defaultConfig 9 1 1 (exWatch 0) w _ _ _ _ Hr2 Es) as Hr3.
  assert (Hc : commits defaultConfig 9 w w2).
  { split; [exact HL2|]. split; [cbn; lia|]. exists [exEvt2]. split; [reflexivity|]. repeat constructor. }
  pose proof (run_commit defaultConfig 9 1 1 (exWatch 0) w _ _ w2 true Hr3 Hc) as Hr4. cbn [pushAlert ws_req ws_rev ws_alerts app] in Hr4.
  destruct (alert_catches_up defaultConfig 9 1 1 exMarshalEvent exMarshalHeader (exWatch 0) w2 _ _ 3 ltac:(cbn; lia) Hr4)
    as (ms' & E'); [reflexivity|cbn; lia|]. eexists t2, _, ms'. split; [|exact E']. reflexivity.
Defined.

Lemma next_watch_id_fresh_witness : exists id s',
  nextWatchID (mkStream 0 {[ 1 := 0%nat ]} 1 ∅ []) = Ok (id, s') /\ 0 < id.
Proof.
  destruct (next_watch_id_fresh (mkStream 0 {[ 1 := 0%nat ]} 1 ∅ [])) as (id & s' & E & Hid & _);
    [by vm_compute|by vm_compute|]. exists id, s'. split; [exact E|exact Hid].
Defined.

(** An event and the SYNC that closes its scan, as the forwarder receives them. *)
#[global] Instance exClient : ShardClient unit := {| cl_Apply c _ := (c, inr 0); cl_Read _ _ _ := inr 0; cl_Leader _ := (0, 0) |}.

Definition exKv : KeyValue := mkKeyValue 2 2 1 0 exKey (Some exVal1).
Definition eventProto : Proto := scriptProto (fun A m => match m in msg A return option A with
  | MEvent => Some (mkEvent Event_PUT (Some exKv) None) | MResponseHeader => Some header_zero | _ => None end).

Lemma forward_keeps_events_witness : exists s' out,
  @forwardAll defaultConfig eventProto unit exClient tt fwInit
    [mkResult 4 (Zb 2 :: AppendUint64 [] 2); mkResult 4 [Zb 3]] = Ok (Some s', out)
  /\ concat (wr_Events <$> out) ++ fw_events s' = [mkEvent Event_PUT (Some exKv) None].
Proof.
  eexists _, _. split; [vm_compute; reflexivity|].
  exact (@forward_keeps_events defaultConfig eventProto unit exClient tt fwInit
           [mkResult 4 (Zb 2 :: AppendUint64 [] 2); mkResult 4 [Zb 3]] _ _ ltac:(vm_compute; reflexivity)).
Defined.
