(* ===== verification/ServiceProps.v ===== *)
(** * Services, controller and compaction: properties

    The put service over the state machine, the errors of the gRPC layer, the
    controller, and compaction of the store. *)

From Stdlib Require Import Strings.String.
From stdpp Require Import gmap.
From S2P Require Import Prelude Types GoBinary Patch Lcs LcsTwoSided Kv Mdb MdbFacts Db DbFacts DbLease DbKv Frame LeaseFacts History DbKvRead DbKvWrite DbKvRange DbKvDelete Pb GrpcErrors StateMachine Update SmFrame SmMeta LeaseOps LeaseInv LeaseGrant SmOps Events Compact Watch WatchFacts Services ShardSm Controller Instances StoreProps LeaseProps SmProps WatchProps.

Section Compaction.
Context (cfg : config) `{DifferOk} `{SnappyOk} `{MdbOk}.

(** C5: compaction keeps every read at or after its revision. On a store whose events all
    have their records, with an event at or after [max], and fuel for the log and for the
    records of each key, compaction returns for any order in which the map is ranged
    over; each key reads as before now and at every revision from [max - 1] on, the log
    keeps exactly the events from [max] on, and of a key with an older event no record
    older than its last such event is left. *)
Theorem compact_keeps_reads n fuel mapRange t M E max :
  (forall l, mapRange l ≡ₚ l) -> 0 < max ->
  Rep cfg t M -> EvtRep t E -> recorded E M -> Exists (fun e => max <= evtUpper e) E ->
  (length E < fuel)%nat -> (length E < n)%nat -> (forall k, (length (M k) < fuel)%nat) ->
  exists t' last M', dbKv_compact n fuel mapRange t max = Ok (t', last)
    /\ Rep cfg t' M' /\ EvtRep t' (filter (fun e => max <= evtUpper e) E)
    /\ (forall k r, r = 0 \/ max <= r + 1 -> visible r (M' k) = visible r (M k))
    /\ (forall e h, e ∈ E -> evtUpper e < max -> h ∈ M' (ev_key e) -> ev_rev e <= h_rev h)
    /\ forall d, d <> DbiRev -> d <> DbiVal -> d <> DbiEvt -> view t' d = view t d.
Proof.
  intros Hp Hm HR HE Hrec Hex Hf Hn Hlen.
  destruct (compact_ok cfg fuel mapRange max Hp Hm n t M E) as (t' & last & Ec & HR' & HE' & Hfr); try done.
  exists t', last, (compacted (below max E) M). split; [done|]. split; [done|]. split; [done|].
  assert (Hlow : forall e, e ∈ below max E <-> e ∈ E /\ evtUpper e < max)
    by (intros e; unfold below; rewrite list_elem_of_filter; tauto).
  split; [|split; [|done]].
  - intros k r Hr. eapply visible_compacted; [exact HR| | |exact Hr].
    + intros e He. apply Hrec. by apply Hlow in He as [? _].
    + apply Forall_forall. intros e He. by apply Hlow in He as [_ ?].
  - intros e h He Hlt. unfold compacted.
    destruct (lastRev_max (ev_key e) (below max E) e) as (r & -> & Hle); [|by apply Hlow|done|].
    + apply StronglySorted_filter. by eapply EvtRep_byRev.
    + intros [? _]%list_elem_of_filter. lia.
Qed.

End Compaction.

Section PutService.
Context (cfg : config) `{DifferOk} `{SnappyOk} `{MdbOk} `{Proto} `{ProtoPartial} `{ErrLib}.
Context (fuel : nat) (mapRange : list (bytes * Z) -> list (bytes * Z)) (shardID replicaID : Z).

#[local] Existing Instance shardClient.

(** C7: the put service, the log and the store together. Over a shard whose codec reads back
    what it writes, an accepted put answers with the shard's next revision, the shard's and
    replica's ids, the leader's term and (when asked) the replaced value; afterwards the
    shard holds the history with the new record on top, its applied index and revision
    are one further, and its invariant holds. *)
Theorem put_service (c : shard) m M A req b :
  ShardAt cfg c m M A -> pb_Marshal MPutRequest req = Ok b -> pb_Unmarshal MPutRequest b = Some req ->
  putAllowed (mkUpd (sm_env (sh_sm c)) (m_epoch m) (m_rev m) []) req ->
  put_args (m_rev m + 1) 0 (u64 (pr_Lease req)) (pr_Key req) (pr_Value req) (pr_IgnoreValue req) ->
  pr_IgnoreLease req = false -> 0 <= pr_Lease req < 2 ^ 63 ->
  (forall a, exists d, pb_Marshal MPutResponse a = Ok d /\ pb_Unmarshal MPutResponse d = Some a) ->
  is_u64 (sh_index c + 1) -> m_rev m + 1 < 2 ^ 52 - 1 ->
  let M' := hset M (pr_Key req) (putRec (m_rev m + 1) 0 (pr_Lease req) (pr_Value req) (pr_IgnoreValue req) false
                                   (M (pr_Key req)) :: M (pr_Key req)) in
  exists c' A' prev,
    kvService_Put (C := shard) (H2 := shardClient cfg fuel mapRange shardID replicaID) c req
      = Ok (c', inl (mkPutResponse
               (Some (mkResponseHeader (i64 (m_rev m + 1)) shardID replicaID (snd (sh_leader c)))) prev))
    /\ (if pr_PrevKv req then exists item, prev = Some (kv_ToProto item) /\ kvOr (pr_Key req) (visible 0 (M (pr_Key req))) item
        else prev = None)
    /\ ShardAt cfg c' (withApplied m (sh_index c + 1) (m_rev m + 1)) M' A'.
Proof.
  intros HS Hb Hdec Hal Hargs Hig Hl Hm Hi Hr M'. unfold kvService_Put, applyCmd. rewrite Hb.
  destruct (apply_put cfg fuel mapRange shardID replicaID c m M A req b) as (c' & A' & prev & data & E & Ed & Hp & Hlead & HS'); try done.
  { intros a. destruct (Hm a) as (d & ? & _). by exists d. }
  rewrite E. cbn [rbind]. unfold finish, decode.
  destruct (Hm (mkPutResponse (Some (responseHeader shardID replicaID (m_rev m + 1)))
                  (if pr_PrevKv req then Some (kv_ToProto prev) else None))) as (d & Ed' & Hun).
  rewrite Ed in Ed'. apply Ok_inj in Ed' as <-. rewrite Hun. cbn. rewrite Hlead.
  eexists c', A', _. split; [done|]. split; [|done]. destruct (pr_PrevKv req); [by exists prev|done].
Qed.

End PutService.

(** ** The errors of the gRPC layer *)

(** C31: [Error] turns each status of the package's table into the package's error with the
    same code and description, leaves other errors alone, and is idempotent; every
    status the state machine reports is in the table. *)
Theorem error_normalises :
  (forall e, e ∈ GrpcErrors.errTable ->
     GrpcErrors.Error (Some (GrpcErrors.grpcErr e))
     = Some (GrpcErrors.EtcdError (fst (GrpcErrors.statusOf e)) (snd (GrpcErrors.statusOf e))))
  /\ (forall err, GrpcErrors.errStringToError (GrpcErrors.ErrorDesc err) = None -> GrpcErrors.Error (Some err) = Some err)
  /\ (forall err, GrpcErrors.Error (GrpcErrors.Error err) = GrpcErrors.Error err)
  /\ (forall e code desc, errStatus e = Some (code, desc) ->
        GrpcErrors.Error (Some (GrpcErrors.Status code desc)) = Some (GrpcErrors.EtcdError code desc)).
Proof.
  assert (H1' : forall e code, e ∈ GrpcErrors.errTable ->
    GrpcErrors.Error (Some (GrpcErrors.Status code (snd (GrpcErrors.statusOf e))))
    = Some (GrpcErrors.EtcdError (fst (GrpcErrors.statusOf e)) (snd (GrpcErrors.statusOf e)))).
  { intros e code He. unfold GrpcErrors.Error. cbn [GrpcErrors.ErrorDesc]. by rewrite GrpcErrors.errStringToError_in. }
  split; [intros e He; by apply H1'|]. split; [by intros err E; unfold GrpcErrors.Error; rewrite E|]. split.
  - intros [err|]; [|done]. cbn [GrpcErrors.Error].
    destruct (GrpcErrors.errStringToError (GrpcErrors.ErrorDesc err)) as [v|] eqn:E; [|cbn [GrpcErrors.Error]; by rewrite E].
    apply GrpcErrors.errStringToError_inv in E as [Hin _]. cbn [GrpcErrors.Error GrpcErrors.ErrorDesc].
    by rewrite GrpcErrors.errStringToError_in.
  - intros e code desc Es. apply GrpcErrors.errStatus_table in Es as (g & Hg & Eg).
    pose proof (H1' g code Hg) as Hx. by rewrite Eg in Hx.
Qed.

(** ** The controller *)

Section Control.
Context `{Proto} {C : Type} `{ShardClient C}.

(** No report of the sequence names this replica as leader. *)
Definition neverLeads (es : list event) : Prop :=
  Forall (fun e => match e with EvLeader info => li_LeaderID info <> li_ReplicaID info | _ => True end) es.

Lemma react_quiet (c : C) ct e :
  map_Forall (fun _ b => b = false) (ct_isLeader ct) -> neverLeads [e] ->
  fst (react (c, ct) e) = c /\ map_Forall (fun _ b => b = false) (ct_isLeader (snd (react (c, ct) e))).
Proof.
  intros Hq He. apply Forall_cons in He as [He _].
  assert (Hno : forall id, isLeader ct id = false).
  { intros id. unfold isLeader. destruct (ct_isLeader ct !! id) as [b|] eqn:E; [|done]. exact (Hq id b E). }
  destruct e as [sh| |info|]; cbn [react]; [done| | |done].
  - destruct (ct_running ct); [|done]. unfold tick. by rewrite Hno.
  - unfold LeaderUpdated. destruct (Z.eqb_spec (li_LeaderID info) (li_ReplicaID info)) as [|_]; [done|].
    assert (Hq' : map_Forall (fun _ b => b = false) (<[li_ShardID info := false]> (ct_isLeader ct))).
    { intros id b. destruct (decide (id = li_ShardID info)) as [->|Hne];
        [rewrite lookup_insert_eq; by intros [= <-]|rewrite lookup_insert_ne by done; apply Hq]. }
    assert (default false (<[li_ShardID info := false]> (ct_isLeader ct) !! ct_shard ct) = false) as ->.
    { destruct (<[li_ShardID info := false]> (ct_isLeader ct) !! ct_shard ct) as [b|] eqn:E; [|done]. exact (Hq' _ b E). }
    rewrite andb_false_r. done.
Qed.

(** C32: a controller that was never told it leads proposes nothing: from a new controller,
    through any sequence of starts, stops, ticks and leader reports of which none names
    this replica, the shard client is never used. *)
Theorem follower_is_silent (c : C) es :
  neverLeads es -> fst (foldl react (c, NewController) es) = c.
Proof.
  intros Hes. assert (Hgen : forall ct, map_Forall (fun _ b => b = false) (ct_isLeader ct) ->
    fst (foldl react (c, ct) es) = c); [|apply Hgen, map_Forall_empty].
  induction es as [|e es IH]; intros ct Hq; [done|]. apply Forall_cons in Hes as [He Hes]. cbn [foldl].
  destruct (react_quiet c ct e Hq) as [Hc Hq']; [by constructor|].
  destruct (react (c, ct) e) as [c' ct']. cbn in *. subst c'. by apply IH.
Qed.

End Control.

(** ** Witnesses *)

(** The events of revisions 2 and 3 have their records. *)
Lemma exRecorded : recorded [exEvt; exEvt2] exM2.
Proof.
  intros e [->|[->|X]%elem_of_cons]%elem_of_cons; [| |inversion X].
  - exists (putRec 2 0 0 (Some exVal1) false false []). split; [|by vm_compute].
    unfold exM2, exM1. cbn [ev_key exEvt]. rewrite !hset_same. right. left.
  - exists (putRec 3 0 0 (Some exVal2) false false (exM1 exKey)). split; [|by vm_compute].
    unfold exM2. cbn [ev_key exEvt2]. rewrite !hset_same. left.
Qed.

Lemma compact_keeps_reads_witness : exists (t t' : @txn refMdb) last,
  dbKv_compact 9 9 (fun l => l) t 3 = Ok (t', last).
Proof.
  destruct exLogged2 as [t HL].
  destruct (compact_keeps_reads defaultConfig 9 9 (fun l => l) t exM2 [exEvt; exEvt2] 3)
    as (t' & last & M' & E & _); [done|lia|exact (lg_rep _ _ _ _ _ _ HL)|exact (lg_evt _ _ _ _ _ _ HL)|exact exRecorded| |cbn; lia|cbn; lia| |].
  - right. left. by vm_compute.
  - intros k. pose proof (exM2_len k). lia.
  - exists t, t', last. exact E.
Defined.

(** A codec that really writes put responses: the bits of their number. *)
#[global] Instance byte_countable : Countable byte.
Proof. apply (inj_countable' bZ Zb). apply Zb_bZ. Defined.

Fixpoint posBits (p : positive) : bytes :=
  match p with xH => [] | xO p => Zb 0 :: posBits p | xI p => Zb 1 :: posBits p end.

Fixpoint bitsPos (b : bytes) : positive :=
  match b with [] => xH | x :: b => if bZ x =? 0 then xO (bitsPos b) else xI (bitsPos b) end.

Lemma bitsPos_posBits p : bitsPos (posBits p) = p.
Proof. induction p; cbn; by f_equal. Qed.

Definition respTuple (r : PutResponse) : option (Z * Z * Z * Z) * option (Z * Z * Z * Z * bytes * option bytes) :=
  ((fun h => (h_Revision h, h_ClusterId h, h_MemberId h, h_RaftTerm h)) <$> pres_Header r,
   (fun k => (CreateRevision k, ModRevision k, Version k, Lease k, Key k, Value k)) <$> pres_PrevKv r).

Definition tupleResp (x : option (Z * Z * Z * Z) * option (Z * Z * Z * Z * bytes * option bytes)) : PutResponse :=
  mkPutResponse ((fun '(a, b, c, d) => mkResponseHeader a b c d) <$> x.1)
    ((fun '(a, b, c, d, k, v) => mkKeyValue a b c d k v) <$> x.2).

Definition putProto : Proto := {|
  pb_Marshal A m := match m in msg A return A -> res bytes with
                    | MPutResponse => fun r => Ok (posBits (countable.encode (respTuple r))) | _ => fun _ => Ok [] end;
  pb_Unmarshal A m := match m in msg A return bytes -> option A with
                      | MPutRequest => fun _ => Some (exPut 0 false)
                      | MPutResponse => fun b => tupleResp <$> countable.decode (bitsPos b) | _ => fun _ => None end
|}.

#[global] Instance noPartial : ProtoPartial.
Proof.
  split. intros A m _. destruct m; try exact tt; repeat econstructor; try exact 0; try exact []; try exact false; try exact None.
Defined.

Lemma putProto_resp (a : PutResponse) : exists d, @pb_Marshal putProto _ MPutResponse a = Ok d /\ @pb_Unmarshal putProto _ MPutResponse d = Some a.
Proof.
  eexists. split; [reflexivity|]. cbn [pb_Unmarshal putProto]. rewrite bitsPos_posBits, decode_encode.
  destruct a as [[[]|] [[]|]]; reflexivity.
Qed.

Lemma put_service_witness : exists c' prev,
  @kvService_Put putProto noPartial plainErrLib shard
      (@shardClient defaultConfig goDiffer storeSnappy refMdb putProto plainErrLib 9 (fun l => l) 1 2)
      (mkShard (mkSm exEnv 0) 0 (2, 7)) (exPut 0 false)
  = Ok (c', inl (mkPutResponse (Some (mkResponseHeader 2 1 2 7)) prev)).
Proof.
  assert (HS : ShardAt defaultConfig (mkShard (mkSm exEnv 0) 0 (2, 7)) (mkMeta 0 0 0 1 0 1 0) exM0 []).
  { split; [exact (proj1 exEnv_ok)|exact (proj2 exEnv_ok)]. }
  destruct (@put_service defaultConfig _ _ _ _ _ _ putProto noPartial plainErrLib 9 (fun l => l) 1 2
              (mkShard (mkSm exEnv 0) 0 (2, 7)) (mkMeta 0 0 0 1 0 1 0) exM0 [] (exPut 0 false) [] HS)
    as (c' & A' & prev & E & _);
    [reflexivity|reflexivity|split; [reflexivity|split; [reflexivity|by intros []]]|apply exLeaseArgs; evalZ|reflexivity
    |cbn; lia|exact putProto_resp|evalZ|cbn; lia|].
  exists c', prev. exact E.
Defined.

Lemma follower_is_silent_witness :
  fst (foldl react (tt, NewController) [EvStart 1; EvLeader (mkLeaderInfo 1 2 3 5); EvTick]) = tt.
Proof. apply (follower_is_silent tt). repeat constructor. cbn. lia. Defined.
