(* ===== verification/ModProps.v ===== *)
(** * The storage module: properties (src/module/storage-kv: main.go, kv_store.go, stream.go) *)

From Stdlib Require Import Strings.String.
From stdpp Require Import gmap.
From S2P Require Import Prelude Types GoBinary Patch Lcs LcsTwoSided Kv Mdb MdbFacts Db DbFacts DbLease DbKv Frame LeaseFacts History DbKvRead DbKvWrite DbKvRange DbKvDelete Pb StateMachine Update SmMeta LeaseOps SmOps Events Compact ModStore ModMain ModSlices ModAgree ModFacts Watch ModStream WatchFacts ModNotice ModWatch WatchRun Services Instances StoreProps LeaseProps SmProps WatchProps ServiceProps.

Section Module.
Context (cfg : config) `{DifferOk} `{SnappyOk} `{MdbOk} `{HostSlices} `{Proto} `{ErrLib}.
Context (fuel : nat) (mapRange : list (bytes * Z) -> list (bytes * Z)) (shardID replicaID : Z).
Hypothesis marshal_txn : forall a, exists b, pb_Marshal MTxnResponse a = Ok b.

(** C25: the storage module and the native state machine are the same machine on a batch
    without ticks and compactions whose deletes, also those in transactions, name a single
    key each. Whatever the module's variables were left at and whichever slices the host
    fills, if the native transaction commits, the module's updates and its finish return,
    commit the same contents and give each entry the same value and data (or refuse, as
    the native one ignores, a message that does not decode); every key the native machine
    notifies watches of is in a queued notice. *)
Theorem module_agrees t entries xs t' rev newRev keys done_ epoch0 index0 newRev0 oldRev0 :
  Forall2 sameEntry entries xs ->
  updateTxn cfg fuel mapRange shardID replicaID t entries = Ok (t', (rev, newRev, keys, done_)) ->
  exists s' rs N, mod_batch cfg fuel mapRange shardID replicaID (mkMod t None epoch0 index0 newRev0 oldRev0 []) xs = Ok (s', rs, N)
    /\ md_env s' = t' /\ md_txn s' = None /\ Forall2 sameResult (ent_Result <$> done_) rs /\ noticed keys N.
Proof. by apply batch_follows. Qed.

End Module.

Section ModuleStore.
Context (cfg : config) `{DifferOk} `{SnappyOk} `{MdbOk}.

(** C26: a compaction of the module is bounded and safe. On a store whose events all have
    their records it returns for any order in which the map is ranged over, takes the
    first events below [max] but no more than its limit, leaves the rest of the log, and
    each key reads as before now and at every revision from [max - 1] on; an error is
    reported only when the log is empty or ran out before the limit. *)
Theorem module_compacts fuel mapRange t M E max :
  (forall l, mapRange l ≡ₚ l) -> 0 < max -> (1 < fuel)%nat ->
  Rep cfg t M -> EvtRep t E -> recorded E M ->
  (length E < fuel)%nat -> (forall k, (length (M k) < fuel)%nat) ->
  let taken := take (Z.to_nat mod_limitCompactionMaxKeys) (below max E) in
  exists t' last err M', mod_compact fuel fuel mapRange t max = Ok (t', last, err)
    /\ Rep cfg t' M' /\ EvtRep t' (drop (length taken) E)
    /\ (forall k r, r = 0 \/ max <= r + 1 -> visible r (M' k) = visible r (M k))
    /\ (err <> None -> drop (length taken) E = [])
    /\ forall d, d <> DbiRev -> d <> DbiVal -> d <> DbiEvt -> view t' d = view t d.
Proof.
  intros Hp Hm Hf1 HR HE Hrec Hf Hlen taken.
  destruct (mod_compact_ok cfg fuel mapRange max Hp Hm fuel t M E) as (t' & last & Ec & HR' & HE' & Hfr); try done.
  assert (batchOf max 0 E = taken) as Eb by (unfold batchOf; by rewrite Nat.sub_0_r). rewrite Eb in *.
  eexists t', last, _, _. split; [exact Ec|]. split; [exact HR'|]. split; [exact HE'|]. split; [|split; [|done]].
  - intros k r Hr. eapply visible_compacted; [exact HR| | |exact Hr].
    + intros e [He _]%elem_of_take_below. by apply Hrec.
    + apply Forall_forall. by intros e [_ He]%elem_of_take_below.
  - case_decide as HE0; [by rewrite HE0, drop_nil|]. case_decide as Hd; [by destruct Hd|done].
Qed.

(** [revScan] yields the events of the revisions it is given, in order, when each
    revision has events and those of one revision share their key revision (as those of a
    single command do). *)
Theorem module_revscan {S} fuel t E revs (yield : S -> kvEvent -> res (S * bool)) s :
  EvtRep t E -> (length E < fuel)%nat ->
  Forall (fun r => 0 <= r < 2 ^ 52 /\ (exists e, e ∈ E /\ evtUpper e = r)
                   /\ exists kr, forall e, e ∈ E -> evtUpper e = r -> ev_rev e = kr) revs ->
  mod_revScan fuel t revs yield s = runYield yield s (concat ((fun r => filter (fun e => evtUpper e = r) E) <$> revs)).
Proof.
  intros HE Hf Hrevs. rewrite (mod_revScan_ok fuel t E revs yield s HE); [|..|done].
  - do 2 f_equal. apply list_fmap_ext. intros i r Hi. rewrite Forall_forall in Hrevs.
    destruct (Hrevs r) as (_ & Hex & kr & Hkr); [by eapply list_elem_of_lookup_2|]. by destruct (groupOf_all t E r kr HE Hex Hkr).
  - eapply Forall_impl; [exact Hrevs|]. intros r (Hr & Hex & kr & Hkr). split; [done|]. by destruct (groupOf_all t E r kr HE Hex Hkr).
Qed.

End ModuleStore.

Section ModuleWatch.
Context (cfg : config) `{DifferOk} `{SnappyOk} `{MdbOk} `{HostSlices} `{Proto} {W : Type} `{RangeWatch W}.
Context (fuel : nat) (shardID replicaID : Z) (idRange : list Z -> list Z).
Hypothesis marshal_batch : forall a, exists b, pb_Marshal MWatchEventBatch a = Ok b.
Hypothesis marshal_sync : forall a, exists b, pb_Marshal MWatchEventSync a = Ok b.
Hypothesis marshal_header : forall a, exists b, pb_Marshal MResponseHeader a = Ok b.

(** Notices become exactly the events the watches want. For notices of increasing
    revisions, each of whose events share their key revision, on a store whose log
    agrees with its history and where the values of the notices' events are read right
    (which they are while they are the newest of their keys), [rangeWatchRecv] returns;
    for each notice, in order, it sends one batch per event of that revision that some
    watch of the notice wants, with the event's values and addressed to just the watches
    that want it (the ones that asked for previous values apart); all else it sends is
    no batch, and the progress it records is the last notice's revision. *)
Theorem module_notices t M E rev (s : @modStream W) notices :
  Logged cfg fuel t M E rev ->
  (forall n e, n ∈ notices -> e ∈ E -> evtUpper e = n_Val n -> readsRight t M (ev_key e) (evtUpper e)) ->
  notices <> [] ->
  Forall (fun n => Forall (readable s) (n_IDs n)) notices ->
  StronglySorted (fun n m => n_Val n < n_Val m) notices ->
  Forall (fun n => 0 < n_Val n <= rev /\ (exists e, e ∈ E /\ evtUpper e = n_Val n)
                   /\ exists kr, forall e, e ∈ E -> evtUpper e = n_Val n -> ev_rev e = kr) notices ->
  exists s' batches rest, mod_rangeWatchRecv fuel shardID replicaID idRange t s notices = Ok (s', concat batches ++ rest)
    /\ Forall2 (fun n l => Forall2 (batchFor s M (n_IDs n))
                  (filter (fun e => wanted s (n_IDs n) e = true) (filter (fun e => evtUpper e = n_Val n) E)) l) notices batches
    /\ Forall (fun m => isBatch m = false) rest
    /\ Some (st_progress s') = last (n_Val <$> notices) /\ st_cache s' = st_cache s /\ st_revs s' = st_revs s.
Proof.
  intros HL Hnp Hne Hread Hsort Hok.
  destruct (rangeWatchRecv_ok cfg fuel shardID replicaID idRange marshal_batch marshal_sync marshal_header t M E rev s notices)
    as (s' & batches & sync & notes & lst & E' & Hf & Hlast & Hs & Hn & Hp & Hrest); try done.
  exists s', batches, (sync ++ notes). split; [done|]. split; [done|]. split; [|by rewrite Hp, Hlast]. apply Forall_app. split.
  - unfold syncNote in Hs. destruct (0 <? _); [|by subst sync]. destruct Hs as (b & _ & ->). by apply Forall_singleton.
  - eapply Forall_impl; [exact Hn|]. by intros m (id & b & _ & _ & ->).
Qed.

(** C27: a watch from a start revision misses nothing and repeats nothing, where the
    module reads the values of the events right: where, whichever slices the host fills,
    no patch lies right below a plain value on the way down to them. However many
    commits fall between its two scans, the start returns and its batches are, in order,
    those of the events it selects from its start revision up to the revision of the
    second scan (the start being at most one past the first scan's revision); and from
    then on a notice addresses the watch exactly with the later events it selects. *)
Theorem module_watch_handover n (s : @modStream W) t0 t1 t2 req M1 M2 E N rev1 rev2 min rw1 rw2 rw3 :
  let id := u64 (wc_WatchId req) in let start := wc_StartRevision req in
  0 < start < 2 ^ 52 -> wc_WatchId req <> 0 -> getRevisionMin t0 = Ok min -> min <= start ->
  rw_Reserve (st_rw s) id = Some rw1 -> rw_Open rw1 id (wc_Key req) (wc_RangeEnd req) = Some rw2 -> rw_Start rw2 id = Some rw3 ->
  (exists b, pb_Marshal MWatchCreateRequest req = Ok b /\ b <> [] /\ pb_Unmarshal MWatchCreateRequest b = Some req) ->
  Logged cfg fuel t1 M1 E rev1 -> Logged cfg fuel t2 M2 (E ++ N) rev2 -> allRight t1 M1 (between start rev1 E) -> allRight t2 M2 (between (rev1 + 1) rev2 (E ++ N)) -> rev1 <= rev2 -> Forall (fun e => rev1 < evtUpper e) N ->
  exists s' out ms1 ms2, mod_watchStart fuel shardID replicaID n s t0 t1 t2 req = Ok (s', out)
    /\ filter (fun m => isBatch m = true) out = ms1 ++ ms2
    /\ Forall2 (startBatch req M1 rev1) (selected req (between start rev1 (E ++ N))) ms1
    /\ Forall2 (startBatch req M2 rev2) (selected req (between (rev1 + 1) rev2 (E ++ N))) ms2
    /\ (start <= rev1 + 1 -> selected req (between start rev1 (E ++ N)) ++ selected req (between (rev1 + 1) rev2 (E ++ N))
                              = selected req (between start rev2 (E ++ N)))
    /\ forall e, 0 < evtUpper e -> addressed s' e (wc_PrevKv req) id = selects req e && (rev2 <? evtUpper e).
Proof.
  intros id start Hst Hid Hmin Hle Hres Hopen Hstart (b & Eb & Hne & Hu) HL1 HL2 Hnp1 Hnp2 Hr HN.
  destruct (watchStart_ok cfg fuel shardID replicaID marshal_batch marshal_sync marshal_header n s t0 t1 t2 req M1 M2 E (E ++ N)
              rev1 rev2 min rw1 rw2 rw3) as (s' & out1 & out2 & notes & Es & Ho1 & Ho2 & Hn & Hreg); try done; [by exists b|].
  apply scan_batches in Ho1, Ho2. eexists s', _, _, _. rewrite between_app_later by done. split; [exact Es|].
  rewrite !filter_app, (startNote_noBatch _ _ _ _ _ Hn), app_nil_r. split; [done|]. split; [exact Ho1|]. split; [exact Ho2|]. split.
  - intros Hs1. rewrite <- filter_app, <- (between_app_later _ _ _ N) by done. f_equal. symmetry.
    apply between_split; [exact (EvtRep_order _ _ (lg_evt _ _ _ _ _ _ HL2))|done|done].
  - intros e He. eapply registered_addressed; [|exact Hreg|done]. intros b' Eb2. rewrite Eb in Eb2. by injection Eb2 as <-.
Qed.

End ModuleWatch.

(** ** Witnesses *)

(** The stores of the examples: the value on top is stored compressed. *)
Lemma exReads1 key r : readsRight exStore1 exM1 key r.
Proof.
  intros pre h1 h2 post E. exfalso. assert (length (exM1 key) <= 1)%nat as Hl.
  { unfold exM1, hset. case_decide; cbn; lia. }
  rewrite E, length_app in Hl. cbn in Hl. lia.
Qed.

Lemma two_split {A} (a b h1 h2 : A) pre post : [a; b] = pre ++ h1 :: h2 :: post -> a = h1 /\ b = h2.
Proof. destruct pre as [|x [|y pre]]; [by intros [= -> -> _]|..]; intros E; apply (f_equal length) in E; cbn in E; rewrite ?length_app in E; cbn in E; lia. Qed.

Lemma exReads2 key r : readsRight exStore2 exM2 key r.
Proof.
  intros pre h1 h2 post E _ _ _. destruct (decide (key = exKey)) as [->|Hne].
  - unfold exM2 in E. rewrite hset_same in E. unfold exM1 in E. rewrite hset_same in E.
    apply two_split in E as [<- <-]. vm_compute. discriminate.
  - unfold exM2, exM1 in E. rewrite !hset_other in E by done. exfalso. unfold exM0 in E. destruct pre; discriminate E.
Qed.

(** A put and a term notice. *)
Definition exPlain : list Entry :=
  [mkEntry 5 ([] ++ [Zb CMD_KV_PUT]) Result_zero; mkEntry 6 ([] ++ [Zb CMD_INTERNAL_TERM]) Result_zero].

Lemma module_agrees_witness : exists s' rs N,
  mod_batch defaultConfig 9 (fun l => l) 1 1 (mkMod exEnv None 0 0 0 0 [])
    [(5, [] ++ [Zb MCMD_KV_PUT]); (6, [] ++ [Zb MCMD_INTERNAL_TERM])] = Ok (s', rs, N).
Proof.
  destruct (returns_ok (updateTxn defaultConfig 9 (fun l => l) 1 1 exEnv exPlain)) as [[t' [[[rev newRev] keys] d]] E].
  { by vm_compute. }
  destruct (module_agrees defaultConfig 9 (fun l => l) 1 1 ltac:(by exists []) exEnv exPlain
              [(5, [] ++ [Zb MCMD_KV_PUT]); (6, [] ++ [Zb MCMD_INTERNAL_TERM])] t' rev newRev keys d 0 0 0 0)
    as (s' & rs & N & Em & _).
  - repeat constructor; unfold plainCmds; try set_solver; intros X; by vm_compute in X.
  - exact E.
  - exists s', rs, N. exact Em.
Defined.

Lemma module_compacts_witness : exists (t t' : @txn refMdb) last err,
  mod_compact 9 9 (fun l => l) t 3 = Ok (t', last, err).
Proof.
  destruct exLogged2 as [t HL].
  destruct (module_compacts defaultConfig 9 (fun l => l) t exM2 [exEvt; exEvt2] 3)
    as (t' & last & err & M' & E & _); [done|lia|lia|exact (lg_rep _ _ _ _ _ _ HL)|exact (lg_evt _ _ _ _ _ _ HL)
    |exact exRecorded|cbn; lia| |].
  - intros k. pose proof (exM2_len k). lia.
  - exists t, t', last, err. exact E.
Defined.

Lemma module_revscan_witness : exists t : @txn refMdb,
  mod_revScan 9 t [2; 3] (fun n _ => Ok (S n, true)) 0%nat = Ok 2%nat.
Proof.
  destruct exLogged2 as [t HL]. exists t.
  rewrite (module_revscan 9 t [exEvt; exEvt2] [2; 3] _ _ (lg_evt _ _ _ _ _ _ HL)); [reflexivity|cbn; lia|].
  repeat constructor; try lia.
  - exists exEvt. split; [left|by vm_compute].
  - exists (ev_rev exEvt). intros e [->|[->|X]%elem_of_cons]%elem_of_cons Hu; [done|by vm_compute in Hu|inversion X].
  - exists exEvt2. split; [right; left|by vm_compute].
  - exists (ev_rev exEvt2). intros e [->|[->|X]%elem_of_cons]%elem_of_cons Hu; [by vm_compute in Hu|done|inversion X].
Defined.

(** Two watches of the key, one of them asking for previous values, and notices of
    revisions 2 and 3. *)
#[global] Instance unitWatch : RangeWatch unit :=
  {| rw_Reserve _ _ := Some tt; rw_Open _ _ _ _ := Some tt; rw_Start _ _ := Some tt;
     rw_OpenStart _ _ _ _ := Some tt; rw_Stop _ _ := tt; rw_GroupStart _ := tt; rw_GroupStop _ := tt |}.

Definition watchProto : Proto :=
  {| pb_Marshal A m a := Ok [Zb 1];
     pb_Unmarshal A m b := match m in msg A return option A with MWatchCreateRequest => Some (exWatch 1) | _ => None end |}.

Definition exStream : @modStream unit := mkModStream tt {[ 4 := [Zb 1] ]} {[ 4 := 1 ]} 4 0.

Lemma module_notices_witness : exists (t : @txn refMdb) s' batches rest,
  @mod_rangeWatchRecv _ _ reuseSlices watchProto unit 9 1 1 (fun l => l) t exStream [mkNotice 2 [4]; mkNotice 3 [4; 5]]
    = Ok (s', concat batches ++ rest) /\ length <$> batches = [1%nat; 1%nat].
Proof.
  exists exStore2.
  destruct (@module_notices defaultConfig _ _ _ _ _ _ reuseSlices watchProto unit 9 1 1 (fun l => l)
              ltac:(by exists [Zb 1]) ltac:(by exists [Zb 1]) ltac:(by exists [Zb 1]) exStore2 exM2 [exEvt; exEvt2] 3 exStream
              [mkNotice 2 [4]; mkNotice 3 [4; 5]] exLoggedTwo (fun _ e _ _ _ => exReads2 (ev_key e) (evtUpper e))) as (s' & batches & rest & E & Hf & _).
  - done.
  - repeat constructor; intros X; by vm_compute in X |- *.
  - repeat constructor.
  - repeat constructor; cbn; try lia.
    + exists exEvt. split; [left|by vm_compute].
    + exists (ev_rev exEvt). intros e [->|[->|X]%elem_of_cons]%elem_of_cons Hu; [done|by vm_compute in Hu|inversion X].
    + exists exEvt2. split; [right; left|by vm_compute].
    + exists (ev_rev exEvt2). intros e [->|[->|X]%elem_of_cons]%elem_of_cons Hu; [by vm_compute in Hu|done|inversion X].
  - exists s', batches, rest. split; [exact E|].
    apply Forall2_cons_inv_l in Hf as (b1 & bs & H1' & Hf & ->). apply Forall2_cons_inv_l in Hf as (b2 & bs' & H2' & Hf & ->).
    apply Forall2_nil_inv_l in Hf as ->. apply Forall2_length in H1', H2'. cbn [fmap list_fmap]. rewrite <- H1', <- H2'. by vm_compute.
Defined.

(** The watch starts at revision 1; a put commits revision 3 between its scans. *)
Lemma module_watch_handover_witness : exists (t1 t2 : @txn refMdb) s' out ms1 ms2,
  @mod_watchStart _ _ reuseSlices watchProto unit unitWatch 9 1 1 9 exStream exEnv t1 t2 (exWatch 1) = Ok (s', out)
  /\ filter (fun m => isBatch m = true) out = ms1 ++ ms2 /\ length ms1 = 1%nat /\ length ms2 = 1%nat.
Proof.
  exists exStore1, exStore2.
  destruct (returns_ok (getRevisionMin exEnv)) as [min Emin]; [by vm_compute|].
  destruct (@module_watch_handover defaultConfig _ _ _ _ _ _ reuseSlices watchProto unit unitWatch 9 1 1
              ltac:(by exists [Zb 1]) ltac:(by exists [Zb 1]) ltac:(by exists [Zb 1]) 9 exStream exEnv exStore1 exStore2 (exWatch 1)
              exM1 exM2 [exEvt] [exEvt2] 2 3 min tt tt tt) as (s' & out & ms1 & ms2 & E & Eb & Hf1 & Hf2 & _).
  - cbn. lia.
  - done.
  - exact Emin.
  - vm_compute in Emin. injection Emin as <-. cbn. lia.
  - reflexivity.
  - reflexivity.
  - reflexivity.
  - exists [Zb 1]. split; [reflexivity|]. split; [discriminate|reflexivity].
  - exact exLoggedOne.
  - exact exLoggedTwo.
  - apply Forall_true. intros e. apply exReads1.
  - apply Forall_true. intros e. apply exReads2.
  - lia.
  - repeat constructor.
  - exists s', out, ms1, ms2. split; [exact E|]. split; [exact Eb|]. apply Forall2_length in Hf1, Hf2.
    split; [rewrite <- Hf1|rewrite <- Hf2]; vm_compute; reflexivity.
Defined.
