(* ===== verification/SvcProps.v ===== *)
(** * The gRPC module: properties (src/module/service-grpc, src/endpoint_handler.go) *)

From Stdlib Require Import Strings.String.
From stdpp Require Import gmap sorting.
From S2P Require Import Prelude Types GoBinary Patch Lcs LcsTwoSided Kv Mdb MdbFacts Db DbFacts DbLease DbKv Frame History DbKvRead DbKvWrite DbKvRange Pb StateMachine RangeQuery Update LeaseOps Events Compact SmMeta SmOps ModStore ModMain ModSlices ModAgree ModRead ModFacts Watch WatchFacts ModStream ModNotice ModWatch Wire WireFacts WireRef GrpcErrors SvcGrpc SvcFacts SvcTypes SvcCompose Endpoint Services ShardSm Instances StoreProps LeaseProps SmProps WatchProps ServiceProps ModProps.

Import GrpcErrors.
Import Svc.

Section WireProps.
Context {L : Wire.WireLib} {LOk : WireLibOk}.

(** C34: the generated codec is faithful and its sizes are exact. A response to a watch
    whose fields are in range is marshalled without a panic into as many bytes as its
    size says, and these read back as the same response; so does a batch of the storage
    module. *)
Theorem wire_round_trip (r : Wire.raw Wire.WatchResponse) (b : Wire.raw Wire.WatchEventBatch) : WatchResponse_ok r -> WatchEventBatch_ok b ->
  (exists d, Wire.WatchResponse_MarshalVT r = Ok d /\ blen d = Wire.WatchResponse_SizeVT r
             /\ Wire.WatchResponse_UnmarshalVT Wire.WatchResponse_zero d = Ok (r, None))
  /\ exists d, Wire.marshalVT (Wire.WatchEventBatch_SizeVT b) (Wire.WatchEventBatch_body b) = Ok d
             /\ blen d = Wire.WatchEventBatch_SizeVT b
             /\ Wire.WatchEventBatch_UnmarshalVT Wire.WatchEventBatch_zero d = Ok (b, None).
Proof.
  intros Hr Hb. split; eexists.
  - split; [apply marshalVT_exact, WatchResponse_size|]. split; [apply WatchResponse_size|by apply WatchResponse_read].
  - split; [apply marshalVT_exact, WatchEventBatch_size|]. split; [apply WatchEventBatch_size|by apply WatchEventBatch_read].
Qed.

(** C36: decoding ends on every input. Whatever the bytes, and whatever the message they
    are merged into holds, the decoders of the five messages the module receives return
    a message and perhaps an error: they neither run on nor index out of range. *)
Theorem decode_returns (d : bytes) :
  (forall m, exists r, Wire.RangeRequest_UnmarshalVT m d = Ok r)
  /\ (forall m, exists r, Wire.ResponseHeader_UnmarshalVT m d = Ok r)
  /\ (forall m, exists r, Wire.WatchEventBatch_UnmarshalVT m d = Ok r)
  /\ (forall m, exists r, Wire.WatchEventSync_UnmarshalVT m d = Ok r)
  /\ (forall m, exists r, Wire.WatchResponse_UnmarshalVT m d = Ok r).
Proof.
  split; [|split; [|split; [|split]]]; intros m;
    [apply RangeRequest_total|apply ResponseHeader_total|apply WatchEventBatch_total|apply WatchEventSync_total|apply WatchResponse_total].
Qed.

Context {LT : WireTypes}.

(** C13: no request breaks the module, and what it keeps between calls stays well typed.
    When it starts its messages hold integers of their fields' types; and whatever bytes
    come in for whichever unary method of its services, the handler returns, keeps the
    types, and makes exactly one call - an answer or a question to the shard - unless it
    returns an error. The same holds for the answer to a status read: one that succeeded
    is answered. *)
Theorem svc_types :
  svc_typed svcInit
  /\ (forall read service ms name h, (service, ms) ∈ services read -> (name, Unary h) ∈ ms ->
      forall s in_, svc_typed s -> exists s' calls e, h s in_ = Ok (s', calls, e) /\ svc_typed s' /\ (e = None -> length calls = 1%nat))
  /\ forall s val data, svc_typed s -> exists s' calls, asyncRecv s "maintenanceStatus" data val None = Ok (s', calls)
      /\ svc_typed s' /\ (length calls <= 1)%nat /\ (val = 1 -> length calls = 1%nat).
Proof.
  split; [exact svcInit_typed|]. split.
  - intros read service ms name h Hs Hm. exact (services_safe read service ms name h Hs Hm).
  - intros s val data Hs. exact (statusRecv_typed s val data Hs).
Qed.

End WireProps.

(** ** Answers *)

Lemma table_texts e : e ∈ errTable -> errStringToError (snd (statusOf e)) = Some e.
Proof.
  assert (Forall (fun e => errStringToError (snd (statusOf e)) = Some e) errTable) as Hf by (repeat constructor).
  rewrite Forall_forall in Hf. apply Hf.
Qed.

Lemma errString_None s : errStringToError s = None <-> forall e, e ∈ errTable -> snd (statusOf e) <> s.
Proof.
  unfold errStringToError. split.
  - intros Hn e He Es. apply list_elem_of_In in He. pose proof (find_none _ _ Hn e He) as Hx. cbn in Hx. subst s. by rewrite String.eqb_refl in Hx.
  - intros Hn. destruct (List.find _ errTable) as [e|] eqn:E; [|done]. apply find_some in E as [He Hs].
    apply String.eqb_eq in Hs. apply list_elem_of_In in He. by apply Hn in He.
Qed.

(** An answer of the shard: data are sent, a text of the table becomes its status. *)
Lemma svc_answer_data {L : Wire.WireLib} (s : svc) (name : string) (data : bytes) (val : Z) :
  name <> "maintenanceStatus"%string ->
  asyncRecv s name data 1 None = Ok (s, [Send data])
  /\ (val <> 1 -> forall e, e ∈ errTable -> data = str (snd (statusOf e)) ->
       asyncRecv s name data val None = Ok (s, [SendErr (fst (statusOf e)) data])).
Proof.
  intros Hn. apply String.eqb_neq in Hn. unfold asyncRecv. rewrite Hn. split; [done|].
  intros Hv e He ->. apply Z.eqb_neq in Hv. unfold grpcError_. rewrite Hv. cbn [negb].
  unfold str. rewrite string_of_list_byte_of_string, table_texts by done. done.
Qed.

(** A refused revision is told by a status of the table. *)
Lemma refused_status m req e code desc : refused m req = Some e -> errStatus e = Some (code, desc) ->
  exists g, g ∈ errTable /\ statusOf g = (code, desc).
Proof.
  unfold refused, refusedAt. intros Ee Es. repeat case_match; simplify_eq; cbn in Es; injection Es as <- <-;
    [exists ErrGRPCCompacted|exists ErrGRPCFutureRev]; (split; [|done]); unfold errTable; set_solver.
Qed.

(** C35: how the shard's answers are passed on. A request other than for the status is
    answered with the data as they are when the value is 1; otherwise with an error: the
    status of the table whose text the data are, with that text, or Unknown with the data
    as text when they are none of the table's. A status the client library reports
    itself is passed on. *)
Theorem svc_answers {L : Wire.WireLib} (s : svc) (name : string) (data : bytes) (val : Z) :
  name <> "maintenanceStatus"%string ->
  asyncRecv s name data 1 None = Ok (s, [Send data])
  /\ (val <> 1 ->
      (forall e, e ∈ errTable -> data = str (snd (statusOf e)) ->
                 asyncRecv s name data val None = Ok (s, [SendErr (fst (statusOf e)) data]))
      /\ ((forall e, e ∈ errTable -> data <> str (snd (statusOf e))) ->
          asyncRecv s name data val None = Ok (s, [SendErr codes_Unknown data])))
  /\ forall code text, asyncRecv s name data val (Some (Status code text)) = Ok (s, [SendErr code (str text)]).
Proof.
  intros Hn. destruct (svc_answer_data s name data val Hn) as [Hone Ht]. split; [exact Hone|].
  apply String.eqb_neq in Hn. unfold asyncRecv in *. rewrite Hn in *. split; [|done]. intros Hv. split; [by apply Ht|].
  apply Z.eqb_neq in Hv. unfold grpcError_. rewrite Hv. cbn [negb].
  intros Hnone. rewrite (proj2 (errString_None _)).
  - cbn. unfold str. by rewrite list_byte_of_string_of_list_byte.
  - intros e He Es. apply (Hnone e He). unfold str. by rewrite Es, list_byte_of_string_of_list_byte.
Qed.

(** ** Watches *)

Section WatchDelivery.
Context {L : Wire.WireLib} {LOk : WireLibOk} {P : Type} {B : BufferSet P} {BOk : BufferSetOk P}.

(** C12: no event of a watch is lost, repeated or reordered on its way to the client. From
    buffers that hold [Q], the messages of a stream are all handled, each response sent
    reads back as it was meant, and for every watch the events sent to it followed by
    those left in its buffer are the ones that were buffered followed by the ones the
    messages added, in order, however often the buffer ran full; once a sync named the
    watch and nothing was added since, none is left. *)
Theorem svc_watch_delivers (ms : list streamMsg) (p : P) Q :
  holds p Q -> Forall (streamMsg_ok (P := P)) ms ->
  exists p' rs Q', shardRecvs p (encodeMsg <$> ms) = Ok (p', sends rs) /\ holds p' Q'
    /\ Forall (fun r => Wire.WatchResponse_UnmarshalVT Wire.WatchResponse_zero (Wire.WatchResponse_body (Wire.msgOf r)) = Ok (Wire.msgOf r, None)) rs
    /\ (forall i, sentTo i rs ++ (Q' i).*1 = (Q i).*1 ++ concat ((fun m => msgNew m i) <$> ms))
    /\ forall pre m post id, ms = pre ++ m :: post -> id ∈ synced m ->
         concat ((fun m => msgNew m (u64 id)) <$> post) = [] -> Q' (u64 id) = [].
Proof.
  intros Hp Hms. destruct (shardRecvs_ok ms p Q Hp Hms) as (p' & rs & Q' & E & Hp' & Hok & Hc & Hs).
  exists p', rs, Q'. split; [exact E|]. split; [exact Hp'|]. split; [|by split].
  eapply Forall_impl; [exact Hok|]. intros r. apply WatchResponse_read.
Qed.

End WatchDelivery.

Section EndToEnd.
Context (cfg : config) `{DifferOk} `{SnappyOk} `{MdbOk} `{HostSlices} `{Proto} {L : Wire.WireLib} {LOk : WireLibOk}.
Context {P : Type} {B : BufferSet P} {BOk : BufferSetOk P} {W : Type}.
Context (fuel : nat) (shardID replicaID : Z) (idRange : list Z -> list Z).
Hypothesis wire_batch : forall m, pb_Marshal MWatchEventBatch m = Ok (Wire.WatchEventBatch_body (Wire.ofBatch m)).
Hypothesis wire_sync : forall m, pb_Marshal MWatchEventSync m = Ok (Wire.WatchEventSync_body (Wire.msgOf m)).
Hypothesis wire_header : forall m, pb_Marshal MResponseHeader m = Ok (Wire.ResponseHeader_body (Wire.msgOf m)).


(** C9: a watch from a start revision, all the way to its client. Where the values of
    the events are read right (no patch lies right below a plain value on the way down
    to them), whichever slices the host fills: however many commits fall between the two
    scans of the storage module, the start returns and the gRPC module handles its
    messages: with an empty buffer for the watch, the client gets first the response
    that its watch was created, and then exactly the events it selects from its start up
    to the revision of the second scan (the start being at most one past that of the
    first), once and in order, each with the record of the history; nothing stays behind
    in the buffer unsent. No replayed event carries its previous value, asked for or
    not: the scans name the watch among those without. *)
Theorem module_start_end_to_end {RW : RangeWatch W} n (s : @modStream W) t0 t1 t2 req M1 M2 E N rev1 rev2 min rw1 rw2 rw3 (p : P) Q :
  let wid := wc_WatchId req in let id := u64 wid in let start := wc_StartRevision req in
  0 < start < 2 ^ 52 -> wid <> 0 -> getRevisionMin t0 = Ok min -> min <= start ->
  rw_Reserve (st_rw s) id = Some rw1 -> rw_Open rw1 id (wc_Key req) (wc_RangeEnd req) = Some rw2 -> rw_Start rw2 id = Some rw3 ->
  (exists b, pb_Marshal MWatchCreateRequest req = Ok b) ->
  Logged cfg fuel t1 M1 E rev1 -> Logged cfg fuel t2 M2 (E ++ N) rev2 -> allRight t1 M1 (between start rev1 E) -> allRight t2 M2 (between (rev1 + 1) rev2 (E ++ N)) -> rev1 <= rev2 -> Forall (fun e => rev1 < evtUpper e) N ->
  Forall (sendable (P := P) M1) E -> Forall (sendable (P := P) M2) (E ++ N) ->
  is_i64 wid -> id <> WATCH_ID_ERROR -> is_u64 shardID -> is_u64 replicaID -> holds p Q -> Q id = [] ->
  exists s' out p' rs, mod_watchStart fuel shardID replicaID n s t0 t1 t2 req = Ok (s', out)
    /\ shardRecvs p ((fun m : Result => (res_Value m, res_Data m)) <$> out)
       = Ok (p', sends (createdResponse id (mod_responseHeader shardID replicaID rev1) :: rs))
    /\ Forall (fun r => Wire.WatchResponse_UnmarshalVT Wire.WatchResponse_zero (Wire.WatchResponse_body (Wire.msgOf r)) = Ok (Wire.msgOf r, None)) rs
    /\ sentTo id rs = (wireEvent M1 false <$> selected req (between start rev1 (E ++ N)))
                      ++ (wireEvent M2 false <$> selected req (between (rev1 + 1) rev2 (E ++ N)))
    /\ (start <= rev1 + 1 -> selected req (between start rev1 (E ++ N)) ++ selected req (between (rev1 + 1) rev2 (E ++ N))
                              = selected req (between start rev2 (E ++ N))).
Proof.
  intros wid id start Hst Hid Hmin Hle Hres Hopen Hstart Hb HL1 HL2 Hnp1 Hnp2 Hrev HN HE1 HE2 Hw He Hs Hr Hp HQ.
  destruct (start_reaches_client cfg fuel shardID replicaID wire_batch wire_sync wire_header n s t0 t1 t2 req M1 M2 E (E ++ N)
              rev1 rev2 min rw1 rw2 rw3 p Q) as (s' & out & p' & rs & Es & Er & Ho & Hsent); try done.
  exists s', out, p', rs. rewrite (between_app_later start rev1) by done. split; [exact Es|]. split; [exact Er|]. split; [exact Ho|].
  split; [exact Hsent|]. intros Hs1. rewrite <- filter_app, <- (between_app_later _ _ _ N) by done. f_equal. symmetry.
  apply between_split; [exact (EvtRep_order _ _ (lg_evt _ _ _ _ _ _ HL2))|done|done].
Qed.

End EndToEnd.

Section PutEndToEnd.
Context (cfg : config) `{DifferOk} `{SnappyOk} `{MdbOk} `{HostSlices} `{Proto} `{ErrLib} {L : Wire.WireLib}.
Context (fuel : nat) (mapRange : list (bytes * Z) -> list (bytes * Z)) (shardID replicaID : Z).
Hypothesis marshal_txn : forall a, exists b, pb_Marshal MTxnResponse a = Ok b.
Hypothesis marshal_put : forall a, exists b, pb_Marshal MPutResponse a = Ok b.

(** C10: a put through both wasm modules. The bytes of an accepted put become one command;
    the storage module, whatever its variables were left at, applies it as a batch of its
    own and commits the history with the new record on top, one revision and one index
    further; it queues a notice for the key; and its answer goes back to the client as it
    is: the response with the new revision and, when asked for, the replaced value. *)
Theorem module_put_end_to_end t m M A req in_ index epoch0 index0 newRev0 oldRev0 (sv : svc) :
  MetaRep t m -> StoreAt cfg (mkUpd t (m_epoch m) (m_rev m) []) M A -> pb_Unmarshal MPutRequest in_ = Some req ->
  putAllowed (mkUpd t (m_epoch m) (m_rev m) []) req ->
  put_args (m_rev m + 1) 0 (u64 (pr_Lease req)) (pr_Key req) (pr_Value req) (pr_IgnoreValue req) ->
  pr_IgnoreLease req = false -> 0 <= pr_Lease req < 2 ^ 63 -> is_u64 index -> m_rev m + 1 < 2 ^ 52 - 1 ->
  let M' := hset M (pr_Key req) (putRec (m_rev m + 1) 0 (pr_Lease req) (pr_Value req) (pr_IgnoreValue req) false
                                   (M (pr_Key req)) :: M (pr_Key req)) in
  exists name cmd s' data N A' prev,
    kvPut in_ = [ApplyAsync name cmd]
    /\ mod_batch cfg fuel mapRange shardID replicaID (mkMod t None epoch0 index0 newRev0 oldRev0 []) [(index, cmd)] = Ok (s', [(1, data)], N)
    /\ MetaRep (md_env s') (withApplied m index (m_rev m + 1))
    /\ StoreAt cfg (mkUpd (md_env s') (m_epoch m) (m_rev m + 1) []) M' A'
    /\ noticed [pr_Key req] N
    /\ asyncRecv sv name data 1 None = Ok (sv, [Send data])
    /\ pb_Marshal MPutResponse (mkPutResponse (Some (responseHeader shardID replicaID (m_rev m + 1)))
         (if pr_PrevKv req then Some (kv_ToProto prev) else None)) = Ok data
    /\ kvOr (pr_Key req) (visible 0 (M (pr_Key req))) prev.
Proof.
  intros HM HS Hdec Hal Hargs Hig Hl Hi Hb M'.
  destruct (updateTxn_put cfg fuel mapRange shardID replicaID t m M A req in_ index HM HS Hdec Hal Hargs Hig Hl marshal_put Hi Hb)
    as (t' & A' & prev & data & E & Ed & Hp & HM' & HS').
  destruct (batch_follows cfg fuel mapRange shardID replicaID marshal_txn t _ [(index, in_ ++ [Zb MCMD_KV_PUT])] t' _ _ _ _
              epoch0 index0 newRev0 oldRev0 ltac:(repeat constructor; unfold plainCmds; try set_solver; discriminate) E) as (s' & rs & N & Em & Et & _ & Hrs & HN).
  apply Forall2_cons_inv_l in Hrs as (x & rs' & Hx & Hrs & ->). apply Forall2_nil_inv_l in Hrs as ->.
  destruct Hx as [->|[X _]]; [|discriminate X]. cbn [ent_Result res_Value res_Data] in Em. subst t'.
  exists "kvPut"%string, (in_ ++ [Zb MCMD_KV_PUT]), s', data, N, A', prev. by repeat (split; [done|]).
Qed.

End PutEndToEnd.

Section RangeEndToEnd.
Context (cfg : config) `{DifferOk} `{SnappyOk} `{MdbOk} `{Proto} `{ErrLib} {L : Wire.WireLib}.
Context (fuel : nat) (shardID replicaID : Z).
Hypothesis marshal_range : forall a, exists b, pb_Marshal MRangeResponse a = Ok b.

(** C11: a read through both wasm modules. The bytes of an unlimited range request become
    one query; the storage module answers it from the history: every record the request
    selects, in key order, with their count and the current revision, which goes back to
    the client as it is; or a refusal when the revision was compacted or is still to come,
    which reaches the client as the status whose text it is. The native state machine gives
    the same bytes for the same request. *)
Theorem module_range_end_to_end n t m M ks req in_ r wp (sv : svc) localRev :
  MetaRep t m -> Rep cfg t M -> pb_Unmarshal MRangeRequest in_ = Some req ->
  Wire.RangeRequest_UnmarshalVT (sv_range sv) in_ = Ok (r, None) ->
  rr_Key req <> [] -> rr_Limit req = 0 -> rr_CountOnly req = false ->
  StronglySorted blt ks -> (forall k, k ∈ ks <-> M k <> []) -> (forall k, (length (M k) <= n)%nat) -> (length ks + n < fuel)%nat ->
  exists sv' name query val data,
    kvRange sv in_ = Ok (sv', [ReadAsync name query (rr_Serializable (Wire.known r))], None)
    /\ mod_read cfg fuel shardID replicaID t wp query = Ok (val, data)
    /\ Update.Query cfg fuel shardID replicaID (mkSm t localRev) (in_ ++ [Zb StateMachine.QUERY_KV_RANGE]) = Ok (Some (mkResult val data))
    /\ match refused m req with
       | Some e => val = 0 /\ data = errText e
           /\ forall code desc, errStatus e = Some (code, desc) -> errText e = str desc ->
              asyncRecv sv' name data val None = Ok (sv', [SendErr code data])
       | None => val = 1 /\ asyncRecv sv' name data val None = Ok (sv', [Send data])
           /\ exists items, Forall2 (rangeItem (rr_KeysOnly req)) (DbKvRange.answer (reqRange req) M ks) items
              /\ pb_Marshal MRangeResponse (fullResponse cfg (responseHeader shardID replicaID (m_rev m)) items
                                              (blen (DbKvRange.answer (reqRange req) M ks))) = Ok data
       end.
Proof.
  intros HM HR Hd Hw Hk Hl Hc Hs Hks Hn Hf.
  pose proof (queryRange_ok cfg fuel shardID replicaID n t m M ks req HM HR Hk Hl Hc Hs Hks Hn Hf) as HQ.
  set (full := in_ ++ [Zb MQUERY_KV_RANGE]). set (sv' := mkSvc r (sv_members sv) (sv_status sv)).
  assert (exists val data, mod_readRange cfg fuel shardID replicaID t full in_ = Ok (val, data) /\
    match refused m req with
    | Some e => val = 0 /\ data = errText e
    | None => val = 1 /\ exists items, Forall2 (rangeItem (rr_KeysOnly req)) (DbKvRange.answer (reqRange req) M ks) items
        /\ pb_Marshal MRangeResponse (fullResponse cfg (responseHeader shardID replicaID (m_rev m)) items
                                        (blen (DbKvRange.answer (reqRange req) M ks))) = Ok data
    end) as (val & data & Er & Hr).
  { unfold mod_readRange. rewrite Hd, (getRevision_rep t m HM). unfold ModMain.mod_queryRange. cbn [rbind].
    destruct (refused m req) as [e|]; [rewrite HQ; eexists _, _; split; [reflexivity|done]|].
    destruct HQ as (items & Hi & ->). cbn [rbind]. destruct (marshal_range (fullResponse cfg (responseHeader shardID replicaID (m_rev m)) items
      (blen (DbKvRange.answer (reqRange req) M ks)))) as [d Em]. rewrite Em. exists 1, d. eauto 6. }
  exists sv', "kvRange"%string, full, val, data. split; [unfold kvRange; by rewrite Hw|]. split; [rewrite <- Er; apply mod_read_range|].
  split; [rewrite Query_range; apply (readRange_agree cfg fuel shardID replicaID t full in_ req val data Hd Er); by right|].
  destruct (svc_answer_data sv' "kvRange" data val ltac:(done)) as [Hone Ht].
  revert Hr. destruct (refused m req) as [e|] eqn:Ee.
  - intros [-> ->]. split; [done|]. split; [done|]. intros code desc Es Et. revert Et.
    destruct (refused_status m req e code desc Ee Es) as (g & Hg & E).
    intros Et. specialize (Ht ltac:(done) g Hg). rewrite E in Ht. by apply Ht.
  - intros (-> & items & Hi & Em). split; [done|]. split; [exact Hone|]. eauto.
Qed.
End RangeEndToEnd.

(** The two HTTP endpoints agree. The native handler leaves to the gRPC server exactly
    the HTTP/2 requests whose content type begins with application/grpc; to any other a
    client gets the same status and body as from the module's handler. *)
Theorem endpoints_agree `{Endpoint.HostStatusOk} (r : Endpoint.Request) :
  (Endpoint.response None [] (Endpoint.ServeHTTP r) = None
   <-> Endpoint.ProtoMajor r = 2 /\ exists rest, Endpoint.ContentType r = str "application/grpc" ++ rest)
  /\ (Endpoint.isGrpc r = false -> forall method body,
      Endpoint.response None [] (Endpoint.ServeHTTP r) = Some (Endpoint.hostResponse (Endpoint.httpHandler method (Endpoint.Path r) body))).
Proof. split; [apply Endpoint.ServeHTTP_grpc|intros Hg method body; by apply Endpoint.ServeHTTP_plain]. Qed.

(** ** Witnesses *)

#[global] Instance refWireTypes : WireTypes.
Proof.
  split; intros d i; cbn [Wire.DecodeVarint Wire.DecodeVarintInt64 refWire].
  - unfold refVarint. destruct (i <? 0); [by evalZ|]. destruct (Uvarint _) as [v n] eqn:E. destruct (n <=? 0); [by evalZ|]. cbn [fst].
    pose proof (Uvarint_u64 (drop (Z.to_nat i) d)) as Hu. by rewrite E in Hu.
  - destruct (refVarint d i). apply i64_range.
Qed.

(** Buffers that hold up to 75 bytes each. *)
Definition boxes : Type := Z -> list bytes.

#[global] Instance exBoxes : BufferSet boxes := {|
  mv_Append p i b :=
    if 75 <? fold_right Z.add (blen b) (blen <$> p i) then None else Some (fun j => if j =? i then p i ++ [b] else p j);
  mv_Iter p i := p i;
  mv_Reset p i := fun j => if j =? i then [] else p j
|}.

#[global] Instance exBoxesOk : BufferSetOk boxes.
Proof.
  split; cbn [mv_Append mv_Iter mv_Reset exBoxes].
  - intros p i b p'. destruct (_ <? _); [done|]. intros [= <-]. by rewrite Z.eqb_refl.
  - intros p i b p' j. destruct (_ <? _); [done|]. intros [= <-] Hj. by destruct (Z.eqb_spec j i).
  - intros p i. by rewrite Z.eqb_refl.
  - intros p i j Hj. by destruct (Z.eqb_spec j i).
Qed.

Definition exEmpty : boxes := fun _ => [].

Lemma exHolds : holds exEmpty (fun _ => []).
Proof. intros i. split; [done|constructor]. Qed.

Lemma roomy_small w : blen (Wire.Event_body w) <= 67 -> roomy (P := boxes) w.
Proof.
  intros Hw p i r Hp. cbn [mv_Append mv_Iter exBoxes] in *. rewrite Hp. cbn [fmap list_fmap fold_right].
  destruct (Z.ltb_spec 75 (blen (entryOf (w, r)))); [|done]. unfold entryOf in *. cbn [fst snd] in *.
  rewrite blen_app, blen_be_put in *. lia.
Qed.

Lemma exSendable : Forall (sendable (P := boxes) exM2) [exEvt; exEvt2].
Proof.
  apply Forall_cons. split; [|apply Forall_singleton].
  all: intros []; (split; [|apply roomy_small; vm_compute; discriminate]).
  all: split; [left; reflexivity|]; split; [|split; [|evalZ]]; intros k Ek; vm_compute in Ek; try discriminate Ek; injection Ek as <-.
  all: split; evalZ.
Qed.

Lemma exSendable1 : Forall (sendable (P := boxes) exM1) [exEvt].
Proof.
  apply Forall_singleton. intros []; (split; [|apply roomy_small; vm_compute; discriminate]).
  all: split; [left; reflexivity|]; split; [|split; [|evalZ]]; intros k Ek; vm_compute in Ek; try discriminate Ek; injection Ek as <-.
  all: split; evalZ.
Qed.

(** The storage module marshals with the generated code. *)
Definition wireProto : Proto :=
  {| pb_Marshal A m :=
       match m in msg A return A -> res bytes with
       | MWatchEventBatch => fun a => Ok (Wire.WatchEventBatch_body (Wire.ofBatch a))
       | MWatchEventSync => fun a => Ok (Wire.WatchEventSync_body (Wire.msgOf a))
       | MResponseHeader => fun a => Ok (Wire.ResponseHeader_body (Wire.msgOf a))
       | _ => fun _ => Ok [Zb 1]
       end;
     pb_Unmarshal A m b := match m in msg A return option A with MWatchCreateRequest => Some (exWatch 1) | _ => None end |}.



(** A response with an event and its previous value, and the batch of that event. *)
Definition exResponse : Wire.raw Wire.WatchResponse :=
  Wire.msgOf (Wire.mkWatchResponse (Some (Wire.msgOf (mkResponseHeader 7 8 9 1))) (-1) true true 5 (str "gone") true
    [wireEvent exM2 true exEvt2; wireEvent exM2 false exEvt]).

Definition exBatch : Wire.raw Wire.WatchEventBatch := Wire.msgOf (Wire.mkWatchEventBatch (Some (wireEvent exM2 true exEvt2)) 3 [300; -1] [4]).

Lemma exEvent_ok b e : e ∈ [exEvt; exEvt2] -> Event_ok (wireEvent exM2 b e).
Proof. pose proof exSendable as Hs. rewrite Forall_forall in Hs. intros He. by destruct (Hs e He b). Qed.

Lemma wire_round_trip_witness :
  (exists d, Wire.WatchResponse_MarshalVT exResponse = Ok d /\ blen d = Wire.WatchResponse_SizeVT exResponse
             /\ Wire.WatchResponse_UnmarshalVT Wire.WatchResponse_zero d = Ok (exResponse, None))
  /\ exists d, Wire.marshalVT (Wire.WatchEventBatch_SizeVT exBatch) (Wire.WatchEventBatch_body exBatch) = Ok d
             /\ blen d = Wire.WatchEventBatch_SizeVT exBatch
             /\ Wire.WatchEventBatch_UnmarshalVT Wire.WatchEventBatch_zero d = Ok (exBatch, None).
Proof.
  apply (wire_round_trip exResponse exBatch).
  - split; [reflexivity|]. split; [intros h [= <-]; evalZ|]. split; [evalZ|]. split; [evalZ|]. split; [evalZ|].
    constructor; [apply exEvent_ok; right; left|]. constructor; [apply exEvent_ok; left|constructor].
  - split; [reflexivity|]. split; [intros e [= <-]; apply exEvent_ok; right; left|]. split; [evalZ|].
    split; (split; [repeat (constructor; [evalZ|]); constructor|evalZ]).
Defined.

(** A batch that fills the buffer of watch 4, another for it and 5, a progress notice, and
    a sync of watch 4. *)
Definition exMsgs : list streamMsg :=
  [SBatch 0 (Wire.mkWatchEventBatch (Some (wireEvent exM2 false exEvt)) 2 [4] []);
   SBatch 0 (Wire.mkWatchEventBatch (Some (wireEvent exM2 true exEvt2)) 3 [4] [5]);
   SNotify 5 (mkResponseHeader 1 1 3 0); SSync 0 (mkWatchEventSync [4] 3)].

Lemma svc_watch_delivers_witness : exists p' rs (Q' : Z -> list (Wire.raw Wire.Event * Z)),
  shardRecvs exEmpty (encodeMsg <$> exMsgs) = Ok (p', sends rs) /\ Q' 4 = []
  /\ sentTo 4 rs = [wireEvent exM2 false exEvt; wireEvent exM2 false exEvt2].
Proof.
  pose proof exSendable as Hs. rewrite Forall_forall in Hs.
  destruct (svc_watch_delivers exMsgs exEmpty (fun _ => []) exHolds) as (p' & rs & Q' & E & _ & _ & Hc & Hq).
  - unfold exMsgs. constructor; [|constructor; [|constructor; [|constructor; [|constructor]]]].
    + split; [evalZ|]. split; [|exists (wireEvent exM2 false exEvt); split; [done|]; split; apply (Hs exEvt ltac:(left) false)].
      split; [reflexivity|]. split; [intros e [= <-]; apply exEvent_ok; left|]. split; [evalZ|]. split; (split; [repeat (constructor; [evalZ|]); constructor|evalZ]).
    + split; [evalZ|]. split; [|exists (wireEvent exM2 true exEvt2); split; [done|]; split; [apply (Hs exEvt2 ltac:(right; left) true)|apply (Hs exEvt2 ltac:(right; left) false)]].
      split; [reflexivity|]. split; [intros e [= <-]; apply exEvent_ok; right; left|]. split; [evalZ|]. split; (split; [repeat (constructor; [evalZ|]); constructor|evalZ]).
    + split; evalZ.
    + split; [evalZ|]. split; [reflexivity|]. split; [|evalZ]. split; [repeat (constructor; [evalZ|]); constructor|evalZ].
  - exists p', rs, Q'. split; [exact E|].
    assert (Q' 4 = []) as E4 by (apply (Hq (take 3 exMsgs) (SSync 0 (mkWatchEventSync [4] 3)) [] 4); [reflexivity|left|reflexivity]).
    split; [exact E4|]. specialize (Hc 4). rewrite E4 in Hc. cbn [fmap list_fmap] in Hc. rewrite app_nil_r in Hc. rewrite Hc.
    vm_compute. reflexivity.
Defined.

Lemma svc_answers_witness :
  asyncRecv svcInit "kvPut" (str "etcdserver: requested lease not found") 5 None
  = Ok (svcInit, [SendErr NotFound (str "etcdserver: requested lease not found")]).
Proof.
  destruct (svc_answers svcInit "kvPut" (str "etcdserver: requested lease not found") 5) as (_ & Hv & _); [discriminate|].
  destruct (Hv ltac:(discriminate)) as [Ht _]. apply (Ht ErrGRPCLeaseNotFound); [|reflexivity].
  apply (bool_decide_unpack (ErrGRPCLeaseNotFound ∈ errTable)). vm_compute. exact I.
Defined.

(** A host that takes code 0 as 200. *)
#[global] Instance exHost : Endpoint.HostStatus := {| Endpoint.statusOfCode c := if c =? 0 then 200 else c |}.

#[global] Instance exHostOk : Endpoint.HostStatusOk.
Proof. by split. Qed.

Lemma endpoints_agree_witness :
  Endpoint.response None [] (Endpoint.ServeHTTP (Endpoint.mkRequest 1 [] "/health"))
  = Some (Endpoint.hostResponse (Endpoint.httpHandler [] "/health" [])).
Proof. destruct (endpoints_agree (Endpoint.mkRequest 1 [] "/health")) as [_ Ha]. exact (Ha eq_refl [] []). Defined.

(** Bytes that end in the middle of a field. *)
Lemma decode_returns_witness : exists r, Wire.RangeRequest_UnmarshalVT (sv_range svcInit) [Zb 10; Zb 200] = Ok r.
Proof. destruct (decode_returns [Zb 10; Zb 200]) as (Hr & _). exact (Hr (sv_range svcInit)). Defined.

Lemma svc_types_witness : exists s' calls e, kvRange svcInit [Zb 56; Zb 1] = Ok (s', calls, e) /\ svc_typed s'.
Proof.
  destruct svc_types as (H0 & Hr & _).
  destruct (Hr (fun _ _ => (1, [], None)) "etcdserverpb.KV"%string _ "Range"%string kvRange ltac:(right; left) ltac:(left) svcInit [Zb 56; Zb 1] H0)
    as (s' & cs & e & E & Ht & _). exists s', cs, e. by split.
Defined.

Lemma module_put_end_to_end_witness : exists name cmd s' data N,
  kvPut [] = [ApplyAsync name cmd]
  /\ mod_batch defaultConfig 9 (fun l => l) 1 1 (mkMod exEnv None 0 0 0 0 []) [(5, cmd)] = Ok (s', [(1, data)], N)
  /\ asyncRecv svcInit name data 1 None = Ok (svcInit, [Send data]).
Proof.
  destruct (module_put_end_to_end defaultConfig 9 (fun l => l) 1 1 ltac:(by exists []) ltac:(by exists []) exEnv (mkMeta 0 0 0 1 0 1 0) exM0 []
              (exPut 0 false) [] 5 0 0 0 0 svcInit (proj1 exEnv_ok) (proj2 exEnv_ok))
    as (name & cmd & s' & data & N & A' & prev & E1 & E2 & _ & _ & _ & E3 & _);
    [reflexivity|split; [reflexivity|split; [reflexivity|by intros []]]|apply exLeaseArgs; evalZ|reflexivity|cbn; lia|evalZ|cbn; lia|].
  exists name, cmd, s', data, N. split; [exact E1|]. split; [exact E2|exact E3].
Defined.

(** A serializable read of a key at revision 2, and its bytes. *)
Definition exReadReq : RangeRequest := mkRangeRequest exLeaseKey [] 0 2 0 0 0 0 false false true.
Definition exReadBytes : bytes := [Zb 10; Zb 5] ++ exLeaseKey ++ [Zb 32; Zb 2; Zb 56; Zb 1].

Definition readDecode (A : Type) (m : msg A) : option A :=
  match m in msg A return option A with
  | MPutRequest => Some (exPut 0 false)
  | MRangeRequest => Some exReadReq
  | _ => None
  end.

(** The example put, applied to the environment as [Open] leaves it. *)
Lemma exRead : exists t : @txn refMdb, MetaRep t (mkMeta 0 5 0 2 0 1 0)
  /\ Rep defaultConfig t (hset exM0 exLeaseKey [putRec 2 0 0 (pr_Value (exPut 0 false)) false false []]).
Proof.
  destruct (@updateTxn_put defaultConfig _ _ _ _ _ _ (scriptProto readDecode) plainErrLib 9 (fun l => l) 1 1 exEnv (mkMeta 0 0 0 1 0 1 0) exM0 []
              (exPut 0 false) [] 5 (proj1 exEnv_ok) (proj2 exEnv_ok)) as (t' & A' & prev & data & _ & _ & _ & HM & HS);
    [reflexivity|split; [reflexivity|split; [reflexivity|by intros []]]|apply exLeaseArgs; evalZ|reflexivity|cbn; lia|by exists []|evalZ|cbn; lia|].
  exists t'. split; [exact HM|]. exact (sa_rep _ _ _ _ HS).
Qed.

(** A read of that key at the revision of the put. *)
Lemma module_range_end_to_end_witness : exists (t : @txn refMdb) sv' name query data,
  kvRange svcInit exReadBytes = Ok (sv', [ReadAsync name query true], None)
  /\ @mod_read defaultConfig _ refMdb (scriptProto readDecode) plainErrLib 9 1 1 t 0 query = Ok (1, data)
  /\ asyncRecv sv' name data 1 None = Ok (sv', [Send data]).
Proof.
  destruct exRead as [t [HM HR]]. exists t.
  destruct (@module_range_end_to_end defaultConfig _ _ _ _ _ _ (scriptProto readDecode) plainErrLib refWire 9 1 1
              ltac:(by exists []) 1 t _ _ [exLeaseKey] exReadReq exReadBytes (Wire.msgOf exReadReq) 0 svcInit 0 HM HR)
    as (sv' & name & q & val & data & E1 & E2 & _ & Hr); try reflexivity.
  - discriminate.
  - repeat constructor.
  - intros k. rewrite list_elem_of_singleton. unfold hset. destruct (decide (k = exLeaseKey)); [by subst|]. split; [done|]. by intros [].
  - intros k. unfold hset. destruct (decide _); cbn; lia.
  - cbn. lia.
  - destruct Hr as (-> & E3 & _). exists sv', name, q, data. split; [exact E1|]. split; [exact E2|exact E3].
Defined.

(** The watch starts at revision 1; a put commits revision 3 between its scans. *)
Lemma module_start_end_to_end_witness : exists (t1 t2 : @txn refMdb) s' out p' rs,
  @mod_watchStart _ _ reuseSlices wireProto unit unitWatch 9 1 1 9 exStream exEnv t1 t2 (exWatch 1) = Ok (s', out)
  /\ shardRecvs exEmpty ((fun m : Result => (res_Value m, res_Data m)) <$> out)
     = Ok (p', sends (createdResponse 4 (mod_responseHeader 1 1 2) :: rs))
  /\ sentTo 4 rs = [wireEvent exM1 false exEvt; wireEvent exM2 false exEvt2].
Proof.
  exists exStore1, exStore2.
  destruct (returns_ok (getRevisionMin exEnv)) as [min Emin]; [by vm_compute|].
  destruct (@module_start_end_to_end defaultConfig _ _ _ _ _ _ reuseSlices wireProto refWire refWireOk boxes exBoxes exBoxesOk unit 9 1 1
              ltac:(done) ltac:(done) ltac:(done) unitWatch 9 exStream exEnv exStore1 exStore2 (exWatch 1)
              exM1 exM2 [exEvt] [exEvt2] 2 3 min tt tt tt exEmpty (fun _ => [])) as (s' & out & p' & rs & E & Er & _ & Hs & _).
  - cbn. lia.
  - done.
  - exact Emin.
  - vm_compute in Emin. injection Emin as <-. cbn. lia.
  - reflexivity.
  - reflexivity.
  - reflexivity.
  - exists [Zb 1]. reflexivity.
  - exact exLoggedOne.
  - exact exLoggedTwo.
  - apply Forall_true. intros e. apply exReads1.
  - apply Forall_true. intros e. apply exReads2.
  - lia.
  - repeat constructor.
  - exact exSendable1.
  - exact exSendable.
  - evalZ.
  - vm_compute. discriminate.
  - evalZ.
  - evalZ.
  - exact exHolds.
  - reflexivity.
  - exists s', out, p', rs. split; [exact E|]. split; [exact Er|]. change (u64 (wc_WatchId (exWatch 1))) with 4 in Hs. rewrite Hs. vm_compute. reflexivity.
Defined.
