(* ===== verification/Findings.v ===== *)
(** * Runs that show what the program does in its corners

    Each run is computed on the reference engine from an empty store. The theorems state
    what the code does, where a reader of its comments, its tests or the protocol it
    serves would expect something else. *)

From Stdlib Require Import Strings.String.
From stdpp Require Import gmap.
From S2P Require Import Prelude Types GoBinary Patch Lcs LcsTwoSided Kv Mdb Db DbLease DbKv History Pb StateMachine Update ModStore ModMain Watch Services ServiceWatch Controller Instances ModStream Wire WireFacts WireRef SvcGrpc SvcFacts SvcCompose StoreProps LeaseProps SmProps WatchProps SvcProps.

(** ** Leases *)

(** Lease 7 is granted for 2 seconds at epoch 0 and kept alive at epoch 1. *)
Definition renewedRun : res (lease * lease) :=
  let! '(t, _) := cmdLeaseGrant 5 (refEmpty : @txn refMdb) 0 (mkLeaseGrantRequest 2 7) in
  let! '(t, _) := cmdLeaseKeepAlive t 1 (mkLeaseKeepAliveRequest 7) in
  let! before := dbLease_get t 7 in
  let! '(t, _) := dbLeaseExp_scan 5 t 2 (tickRevoke 5 2) (1, []) in
  let! after := dbLease_get t 7 in
  Ok (before, after).

(** a keep-alive does not save a lease from its first expiry: the entry of the old
    expiry stays in the expiry index, so the tick at epoch 2 revokes the lease although
    it was renewed at epoch 1 and expires at 3. *)
Theorem renewed_lease_revoked_early : renewedRun = Ok (mkLease 7 3 1, lease_zero).
Proof. by vm_compute. Qed.

(** Lease 7 is renewed, revoked, and granted anew for 60 seconds at epoch 5. *)
Definition regrantedRun : res (lease * lease) :=
  let! '(t, _) := cmdLeaseGrant 5 (refEmpty : @txn refMdb) 0 (mkLeaseGrantRequest 2 7) in
  let! '(t, _) := cmdLeaseKeepAlive t 1 (mkLeaseKeepAliveRequest 7) in
  let! '(t, _) := cmdLeaseRevoke 5 t 2 1 7 in
  let! '(t, _) := cmdLeaseGrant 5 t 5 (mkLeaseGrantRequest 60 7) in
  let! before := dbLease_get t 7 in
  let! '(t, _) := dbLeaseExp_scan 5 t 6 (tickRevoke 5 6) (2, []) in
  let! after := dbLease_get t 7 in
  Ok (before, after).

(** the entries that renewals leave in the expiry index outlive the lease: a lease granted
    anew under the id is revoked by the next tick. *)
Theorem regranted_lease_revoked : regrantedRun = Ok (mkLease 7 65 5, lease_zero).
Proof. by vm_compute. Qed.

(** A key is put under lease 7, put again with [ignore_lease], deleted, put without a
    lease; then lease 7 is revoked. *)
Definition strandedRun : res (kv * list bytes * kv) :=
  let! '(t, _) := cmdLeaseGrant 5 (refEmpty : @txn refMdb) 0 (mkLeaseGrantRequest 60 7) in
  let! '(t, _) := cmdPut defaultConfig t 2 0 0 (exPut 7 false) in
  let! '(t, _) := cmdPut defaultConfig t 3 0 0 (exPut 0 true) in
  let! '(t, _) := cmdDeleteRange defaultConfig 9 1 1 t 4 0 0 (mkDeleteRangeRequest exLeaseKey [] false) in
  let! '(t, _) := cmdPut defaultConfig t 5 0 0 (exPut 0 false) in
  let! '(before, _) := dbKv_get 9 t exLeaseKey in
  let! '(t, (keys, _)) := cmdLeaseRevoke 9 t 6 0 7 in
  let! '(after, _) := dbKv_get 9 t exLeaseKey in
  Ok (before, keys, after).

(** a put that keeps the lease of a key records lease 0 in the key's index record, so a
    later delete leaves the key attached; when the key is written again without a lease,
    revoking the old lease still deletes it. *)
Theorem ignore_lease_strands_key : exists before keys,
  strandedRun = Ok (before, keys, kv_zero) /\ kv_lease before = 0 /\ kv_key before = exLeaseKey /\ keys = [exLeaseKey].
Proof. by eexists _, _; vm_compute. Qed.


(** ** Ranges, transactions and compaction *)

(** The keys ["aa"] and ["bb"] are put; then the range from ["aa"] to ["bb"] is read and
    deleted. *)
Definition endRun : res (Z * Z) :=
  let ka := str "aa" in let kb := str "bb" in
  let! '(t, _) := dbKv_put defaultConfig (refEmpty : @txn refMdb) 2 0 0 0 ka (Some (str "x")) false false in
  let! '(t, _) := dbKv_put defaultConfig t 3 0 0 0 kb (Some (str "y")) false false in
  let! '(_, count, _) := dbKv_getRange defaultConfig 9 t (mkRangeReq ka kb 0 0 0 0 0 0 false) false in
  let! '(_, (_, deleted)) := dbKv_deleteRange defaultConfig 9 t 4 0 0 ka kb in
  Ok (count, deleted).

(** The end of a range is outside it when it is read and inside it when it is deleted. *)
Theorem delete_includes_end : endRun = Ok (1, 2).
Proof. by vm_compute. Qed.

(** A transaction of two puts of which the second has no key, on a new store. *)
Definition failedTxn : res (Z * list bytes) :=
  rmap (fun '(s, r) => (u_newRev s, u_keys s)) (handleTxn defaultConfig 9 1 1 (mkUpd exEnv 0 1 []) [] Result_zero).

(** A transaction that fails leaves the store alone but advances the revision: the keys it
    had written before the failing operation still count. *)
Theorem failed_txn_takes_a_revision : failedTxn = Ok (2, []).
Proof. by vm_compute. Qed.

(** A comparison whose target has no value. *)
Theorem compare_without_value_panics item success :
  txnCompareTarget (mkCompare 0 Compare_VERSION exKey Compare_None) item success = Panic.
Proof. reflexivity. Qed.

(** A compaction at a revision beyond the last event, as an entry of the log, ends the
    replica: the loop runs off the event table and the error becomes a panic. *)
Theorem compact_beyond_log_panics :
  Update defaultConfig 9 (fun l => l) 1 1 (fun _ => @nil unit) (mkSm exEnv 0)
    [mkEntry 1 [Zb CMD_KV_PUT] Result_zero; mkEntry 2 [Zb CMD_KV_COMPACT] Result_zero] = Panic.
Proof. by vm_compute. Qed.

(** ** Watches *)

Definition zeroIndex : config := Config false false true true false true false false 1048576.

(** A watch without an id is created on a stream that counts from 0. *)
Definition zeroRun : res (Z * gmap Z nat * option Z) :=
  rmap (fun '(s, _, w) => (st_watchID s, st_watches s, wc_WatchId ∘ snd <$> w))
    (streamCreate 1 1 exEnv (streamInit zeroIndex) (mkWatchCreateRequest exKey [] 0 false [] false 0)).

(** The watch is entered under id 0, but [watch] takes 0 for no id and allocates 1: the
    watch runs under an id that is not in the table. *)
Theorem zero_id_allocated_twice : zeroRun = Ok (1, {[ 0 := 0%nat ]}, Some 1).
Proof. by vm_compute. Qed.

(** Watch 7 is created, cancelled and created again before the first one's goroutine has
    run its callback. *)
Definition recreateRun : res (gmap Z nat * list nat) :=
  let req := mkWatchCreateRequest exKey [] 0 false [] false 7 in
  let! '(s, _, _) := streamCreate 1 1 exEnv (streamInit defaultConfig) req in
  let '(s, _) := streamCancel s 7 in
  let! '(s, _, _) := streamCreate 1 1 exEnv s req in
  let s := streamDone s 0 in
  Ok (st_watches s, st_cancelled s).

(** The callback of the first watch removes and cancels the second. *)
Theorem recreated_watch_cancelled : recreateRun = Ok (∅, [1%nat; 0%nat]).
Proof. by vm_compute. Qed.

(** A watch created at a revision the store has compacted stays in the stream's table
    although it has ended: its id cannot be used again. *)
Definition compactedRun : res (option (nat * WatchCreateRequest) * gmap Z nat) :=
  let! t := setRevisionMin exEnv 5 in
  rmap (fun '(s, _, w) => (w, st_watches s))
    (streamCreate 1 1 t (streamInit defaultConfig) (mkWatchCreateRequest exKey [] 2 false [] false 7)).

Theorem compacted_watch_keeps_id : compactedRun = Ok (None, {[ 7 := 0%nat ]}).
Proof. by vm_compute. Qed.

(** A watch from revision 9 on a store at revision 2; then a put makes revision 3. *)
Definition futureRun : res (list Z) :=
  let req := exWatch 9 in
  let! '(t, _) := dbKv_put defaultConfig exEnv 2 0 0 0 exKey (Some exVal1) false false in
  let! t := setRevision t 2 in
  let! '(_, p) := watchStep 9 1 1 t (Opened req) in
  let! '(_, p) := watchStep 9 1 1 t p in
  let! '(t, _) := dbKv_put defaultConfig t 3 0 0 0 exKey (Some exVal2) false false in
  let! t := setRevision t 3 in
  let! '(out, p) := watchStep 9 1 1 t p in
  Ok ((fun m => match res_Data m with b :: _ => bZ b | [] => -1 end) <$> out).

(** The watch delivers the event of revision 3: the second scan starts after the first one's
    revision whatever the request asked for. *)
Theorem future_watch_delivers_early : futureRun = Ok [WatchMessageType_EVENT; WatchMessageType_SYNC].
Proof. by vm_compute. Qed.

(** The watch service counts the bytes of the responses it has sent towards the next one:
    after a SYNC the collected events are gone and their size is not. *)
Theorem size_kept_after_sync :
  rmap (fun '(s, _) => (fun s => (fw_size s, fw_events s)) <$> s)
    (@forwardAll defaultConfig eventProto unit exClient tt fwInit
       [mkResult 4 (Zb 2 :: AppendUint64 [] 2); mkResult 4 [Zb 3]])
  = Ok (Some (eventSize (mkEvent Event_PUT (Some exKv) None) exKv, [])).
Proof. by vm_compute. Qed.

(** A client names its first watch 1; its second watch has no id and is given 1 too, so
    the first one is no longer in the table. *)
Theorem auto_id_replaces_chosen :
  let s := svcInit defaultConfig in
  let '(s, _) := svcRecv tt s 0 (WatchCreate (mkWatchCreateRequest exKey [] 0 false [] false 1)) in
  let '(_, s) := idFunc s 0 1 in
  let '(s, _) := svcRecv tt s 1 (WatchCreate (mkWatchCreateRequest exKey [] 0 false [] false 0)) in
  let '(id, s) := idFunc s 1 0 in
  id = 1 /\ sw_watches s = {[ 1 := 1%nat ]}.
Proof. by vm_compute. Qed.

(** ** The controller *)

(** A shard client that lists the commands it is given. *)
#[global] Instance logClient : ShardClient (list bytes) :=
  {| cl_Apply c cmd := (c ++ [cmd], inr 0); cl_Read _ _ _ := inr 0; cl_Leader _ := (0, 0) |}.

(** The replica follows in term 5, having led and announced term 3; it then leads term 5 by a
    report that repeats the term. *)
Definition reelected : list bytes :=
  fst (foldl react ([] : list bytes, NewController)
    [EvStart 1; EvLeader (mkLeaderInfo 1 2 2 3); EvLeader (mkLeaderInfo 1 2 4 5); EvLeader (mkLeaderInfo 1 2 2 5); EvTick]).

(** Term 5 is never announced: one term notice (of term 3) and one tick were sent. *)
Theorem repeated_term_not_announced : reelected = [[Zb CMD_INTERNAL_TERM]; [Zb CMD_INTERNAL_TICK]].
Proof. by vm_compute. Qed.

(** ** The storage module *)

(** The first tick of a new shard: the event table is empty, so the compaction it runs
    fails and the tick answers with that error, although the epoch has advanced. *)
Theorem first_tick_reports_error :
  rmap (fun '(s, r) => (md_epoch s, r)) (mod_update defaultConfig 9 (fun l => l) 1 1 (mkMod exEnv None 0 0 0 0 []) 1 [Zb MCMD_INTERNAL_TICK])
  = Ok (1, (0, errText ErrChecksumMissing)).
Proof. by vm_compute. Qed.

(** The failed transaction above on the module, and the scan its notice leads to. *)
Definition failedNotice : res (list (Z * list bytes) * bool) :=
  let! '(s, _, notices) := mod_batch defaultConfig 9 (fun l => l) 1 1 (mkMod exEnv None 0 0 0 0 []) [(1, [Zb MCMD_KV_TXN])] in
  Ok (notices, match mod_revScan 9 (md_env s) notices.*1 (fun n _ => Ok (n + 1, true)) 0 with Panic => true | _ => false end).

(** The keys of the transaction that was rolled back are queued under a revision without
    events; reading the events of that revision panics. *)
Theorem failed_txn_notice_panics : failedNotice = Ok ([(2, [exLeaseKey])], true).
Proof. by vm_compute. Qed.

(** A transaction puts two keys at revision 2. *)
Definition twoPuts : res (nat * nat) :=
  let put k := RequestPut (mkPutRequest k (Some (str "v")) 0 false false false) in
  let! '(t, _, _, _) := txnOps defaultConfig 9 1 1 exEnv 2 0 [put (str "aa"); put (str "bb")] in
  let count := fun (n : nat) (_ : kvEvent) => Ok (S n, true) in
  let! logged := mod_scan 9 t 2 count 0%nat in
  let! noticed := mod_revScan 9 t [2] count 0%nat in
  Ok (logged, noticed).

(** The log has both events; the scan that feeds the open watches sees the first only. *)
Theorem second_operation_not_seen : twoPuts = Ok (2%nat, 1%nat).
Proof. by vm_compute. Qed.

(** Two values of a key, one after the other; the first is then stored as a patch against
    the second, which is stored as it is. The first value read at revision 2, natively
    and by the module when its host writes into the slices it is passed. *)
Definition patchedRead : res (nslice * nslice) :=
  let! '(t, _) := dbKv_put defaultConfig exEnv 2 0 0 0 exKey (Some (str "the value before it")) false false in
  let! '(t, _) := dbKv_put defaultConfig t 3 0 0 0 exKey (Some (str "the value after it")) false false in
  let! '(native, _, _) := dbKv_getRev 9 t exKey 2 false in
  let! '(module, _, _) := mod_getRev 9 t exKey 2 false in
  Ok (kv_val native, kv_val module).

(** Reading the patch overwrites the value it applies to. *)
Theorem old_value_overwritten :
  match patchedRead with Ok (native, module) => native = Some (str "the value before it") /\ module <> native | _ => False end.
Proof. vm_compute. split; [done|discriminate]. Qed.

(** Two keys, attached to the leases given (0: none), are deleted by one request: the keys
    it reports, by a command of the native program or of the module. *)
Definition rangeDelete (l1 l2 : Z)
    (cmd : @txn refMdb -> Z -> Z -> Z -> DeleteRangeRequest -> res (@txn refMdb * (DeleteRangeResponse * list bytes)))
  : res (list bytes) :=
  let put k lease := mkPutRequest (str k) (Some (str "v")) lease false false false in
  let! '(t, _) := cmdPut defaultConfig exEnv 2 0 0 (put "aa"%string l1) in
  let! '(t, _) := cmdPut defaultConfig t 3 0 0 (put "bb"%string l2) in
  let! '(t, (_, keys)) := cmd t 4 0 0 (mkDeleteRangeRequest (str "aa") (str "bz") false) in
  Ok keys.

(** Both keys are in the slice the cursor fills: the module reports the second one twice,
    so watches of the first hear nothing; if the keys have different leases it fails to
    detach the second from the lease of the first, an error on which [update] panics. *)
Theorem deleted_keys_overwritten :
  rangeDelete 0 0 (cmdDeleteRange defaultConfig 9 1 1) = Ok [[]; []; str "aa"; str "bb"]
  /\ rangeDelete 0 0 (mod_cmdDeleteRange defaultConfig 9 1 1) = Ok [[]; []; str "bb"; str "bb"]
  /\ rangeDelete 7 8 (cmdDeleteRange defaultConfig 9 1 1) = Ok [[]; []; str "aa"; str "bb"]
  /\ rangeDelete 7 8 (mod_cmdDeleteRange defaultConfig 9 1 1) = Err ErrMdbNotFound.
Proof. by vm_compute. Qed.

(** ** The gRPC module *)

(** A serializable range request (field 7 set), then one that is not, for the key a. *)
Definition staleReads : res (list Svc.hostCall) :=
  let! '(s, first, _) := Svc.kvRange Svc.svcInit [Zb 0x38; Zb 1] in
  let! '(_, second, _) := Svc.kvRange s [Zb 0x0a; Zb 1; Zb 97] in
  Ok (first ++ second).

(** The second request, which asks for a linearizable read, is sent as a stale one: the
    message it is merged into still has the flag of the first. *)
Theorem serializable_sticks :
  staleReads = Ok [Svc.ReadAsync "kvRange" [Zb 0x38; Zb 1; Zb 1] true; Svc.ReadAsync "kvRange" [Zb 0x0a; Zb 1; Zb 97; Zb 1] true].
Proof. by vm_compute. Qed.

(** A status whose read fails is not answered at all. *)
Theorem failed_status_unanswered s data val : val <> 1 -> Svc.asyncRecv s "maintenanceStatus" data val None = Ok (s, []).
Proof.
  intros Hv. apply Z.eqb_neq in Hv. unfold Svc.asyncRecv. cbn [String.eqb Ascii.eqb Bool.eqb]. unfold Svc.statusRecv, Svc.grpcError_.
  rewrite Hv. cbn [negb]. by destruct (Svc.errStringToError _).
Qed.

(** An event is buffered for watch 4, which is cancelled before the sync and created anew;
    then the new watch is synchronised. *)
Definition recreatedWatch : res (list Svc.hostCall) :=
  rmap snd (Svc.shardRecvs exEmpty (encodeMsg <$>
    [SBatch 0 (Wire.mkWatchEventBatch (Some (wireEvent exM2 false exEvt)) 2 [4] []); SCanceled 4;
     SInit 4 (mkResponseHeader 1 1 2 0); SSync 0 (mkWatchEventSync [4] 2)])).

(** The buffer is not emptied by the cancellation: the new watch is sent the event of the
    old one. *)
Theorem cancelled_events_sent_to_new_watch :
  exists canceled created, recreatedWatch = Ok (sends [canceled; created;
    Wire.mkWatchResponse (Some (Wire.msgOf (mkResponseHeader 2 0 0 0))) 4 false false 0 [] false [wireEvent exM2 false exEvt]])
  /\ Wire.wr_Canceled canceled = true /\ Wire.wr_Created created = true.
Proof.
  exists (Wire.mkWatchResponse None 4 false true 0 [] false []), (Wire.mkWatchResponse (Some (Wire.msgOf (mkResponseHeader 1 1 2 0))) 4 true false 0 [] false []).
  split; [vm_compute; reflexivity|split; reflexivity].
Qed.
